(* ===== verification/_CoqProject ===== *)
-Q . S2P
Prelude.v
Runtime.v
Heap.v
Source.v
Spooled.v
SpooledProps.v
Base64.v
ByteBuffer.v
Sse.v
Multipart.v
MultipartSpec.v
MultipartSafety.v
Unicode.v
Number.v
F64.v
F64Lemmas.v
F64Props.v
JsonGrammar.v
JsonCursor.v
Walker.v
Transcode.v
TranscodeSpec.v
Visit.v
VisitSpec.v
VisitLimits.v
VisitProps.v
TranscodeFrame.v
TranscodeSim.v
JsonValue.v
JsonValueSpec.v
JsonValueProps.v
Writer.v
WriterNumber.v
WriterSpec.v
SerializerIo.v
Mapping.v
MappingProps.v
Serializer.v
SerializerLogic.v
SerializerStreams.v
SerializerSpec.v
SerializerWalk.v
SerializerTrees.v
SerializerSinks.v
SerializerProps.v
WriterLogic.v
WriterRefine.v
WriterOps.v
WriterBlocked.v
WriterSession.v
WriterProps.v
WriterGenerator.v
WriterGeneratorProps.v
WriterPull.v
