(* ===== verification/Prelude.v ===== *)
(** * lonejson: a verification development

    lonejson is a JSON library in C: streaming parsers and writers, JSON values
    that are transcoded, visited or stored without a tree, framing of protocols
    (SSE, multipart), base64, and an authentication layer.  The library is one
    translation unit, the fragments [src/impl/*.h] included in order; the public
    types and their documentation are in [include/lonejson.h].  This development
    models the fragments that carry the streaming core and proves what they
    promise.  Definitions keep the names of the C functions; a loop or a branch
    that has no name in the source gets one.

    ** Data

    A byte and a machine integer are a [Z]; wherever the C type can wrap, the
    wrap-around is written out ([u8], [u32], [u64]).  [size_t] and [unsigned long]
    have 64 bits.  A byte sequence with its length is a list; a C string is the list
    up to the first NUL ([c_string]).  A status is an inductive type; [OK] and
    [TRUNCATED] continue, all others fail ([status_fails]).  An error out-parameter
    is an [option] (NULL or the object).  Allocation goes through
    [lonejson_allocator], whose answers are an arbitrary function of the request
    number, with the library's own statistics; leaks show as [bytes_live].
    A sink, a reader, a visitor and a producer are functions that pass the caller's
    state along.

    ** Parts

    - [Runtime]: statuses, errors, allocation and its statistics, sinks with a
      specification ([BoundedSink], [LosslessSink]), the step monad of the stateful
      components, the buffer reader ([00_prelude.h]).
    - [Heap]: the blocks behind an allocator, for statements about leaks.
    - [Source]: source handles, opening, reading, copying ([10_source_runtime.h]).
    - [Spooled], [SpooledProps]: values kept in memory up to a limit and in a
      temporary file beyond it ([00_prelude.h]), over an operating system that
      answers as it likes.
    - [Base64]: the codec ([09_base64.h]).
    - [ByteBuffer]: the growable buffer of the framing parsers
      ([33_array_stream_api.h], lines 1-165).
    - [Sse]: the event-stream parser ([34_protocol_framing_api.h], lines 1-300).
    - [Multipart], [MultipartSpec], [MultipartSafety]: the multipart parser (same
      file, lines 1050-1820), its round trip over any chunking, its memory.
    - [Unicode], [Number]: escapes and UTF-8; number tokens and 64-bit integers
      ([22_parser_engine.h], [20_parser_map.h], [21_parser_values.h]).
    - [F64], [F64Lemmas], [F64Props]: doubles as text and back ([24_serializer.h],
      [21_parser_values.h]), over the binary floats of the Standard Library.
    - [JsonGrammar]: the specification of JSON texts (RFC 8259): values, texts,
      rendering, and a reference parser proved sound and complete for them.
    - [JsonCursor], [Walker]: the cursor under the JSON walkers, and its
      input and output state ([11_json_value_io.h]).
    - [Transcode], [TranscodeSpec], [TranscodeFrame], [TranscodeSim]: copying a JSON
      value compactly or indented ([12_json_value_parse.h], [13_json_value_visit.h]),
      its equivalence with the grammar, what it leaves alone, and its independence of
      the sink.
    - [Visit], [VisitSpec], [VisitLimits], [VisitProps]: the streaming visitor
      ([13_json_value_visit.h]) with its limits; two walks under different limits
      are in step until one of them overflows.
    - [JsonValue], [JsonValueSpec], [JsonValueProps]: the value handle
      ([14_json_value_api.h]): every setter, life cycle, capture.
    - [Writer]: the event writer ([38_writer_api.h]).  [WriterSpec] has the builder,
      the abstract document a writer stands for; [WriterLogic] the rules for
      writer steps over any sink with the interface [WriterSink]; [WriterRefine] and
      [WriterOps] the simulation of the builder, call by call, blocked calls
      included; [WriterBlocked] what [TRUNCATED] means; [WriterSession] and
      [WriterProps] whole sequences of calls; [WriterNumber] the integers.
    - [Mapping], [MappingProps]: the tables that describe C structs, the analysis that
      accepts one, and records of typed members ([lonejson.h], [20_parser_map.h]).
    - [SerializerIo], [Serializer]: the sinks of the serializers and the escaping of
      strings into them ([23_serializer_io.h]); the walk over a record, compact and
      indented ([24_serializer.h]), and its entry points ([30_api.h]).
    - [SerializerSpec] says which JSON tree a record stands for and [SerializerTrees]
      that the tree is well formed; [SerializerLogic] has the rules for emitters over
      any output with the interface [Consumer], [SerializerStreams] those for spooled
      values and sources, [SerializerWalk] the walks over any table of emitters with
      the interface [Emits]; [SerializerSinks] proves the interfaces of the sinks and
      [SerializerProps] the entry points.
    - [WriterGenerator], [WriterGeneratorProps], [WriterPull]: the pull side of the
      writer ([32_generator_api.h], lines 1250-1500), an instance of [WriterSink], and
      reading a document in pieces.

    The transcoder, the visitor and the value handle run on the cursor; the handle
    captures through the transcoder; the writer's number buffer is a [ByteBuffer],
    its number check that of [Number]; the serializer writes an embedded JSON value
    through the transcoder and a double through [F64]; the generator drives the writer through the
    sink interface, as any other sink does.

    ** Theorems

    - What the JSON walkers accept and produce: [transcode_exact],
      [transcode_handle_exact], [visit_exact] and [set_buffer_exact] state for every
      input which texts are accepted (the RFC 8259 documents within the limits), the
      exact output or callbacks, and the status of the refusals; compact output of
      a buffer handle is a copy that is not parsed.  In [visit_exact] a document
      over a limit is refused with [OVERFLOW]; for a text that is no document the
      status is [INVALID_JSON] unless some limit is below its size.
    - What the writer produces: [session_output], [writer_accepts_legal_calls],
      [document_roundtrip], [format_integer_roundtrip], [generator_reads_document].
      [session_output] is about sequences of accepted calls, over sinks that do not
      say [TRUNCATED] in sink mode and generators that may block.
    - What the serializers produce: [serialize_sink_text], [serialize_buffer_text],
      [serialize_owned_text], [serialize_lines_text] (the text of the record's tree,
      whatever the output, with its limits; of lines, those before the first record
      that has no tree); [layout_valid_iff] (which maps are accepted).  Of the error
      object after a truncation that a policy permits nothing is stated.
    - Framing: [sse_refines] (an event stream in any chunking gives the documented
      events, with NULL or the empty string for an absent type or id),
      [sse_bounded], [multipart_roundtrip], [push_loop_terminates].
    - Memory and failure: no leak and no change on failure ([set_buffer_atomic],
      [handle_no_leak], [sse_no_leak], [byte_append_accounts],
      [base64_decode_buffer]) for allocators that may fail at any request.
    - Spooled values: [spooled_refines] (a byte queue), [spooled_no_leak].
    - Codecs: base64, UTF-8 escapes, number tokens, integers and doubles
      ([format_f64_is_printf], [parse_f64_fast_sound]).

    ** Fuel

    Loops that consume input recurse on it.  The recursion of the walkers, the
    loops of the readers and the multipart push loop take fuel and have no result
    ([Out_of_fuel]) when it is used up; the theorems give a bound in terms of the
    input that is always enough, so that running out of fuel is excluded, not
    assumed away.  The read loop of the generator needs
    three rounds; copying a spooled value takes at most one more than its length.
    [format_digits] has twenty digits, enough for 64 bits.  The analysis of a map
    needs one frame more than there are maps; a serializer needs fuel above the
    length of each spooled value, source and embedded text it copies.

    ** Not modelled

    - The map-driven parser and the pull forms over it ([20_parser.h],
      [21_parser_values.h], [22_*.h], [25_json_pull.h], [32_generator_api.h] up to
      line 1250, [35_json_pull_impl.h]) beyond the helpers named above, and the
      entry points of [30_api.h] that parse.
    - Array streams and rewriting ([33_array_stream_api.h], [37_array_rewrite_api.h],
      [39_value_rewrite_api.h]), the JSON framing over SSE, the path visitor of
      [13_json_value_visit.h], and in [38_writer_api.h] the string reader, child
      generators, value streams and array items.
    - Runtime handles, their locks and the debug registries of [00_prelude.h];
      method tables of function pointers.
    - [36_curl_api.h] (glue to libcurl), [40_auth_api.h] (JWT and OIDC over OpenSSL
      and libcurl), the Lua binding [src/lua], benchmarks, fuzzers and tests. *)


From stdpp Require Import base numbers list strings.
From Stdlib Require Import ZArith Lia Bool.

#[global] Set Default Proof Using "Type".

(** ** Character constants

    A C character constant is the number of its byte.  The notation below
    parses a one-character string into that number, so that the definitions
    read like the source: ["A"%ch] is [65]. *)

Definition ch_of_bytes (l : list Byte.byte) : option Z :=
  match l with
  | [b] => Some (Z.of_N (Byte.to_N b))
  | _ => None
  end.

(** Numbers are always printed as numbers. *)
Definition ch_to_bytes (z : Z) : option (list Byte.byte) := None.

Declare Scope ch_scope.
Delimit Scope ch_scope with ch.
String Notation Z ch_of_bytes ch_to_bytes : ch_scope.

Open Scope Z_scope.

(** The bytes of a C string literal, without the terminating NUL. *)
Definition c_str (s : string) : list Z :=
  map (λ a, Z.of_N (Ascii.N_of_ascii a)) (String.list_ascii_of_string s).

Example ch_A : "A"%ch = 65.
Proof. reflexivity. Qed.

(** ** Machine integers *)

Abbreviation SIZE_MAX := 18446744073709551615 (only parsing).
Abbreviation UINT64_MAX := 18446744073709551615 (only parsing).
Abbreviation INT64_MAX := 9223372036854775807 (only parsing).

(** Unsigned 64-bit arithmetic ([size_t], [lonejson_uint64],
    [unsigned long] of an LP64 target). *)
Definition u64 (z : Z) : Z := z mod 18446744073709551616.
(** [lonejson_uint32] and [unsigned int]. *)
Definition u32 (z : Z) : Z := z mod 4294967296.
(** The cast to [unsigned char]. *)
Definition u8 (z : Z) : Z := z mod 256.

#[global] Arguments u64 : simpl never.
#[global] Arguments u32 : simpl never.
#[global] Arguments u8 : simpl never.

Definition is_u64 (z : Z) : Prop := 0 ≤ z ≤ SIZE_MAX.
Definition is_byte (b : Z) : Prop := 0 ≤ b < 256.

Abbreviation bytes := (list Z) (only parsing).
Abbreviation is_bytes := (Forall is_byte).

(** The length of a byte sequence as an integer. *)
Definition zlen {A} (l : list A) : Z := Z.of_nat (length l).
#[global] Arguments zlen : simpl never.

(** ** Scanning byte sequences

    [take_while]/[drop_while] are the loops [while (p < end) { if (!f(p[0])) break; ++p; }]
    of the source: the bytes stepped over and the bytes left. *)
Section scan.
Context {A : Type} (f : A → bool).

Fixpoint take_while (l : list A) : list A :=
  match l with
  | [] => []
  | x :: l' => if f x then x :: take_while l' else []
  end.

Fixpoint drop_while (l : list A) : list A :=
  match l with
  | [] => []
  | x :: l' => if f x then drop_while l' else l
  end.

Lemma take_drop_while l : take_while l ++ drop_while l = l.
Proof. induction l as [|x l IH]; simpl; [done|]. destruct (f x); simpl; congruence. Qed.

Lemma take_while_Forall l : Forall (λ x, f x = true) (take_while l).
Proof. induction l as [|x l IH]; simpl; [done|]. destruct (f x) eqn:E; auto. Qed.

(** The scan stops at the first element that fails the test. *)
Lemma take_while_app l1 l2 :
  Forall (λ x, f x = true) l1 → take_while (l1 ++ l2) = l1 ++ take_while l2.
Proof. induction 1 as [|x l Hx _ IH]; simpl; [done|]. by rewrite Hx, IH. Qed.

Lemma drop_while_app l1 l2 :
  Forall (λ x, f x = true) l1 → drop_while (l1 ++ l2) = drop_while l2.
Proof. induction 1 as [|x l Hx _ IH]; simpl; [done|]. by rewrite Hx, IH. Qed.

Lemma drop_while_head l x l' : drop_while l = x :: l' → f x = false.
Proof.
  induction l as [|y l IH]; simpl; [done|]. destruct (f y) eqn:E; [done|]. congruence.
Qed.

Lemma drop_while_length l : (length (drop_while l) ≤ length l)%nat.
Proof. induction l as [|x l IH]; simpl; [done|]. destruct (f x); simpl; lia. Qed.

Lemma take_while_nil l : take_while l = [] → drop_while l = l.
Proof. destruct l as [|x l]; simpl; [done|]. by destruct (f x). Qed.
End scan.

(** The C string that starts at a byte sequence: the bytes before the first
    NUL, as [strlen], [strcmp] and [strchr] see it. *)
Definition c_string (l : bytes) : bytes := take_while (λ b, negb (b =? 0)) l.

(** [memchr(p, ch, n)] as the bytes before and after the first [ch]. *)
Definition split_at (ch : Z) (l : bytes) : option (bytes * bytes) :=
  match drop_while (λ b, negb (b =? ch)) l with
  | [] => None
  | _ :: post => Some (take_while (λ b, negb (b =? ch)) l, post)
  end.

Lemma split_at_Some ch l a b :
  split_at ch l = Some (a, b) → l = a ++ ch :: b ∧ Forall (λ x, x ≠ ch) a.
Proof.
  unfold split_at. intros H. pose proof (take_drop_while (λ b, negb (b =? ch)) l) as Hl.
  pose proof (take_while_Forall (λ b, negb (b =? ch)) l) as Hf.
  destruct (drop_while _ l) as [|x post] eqn:E; [done|].
  apply drop_while_head in E. simplify_eq.
  assert (x = ch) by lia. subst. split; [done|].
  eapply Forall_impl; [exact Hf|]. simpl. intros; lia.
Qed.

Lemma split_at_None ch l : split_at ch l = None → Forall (λ x, x ≠ ch) l.
Proof.
  unfold split_at. intros H. pose proof (take_drop_while (λ b, negb (b =? ch)) l) as Hl.
  pose proof (take_while_Forall (λ b, negb (b =? ch)) l) as Hf.
  destruct (drop_while _ l) eqn:E; [|done]. rewrite app_nil_r in Hl. rewrite Hl in Hf.
  eapply Forall_impl; [exact Hf|]. simpl. intros; lia.
Qed.

Lemma split_at_app ch a b :
  Forall (λ x, x ≠ ch) a → split_at ch (a ++ ch :: b) = Some (a, b).
Proof.
  intros Ha. unfold split_at.
  assert (Forall (λ x, negb (x =? ch) = true) a) as Ha'.
  { eapply Forall_impl; [exact Ha|]. simpl. intros; lia. }
  rewrite drop_while_app, take_while_app by done. simpl.
  rewrite Z.eqb_refl. simpl. by rewrite app_nil_r.
Qed.

(** ** Bit operations as arithmetic *)

Lemma land_shiftl_low a b n :
  0 ≤ n → 0 ≤ b < 2 ^ n → Z.land (Z.shiftl a n) b = 0.
Proof.
  intros Hn Hb. apply Z.bits_inj'. intros i Hi.
  rewrite Z.land_spec, Z.bits_0. destruct (decide (i < n)).
  - rewrite Z.shiftl_spec_low by done. done.
  - rewrite <- (Z.mod_small b (2 ^ n)), Z.mod_pow2_bits_high by lia. apply andb_false_r.
Qed.

Lemma lor_shiftl_add a b n :
  0 ≤ n → 0 ≤ b < 2 ^ n → Z.lor (Z.shiftl a n) b = a * 2 ^ n + b.
Proof.
  intros Hn Hb. pose proof (land_shiftl_low a b n Hn Hb) as H0.
  rewrite <- Z.lxor_lor, <- Z.add_nocarry_lxor by done. by rewrite Z.shiftl_mul_pow2.
Qed.

Lemma land_ones_mod a n m : 0 ≤ n → m = Z.ones n → Z.land a m = a mod 2 ^ n.
Proof. intros ? ->. by apply Z.land_ones. Qed.

Lemma shiftr_div a n : 0 ≤ n → Z.shiftr a n = a / 2 ^ n.
Proof. apply Z.shiftr_div_pow2. Qed.

(** ** Facts on machine integers *)

Lemma u64_small z : is_u64 z → u64 z = z.
Proof. unfold is_u64, u64. intros. apply Z.mod_small. lia. Qed.
Lemma u64_range z : is_u64 (u64 z).
Proof. unfold is_u64, u64. pose proof (Z.mod_pos_bound z 18446744073709551616). lia. Qed.
Lemma u8_small z : is_byte z → u8 z = z.
Proof. unfold is_byte, u8. intros. apply Z.mod_small. lia. Qed.
Lemma u8_range z : is_byte (u8 z).
Proof. unfold is_byte, u8. apply Z.mod_pos_bound. lia. Qed.
Lemma zlen_nonneg {A} (l : list A) : 0 ≤ zlen l.
Proof. unfold zlen. lia. Qed.
Lemma zlen_nil {A} : zlen (@nil A) = 0.
Proof. done. Qed.
Lemma zlen_cons {A} (x : A) l : zlen (x :: l) = zlen l + 1.
Proof. unfold zlen. simpl. lia. Qed.
Lemma zlen_app {A} (l k : list A) : zlen (l ++ k) = zlen l + zlen k.
Proof. unfold zlen. rewrite length_app. lia. Qed.

Lemma take_zlen {A} (l : list A) : take (Z.to_nat (zlen l)) l = l.
Proof. unfold zlen. rewrite Nat2Z.id. apply take_ge. lia. Qed.

(** ** Decimal digit loops

    The source parses unsigned decimals in four places with one loop body:
    reject a non-digit, reject when [acc > (limit - digit) / 10], else
    [acc = acc * 10 + digit] in 64-bit arithmetic. *)

Inductive decimal_result :=
| Dec_ok (n : Z)
| Dec_invalid
| Dec_overflow.

Definition is_digit (c : Z) : bool := ("0"%ch <=? c) && (c <=? "9"%ch).

Fixpoint decimal_loop (limit : Z) (value : bytes) (acc : Z) : decimal_result :=
  match value with
  | [] => Dec_ok acc
  | c :: rest =>
      if (c <? "0"%ch) || ("9"%ch <? c) then Dec_invalid
      else
        let digit := c - "0"%ch in
        if (limit - digit) / 10 <? acc then Dec_overflow
        else decimal_loop limit rest (u64 (u64 (acc * 10) + digit))
  end.

(** The number a digit string denotes, in unbounded arithmetic. *)
Definition decimal_from (acc : Z) (value : bytes) : Z :=
  fold_left (λ acc c, acc * 10 + (c - "0"%ch)) value acc.

Definition all_digits (value : bytes) : Prop := Forall (λ c, is_digit c = true) value.

Lemma decimal_from_ge acc value :
  0 ≤ acc → all_digits value → acc ≤ decimal_from acc value.
Proof.
  intros Ha Hv. revert acc Ha. unfold decimal_from.
  induction Hv as [|c v Hc Hv IH]; intros acc Ha; cbn [fold_left]; [lia|].
  unfold is_digit in Hc. specialize (IH (acc * 10 + (c - 48))). simpl in *. lia.
Qed.

(** The overflow test is exact. *)
Lemma decimal_step_fits limit acc digit :
  0 ≤ digit ≤ 9 → 9 ≤ limit → ((limit - digit) / 10 <? acc) = (limit <? acc * 10 + digit).
Proof.
  intros. destruct (limit <? acc * 10 + digit) eqn:E; Z.div_mod_to_equations; lia.
Qed.

(** The loop accepts exactly the digit strings whose value is within the limit,
    and then returns that value. *)
Lemma decimal_loop_spec limit value acc n :
  9 ≤ limit ≤ UINT64_MAX → 0 ≤ acc ≤ limit →
  decimal_loop limit value acc = Dec_ok n ↔
  all_digits value ∧ n = decimal_from acc value ∧ n ≤ limit.
Proof.
  intros Hl. unfold all_digits. revert acc. induction value as [|c v IH]; intros acc Ha.
  - simpl. unfold decimal_from. simpl. split; [intros [= <-]; auto with lia|].
    intros (_ & -> & _). done.
  - cbn [decimal_loop]. rewrite Forall_cons. unfold is_digit at 1.
    destruct ((c <? 48) || (57 <? c)) eqn:Ed; [split; [done|]; intros; lia|].
    rewrite decimal_step_fits by lia. change (decimal_from acc (c :: v)) with
      (decimal_from (acc * 10 + (c - 48)) v).
    destruct (limit <? acc * 10 + (c - 48)) eqn:Eo.
    + split; [done|]. intros ([_ Hv] & -> & Hn).
      pose proof (decimal_from_ge (acc * 10 + (c - 48)) v ltac:(lia) Hv). lia.
    + rewrite (u64_small (acc * 10)), u64_small by (unfold is_u64; lia).
      rewrite IH by lia. split.
      * intros (H1 & H2 & H3). split_and!; [lia|done..].
      * intros ([_ H1] & H2 & H3). by split_and!.
Qed.

Lemma decimal_loop_invalid limit value acc :
  9 ≤ limit ≤ UINT64_MAX → 0 ≤ acc ≤ limit →
  decimal_loop limit value acc = Dec_invalid → ¬ all_digits value.
Proof.
  intros Hl. unfold all_digits. revert acc. induction value as [|c v IH]; intros acc Ha; [done|].
  cbn [decimal_loop]. rewrite Forall_cons. unfold is_digit at 1.
  destruct ((c <? 48) || (57 <? c)) eqn:Ed; [intros _ [Hc _]; unfold is_digit in Hc; lia|].
  rewrite decimal_step_fits by lia.
  destruct (limit <? acc * 10 + (c - 48)) eqn:Eo; [done|].
  rewrite (u64_small (acc * 10)), u64_small by (unfold is_u64; lia).
  intros H [_ Hv]. revert Hv. eapply IH; [|exact H]. lia.
Qed.

Create HintDb lonejson discriminated.
#[export] Hint Resolve u64_range u8_range @zlen_nonneg take_while_Forall : lonejson.
Create Rewrite HintDb zlen.
#[export] Hint Rewrite @zlen_nil @zlen_cons @zlen_app : zlen.

(** Destruct the conditionals and matches of a C body, innermost scrutinee
    first, keeping the equations. *)
Ltac case_if :=
  match goal with
  | |- context [if ?b then _ else _] =>
      lazymatch b with context [if _ then _ else _] => fail | _ => destruct b eqn:? end
  | H : context [if ?b then _ else _] |- _ =>
      lazymatch b with context [if _ then _ else _] => fail | _ => destruct b eqn:? end
  end.
Ltac case_match_in H :=
  match type of H with
  | context [match ?x with _ => _ end] => destruct x eqn:?
  end.
(** Byte-arithmetic goals: push the lengths to integers and call [lia]. *)
Ltac zlia := autorewrite with zlen in *; unfold is_u64, is_byte in *; lia.
