(* ===== verification/Runtime.v ===== *)
(** * Runtime: statuses, errors, sinks and the counting allocator

    Models [include/lonejson.h] (status codes, error object, allocator
    statistics) and the first part of [src/impl/00_prelude.h].  A
    [lonejson_error *] argument is an [option lonejson_error] threaded through
    the calls, [None] being the NULL pointer. *)

From stdpp Require Import base numbers list strings.
From Stdlib Require Import ZArith Lia.
From S2P Require Import Prelude.

(** ** Status codes and the error object *)

Inductive lonejson_status :=
| LONEJSON_STATUS_OK
| LONEJSON_STATUS_INVALID_ARGUMENT
| LONEJSON_STATUS_INVALID_JSON
| LONEJSON_STATUS_TYPE_MISMATCH
| LONEJSON_STATUS_MISSING_REQUIRED_FIELD
| LONEJSON_STATUS_DUPLICATE_FIELD
| LONEJSON_STATUS_OVERFLOW
| LONEJSON_STATUS_TRUNCATED
| LONEJSON_STATUS_ALLOCATION_FAILED
| LONEJSON_STATUS_CALLBACK_FAILED
| LONEJSON_STATUS_IO_ERROR
| LONEJSON_STATUS_UNSUPPORTED
| LONEJSON_STATUS_INTERNAL_ERROR.

#[global] Instance lonejson_status_eq_dec : EqDecision lonejson_status.
Proof. solve_decision. Defined.

Record lonejson_error := mk_error {
  code : lonejson_status;
  line : Z;
  column : Z;
  offset : Z;
  system_errno : Z;
  truncated : bool;
  message : string
}.

Definition error_zero : lonejson_error :=
  mk_error LONEJSON_STATUS_OK 0 0 0 0 false EmptyString.

(** A [lonejson_error *] argument. *)
Abbreviation error_ptr := (option lonejson_error).

(** [char message[160]], filled by [vsnprintf]. *)
Definition vsnprintf_message (msg : string) : string := String.substring 0 159 msg.

Definition lonejson__set_error (error : error_ptr) (c : lonejson_status)
    (off ln col : Z) (fmt : string) : lonejson_status * error_ptr :=
  match error with
  | None => (c, None)
  | Some e =>
      (c, Some (mk_error c ln col off (system_errno e)
                  (if decide (c = LONEJSON_STATUS_TRUNCATED) then true else truncated e)
                  (vsnprintf_message fmt)))
  end.

Definition lonejson__clear_error (error : error_ptr) : error_ptr :=
  match error with
  | None => None
  | Some _ => Some error_zero
  end.

(** [if (error != NULL) error->system_errno = e;] *)
Definition set_system_errno (error : error_ptr) (e : Z) : error_ptr :=
  (λ x, mk_error (code x) (line x) (column x) (offset x) e (truncated x) (message x))
    <$> error.

(** [error ? error->code : dflt] *)
Definition error_code_or (error : error_ptr) (dflt : lonejson_status) : lonejson_status :=
  match error with
  | Some e => code e
  | None => dflt
  end.

(** The continuation test of the source:
    [status != LONEJSON_STATUS_OK && status != LONEJSON_STATUS_TRUNCATED]. *)
Definition status_fails (st : lonejson_status) : bool :=
  match st with
  | LONEJSON_STATUS_OK | LONEJSON_STATUS_TRUNCATED => false
  | _ => true
  end.

Lemma set_error_fst e c o l k m : fst (lonejson__set_error e c o l k m) = c.
Proof. by destruct e. Qed.

(** A call that reports an error: its status is the one given. *)
Ltac split_error :=
  match goal with
  | |- context [lonejson__set_error ?e ?c ?o ?l ?k ?m] =>
      let Hst := fresh in
      let st := fresh "st" in
      pose proof (set_error_fst e c o l k m) as Hst;
      destruct (lonejson__set_error e c o l k m) as [st ?]; cbn [fst] in Hst; subst st
  end.

(** ** Outcomes of C code

    A call returns, has undefined behaviour (a NULL [FILE *] passed to [fread],
    say), or - in the model only - runs out of the fuel its loops were given. *)

Inductive run (A : Type) : Type :=
| Done (a : A)
| Undefined
| Out_of_fuel.
Arguments Done {A} _.
Arguments Undefined {A}.
Arguments Out_of_fuel {A}.

#[export] Instance run_ret : MRet run := λ A a, Done a.
#[export] Instance run_bind : MBind run := λ A B f m,
  match m with
  | Done a => f a
  | Undefined => Undefined
  | Out_of_fuel => Out_of_fuel
  end.

Lemma run_bind_done {A B} (a : A) (f : A → run B) : (Done a ≫= f) = f a.
Proof. done. Qed.

Lemma run_bind_inv {A B} (m : run A) (f : A → run B) b :
  (m ≫= f) = Done b → ∃ a, m = Done a ∧ f a = Done b.
Proof. destruct m; simpl; [eauto|done..]. Qed.

(** ** Sinks

    [lonejson_sink_fn] is caller code: a function of the caller's state
    ([void *user]), the bytes and the error pointer. *)

Definition lonejson_sink_fn (U : Type) : Type :=
  U → bytes → error_ptr → lonejson_status * U * error_ptr.

(** The interface between producers and sinks.  [sink_out] is everything a sink
    was given so far; [sink_fits u n] says that it still takes [n] bytes, which
    is what a producer of [n] bytes needs.  An accepted chunk is appended, the
    error object is left alone, and the room shrinks by the chunk. *)
Class BoundedSink {U : Type} (sink : lonejson_sink_fn U) := {
  sink_out : U → bytes;
  sink_fits : U → Z → Prop;
  sink_accepts : ∀ u n d e,
    sink_fits u n → zlen d ≤ n →
    ∃ u', sink u d e = (LONEJSON_STATUS_OK, u', e)
          ∧ sink_out u' = sink_out u ++ d ∧ sink_fits u' (n - zlen d)
}.
Arguments sink_out {U} sink {_} _.
Arguments sink_fits {U} sink {_} _ _.

(** A sink without a limit. *)
Class LosslessSink {U : Type} (sink : lonejson_sink_fn U) := {
  lossless_bounded :: BoundedSink sink;
  lossless_fits : ∀ u n, sink_fits sink u n
}.

Lemma sink_lossless {U} (sink : lonejson_sink_fn U) `{!LosslessSink sink} u d e :
  ∃ u', sink u d e = (LONEJSON_STATUS_OK, u', e) ∧ sink_out sink u' = sink_out sink u ++ d.
Proof.
  destruct (sink_accepts u (zlen d) d e (lossless_fits _ _)) as (u' & H1 & H2 & _); [done|].
  eauto.
Qed.

(** The reference sink: it collects the bytes. *)
Definition collect_sink : lonejson_sink_fn bytes :=
  λ u d e, (LONEJSON_STATUS_OK, u ++ d, e).

#[export] Instance collect_sink_bounded : BoundedSink collect_sink.
Proof.
  refine {| sink_out := λ u, u; sink_fits := λ _ _, True |}.
  intros u n d e _ _. by exists (u ++ d).
Defined.
#[export] Instance collect_sink_lossless : LosslessSink collect_sink.
Proof. by refine {| lossless_bounded := _ |}. Defined.

(** ** Allocation statistics *)

Record lonejson_allocator_stats := mk_stats {
  alloc_calls : Z;
  realloc_calls : Z;
  free_calls : Z;
  bytes_live : Z;
  peak_bytes_live : Z
}.

Definition lonejson__allocator_note_alloc (s : lonejson_allocator_stats) (size : Z) :
    lonejson_allocator_stats :=
  let live := u64 (bytes_live s + size) in
  mk_stats (u64 (alloc_calls s + 1)) (realloc_calls s) (free_calls s) live
    (if peak_bytes_live s <? live then live else peak_bytes_live s).

Definition lonejson__allocator_note_realloc (s : lonejson_allocator_stats)
    (old_size new_size : Z) : lonejson_allocator_stats :=
  let live0 := if old_size <=? bytes_live s then bytes_live s - old_size else 0 in
  let live := u64 (live0 + new_size) in
  mk_stats (alloc_calls s) (u64 (realloc_calls s + 1)) (free_calls s) live
    (if peak_bytes_live s <? live then live else peak_bytes_live s).

Definition lonejson__allocator_note_free (s : lonejson_allocator_stats) (size : Z) :
    lonejson_allocator_stats :=
  mk_stats (alloc_calls s) (realloc_calls s) (u64 (free_calls s + 1))
    (if size <=? bytes_live s then bytes_live s - size else 0) (peak_bytes_live s).

(** ** Allocators

    The callbacks are caller code.  Whether the [k]-th request of a given size
    succeeds is [malloc_fn k size] (or [realloc_fn k size]); [ctx] is the
    allocator's own state, the number of requests it has served.  [stats] is
    the optional statistics object. *)

Record lonejson_allocator := mk_allocator {
  malloc_fn : nat → Z → bool;
  realloc_fn : nat → Z → bool;
  ctx : nat;
  stats : option lonejson_allocator_stats
}.

Definition allocator_step (a : lonejson_allocator)
    (st : option lonejson_allocator_stats) : lonejson_allocator :=
  mk_allocator (malloc_fn a) (realloc_fn a) (S (ctx a)) st.

(** The result is whether the returned pointer is non-NULL. *)
Definition lonejson__buffer_alloc (a : lonejson_allocator) (size : Z) :
    bool * lonejson_allocator :=
  if malloc_fn a (ctx a) size
  then (true, allocator_step a ((λ s, lonejson__allocator_note_alloc s size) <$> stats a))
  else (false, allocator_step a (stats a)).

Definition lonejson__buffer_realloc (a : lonejson_allocator) (ptr_null : bool)
    (old_size new_size : Z) : bool * lonejson_allocator :=
  if ptr_null then lonejson__buffer_alloc a new_size
  else if realloc_fn a (ctx a) new_size
  then (true, allocator_step a
                ((λ s, lonejson__allocator_note_realloc s old_size new_size) <$> stats a))
  else (false, allocator_step a (stats a)).

Definition lonejson__buffer_free (a : lonejson_allocator) (ptr_null : bool)
    (alloc_size : Z) : lonejson_allocator :=
  if ptr_null then a
  else mk_allocator (malloc_fn a) (realloc_fn a) (ctx a)
         ((λ s, lonejson__allocator_note_free s alloc_size) <$> stats a).

(** Blocks of the [owned] family carry a [lonejson__alloc_header] in front: the
    allocator (five pointers), the size, a tag and a budget, on an LP64 target.
    The request is [sizeof( *header) + size] in [size_t] arithmetic. *)
Definition sizeof_alloc_header : Z := 64.

Definition lonejson__owned_malloc (a : lonejson_allocator) (size : Z) :
    bool * lonejson_allocator :=
  if malloc_fn a (ctx a) (u64 (sizeof_alloc_header + size))
  then (true, allocator_step a ((λ s, lonejson__allocator_note_alloc s size) <$> stats a))
  else (false, allocator_step a (stats a)).

(** The bytes behind the header of a block of [size]; fewer than [size] when the
    request wrapped. *)
Definition owned_usable (size : Z) : Z := u64 (sizeof_alloc_header + size) - sizeof_alloc_header.

(** [old_size] is the size in the header of [ptr]. *)
Definition lonejson__owned_realloc (a : lonejson_allocator) (ptr_null : bool)
    (old_size size : Z) : bool * lonejson_allocator :=
  if ptr_null then lonejson__owned_malloc a size
  else if size =? 0 then (true, a)
  else if realloc_fn a (ctx a) (u64 (sizeof_alloc_header + size))
  then (true, allocator_step a
                ((λ s, lonejson__allocator_note_realloc s old_size size) <$> stats a))
  else (false, allocator_step a (stats a)).

(** [size] is the size in the header of [ptr]. *)
Definition lonejson__owned_free (a : lonejson_allocator) (ptr_null : bool) (size : Z) :
    lonejson_allocator :=
  if ptr_null then a
  else mk_allocator (malloc_fn a) (realloc_fn a) (ctx a)
         ((λ s, lonejson__allocator_note_free s size) <$> stats a).

(** An allocator that serves every request (the documented behaviour when
    memory is not exhausted). *)
Definition never_fails (a : lonejson_allocator) : Prop :=
  ∀ k n, malloc_fn a k n = true ∧ realloc_fn a k n = true.

(** The bytes the statistics report as live, for an allocator with statistics. *)
Definition live_bytes (a : lonejson_allocator) : Z := from_option bytes_live 0 (stats a).

(** An allocator with all-successful callbacks and zeroed statistics. *)
Definition fresh_allocator : lonejson_allocator :=
  mk_allocator (λ _ _, true) (λ _ _, true) 0 (Some (mk_stats 0 0 0 0 0)).

Lemma fresh_never_fails : never_fails fresh_allocator.
Proof. done. Qed.

Lemma buffer_alloc_ok a n :
  never_fails a →
  ∃ a', lonejson__buffer_alloc a n = (true, a') ∧ never_fails a'.
Proof.
  intros Ha. unfold lonejson__buffer_alloc. rewrite (proj1 (Ha _ _)). eexists. by split.
Qed.

Lemma buffer_realloc_ok a b o n :
  never_fails a →
  ∃ a', lonejson__buffer_realloc a b o n = (true, a') ∧ never_fails a'.
Proof.
  intros Ha. unfold lonejson__buffer_realloc. destruct b; [by apply buffer_alloc_ok|].
  rewrite (proj2 (Ha _ _)). eexists. by split.
Qed.

Lemma buffer_free_never_fails a b n :
  never_fails a → never_fails (lonejson__buffer_free a b n).
Proof. unfold lonejson__buffer_free. by destruct b. Qed.
Lemma owned_malloc_ok a n :
  never_fails a → ∃ a', lonejson__owned_malloc a n = (true, a') ∧ never_fails a'.
Proof.
  intros Ha. unfold lonejson__owned_malloc. rewrite (proj1 (Ha _ _)). eexists. by split.
Qed.

Lemma owned_realloc_ok a b o n :
  never_fails a → ∃ a', lonejson__owned_realloc a b o n = (true, a') ∧ never_fails a'.
Proof.
  intros Ha. unfold lonejson__owned_realloc. destruct b; [by apply owned_malloc_ok|].
  case_match; [by exists a|]. rewrite (proj2 (Ha _ _)). eexists. by split.
Qed.

Lemma owned_free_never_fails a b n : never_fails a → never_fails (lonejson__owned_free a b n).
Proof. unfold lonejson__owned_free. by destruct b. Qed.

#[export] Hint Resolve fresh_never_fails buffer_free_never_fails owned_free_never_fails : lonejson.

(** ** Readers *)

Record lonejson_read_result := mk_read_result {
  bytes_read : Z;
  eof : bool;
  would_block : bool;
  error_code : Z
}.

Definition lonejson_default_read_result : lonejson_read_result :=
  mk_read_result 0 false false 0.

(** [lonejson_reader_fn]: caller code, the bytes put in the buffer next to the
    result. *)
Definition lonejson_reader_fn (R : Type) : Type :=
  R → Z → lonejson_read_result * bytes * R.

(** [EINVAL] of the target's C library. *)
Definition EINVAL : Z := 22.

(** [lonejson_buffer_reader]: [data] with its NULL case, [len], [offset]. *)
Record lonejson_buffer_reader := mk_buffer_reader {
  br_data : option bytes;
  br_len : Z;
  br_offset : Z
}.

Definition lonejson_buffer_reader_init (data : option bytes) (len : Z) :
    lonejson_buffer_reader := mk_buffer_reader data len 0.

Definition lonejson_buffer_reader_read (reader : lonejson_buffer_reader)
    (buffer_null : bool) (capacity : Z) :
    lonejson_read_result * bytes * lonejson_buffer_reader :=
  let data := default [] (br_data reader) in
  if buffer_null || (bool_decide (br_data reader = None) && negb (br_len reader =? 0))
  then (mk_read_result 0 false false EINVAL, [], reader)
  else if br_len reader <=? br_offset reader
  then (mk_read_result 0 true false 0, [], reader)
  else if capacity =? 0
  then (mk_read_result 0 false false 0, [], reader)
  else
    let remaining := br_len reader - br_offset reader in
    let n := if remaining <? capacity then remaining else capacity in
    let reader' := mk_buffer_reader (br_data reader) (br_len reader) (br_offset reader + n) in
    (mk_read_result n (br_len reader <=? br_offset reader + n) false 0,
     take (Z.to_nat n) (drop (Z.to_nat (br_offset reader)) data), reader').

(** ** Streaming parsers as status-returning steps

    The incremental parsers change their own state, the caller's [void *user]
    and the error object, and return a status; [status = f(...); if (status !=
    LONEJSON_STATUS_OK) return status; ...] is [f &> ...]. *)

Record ctx_of (S U : Type) := mk_ctx { self : S; user : U; error : error_ptr }.
Arguments mk_ctx {S U} _ _ _.
Arguments self {S U} _.
Arguments user {S U} _.
Arguments error {S U} _.

Section step.
Context {S U : Type}.

Definition step : Type := ctx_of S U → lonejson_status * ctx_of S U.

Definition ok : step := λ c, (LONEJSON_STATUS_OK, c).

Definition and_then (m k : step) : step := λ c,
  let '(st, c') := m c in
  if decide (st = LONEJSON_STATUS_OK) then k c' else (st, c').

(** Assignments to the parser's fields. *)
Definition modify (f : S → S) : step := λ c,
  (LONEJSON_STATUS_OK, mk_ctx (f (self c)) (user c) (error c)).

(** [return lonejson__set_error(error, code, 0u, 0u, 0u, message);] *)
Definition fail_with (code : lonejson_status) (message : string) : step := λ c,
  let '(st, e) := lonejson__set_error (error c) code 0 0 0 message in
  (st, mk_ctx (self c) (user c) e).

(** A caller's callback applied to its arguments. *)
Definition callback : Type := U → error_ptr → lonejson_status * U * error_ptr.

(** [if (error != NULL && error->code != LONEJSON_STATUS_OK) return error->code;
    return lonejson__set_error(error, LONEJSON_STATUS_CALLBACK_FAILED, ...)] *)
Definition callback_error (message : string) : step := λ c,
  match error c with
  | Some e =>
      if decide (code e ≠ LONEJSON_STATUS_OK) then (code e, c)
      else fail_with LONEJSON_STATUS_CALLBACK_FAILED message c
  | None => fail_with LONEJSON_STATUS_CALLBACK_FAILED message c
  end.

(** Calls [f], when there is one; a status other than [OK] is reported through
    [callback_error]. *)
Definition call (f : option callback) (message : string) : step := λ c,
  match f with
  | None => (LONEJSON_STATUS_OK, c)
  | Some f =>
      let '(st, u, e) := f (user c) (error c) in
      let c' := mk_ctx (self c) u e in
      if decide (st ≠ LONEJSON_STATUS_OK) then callback_error message c'
      else (LONEJSON_STATUS_OK, c')
  end.

Fixpoint for_each {A} (f : A → step) (l : list A) : step :=
  match l with
  | [] => ok
  | x :: l => and_then (f x) (for_each f l)
  end.
End step.
Arguments step S U : clear implicits.
Arguments callback U : clear implicits.
Notation "m &> k" := (and_then m k) (at level 62, right associativity).

(** What a step preserves when each of its parts does: [P] before, [P] after a
    success, [Q] after a failure. *)
Section hoare.
Context {S U : Type}.

Definition triple (P : ctx_of S U → Prop) (m : step S U) (Q E : ctx_of S U → Prop) : Prop :=
  ∀ c, P c →
    let '(st, c') := m c in
    if decide (st = LONEJSON_STATUS_OK) then Q c' else E c'.

(** Using a triple at a state. *)
Lemma triple_at P (m : step S U) (Q E : ctx_of S U → Prop) c :
  triple P m Q E → P c →
  let '(st, c') := m c in if decide (st = LONEJSON_STATUS_OK) then Q c' else E c'.
Proof. intros H. apply H. Qed.

Lemma triple_ok P E : triple P ok P E.
Proof. intros c Hc. done. Qed.

Lemma triple_and_then P m R k Q E :
  triple P m R E → triple R k Q E → triple P (m &> k) Q E.
Proof.
  intros Hm Hk c Hc. specialize (Hm c Hc). unfold and_then.
  destruct (m c) as [st c']. case_decide; [by apply Hk|]. by rewrite decide_False.
Qed.

Lemma triple_modify P f Q E :
  (∀ c, P c → Q (mk_ctx (f (self c)) (user c) (error c))) → triple P (modify f) Q E.
Proof. intros H c Hc. by apply H. Qed.

Lemma triple_weaken P P' m Q Q' E E' :
  triple P' m Q' E' → (∀ c, P c → P' c) → (∀ c, Q' c → Q c) → (∀ c, E' c → E c) →
  triple P m Q E.
Proof.
  intros Hm HP HQ HE c Hc. specialize (Hm c (HP c Hc)). destruct (m c) as [st c'].
  case_decide; auto.
Qed.

Lemma triple_for_each {A} (P E : ctx_of S U → Prop) (f : A → step S U) l :
  (∀ x, triple P (f x) P E) → triple P (for_each f l) P E.
Proof.
  intros Hf. induction l as [|x l IH]; [apply triple_ok|]. by eapply triple_and_then.
Qed.

Lemma callback_error_fails msg (c : ctx_of S U) :
  fst (callback_error msg c) ≠ LONEJSON_STATUS_OK
  ∧ self (snd (callback_error msg c)) = self c ∧ user (snd (callback_error msg c)) = user c.
Proof. destruct c as [s u [e|]]; unfold callback_error; simpl; [case_decide|]; done. Qed.

Lemma and_then_ok (m k : step S U) c c' :
  m c = (LONEJSON_STATUS_OK, c') → (m &> k) c = k c'.
Proof. intros H. unfold and_then. by rewrite H. Qed.

Lemma and_then_inv (m k : step S U) c c' :
  (m &> k) c = (LONEJSON_STATUS_OK, c') →
  ∃ c1, m c = (LONEJSON_STATUS_OK, c1) ∧ k c1 = (LONEJSON_STATUS_OK, c').
Proof.
  unfold and_then. destruct (m c) as [st c1]. case_decide; [subst; eauto|].
  intros. simplify_eq.
Qed.

Lemma call_ok f msg (c : ctx_of S U) u' e' :
  f (user c) (error c) = (LONEJSON_STATUS_OK, u', e') →
  call (Some f) msg c = (LONEJSON_STATUS_OK, mk_ctx (self c) u' e').
Proof. intros H. unfold call. by rewrite H. Qed.

Lemma for_each_app {A} (f : A → step S U) l k c :
  for_each f (l ++ k) c = (for_each f l &> for_each f k) c.
Proof.
  unfold and_then. revert c. induction l as [|x l IH]; intros c; simpl.
  - unfold ok. simpl. done.
  - unfold and_then. destruct (f x c) as [st c']. case_decide; [by rewrite IH|].
    by rewrite decide_False.
Qed.
End hoare.
