(* ===== verification/Heap.v ===== *)
(** * Heap: blocks against the counters of an allocator

    Used by the components that own memory to state that nothing leaks: what each
    allocator call of [Runtime] does to the number of live blocks. *)

From stdpp Require Import base numbers list strings.
From Stdlib Require Import ZArith Lia Bool.
From S2P Require Import Prelude Runtime.

(** ** Live blocks

    The allocator's counters are [size_t]s: the number of live blocks is their
    difference modulo [2^64]. *)

Definition live_blocks (a : lonejson_allocator) : option Z :=
  (λ s, u64 (alloc_calls s - free_calls s)) <$> stats a.

Definition shift (k : Z) (o : option Z) : option Z := (λ n, u64 (n + k)) <$> o.

Definition same_callbacks (a b : lonejson_allocator) : Prop :=
  malloc_fn b = malloc_fn a ∧ realloc_fn b = realloc_fn a.

Lemma u64_add_l a b : u64 (u64 a + b) = u64 (a + b).
Proof. unfold u64. by rewrite Zplus_mod_idemp_l. Qed.

Lemma u64_sub_r a b : u64 (a - u64 b) = u64 (a - b).
Proof. unfold u64. by rewrite Zminus_mod_idemp_r. Qed.

Lemma shift_shift j k o : shift j (shift k o) = shift (k + j) o.
Proof. destruct o as [n|]; [|done]. simpl. f_equal. rewrite u64_add_l. f_equal. lia. Qed.

Lemma shift_0 a : shift 0 (live_blocks a) = live_blocks a.
Proof.
  unfold live_blocks. destruct (stats a) as [s|]; [|done]. simpl. f_equal. rewrite u64_add_l.
  f_equal. lia.
Qed.

Lemma shift_blocks k j a : k = j → shift k (live_blocks a) = shift j (live_blocks a).
Proof. by intros ->. Qed.

Lemma same_callbacks_refl a : same_callbacks a a.
Proof. done. Qed.
Lemma same_callbacks_trans a b c : same_callbacks a b → same_callbacks b c → same_callbacks a c.
Proof. intros [] []. split; congruence. Qed.
Lemma same_callbacks_never_fails a b : same_callbacks a b → never_fails a → never_fails b.
Proof. intros [H1 H2] H k n. rewrite H1, H2. apply H. Qed.

(** What each allocator call does to the number of live blocks. *)
Lemma owned_malloc_blocks a n :
  let '(ok, a') := lonejson__owned_malloc a n in
  same_callbacks a a' ∧ live_blocks a' = shift (if ok then 1 else 0) (live_blocks a)
  ∧ (ok = false → ¬ never_fails a).
Proof.
  unfold lonejson__owned_malloc. destruct (malloc_fn a (ctx a) _) eqn:E.
  - split_and!; [done| |done]. unfold live_blocks. simpl. destruct (stats a) as [s|]; [|done].
    simpl. f_equal. rewrite u64_add_l. unfold Z.sub. rewrite u64_add_l. f_equal. lia.
  - split_and!; [done|by rewrite shift_0|]. intros _ H. by rewrite (proj1 (H _ _)) in E.
Qed.

Lemma owned_realloc_blocks a null old n :
  0 < n →
  let '(ok, a') := lonejson__owned_realloc a null old n in
  same_callbacks a a' ∧ live_blocks a' = shift (if ok && null then 1 else 0) (live_blocks a)
  ∧ (ok = false → ¬ never_fails a).
Proof.
  intros Hn. unfold lonejson__owned_realloc. destruct null.
  { pose proof (owned_malloc_blocks a n) as H. destruct (lonejson__owned_malloc a n) as [[] a']; exact H. }
  replace (n =? 0) with false by lia. destruct (realloc_fn a (ctx a) _) eqn:E; cbn [andb];
    rewrite shift_0.
  - split_and!; [done| |done]. unfold live_blocks. simpl. by destruct (stats a).
  - split_and!; [done|done|]. intros _ H. by rewrite (proj2 (H _ _)) in E.
Qed.

Lemma owned_free_blocks a null n :
  same_callbacks a (lonejson__owned_free a null n)
  ∧ live_blocks (lonejson__owned_free a null n) = shift (if null then 0 else -1) (live_blocks a).
Proof.
  unfold lonejson__owned_free. destruct null; [by rewrite shift_0|]. split; [done|].
  unfold live_blocks. simpl. destruct (stats a) as [s|]; [|done]. simpl. f_equal.
  rewrite u64_sub_r, u64_add_l. f_equal. lia.
Qed.

Definition one_if (b : bool) : Z := if b then 1 else 0.

(** The [buffer] family. *)
Lemma buffer_alloc_blocks a n :
  let '(ok, a') := lonejson__buffer_alloc a n in
  same_callbacks a a' ∧ live_blocks a' = shift (one_if ok) (live_blocks a)
  ∧ (ok = false → ¬ never_fails a).
Proof.
  unfold lonejson__buffer_alloc. destruct (malloc_fn a (ctx a) _) eqn:E.
  - split_and!; [done| |done]. unfold live_blocks. simpl. destruct (stats a) as [s|]; [|done].
    simpl. f_equal. rewrite u64_add_l. unfold Z.sub. rewrite u64_add_l. f_equal. lia.
  - split_and!; [done|by rewrite shift_0|]. intros _ H. by rewrite (proj1 (H _ _)) in E.
Qed.

Lemma buffer_realloc_blocks a null old n :
  let '(ok, a') := lonejson__buffer_realloc a null old n in
  same_callbacks a a' ∧ live_blocks a' = shift (one_if (ok && null)) (live_blocks a)
  ∧ (ok = false → ¬ never_fails a).
Proof.
  unfold lonejson__buffer_realloc. destruct null.
  { pose proof (buffer_alloc_blocks a n) as H. destruct (lonejson__buffer_alloc a n) as [[] a']; exact H. }
  destruct (realloc_fn a (ctx a) _) eqn:E; cbn [andb one_if]; rewrite shift_0.
  - split_and!; [done| |done]. unfold live_blocks. simpl. by destruct (stats a).
  - split_and!; [done|done|]. intros _ H. by rewrite (proj2 (H _ _)) in E.
Qed.

Lemma buffer_free_blocks a null n :
  same_callbacks a (lonejson__buffer_free a null n)
  ∧ live_blocks (lonejson__buffer_free a null n) = shift (- one_if (negb null)) (live_blocks a).
Proof.
  unfold lonejson__buffer_free. destruct null; [by rewrite shift_0|]. split; [done|].
  unfold live_blocks. simpl. destruct (stats a) as [s|]; [|done]. simpl. f_equal.
  rewrite u64_sub_r, u64_add_l. f_equal. lia.
Qed.
