(* ===== verification/Source.v ===== *)
(** * Source: standard streams, and copying a source to a sink

    The first section models what the library uses of [stdio.h] and of the
    descriptor calls: [fopen], [fseek]/[lseek] to the start, [fread], [read],
    [ferror], [clearerr], [fclose].  The second one models
    [src/impl/10_source_runtime.h]: the cursor over a [lonejson_source] and
    [lonejson_source_write_to_sink]. *)

From stdpp Require Import base numbers list strings.
From Stdlib Require Import ZArith Lia Bool.
From S2P Require Import Prelude Runtime.

(** ** Standard streams

    An open stream or descriptor: the bytes of the file, the offset, whether it
    can seek, the offset at which the device fails with its [errno] (if any),
    the error indicator, and the most bytes one [read] call at an offset
    returns ([read] may be short, [fread] is not). *)

Record c_file := mk_file {
  f_data : bytes;
  f_pos : Z;
  f_seekable : bool;
  f_fault : option (Z * Z);
  f_error : bool;
  f_chunk : Z → Z
}.

Definition f_seek0 (f : c_file) : c_file :=
  mk_file (f_data f) 0 (f_seekable f) (f_fault f) (f_error f) (f_chunk f).
Definition f_advance (f : c_file) (n : Z) : c_file :=
  mk_file (f_data f) (f_pos f + n) (f_seekable f) (f_fault f) (f_error f) (f_chunk f).
Definition f_set_error (f : c_file) (b : bool) : c_file :=
  mk_file (f_data f) (f_pos f) (f_seekable f) (f_fault f) b (f_chunk f).

(** [errno] of a failed seek ([ESPIPE]). *)
Definition ESPIPE : Z := 29.
(** [errno] of a call on descriptor -1. *)
Definition EBADF : Z := 9.

(** [fseek(fp, 0, SEEK_SET)] and [lseek(fd, 0, SEEK_SET)]: whether the call
    succeeds. *)
Definition fseek_start (f : c_file) : bool * c_file :=
  if f_seekable f then (true, f_seek0 f) else (false, f).

Definition clearerr (f : c_file) : c_file := f_set_error f false.
Definition ferror (f : c_file) : bool := f_error f.

(** The [errno] of the next byte, when the device fails there. *)
Definition f_fails (f : c_file) : option Z :=
  match f_fault f with
  | Some (q, e) => if f_pos f =? q then Some e else None
  | None => None
  end.

(** The bytes before the end or the fault. *)
Definition f_avail (f : c_file) : bytes :=
  let rest := drop (Z.to_nat (f_pos f)) (f_data f) in
  match f_fault f with
  | Some (q, _) => if f_pos f <=? q then take (Z.to_nat (q - f_pos f)) rest else rest
  | None => rest
  end.

(** [fread(buffer, 1, capacity, fp)]: the bytes read; a short count at a fault
    sets the error indicator.  The second component is [errno]. *)
Definition fread (f : c_file) (capacity : Z) : bytes * Z * c_file :=
  let got := take (Z.to_nat capacity) (f_avail f) in
  let f' := f_advance f (zlen got) in
  match f_fails f' with
  | Some e => if zlen got <? capacity then (got, e, f_set_error f' true) else (got, 0, f')
  | None => (got, 0, f')
  end.

(** [read(fd, buffer, capacity)]: [inr errno] is a result of -1. *)
Definition fd_read (f : c_file) (capacity : Z) : (bytes + Z) * c_file :=
  match f_fails f with
  | Some e => (inr e, f)
  | None =>
      let n := Z.min capacity (Z.max 1 (f_chunk f (f_pos f))) in
      let got := take (Z.to_nat n) (f_avail f) in
      (inl got, f_advance f (zlen got))
  end.

(** What is left to read of a stream without a fault. *)
Definition f_rest (f : c_file) : bytes := drop (Z.to_nat (f_pos f)) (f_data f).

(** A stream whose reads succeed up to the end of the file. *)
Definition f_sound (f : c_file) : Prop := f_fault f = None ∧ f_error f = false ∧ 0 ≤ f_pos f.

Lemma f_avail_sound f : f_sound f → f_avail f = f_rest f.
Proof. intros (H & _). unfold f_avail. by rewrite H. Qed.

Lemma f_rest_advance f l1 l2 :
  0 ≤ f_pos f → f_rest f = l1 ++ l2 → f_rest (f_advance f (zlen l1)) = l2.
Proof.
  intros Hp H. unfold f_rest in *. simpl. unfold zlen.
  replace (Z.to_nat (f_pos f + Z.of_nat (length l1))) with (Z.to_nat (f_pos f) + length l1)%nat by lia.
  rewrite <- drop_drop, H. by rewrite drop_app_length.
Qed.

(** [fread] on a sound stream delivers the next bytes, fewer than asked only at
    the end. *)
Lemma fread_sound f cap :
  f_sound f →
  ∃ f', fread f cap = (take (Z.to_nat cap) (f_rest f), 0, f') ∧ f_sound f'
        ∧ f_rest f' = drop (Z.to_nat cap) (f_rest f).
Proof.
  intros Hs. pose proof Hs as (H1 & H2 & H3). unfold fread. rewrite f_avail_sound by done.
  unfold f_fails. simpl. rewrite H1. eexists. split; [done|]. split.
  - unfold f_sound. simpl. rewrite H1, H2.
    pose proof (zlen_nonneg (take (Z.to_nat cap) (f_rest f))). split_and!; done || lia.
  - apply f_rest_advance; [done|]. by rewrite take_drop.
Qed.

(** [read] on a sound descriptor delivers at least one byte before the end. *)
Lemma fd_read_sound f cap :
  f_sound f → 0 < cap →
  ∃ got f', fd_read f cap = (inl got, f') ∧ f_sound f' ∧ f_rest f = got ++ f_rest f'
            ∧ zlen got ≤ cap ∧ (got = [] → f_rest f = []).
Proof.
  intros Hs Hcap. pose proof Hs as (H1 & H2 & H3). unfold fd_read, f_fails. rewrite H1.
  rewrite f_avail_sound by done. set (n := Z.min cap _).
  assert (1 ≤ n ≤ cap) as Hn by lia.
  eexists _, _. split; [done|]. split_and!.
  - unfold f_sound. simpl. rewrite H1, H2.
    pose proof (zlen_nonneg (take (Z.to_nat n) (f_rest f))). split_and!; done || lia.
  - erewrite f_rest_advance; [by rewrite take_drop|done|by rewrite take_drop].
  - unfold zlen. rewrite length_take. lia.
  - intros Ht. destruct (f_rest f) as [|b l]; [done|].
    replace (Z.to_nat n) with (S (Z.to_nat (n - 1))) in Ht by lia. done.
Qed.

(** ** Sources *)

Inductive lonejson_source_kind :=
| LONEJSON_SOURCE_NONE
| LONEJSON_SOURCE_FILE
| LONEJSON_SOURCE_FD
| LONEJSON_SOURCE_PATH.

#[global] Instance lonejson_source_kind_eq_dec : EqDecision lonejson_source_kind.
Proof. solve_decision. Defined.

(** [src_fp] and [src_fd] are the caller's handles with the state of what they
    refer to ([None]: NULL and -1); [src_path] is the C string. *)
Record lonejson_source := mk_source {
  src_kind : lonejson_source_kind;
  src_fp : option c_file;
  src_fd : option c_file;
  src_path : bytes
}.

Record lonejson__source_cursor := mk_source_cursor {
  sc_source : lonejson_source;
  sc_fp : option c_file;
  sc_close_fp : bool;
  sc_use_fd : bool
}.

Section source.
Context {U : Type}.
(** The file system: the stream [fopen] returns for a path, or its [errno]. *)
Variable fopen : bytes → c_file + Z.

(** The errors of this component carry no position. *)
Definition source_error (error : error_ptr) (code : lonejson_status) (message : string) :
    lonejson_status * error_ptr := lonejson__set_error error code 0 0 0 message.

(** [open_files] counts the streams this library has opened and not closed.
    Rewinding a NULL stream is undefined; descriptor -1 cannot be rewound. *)
Definition lonejson__source_cursor_open (value : lonejson_source) (error : error_ptr)
    (open_files : Z) : run (lonejson_status * lonejson__source_cursor * error_ptr * Z) :=
  let cursor := mk_source_cursor value None false false in
  match src_kind value with
  | LONEJSON_SOURCE_NONE => Done (LONEJSON_STATUS_OK, cursor, error, open_files)
  | LONEJSON_SOURCE_PATH =>
      match fopen (src_path value) with
      | inr errno =>
          let '(st, e) := source_error (set_system_errno error errno) LONEJSON_STATUS_IO_ERROR
                            "failed to open source path '%s'" in
          Done (st, cursor, e, open_files)
      | inl f =>
          Done (LONEJSON_STATUS_OK, mk_source_cursor value (Some f) true false, error,
                open_files + 1)
      end
  | LONEJSON_SOURCE_FILE =>
      match src_fp value with
      | None => Undefined
      | Some f =>
          let '(ok, f) := fseek_start f in
          if negb ok then
            let '(st, e) := source_error (set_system_errno error ESPIPE) LONEJSON_STATUS_IO_ERROR
              "failed to rewind source FILE*; non-seekable sources are unsupported" in
            Done (st, cursor, e, open_files)
          else Done (LONEJSON_STATUS_OK, mk_source_cursor value (Some (clearerr f)) false false,
                     error, open_files)
      end
  | LONEJSON_SOURCE_FD =>
      let '(ok, fd, errno) :=
        match src_fd value with
        | None => (false, None, EBADF)
        | Some f => let '(ok, f) := fseek_start f in (ok, Some f, ESPIPE)
        end in
      if negb ok then
        let '(st, e) := source_error (set_system_errno error errno) LONEJSON_STATUS_IO_ERROR
          "failed to rewind source fd; non-seekable sources are unsupported" in
        Done (st, cursor, e, open_files)
      else
        let value := mk_source (src_kind value) (src_fp value) fd (src_path value) in
        Done (LONEJSON_STATUS_OK, mk_source_cursor value None false true, error, open_files)
  end.

Definition lonejson__source_cursor_close (cursor : lonejson__source_cursor) (open_files : Z) :
    lonejson__source_cursor * Z :=
  let open_files :=
    if sc_close_fp cursor && bool_decide (is_Some (sc_fp cursor))
    then open_files - 1 else open_files in
  (mk_source_cursor (sc_source cursor) None false false, open_files).

Definition lonejson__source_cursor_read (cursor : lonejson__source_cursor) (capacity : Z) :
    run (lonejson_read_result * bytes * lonejson__source_cursor) :=
  let source := sc_source cursor in
  if decide (src_kind source = LONEJSON_SOURCE_NONE)
  then Done (mk_read_result 0 true false 0, [], cursor)
  else if sc_use_fd cursor then
    match src_fd source with
    | None => Done (mk_read_result 0 false false EBADF, [], cursor)
    | Some f =>
        match fd_read f capacity with
        | (inr errno, _) => Done (mk_read_result 0 false false errno, [], cursor)
        | (inl got, f) =>
            let source := mk_source (src_kind source) (src_fp source) (Some f) (src_path source) in
            Done (mk_read_result (zlen got) (zlen got =? 0) false 0, got,
                  mk_source_cursor source (sc_fp cursor) (sc_close_fp cursor) true)
        end
    end
  else
    match sc_fp cursor with
    | None => Undefined
    | Some f =>
        let '(got, errno, f) := fread f capacity in
        let cursor := mk_source_cursor source (Some f) (sc_close_fp cursor) false in
        if zlen got <? capacity then
          if ferror f then Done (mk_read_result (zlen got) false false errno, got, cursor)
          else Done (mk_read_result (zlen got) true false 0, got, cursor)
        else Done (mk_read_result (zlen got) false false 0, got, cursor)
    end.

Variable sink : lonejson_sink_fn U.

(** The [for (;;)] of [lonejson_source_write_to_sink]. *)
Fixpoint source_copy_loop (fuel : nat) (cursor : lonejson__source_cursor) (user : U)
    (error : error_ptr) (open_files : Z) : run (lonejson_status * U * error_ptr * Z) :=
  match fuel with
  | O => Out_of_fuel
  | S fuel =>
      '(chunk, buffer, cursor) ← lonejson__source_cursor_read cursor 4096;
      if negb (error_code chunk =? 0) then
        let error := set_system_errno error (error_code chunk) in
        let '(_, open_files) := lonejson__source_cursor_close cursor open_files in
        let '(st, error) := source_error error LONEJSON_STATUS_IO_ERROR
                              "failed to read source data" in
        Done (st, user, error, open_files)
      else
        let '(status, user, error) :=
          if negb (bytes_read chunk =? 0) then sink user buffer error
          else (LONEJSON_STATUS_OK, user, error) in
        if status_fails status then
          let '(_, open_files) := lonejson__source_cursor_close cursor open_files in
          Done (status, user, error, open_files)
        else if eof chunk then
          let '(_, open_files) := lonejson__source_cursor_close cursor open_files in
          Done (LONEJSON_STATUS_OK, user, error, open_files)
        else source_copy_loop fuel cursor user error open_files
  end.

(** [value] is [None] for NULL; the sink is not NULL. *)
Definition lonejson_source_write_to_sink (fuel : nat) (value : option lonejson_source) (user : U)
    (error : error_ptr) (open_files : Z) : run (lonejson_status * U * error_ptr * Z) :=
  match value with
  | None =>
      let '(st, error) := source_error error LONEJSON_STATUS_INVALID_ARGUMENT
                            "source handle and sink are required" in
      Done (st, user, error, open_files)
  | Some value =>
      '(status, cursor, error, open_files) ← lonejson__source_cursor_open value error open_files;
      if decide (status ≠ LONEJSON_STATUS_OK) then Done (status, user, error, open_files)
      else source_copy_loop fuel cursor user error open_files
  end.
End source.

(** [lonejson_source_is_rewindable]: the answer, and the handles after the
    probing seeks.  [ftell] and [lseek(fd, 0, SEEK_CUR)] fail exactly on a
    stream that cannot seek, so the only [fseek]s made succeed. *)
Definition lonejson_source_is_rewindable (value : option lonejson_source) : bool :=
  match value with
  | None => false
  | Some value =>
      match src_kind value with
      | LONEJSON_SOURCE_NONE | LONEJSON_SOURCE_PATH => true
      | LONEJSON_SOURCE_FILE =>
          match src_fp value with
          | None => false
          | Some f => f_seekable f
          end
      | LONEJSON_SOURCE_FD =>
          match src_fd value with
          | None => false
          | Some f => f_seekable f
          end
      end
  end.

Definition lonejson_source_init : lonejson_source := mk_source LONEJSON_SOURCE_NONE None None [].

(** ** Lemmas *)

(** A stream as the operating system hands it out: faults carry an error
    number, and none has happened yet. *)
Definition f_wf (f : c_file) : Prop :=
  f_error f = false ∧ 0 ≤ f_pos f ∧ (∀ q e, f_fault f = Some (q, e) → e ≠ 0).

Lemma f_sound_wf f : f_sound f → f_wf f.
Proof. intros (H1 & H2 & H3). split_and!; [done..|]. intros q e. by rewrite H1. Qed.

Lemma f_advance_wf f n : f_wf f → 0 ≤ n → f_wf (f_advance f n).
Proof. intros (H1 & H2 & H3) Hn. split_and!; simpl; [done|lia|done]. Qed.

Lemma f_seek0_wf f : f_wf f → f_wf (f_seek0 f).
Proof. intros (H1 & H2 & H3). by split_and!. Qed.

Lemma take_f_avail f n :
  ∃ rest, f_rest f = take n (f_avail f) ++ rest.
Proof.
  unfold f_avail, f_rest. set (l := drop _ _).
  assert (∃ r, l = (match f_fault f with
    | Some (q, _) => if f_pos f <=? q then take (Z.to_nat (q - f_pos f)) l else l
    | None => l end) ++ r) as (r & Hr).
  { destruct (f_fault f) as [[q e]|]; [case_if|]; [|by exists []; rewrite app_nil_r..].
    exists (drop (Z.to_nat (q - f_pos f)) l). by rewrite take_drop. }
  set (a := match f_fault f with Some _ => _ | None => _ end) in *.
  exists (drop n a ++ r). by rewrite app_assoc, take_drop.
Qed.

Lemma f_rest_length_advance f l1 l2 :
  0 ≤ f_pos f → f_rest f = l1 ++ l2 →
  length (f_rest f) = (length l1 + length (f_rest (f_advance f (zlen l1))))%nat.
Proof. intros Hp H. erewrite f_rest_advance by done. by rewrite H, length_app. Qed.

Lemma fread_wf f cap :
  f_wf f → 0 ≤ cap →
  let '(got, errno, f') := fread f cap in
  zlen got ≤ cap
  ∧ (zlen got = cap → f_wf f' ∧ length (f_rest f) = (length got + length (f_rest f'))%nat)
  ∧ (zlen got < cap → ferror f' = true → errno ≠ 0).
Proof.
  intros Hwf Hcap. pose proof Hwf as (H1 & H2 & H3). unfold fread.
  destruct (take_f_avail f (Z.to_nat cap)) as (rest & Hrest).
  set (got := take (Z.to_nat cap) (f_avail f)) in *.
  assert (zlen got ≤ cap) as Hle by (unfold got, zlen; rewrite length_take; lia).
  pose proof (f_rest_length_advance f got rest H2 Hrest) as Hlen.
  pose proof (f_advance_wf f (zlen got) Hwf (zlen_nonneg got)) as Hwf'.
  destruct (f_fails (f_advance f (zlen got))) as [e|] eqn:Ef.
  - unfold f_fails in Ef. simpl in Ef. destruct (f_fault f) as [[q e']|] eqn:Eq; [|done].
    destruct (_ =? q); [injection Ef as ->|done]. case_if.
    + split_and!; [done|intros; lia|]. intros _ _. by apply (H3 q).
    + split_and!; [done|done|intros; lia].
  - split_and!; [done..|]. unfold ferror. simpl. by rewrite H1.
Qed.

Lemma fd_read_wf f cap :
  f_wf f → 0 < cap →
  match fd_read f cap with
  | (inr errno, _) => errno ≠ 0
  | (inl got, f') => f_wf f' ∧ length (f_rest f) = (length got + length (f_rest f'))%nat
  end.
Proof.
  intros Hwf Hcap. pose proof Hwf as (H1 & H2 & H3). unfold fd_read.
  destruct (f_fails f) as [e|] eqn:Ef.
  - unfold f_fails in Ef. destruct (f_fault f) as [[q e']|] eqn:Eq; [|done].
    destruct (_ =? q); [injection Ef as ->|done]. by apply (H3 q).
  - destruct (take_f_avail f (Z.to_nat (Z.min cap (Z.max 1 (f_chunk f (f_pos f))))))
      as (rest & Hrest).
    split; [apply f_advance_wf; [done|apply zlen_nonneg]|]. by eapply f_rest_length_advance.
Qed.

(** The stream a cursor reads, if it reads one. *)
Definition cursor_file (c : lonejson__source_cursor) : option c_file :=
  if decide (src_kind (sc_source c) = LONEJSON_SOURCE_NONE) then None
  else if sc_use_fd c then src_fd (sc_source c) else sc_fp c.

(** A cursor [lonejson__source_cursor_open] returned with success. *)
Definition cursor_wf (c : lonejson__source_cursor) : Prop :=
  src_kind (sc_source c) = LONEJSON_SOURCE_NONE ∨ ∃ f, cursor_file c = Some f ∧ f_wf f.

Definition cursor_left (c : lonejson__source_cursor) : nat :=
  match cursor_file c with
  | Some f => length (f_rest f)
  | None => 0
  end.

(** The handles a caller may pass. *)
Definition source_wf (fopen : bytes → c_file + Z) (s : lonejson_source) : Prop :=
  match src_kind s with
  | LONEJSON_SOURCE_NONE => True
  | LONEJSON_SOURCE_PATH => ∀ f, fopen (src_path s) = inl f → f_wf f
  | LONEJSON_SOURCE_FILE => ∃ f, src_fp s = Some f ∧ f_wf f
  | LONEJSON_SOURCE_FD => ∀ f, src_fd s = Some f → f_wf f
  end.

(** One read either ends the copy or moves the stream forward. *)
Lemma source_read_progress c :
  cursor_wf c →
  ∃ chunk buffer c', lonejson__source_cursor_read c 4096 = Done (chunk, buffer, c')
    ∧ sc_close_fp c' = sc_close_fp c ∧ (is_Some (sc_fp c) → is_Some (sc_fp c'))
    ∧ (sc_fp c = None → sc_fp c' = None)
    ∧ (error_code chunk = 0 → eof chunk = false →
       cursor_wf c' ∧ (cursor_left c' < cursor_left c)%nat).
Proof.
  destruct c as [[k fp fd path] fp' cl ufd]. unfold cursor_wf, cursor_left, cursor_file.
  unfold lonejson__source_cursor_read. simpl.
  destruct (decide (k = LONEJSON_SOURCE_NONE)) as [Hk|Hk].
  { intros _. eexists _, _, _. split; [done|]. by split_and!. }
  intros [?|(f & Hf & Hwf)]; [done|]. destruct ufd.
  - rewrite Hf. pose proof (fd_read_wf f 4096 Hwf ltac:(lia)) as Hr.
    destruct (fd_read f 4096) as [[got|errno] f']; eexists _, _, _; (split; [done|]); simpl;
      (split_and!; [done..|]); [|by intros].
    rewrite decide_False by done. intros _ Hz. destruct Hr as [Hr1 Hr2]. split; [eauto|].
    destruct got; [done|]. simpl in Hr2. lia.
  - rewrite Hf. pose proof (fread_wf f 4096 Hwf ltac:(lia)) as Hr.
    destruct (fread f 4096) as [[got errno] f']. destruct Hr as (Hle & Hfull & Herr).
    destruct (zlen got <? 4096) eqn:El; [destruct (ferror f') eqn:Ee|];
      eexists _, _, _; (split; [done|]); simpl; (split_and!; [done..|]).
    + intros He. destruct (Herr ltac:(lia) eq_refl He).
    + done.
    + rewrite decide_False by done. intros _ _. destruct Hfull as [Hw Hl]; [lia|].
      split; [eauto|]. unfold zlen in *. lia.
Qed.

Lemma source_close_balance c c' n :
  sc_close_fp c' = sc_close_fp c → (is_Some (sc_fp c) → is_Some (sc_fp c')) →
  (sc_fp c = None → sc_fp c' = None) →
  (lonejson__source_cursor_close c' n).2 = (lonejson__source_cursor_close c n).2.
Proof.
  intros H1 H2 H3. unfold lonejson__source_cursor_close. simpl. rewrite H1.
  destruct (sc_fp c); [destruct (sc_fp c') eqn:E; [done|]; by destruct H2|by rewrite H3].
Qed.

(** The loop returns, and has then closed what its cursor owned. *)
Lemma source_copy_total {U} (sink : lonejson_sink_fn U) fuel c u e n :
  cursor_wf c → (cursor_left c < fuel)%nat →
  ∃ st u' e', source_copy_loop sink fuel c u e n
              = Done (st, u', e', (lonejson__source_cursor_close c n).2).
Proof.
  revert c u e. induction fuel as [|fuel IH]; intros c u e Hwf Hfuel; [lia|].
  cbn [source_copy_loop].
  destruct (source_read_progress c Hwf) as (chunk & buffer & c' & -> & H1 & H2 & H3 & H4).
  rewrite run_bind_done. pose proof (source_close_balance c c' n H1 H2 H3) as Hb.
  destruct (lonejson__source_cursor_close c' n) as [c'' n'] eqn:Ec.
  cbn [snd] in Hb. rewrite <- Hb.
  destruct (error_code chunk =? 0) eqn:E0; cbn [negb].
  2:{ destruct (source_error _ _ _) as [st e']. eauto. }
  destruct (if negb _ then _ else _) as [[st u'] e'].
  destruct (status_fails st); [eauto|]. destruct (eof chunk) eqn:Eeof; [eauto|].
  destruct (H4 ltac:(lia) eq_refl) as [Hw Hl].
  destruct (IH c' u' e' Hw ltac:(lia)) as (st'' & u'' & e'' & ->). rewrite Ec. eauto.
Qed.

(** The stream a source denotes, rewound; [None] for a source without one. *)
Definition source_file (fopen : bytes → c_file + Z) (s : lonejson_source) : option c_file :=
  match src_kind s with
  | LONEJSON_SOURCE_NONE => None
  | LONEJSON_SOURCE_PATH => match fopen (src_path s) with inl f => Some f | inr _ => None end
  | LONEJSON_SOURCE_FILE => (λ f, clearerr (f_seek0 f)) <$> src_fp s
  | LONEJSON_SOURCE_FD => f_seek0 <$> src_fd s
  end.

Definition source_left (fopen : bytes → c_file + Z) (s : lonejson_source) : nat :=
  match source_file fopen s with
  | Some f => length (f_rest f)
  | None => 0
  end.

(** Opening either fails, and then opened nothing, or yields a cursor at the
    start of the source's stream that owns what was opened. *)
Lemma source_open_total fopen s e n :
  source_wf fopen s →
  ∃ st c e' n', lonejson__source_cursor_open fopen s e n = Done (st, c, e', n')
    ∧ (if decide (st = LONEJSON_STATUS_OK)
       then cursor_wf c ∧ cursor_file c = source_file fopen s ∧ e' = e
            ∧ sc_source c = mk_source (src_kind s) (src_fp s) (src_fd (sc_source c)) (src_path s)
            ∧ (lonejson__source_cursor_close c n').2 = n
       else n' = n).
Proof.
  destruct s as [k fp fd path]. unfold source_wf, lonejson__source_cursor_open, source_file.
  unfold cursor_wf, cursor_file, source_error. simpl.
  destruct k; simpl.
  - intros _. eexists _, _, _, _. split; [done|]. by split_and!; auto.
  - intros (f & -> & Hf). unfold fseek_start. destruct (f_seekable f); simpl.
    + eexists _, _, _, _. split; [done|]. simpl. split_and!; [|done..]. right.
      eexists. split; [done|]. by destruct Hf as (? & ? & ?).
    + destruct e; eexists _, _, _, _; by (split; [done|]).
  - intros Hf. destruct fd as [f|]; simpl.
    + unfold fseek_start. destruct (f_seekable f); simpl.
      * eexists _, _, _, _. split; [done|]. simpl. split_and!; [|done..]. right.
        eexists. split; [done|]. by apply f_seek0_wf, Hf.
      * destruct e; eexists _, _, _, _; by (split; [done|]).
    + destruct e; eexists _, _, _, _; by (split; [done|]).
  - intros Hf. destruct (fopen path) as [f|errno] eqn:Eo; simpl.
    + eexists _, _, _, _. split; [done|]. simpl. split_and!; [|done..|].
      * right. eexists. split; [done|]. by apply Hf.
      * unfold lonejson__source_cursor_close. simpl. lia.
    + destruct e; eexists _, _, _, _; by (split; [done|]).
Qed.

(** Copying a sound stream into a sink without a limit. *)
Lemma source_copy_content {U} (sink : lonejson_sink_fn U) `{!LosslessSink sink} fuel c f u e n :
  src_kind (sc_source c) ≠ LONEJSON_SOURCE_NONE → cursor_file c = Some f → f_sound f →
  (length (f_rest f) < fuel)%nat →
  ∃ u' n', source_copy_loop sink fuel c u e n = Done (LONEJSON_STATUS_OK, u', e, n')
           ∧ sink_out sink u' = sink_out sink u ++ f_rest f.
Proof.
  revert c f u. induction fuel as [|fuel IH]; intros c f u Hk Hf Hs Hfuel; [lia|].
  destruct c as [[k fp fd path] fp' cl ufd]. unfold cursor_file in Hf. simpl in Hk, Hf.
  rewrite decide_False in Hf by done. cbn [source_copy_loop].
  unfold lonejson__source_cursor_read. simpl. rewrite decide_False by done.
  assert (∀ got rest, f_rest f = got ++ rest → ∃ u', (if negb (zlen got =? 0) then sink u got e
    else (LONEJSON_STATUS_OK, u, e)) = (LONEJSON_STATUS_OK, u', e)
    ∧ sink_out sink u' = sink_out sink u ++ got) as Hsink.
  { intros got rest _. destruct got as [|b got].
    - exists u. by rewrite app_nil_r.
    - destruct (sink_lossless sink u (b :: got) e) as (u' & H1 & H2). exists u'.
      rewrite zlen_cons. pose proof (zlen_nonneg got).
      replace (zlen got + 1 =? 0) with false by lia. done. }
  destruct ufd; subst.
  - destruct (fd_read_sound f 4096 Hs ltac:(lia)) as (got & f' & -> & Hs' & Hr & _ & Hnil).
    simpl. destruct (Hsink got _ Hr) as (u' & -> & Hout). cbn [status_fails].
    destruct (zlen got =? 0) eqn:E0.
    + assert (got = []) as -> by (destruct got; [done|rewrite zlen_cons in E0;
        pose proof (zlen_nonneg got); lia]).
      simpl. eexists _, _. split; [done|]. by rewrite Hout, Hnil.
    + destruct (IH (mk_source_cursor (mk_source k fp (Some f') path) fp' cl true) f' u')
        as (u2 & n2 & H2 & Ho2); [done|unfold cursor_file; simpl; by rewrite decide_False|done| |].
      { destruct got; [done|]. rewrite Hr in Hfuel. simpl in Hfuel. rewrite length_app in Hfuel. lia. }
      eexists _, _. split; [exact H2|]. by rewrite Ho2, Hout, Hr, <- app_assoc.
  - destruct (fread_sound f 4096 Hs) as (f' & -> & Hs' & Hr).
    assert (f_rest f = take (Z.to_nat 4096) (f_rest f) ++ f_rest f') as Hsplit
      by (by rewrite Hr, take_drop).
    set (got := take (Z.to_nat 4096) (f_rest f)) in *.
    destruct Hs' as (Hs1 & Hs2 & Hs3). unfold ferror. rewrite Hs2.
    destruct (zlen got <? 4096) eqn:El; simpl; destruct (Hsink got _ Hsplit) as (u' & -> & Hout);
      cbn [status_fails].
    + simpl. eexists _, _. split; [done|].
      assert (f_rest f' = []) as Hn.
      { rewrite Hr. apply drop_ge. unfold got, zlen in El. rewrite length_take in El. apply Z.ltb_lt in El. clear -El. lia. }
      rewrite Hout, Hsplit, Hn. by rewrite app_nil_r.
    + destruct (IH (mk_source_cursor (mk_source k fp fd path) (Some f') cl false) f' u')
        as (u2 & n2 & H2 & Ho2); [done|unfold cursor_file; simpl; by rewrite decide_False|done| |].
      { rewrite Hsplit, length_app in Hfuel. unfold zlen in El. lia. }
      eexists _, _. split; [exact H2|]. by rewrite Ho2, Hout, Hsplit at 1; rewrite <- app_assoc.
Qed.

(** ** Properties *)

(** C36: copying a source terminates and leaks no stream.  For any sink, error
    pointer and handle a caller may pass (NULL included), with fuel for the bytes
    of the source, [lonejson_source_write_to_sink] returns - whether the open
    fails, a read fails, the sink refuses a chunk or everything is copied - and
    the number of streams the library holds open is what it was before. *)
Theorem source_write_balanced {U} fopen (sink : lonejson_sink_fn U) fuel value u e n :
  from_option (source_wf fopen) True value →
  (from_option (source_left fopen) 0%nat value < fuel)%nat →
  ∃ st u' e', lonejson_source_write_to_sink fopen sink fuel value u e n = Done (st, u', e', n).
Proof.
  destruct value as [s|]; cbn [from_option].
  2:{ intros _ _. unfold lonejson_source_write_to_sink, source_error. destruct e; simpl; eauto. }
  intros Hwf Hfuel. cbn [lonejson_source_write_to_sink].
  destruct (source_open_total fopen s e n Hwf) as (st & c & e' & n' & -> & H).
  rewrite run_bind_done. destruct (decide (st = LONEJSON_STATUS_OK)) as [->|Hst].
  - destruct H as (Hc & Hf & _ & _ & <-). rewrite decide_False by auto.
    apply source_copy_total; [done|]. unfold cursor_left. by rewrite Hf.
  - subst. rewrite decide_True by done. eauto.
Qed.

(** C35: copying a source delivers exactly its bytes: from a rewindable handle, or
    a path that opens, whose stream can be read to the end, a sink without a limit
    receives the whole content from the start, in order, whatever the sizes of the
    reads, and the call returns [OK] with the error object untouched. *)
Theorem source_write_content {U} fopen (sink : lonejson_sink_fn U) `{!LosslessSink sink}
    fuel s f u e n :
  source_wf fopen s → source_file fopen s = Some f → f_sound f →
  from_option f_seekable true (match src_kind s with
                               | LONEJSON_SOURCE_FILE => src_fp s
                               | LONEJSON_SOURCE_FD => src_fd s
                               | _ => None
                               end) = true →
  (length (f_rest f) < fuel)%nat →
  ∃ u' n', lonejson_source_write_to_sink fopen sink fuel (Some s) u e n
           = Done (LONEJSON_STATUS_OK, u', e, n')
           ∧ sink_out sink u' = sink_out sink u ++ f_rest f.
Proof.
  intros Hwf Hsf Hs Hseek Hfuel. cbn [lonejson_source_write_to_sink].
  destruct (source_open_total fopen s e n Hwf) as (st & c & e' & n' & Ho & H).
  assert (st = LONEJSON_STATUS_OK) as ->.
  { clear H. destruct s as [k fp fd path]. unfold lonejson__source_cursor_open, source_file in *.
    simpl in *. destruct k; simpl in *; [by simplify_eq| | |].
    - destruct fp as [g|]; [|done]. simpl in *. unfold fseek_start in Ho. rewrite Hseek in Ho.
      simpl in Ho. by simplify_eq.
    - destruct fd as [g|]; [|done]. simpl in *. unfold fseek_start in Ho. rewrite Hseek in Ho.
      simpl in Ho. by simplify_eq.
    - destruct (fopen path); [|done]. by simplify_eq. }
  rewrite Ho, run_bind_done, decide_False by auto.
  rewrite decide_True in H by done. destruct H as (_ & Hf & -> & Hsrc & _).
  apply source_copy_content; [|congruence|done|done].
  rewrite Hsrc. simpl. intros Hk. unfold source_file in Hsf. by rewrite Hk in Hsf.
Qed.

(** A small file system: one path, whose file the second call reads short. *)
Definition demo_file : c_file := mk_file (c_str "abc") 0 true None false (λ _, 1).
Definition demo_fopen (path : bytes) : c_file + Z :=
  if decide (path = c_str "x") then inl demo_file else inr 2.

Lemma demo_file_sound : f_sound demo_file.
Proof. by vm_compute. Qed.

Lemma source_write_balanced_witness :
  source_wf demo_fopen (mk_source LONEJSON_SOURCE_PATH None None (c_str "x"))
  ∧ ∃ st u' e',
      lonejson_source_write_to_sink demo_fopen collect_sink 10
        (Some (mk_source LONEJSON_SOURCE_PATH None None (c_str "x"))) [] None 3
      = Done (st, u', e', 3).
Proof.
  assert (source_wf demo_fopen (mk_source LONEJSON_SOURCE_PATH None None (c_str "x"))) as H.
  { intros f [= <-]. apply f_sound_wf, demo_file_sound. }
  split; [exact H|].
  apply (source_write_balanced demo_fopen collect_sink 10
    (Some (mk_source LONEJSON_SOURCE_PATH None None (c_str "x"))) [] None 3 H).
  vm_compute. lia.
Defined.

Lemma source_write_content_witness :
  ∃ u' n', lonejson_source_write_to_sink demo_fopen collect_sink 10
    (Some (mk_source LONEJSON_SOURCE_FD None (Some demo_file) [])) [] None 0
    = Done (LONEJSON_STATUS_OK, u', None, n')
    ∧ sink_out collect_sink u' = sink_out collect_sink [] ++ f_rest (f_seek0 demo_file).
Proof.
  refine (source_write_content demo_fopen collect_sink 10
    (mk_source LONEJSON_SOURCE_FD None (Some demo_file) []) (f_seek0 demo_file) [] None 0
    _ eq_refl demo_file_sound eq_refl _).
  - intros f [= <-]. apply f_sound_wf, demo_file_sound.
  - vm_compute. lia.
Defined.
