(* ===== verification/Spooled.v ===== *)
(** * Spooled: values kept in memory up to a limit and in a temporary file beyond

    Models the spooled values of [src/impl/00_prelude.h]: options and life cycle
    (lines 1271-1293 and 1749-1830), the temporary file (1770-1782, 1831-1877),
    appending (1879-1896, 1922-1991) and reading (2072-2182). *)

From stdpp Require Import base numbers list strings.
From Stdlib Require Import ZArith Lia Bool.
From S2P Require Import Prelude Runtime Source.

(** ** The operating system

    What the [k]-th attempt to get a temporary file gives: a stream on a new file,
    no file, or a file but no stream.  [suffix] is what [mkstemp] puts in the place
    of [XXXXXX]. *)
Inductive temp_result :=
| Temp_stream (suffix : bytes) (f : c_file)
| Temp_no_file (errno : Z)
| Temp_no_stream (suffix : bytes) (errno : Z).

(** [os_room] is what the device of the temporary files still takes; [os_streams]
    counts the open temporary streams; the lists are the calls of [mkstemp] that
    made a file and of [unlink]. *)
Record spool_os := mk_os {
  os_temp : nat → temp_result;
  os_calls : nat;
  os_room : Z;
  os_streams : Z;
  os_created : list bytes;
  os_unlinked : list bytes
}.

Definition os_called (os : spool_os) (streams : Z) : spool_os :=
  mk_os (os_temp os) (S (os_calls os)) (os_room os) (os_streams os + streams) (os_created os)
    (os_unlinked os).
Definition os_create (path : bytes) (os : spool_os) : spool_os :=
  mk_os (os_temp os) (os_calls os) (os_room os) (os_streams os) (os_created os ++ [path])
    (os_unlinked os).
Definition unlink (path : bytes) (os : spool_os) : spool_os :=
  mk_os (os_temp os) (os_calls os) (os_room os) (os_streams os) (os_created os)
    (os_unlinked os ++ [path]).
Definition os_fclose (os : spool_os) : spool_os :=
  mk_os (os_temp os) (os_calls os) (os_room os) (os_streams os - 1) (os_created os)
    (os_unlinked os).
Definition os_write (n : Z) (os : spool_os) : spool_os :=
  mk_os (os_temp os) (os_calls os) (os_room os - n) (os_streams os) (os_created os)
    (os_unlinked os).

(** [errno] of a full device, and of a failure without a number. *)
Definition ENOSPC : Z := 28.
Definition EIO : Z := 5.

(** A stream at another position, and with other content. *)
Definition f_at (f : c_file) (pos : Z) : c_file :=
  mk_file (f_data f) pos (f_seekable f) (f_fault f) (f_error f) (f_chunk f).
Definition f_extend (f : c_file) (data : bytes) : c_file :=
  mk_file (f_data f ++ data) (zlen (f_data f ++ data)) (f_seekable f) (f_fault f) (f_error f)
    (f_chunk f).

(** [fwrite(data, 1, len, fp)] at the end of the file: the count, the stream. *)
Definition fwrite_end (f : c_file) (data : bytes) (os : spool_os) : Z * c_file * spool_os :=
  let taken := take (Z.to_nat (os_room os)) data in
  let f := f_extend f taken in
  (zlen taken, if zlen taken =? zlen data then f else f_set_error f true, os_write (zlen taken) os).

(** [pread(fileno(fp), buffer, capacity, pos)]: [inr errno] is a result of -1; the
    stream's own position is unchanged. *)
Definition pread (f : c_file) (capacity pos : Z) : bytes + Z := fst (fd_read (f_at f pos) capacity).

(** ** Data *)

(** [memory_limit], [max_bytes], [temp_dir]. *)
Record lonejson__spool_options := mk_spool_options {
  so_memory_limit : Z;
  so_max_bytes : Z;
  so_temp_dir : option bytes
}.

Definition lonejson__default_spool_options : lonejson__spool_options :=
  mk_spool_options 65536 0 None.

(** [sp_memory] is the memory block up to [memory_len], [None] for NULL;
    [sp_block] the size in the block's header.  [sp_temp_dir] is both [temp_dir] and
    [owned_temp_dir], which every call keeps equal. *)
Record lonejson_spooled := mk_spooled {
  sp_memory : option bytes;
  sp_block : Z;
  sp_size : Z;
  sp_read_offset : Z;
  sp_memory_limit : Z;
  sp_max_bytes : Z;
  sp_temp_dir : option bytes;
  sp_spill_fp : option c_file;
  sp_spilled : bool;
  sp_temp_path : bytes;
  sp_allocator : lonejson_allocator
}.

(** [value->memory_len] *)
Definition sp_memory_len (v : lonejson_spooled) : Z := zlen (default [] (sp_memory v)).

Definition sp_set_memory (m : option bytes) (block : Z) (v : lonejson_spooled) : lonejson_spooled :=
  mk_spooled m block (sp_size v) (sp_read_offset v) (sp_memory_limit v) (sp_max_bytes v)
    (sp_temp_dir v) (sp_spill_fp v) (sp_spilled v) (sp_temp_path v) (sp_allocator v).
Definition sp_set_size (n : Z) (v : lonejson_spooled) : lonejson_spooled :=
  mk_spooled (sp_memory v) (sp_block v) n (sp_read_offset v) (sp_memory_limit v) (sp_max_bytes v)
    (sp_temp_dir v) (sp_spill_fp v) (sp_spilled v) (sp_temp_path v) (sp_allocator v).
Definition sp_set_read_offset (n : Z) (v : lonejson_spooled) : lonejson_spooled :=
  mk_spooled (sp_memory v) (sp_block v) (sp_size v) n (sp_memory_limit v) (sp_max_bytes v)
    (sp_temp_dir v) (sp_spill_fp v) (sp_spilled v) (sp_temp_path v) (sp_allocator v).
Definition sp_set_spill (fp : option c_file) (v : lonejson_spooled) : lonejson_spooled :=
  mk_spooled (sp_memory v) (sp_block v) (sp_size v) (sp_read_offset v) (sp_memory_limit v)
    (sp_max_bytes v) (sp_temp_dir v) fp (sp_spilled v) (sp_temp_path v) (sp_allocator v).
Definition sp_set_temp_path (path : bytes) (v : lonejson_spooled) : lonejson_spooled :=
  mk_spooled (sp_memory v) (sp_block v) (sp_size v) (sp_read_offset v) (sp_memory_limit v)
    (sp_max_bytes v) (sp_temp_dir v) (sp_spill_fp v) (sp_spilled v) path (sp_allocator v).
Definition sp_set_spilled (b : bool) (v : lonejson_spooled) : lonejson_spooled :=
  mk_spooled (sp_memory v) (sp_block v) (sp_size v) (sp_read_offset v) (sp_memory_limit v)
    (sp_max_bytes v) (sp_temp_dir v) (sp_spill_fp v) b (sp_temp_path v) (sp_allocator v).
Definition sp_set_temp_dir (dir : option bytes) (v : lonejson_spooled) : lonejson_spooled :=
  mk_spooled (sp_memory v) (sp_block v) (sp_size v) (sp_read_offset v) (sp_memory_limit v)
    (sp_max_bytes v) dir (sp_spill_fp v) (sp_spilled v) (sp_temp_path v) (sp_allocator v).
Definition sp_set_allocator (a : lonejson_allocator) (v : lonejson_spooled) : lonejson_spooled :=
  mk_spooled (sp_memory v) (sp_block v) (sp_size v) (sp_read_offset v) (sp_memory_limit v)
    (sp_max_bytes v) (sp_temp_dir v) (sp_spill_fp v) (sp_spilled v) (sp_temp_path v) a.

(** ** Life cycle *)

Definition lonejson__owned_strdup (a : lonejson_allocator) (src : option bytes) :
    option bytes * lonejson_allocator :=
  match src with
  | None | Some [] => (None, a)
  | Some s =>
      let '(copy, a) := lonejson__owned_malloc a (zlen s + 1) in
      (if copy then Some s else None, a)
  end.

Definition lonejson__spooled_apply_options (options : option lonejson__spool_options)
    (v : lonejson_spooled) : lonejson_spooled :=
  let local := default lonejson__default_spool_options options in
  mk_spooled (sp_memory v) (sp_block v) (sp_size v) (sp_read_offset v) (so_memory_limit local)
    (so_max_bytes local) (so_temp_dir local) (sp_spill_fp v) (sp_spilled v) (sp_temp_path v)
    (sp_allocator v).

(** [memset(value, 0, ...)] and the allocator. *)
Definition spooled_zero (a : lonejson_allocator) : lonejson_spooled :=
  mk_spooled None 0 0 0 0 0 None None false [] a.

Definition lonejson_spooled_init_with_allocator (options : option lonejson__spool_options)
    (allocator : lonejson_allocator) : lonejson_spooled :=
  let temp_dir := options ≫= so_temp_dir in
  let '(owned_temp_dir, a) := lonejson__owned_strdup allocator temp_dir in
  sp_set_temp_dir owned_temp_dir
    (lonejson__spooled_apply_options options (spooled_zero a)).

Definition lonejson__spooled_close_temp (v : lonejson_spooled) (os : spool_os) :
    lonejson_spooled * spool_os :=
  let '(v, os) :=
    match sp_spill_fp v with
    | Some _ => (sp_set_spill None v, os_fclose os)
    | None => (v, os)
    end in
  match sp_temp_path v with
  | [] => (v, os)
  | path => (sp_set_temp_path [] v, unlink path os)
  end.

(** The block of [owned_temp_dir]. *)
Definition temp_dir_free (v : lonejson_spooled) : lonejson_spooled :=
  let dir := sp_temp_dir v in
  sp_set_temp_dir None
    (sp_set_allocator
       (lonejson__owned_free (sp_allocator v) (bool_decide (dir = None)) (zlen (default [] dir) + 1))
       v).

Definition lonejson_spooled_cleanup (v : lonejson_spooled) (os : spool_os) :
    lonejson_spooled * spool_os :=
  let a := lonejson__owned_free (sp_allocator v) (bool_decide (sp_memory v = None)) (sp_block v) in
  let v := sp_set_spilled false
             (sp_set_read_offset 0
               (sp_set_size 0 (sp_set_memory None 0 (sp_set_allocator a v)))) in
  let '(v, os) := lonejson__spooled_close_temp v os in
  (temp_dir_free v, os).

Definition lonejson_spooled_reset (v : lonejson_spooled) (os : spool_os) :
    lonejson_spooled * spool_os :=
  let saved_temp_dir := sp_temp_dir v in
  let options := mk_spool_options (sp_memory_limit v) (sp_max_bytes v) saved_temp_dir in
  let '(v, os) := lonejson_spooled_cleanup (sp_set_temp_dir None v) os in
  (sp_set_temp_dir saved_temp_dir (lonejson__spooled_apply_options (Some options) v), os).

Definition lonejson_spooled_size (v : option lonejson_spooled) : Z :=
  match v with
  | Some v => sp_size v
  | None => 0
  end.

Definition lonejson_spooled_spilled (v : option lonejson_spooled) : bool :=
  match v with
  | Some v => sp_spilled v
  | None => false
  end.

(** ** Appending *)

(** [error->system_errno = errno; return lonejson__set_error(error,
    LONEJSON_STATUS_IO_ERROR, 0u, 0u, 0u, message);] *)
Definition spool_io_error (error : error_ptr) (errno : Z) (message : string) :
    lonejson_status * error_ptr :=
  source_error (set_system_errno error errno) LONEJSON_STATUS_IO_ERROR message.

(** [sizeof(value->temp_path)] *)
Definition temp_path_capacity : Z := 512.

Definition spool_template : bytes := c_str "/lonejson-spool-".

(** The attempt made by a call of [mkstemp] or [tmpfile]. *)
Definition os_attempt (os : spool_os) : temp_result := os_temp os (os_calls os).

Definition lonejson__spooled_open_temp (v : lonejson_spooled) (os : spool_os) (error : error_ptr) :
    lonejson_status * lonejson_spooled * spool_os * error_ptr :=
  match sp_spill_fp v with
  | Some _ => (LONEJSON_STATUS_OK, v, os, error)
  | None =>
      match sp_temp_dir v with
      | Some ((_ :: _) as dir) =>
          let template := dir ++ spool_template ++ c_str "XXXXXX" in
          if temp_path_capacity <=? zlen template then
            let v := sp_set_temp_path (take (Z.to_nat (temp_path_capacity - 1)) template) v in
            let '(st, error) := source_error error LONEJSON_STATUS_IO_ERROR
                                  "temporary spool path is too long" in
            (st, v, os, error)
          else
            match os_attempt os with
            | Temp_no_file errno =>
                let '(st, error) := spool_io_error error errno "failed to create spool file" in
                (st, sp_set_temp_path template v, os_called os 0, error)
            | Temp_no_stream suffix errno =>
                let path := dir ++ spool_template ++ suffix in
                let '(st, error) := spool_io_error error errno "failed to open spool file" in
                (st, sp_set_temp_path [] v, unlink path (os_create path (os_called os 0)), error)
            | Temp_stream suffix f =>
                let path := dir ++ spool_template ++ suffix in
                (LONEJSON_STATUS_OK, sp_set_spilled true (sp_set_spill (Some f) (sp_set_temp_path path v)),
                 os_create path (os_called os 1), error)
            end
      | _ =>
          match os_attempt os with
          | Temp_stream _ f =>
              (LONEJSON_STATUS_OK, sp_set_spilled true (sp_set_spill (Some f) v), os_called os 1, error)
          | Temp_no_file errno | Temp_no_stream _ errno =>
              let '(st, error) := spool_io_error error errno
                                    "failed to create anonymous spool file" in
              (st, v, os_called os 0, error)
          end
      end
  end.

Definition lonejson__spooled_reserve_memory (v : lonejson_spooled) (need : Z) (error : error_ptr) :
    lonejson_status * lonejson_spooled * error_ptr :=
  if need <=? sp_memory_len v then (LONEJSON_STATUS_OK, v, error)
  else
    let '(next, a) := lonejson__owned_realloc (sp_allocator v) (bool_decide (sp_memory v = None))
                        (sp_block v) need in
    let v := sp_set_allocator a v in
    if negb next then
      let '(st, error) := source_error error LONEJSON_STATUS_ALLOCATION_FAILED
                            "failed to expand spooled in-memory prefix" in
      (st, v, error)
    else (LONEJSON_STATUS_OK, sp_set_memory (Some (default [] (sp_memory v))) need v, error).

(** [if (memory_copy != 0u) { ... }] *)
Definition spool_to_memory (v : lonejson_spooled) (data : bytes) (error : error_ptr) :
    lonejson_status * lonejson_spooled * error_ptr :=
  if negb (zlen data =? 0) then
    let '(st, v, error) := lonejson__spooled_reserve_memory v (sp_memory_len v + zlen data) error in
    if decide (st ≠ LONEJSON_STATUS_OK) then (st, v, error)
    else (LONEJSON_STATUS_OK,
          sp_set_memory (Some (default [] (sp_memory v) ++ data)) (sp_block v) v, error)
  else (LONEJSON_STATUS_OK, v, error).

(** [if (memory_copy < len) { ... }]: [data] is what did not go to memory. *)
Definition spool_to_file (v : lonejson_spooled) (data : bytes) (os : spool_os) (error : error_ptr) :
    lonejson_status * lonejson_spooled * spool_os * error_ptr :=
  let '(st, v, os, error) := lonejson__spooled_open_temp v os error in
  if decide (st ≠ LONEJSON_STATUS_OK) then (st, v, os, error)
  else
    match sp_spill_fp v with
    | None => (st, v, os, error)
    | Some f =>
        let spill_read_pos :=
          if sp_memory_len v <? sp_read_offset v then sp_read_offset v - sp_memory_len v else 0 in
        if negb (f_seekable f) then
          let '(st, error) := spool_io_error error ESPIPE "failed to seek spool file for append" in
          (st, v, os, error)
        else
          let '(n, f, os) := fwrite_end f data os in
          let v := sp_set_spill (Some f) v in
          if negb (n =? zlen data) then
            let '(st, error) := spool_io_error error ENOSPC "failed to write spool file" in
            (st, v, os, error)
          else (LONEJSON_STATUS_OK, sp_set_spill (Some (f_at f spill_read_pos)) v, os, error)
    end.

(** [memory_room] *)
Definition spool_room (v : lonejson_spooled) : Z :=
  if sp_memory_len v <? sp_memory_limit v then sp_memory_limit v - sp_memory_len v else 0.

(** The function after the check of its arguments. *)
Definition spooled_append_bytes (v : lonejson_spooled) (data : bytes) (os : spool_os)
    (error : error_ptr) : lonejson_status * lonejson_spooled * spool_os * error_ptr :=
  let len := zlen data in
  if len =? 0 then (LONEJSON_STATUS_OK, v, os, error)
  else if negb (sp_max_bytes v =? 0) && (sp_max_bytes v <? u64 (sp_size v + len)) then
    let '(st, error) := source_error error LONEJSON_STATUS_OVERFLOW
                          "spooled field exceeds configured max bytes" in
    (st, v, os, error)
  else
    let memory_copy := if len <? spool_room v then len else spool_room v in
    let '(st, v, error) := spool_to_memory v (take (Z.to_nat memory_copy) data) error in
    if decide (st ≠ LONEJSON_STATUS_OK) then (st, v, os, error)
    else
      let '(st, v, os, error) :=
        if memory_copy <? len then spool_to_file v (drop (Z.to_nat memory_copy) data) os error
        else (LONEJSON_STATUS_OK, v, os, error) in
      if decide (st ≠ LONEJSON_STATUS_OK) then (st, v, os, error)
      else (LONEJSON_STATUS_OK, sp_set_size (u64 (sp_size v + len)) v, os, error).

(** [data] is [None] for NULL, and holds [len] bytes otherwise. *)
Definition lonejson__spooled_append (v : option lonejson_spooled) (data : option bytes) (len : Z)
    (os : spool_os) (error : error_ptr) :
    lonejson_status * option lonejson_spooled * spool_os * error_ptr :=
  match v, bool_decide (data = None) && negb (len =? 0) with
  | Some v, false =>
      let '(st, v, os, error) := spooled_append_bytes v (default [] data) os error in
      (st, Some v, os, error)
  | v, _ =>
      let '(st, error) := source_error error LONEJSON_STATUS_INVALID_ARGUMENT
                            "invalid spooled append arguments" in
      (st, v, os, error)
  end.

Definition lonejson_spooled_append := lonejson__spooled_append.

(** ** Reading *)

Definition lonejson_spooled_rewind (v : option lonejson_spooled) (error : error_ptr) :
    lonejson_status * option lonejson_spooled * error_ptr :=
  match v with
  | None =>
      let '(st, error) := source_error error LONEJSON_STATUS_INVALID_ARGUMENT
                            "spooled value is required" in
      (st, None, error)
  | Some v =>
      let v := sp_set_read_offset 0 v in
      match sp_spill_fp v with
      | Some f =>
          let '(ok, f) := fseek_start f in
          let v := sp_set_spill (Some f) v in
          if negb ok then
            let '(st, error) := spool_io_error error ESPIPE "failed to rewind spool file" in
            (st, Some v, error)
          else (LONEJSON_STATUS_OK, Some v, lonejson__clear_error error)
      | None => (LONEJSON_STATUS_OK, Some v, lonejson__clear_error error)
      end
  end.

(** The result and the bytes put in the buffer, which is not NULL. *)
Definition lonejson_spooled_read (v : lonejson_spooled) (capacity : Z) :
    lonejson_read_result * bytes * lonejson_spooled :=
  if capacity =? 0 then (mk_read_result 0 true false 0, [], v)
  else
    let memory_remaining :=
      if sp_read_offset v <? sp_memory_len v then sp_memory_len v - sp_read_offset v else 0 in
    let copied := if memory_remaining <? capacity then memory_remaining else capacity in
    if negb (copied =? 0) then
      let data := take (Z.to_nat copied)
                    (drop (Z.to_nat (sp_read_offset v)) (default [] (sp_memory v))) in
      let v := sp_set_read_offset (sp_read_offset v + copied) v in
      (mk_read_result copied (sp_read_offset v =? sp_size v) false 0, data, v)
    else
      match sp_spill_fp v with
      | None => (mk_read_result 0 true false 0, [], v)
      | Some f =>
          let spill_offset := sp_read_offset v - sp_memory_len v in
          if spill_offset <? 9223372036854775808 then
            match pread f capacity spill_offset with
            | inr errno =>
                (mk_read_result 0 false false (if negb (errno =? 0) then errno else EIO), [], v)
            | inl got =>
                let v := sp_set_read_offset (sp_read_offset v + zlen got) v in
                (mk_read_result (zlen got) (sp_size v <=? sp_read_offset v) false 0, got, v)
            end
          else
            let '(got, errno, f) := fread f capacity in
            let v := sp_set_spill (Some f) (sp_set_read_offset (sp_read_offset v + zlen got) v) in
            (mk_read_result (zlen got) (sp_size v <=? sp_read_offset v) false
               (if ferror f then errno else 0), got, v)
      end.

Section write_to_sink.
Context {U : Type} (sink : lonejson_sink_fn U).

(** The [for (;;)]: [cursor] is the copy the function reads from. *)
Fixpoint spooled_copy_loop (fuel : nat) (cursor : lonejson_spooled) (user : U) (error : error_ptr) :
    run (lonejson_status * U * error_ptr) :=
  match fuel with
  | O => Out_of_fuel
  | S fuel =>
      let '(chunk, buffer, cursor) := lonejson_spooled_read cursor 4096 in
      if negb (error_code chunk =? 0) then
        let '(st, error) := spool_io_error error (error_code chunk) "failed to read spooled value" in
        Done (st, user, error)
      else
        let '(status, user, error) :=
          if negb (bytes_read chunk =? 0) then sink user buffer error
          else (LONEJSON_STATUS_OK, user, error) in
        if status_fails status then Done (status, user, error)
        else if eof chunk then Done (LONEJSON_STATUS_OK, user, error)
        else spooled_copy_loop fuel cursor user error
  end.

Definition lonejson_spooled_write_to_sink (fuel : nat) (v : option lonejson_spooled) (user : U)
    (error : error_ptr) : run (lonejson_status * U * error_ptr) :=
  match v with
  | None =>
      let '(st, error) := source_error error LONEJSON_STATUS_INVALID_ARGUMENT
                            "spooled value and sink are required" in
      Done (st, user, error)
  | Some v =>
      match lonejson_spooled_rewind (Some v) error with
      | (LONEJSON_STATUS_OK, Some cursor, error) => spooled_copy_loop fuel cursor user error
      | (status, _, error) => Done (status, user, error)
      end
  end.
End write_to_sink.
