(* ===== verification/SpooledProps.v ===== *)
(** * SpooledProps: a spooled value is a byte queue

    The calls on an initialised value as a step relation, and their two views: the
    content and read position of an abstract queue ([queue_step]), and the blocks,
    streams and files the value owns ([spool_owned]). *)

From stdpp Require Import base numbers list strings.
From Stdlib Require Import ZArith Lia Bool.
From S2P Require Import Prelude Runtime Heap Source Spooled.

(** ** Calls *)

Inductive spool_op :=
| Append (data : bytes)
| Read (capacity : Z)
| Rewind
| Reset.

Inductive spool_result :=
| R_status (st : lonejson_status)
| R_read (data : bytes) (eof : bool) (errno : Z)
| R_none.

(** A call of the API on a value, with any error pointer. *)
Inductive spool_step : lonejson_spooled * spool_os → spool_op → spool_result →
    lonejson_spooled * spool_os → Prop :=
| step_append v os d e st v' os' e' :
    lonejson_spooled_append (Some v) (Some d) (zlen d) os e = (st, Some v', os', e') →
    spool_step (v, os) (Append d) (R_status st) (v', os')
| step_read v os n r d v' :
    0 ≤ n → lonejson_spooled_read v n = (r, d, v') →
    spool_step (v, os) (Read n) (R_read d (eof r) (error_code r)) (v', os)
| step_rewind v os e st v' e' :
    lonejson_spooled_rewind (Some v) e = (st, Some v', e') →
    spool_step (v, os) Rewind (R_status st) (v', os)
| step_reset v os v' os' :
    lonejson_spooled_reset v os = (v', os') → spool_step (v, os) Reset R_none (v', os').

(** A sequence of calls with what they returned. *)
Inductive spool_trace (s : lonejson_spooled * spool_os) : list (spool_op * spool_result) →
    lonejson_spooled * spool_os → Prop :=
| trace_nil : spool_trace s [] s
| trace_snoc l s1 op r s2 :
    spool_trace s l s1 → spool_step s1 op r s2 → spool_trace s (l ++ [(op, r)]) s2.

(** The bytes handed to [append] in a sequence. *)
Definition op_data (c : spool_op * spool_result) : bytes :=
  match c.1 with
  | Append d => d
  | _ => []
  end.
Definition trace_bytes (l : list (spool_op * spool_result)) : Z := zlen (flat_map op_data l).

Definition no_io_error (l : list (spool_op * spool_result)) : Prop :=
  Forall (λ c, c.2 ≠ R_status LONEJSON_STATUS_IO_ERROR) l.

(** ** The abstract queue

    Its state is the content and the read position; [hard] is the hard limit, 0 for
    none. *)
Inductive queue_step (hard : Z) : bytes * Z → spool_op → spool_result → bytes * Z → Prop :=
| queue_append c o d :
    d = [] ∨ hard = 0 ∨ zlen (c ++ d) ≤ hard →
    queue_step hard (c, o) (Append d) (R_status LONEJSON_STATUS_OK) (c ++ d, o)
| queue_full c o d :
    d ≠ [] → hard ≠ 0 → hard < zlen (c ++ d) →
    queue_step hard (c, o) (Append d) (R_status LONEJSON_STATUS_OVERFLOW) (c, o)
| queue_no_memory c o d :
    queue_step hard (c, o) (Append d) (R_status LONEJSON_STATUS_ALLOCATION_FAILED) (c, o)
| queue_read c o n d rest eof :
    drop (Z.to_nat o) c = d ++ rest → zlen d ≤ n → (d = [] → n = 0 ∨ rest = []) →
    eof = (n =? 0) || bool_decide (rest = []) →
    queue_step hard (c, o) (Read n) (R_read d eof 0) (c, o + zlen d)
| queue_rewind c o : queue_step hard (c, o) Rewind (R_status LONEJSON_STATUS_OK) (c, 0)
| queue_reset c o : queue_step hard (c, o) Reset R_none ([], 0).

Inductive queue_trace (hard : Z) : list (spool_op * spool_result) → bytes * Z → Prop :=
| queue_nil : queue_trace hard [] ([], 0)
| queue_snoc l q1 op r q2 :
    queue_trace hard l q1 → queue_step hard q1 op r q2 → queue_trace hard (l ++ [(op, r)]) q2.

(** ** The value behind a queue *)

(** Temporary files are new: empty, seekable, without faults. *)
Definition temp_ok (f : c_file) : Prop :=
  f_fault f = None ∧ f_error f = false ∧ f_seekable f = true.
Definition fresh_temps (os : spool_os) : Prop :=
  ∀ k suffix f, os_temp os k = Temp_stream suffix f →
    f_data f = [] ∧ temp_ok f.

Definition spool_queue (limit hard : Z) (v : lonejson_spooled) (q : bytes * Z) : Prop :=
  let '(c, o) := q in
  sp_memory_limit v = limit ∧ sp_max_bytes v = hard ∧ 0 ≤ o ≤ zlen c
  ∧ default [] (sp_memory v) = take (Z.to_nat limit) c
  ∧ sp_size v = zlen c ∧ sp_read_offset v = o
  ∧ match sp_spill_fp v with
    | Some f => f_data f = drop (Z.to_nat limit) c ∧ temp_ok f
    | None => zlen c ≤ limit
    end.

Section queue.
#[local] Set Default Proof Using "Type*".
Context (limit hard : Z) (Hlimit : 0 ≤ limit).
Implicit Types (v : lonejson_spooled) (c d : bytes).
#[local] Abbreviation holds := (spool_queue limit hard).

Lemma queue_memory_len v c o : holds v (c, o) → sp_memory_len v = Z.min limit (zlen c).
Proof.
  intros (_ & _ & _ & Hm & _). unfold sp_memory_len, zlen. rewrite Hm, length_take. lia.
Qed.

Lemma spool_room_max v c o : holds v (c, o) → spool_room v = Z.max 0 (limit - zlen c).
Proof.
  intros H. unfold spool_room. rewrite (queue_memory_len v c o H).
  destruct H as (-> & _). pose proof (zlen_nonneg c). case_match; lia.
Qed.

(** The allocator is no part of the queue. *)
Lemma holds_allocator v q a : holds v q → holds (sp_set_allocator a v) q.
Proof. by destruct q. Qed.

(** What goes to memory fits below the limit; the size is not updated yet. *)
Lemma spool_to_memory_cases v c o d e :
  holds v (c, o) → zlen d ≤ spool_room v →
  let '(st, v', e') := spool_to_memory v d e in
  (st = LONEJSON_STATUS_OK ∧ ∃ m b a,
     v' = sp_set_memory m b (sp_set_allocator a v) ∧ default [] m = take (Z.to_nat limit) (c ++ d))
  ∨ (st = LONEJSON_STATUS_ALLOCATION_FAILED ∧ holds v' (c, o)).
Proof.
  intros H Hd. pose proof (spool_room_max v c o H) as Hroom. pose proof (zlen_nonneg d).
  assert (default [] (sp_memory v) ++ d = take (Z.to_nat limit) (c ++ d)) as Happ.
  { pose proof H as (_ & _ & _ & Hm & _). rewrite Hm, take_app. f_equal.
    rewrite take_ge; [done|]. unfold zlen in *. lia. }
  unfold spool_to_memory. destruct (zlen d =? 0) eqn:E; cbn [negb].
  { left. split; [done|]. exists (sp_memory v), (sp_block v), (sp_allocator v). split; [by destruct v|].
    rewrite <- Happ. destruct d; [by rewrite app_nil_r|]. rewrite zlen_cons in E. pose proof (zlen_nonneg d). lia. }
  unfold lonejson__spooled_reserve_memory. replace (_ <=? sp_memory_len v) with false by lia.
  destruct (lonejson__owned_realloc _ _ _ _) as [[|] a]; cbn [negb].
  - rewrite decide_False by auto. left. split; [done|]. by eexists _, _, a.
  - unfold source_error. split_error.
    rewrite decide_True by done. right. split; [done|]. by apply holds_allocator.
Qed.

Lemma open_temp_cases v os e :
  fresh_temps os →
  let '(st, v', os', e') := lonejson__spooled_open_temp v os e in
  fresh_temps os'
  ∧ ((st = LONEJSON_STATUS_OK ∧
      ∃ f p b, v' = sp_set_spilled b (sp_set_spill (Some f) (sp_set_temp_path p v))
             ∧ (sp_spill_fp v = Some f
                ∨ sp_spill_fp v = None ∧ f_data f = [] ∧ temp_ok f))
     ∨ st = LONEJSON_STATUS_IO_ERROR).
Proof.
  intros Hos. unfold lonejson__spooled_open_temp, spool_io_error, source_error, os_attempt.
  destruct (sp_spill_fp v) as [f|] eqn:Ef.
  { split; [done|]. left. split; [done|]. exists f, (sp_temp_path v), (sp_spilled v). split; [|by left].
    destruct v; cbn in *. by subst. }
  pose proof (Hos (os_calls os)) as Hk.
  destruct (sp_temp_dir v) as [[|b dir]|]; [| |].
  2: destruct (_ <=? _).
  2:{ split_error. split; [done|by right]. }
  all: destruct (os_temp os (os_calls os)) as [suffix f|errno|suffix errno];
    [destruct (Hk suffix f eq_refl) as (? & ?);
     split; [done|]; left; split; [done|]; eexists f, _, true; split; [|by right]; try reflexivity;
     by destruct v
    |split_error; by split; [|right]..].
Qed.

Lemma spool_to_file_cases v c d os e :
  fresh_temps os → sp_memory_limit v = limit → default [] (sp_memory v) = take (Z.to_nat limit) (c ++ d) →
  match sp_spill_fp v with
  | Some f => f_data f = drop (Z.to_nat limit) c ∧ temp_ok f
  | None => zlen c ≤ limit
  end →
  let '(st, v', os', e') := spool_to_file v (drop (Z.to_nat (limit - zlen c)) d) os e in
  fresh_temps os'
  ∧ ((st = LONEJSON_STATUS_OK ∧ ∃ f p b,
        v' = sp_set_spilled b (sp_set_spill (Some f) (sp_set_temp_path p v))
        ∧ f_data f = drop (Z.to_nat limit) (c ++ d) ∧ temp_ok f)
     ∨ st = LONEJSON_STATUS_IO_ERROR).
Proof.
  intros Hos Hl Hm Hspill. unfold spool_to_file.
  pose proof (open_temp_cases v os e Hos) as Hopen.
  destruct (lonejson__spooled_open_temp v os e) as [[[st v1] os1] e1].
  destruct Hopen as [Hos1 [(-> & f & p & b & -> & Hf)| ->]].
  2:{ rewrite decide_True by done. split; [done|by right]. }
  rewrite decide_False by auto. cbn [sp_spill_fp sp_set_spilled sp_set_spill sp_set_temp_path].
  unfold spool_io_error, source_error. destruct (f_seekable f); cbn [negb].
  2:{ split_error. split; [done|by right]. }
  unfold fwrite_end. destruct (_ =? _) eqn:E; cbn [negb].
  2:{ split_error. split; [done|by right]. }
  split; [done|]. left. split; [done|]. eexists _, p, b. split; [reflexivity|]. cbn.
  rewrite take_ge by (revert E; generalize (drop (Z.to_nat (limit - zlen c)) d); intros l E; unfold zlen in E; rewrite length_take in E; apply Z.eqb_eq in E; lia).
  assert (f_data f = drop (Z.to_nat limit) c ∧ temp_ok f) as (-> & ?).
  { destruct Hf as [Hf|(Hf & -> & ?)]; rewrite Hf in Hspill; [done|]. split; [|done].
    symmetry. apply drop_ge. unfold zlen in Hspill. lia. }
  split; [|done]. rewrite drop_app. f_equal. f_equal. unfold zlen. lia.
Qed.

Lemma append_refines v os d e c o :
  holds v (c, o) → fresh_temps os → zlen (c ++ d) < 2 ^ 63 →
  let '(st, v', os', e') := spooled_append_bytes v d os e in
  fresh_temps os'
  ∧ (st = LONEJSON_STATUS_IO_ERROR
     ∨ ∃ q, queue_step hard (c, o) (Append d) (R_status st) q ∧ holds v' q).
Proof.
  intros H Hos Hshort. unfold spooled_append_bytes.
  pose proof H as (Hl & Hx & Ho & Hm & Hs & Hr & Hspill).
  pose proof (zlen_nonneg c). pose proof (zlen_nonneg d). rewrite zlen_app in Hshort.
  assert (zlen d = 0 → d = []) as Hnil by (destruct d; [done|rewrite zlen_cons; pose proof (zlen_nonneg d); lia]).
  destruct (zlen d =? 0) eqn:Ed.
  { split; [done|]. right. exists (c ++ d, o). split; [constructor; auto with lia|].
    rewrite Hnil by lia. by rewrite app_nil_r. }
  assert (u64 (sp_size v + zlen d) = zlen (c ++ d)) as Hsize.
  { rewrite zlen_app, Hs. apply u64_small. unfold is_u64. lia. }
  rewrite Hx, Hsize. unfold source_error. destruct (negb (hard =? 0) && _) eqn:Emax.
  { split_error. split; [done|]. right.
    apply andb_true_iff in Emax. destruct Emax as [E1 E2].
    exists (c, o). split; [|done]. apply queue_full; [|lia..]. intros ->. done. }
  assert (hard = 0 ∨ zlen (c ++ d) ≤ hard) as Hok by lia.
  pose proof (spool_room_max v c o H) as Hroom.
  set (copy := if zlen d <? spool_room v then zlen d else spool_room v).
  assert (copy = Z.min (zlen d) (spool_room v)) as Hcopy
    by (subst copy; clear; destruct (Z.ltb_spec (zlen d) (spool_room v)); lia).
  pose proof (spool_to_memory_cases v c o (take (Z.to_nat copy) d) e H) as Hmem.
  destruct (spool_to_memory v (take (Z.to_nat copy) d) e) as [[st1 v1] e1].
  destruct Hmem as [(-> & m & b & a & -> & Hm1)|(-> & Hq)].
  { unfold zlen at 1. rewrite length_take. lia. }
  2:{ rewrite decide_True by done. split; [done|]. right. exists (c, o). split; [constructor|done]. }
  rewrite decide_False by auto.
  assert (default [] m = take (Z.to_nat limit) (c ++ d)) as Hm2.
  { rewrite Hm1, !take_app. f_equal. destruct (Z.le_gt_cases (zlen d) copy).
    - rewrite (take_ge d (Z.to_nat copy)); [done|]. unfold zlen in *. lia.
    - rewrite take_take. f_equal. unfold zlen in *. lia. }
  destruct (copy <? zlen d) eqn:Efile.
  - pose proof (spool_to_file_cases (sp_set_memory m b (sp_set_allocator a v)) c d os e1 Hos Hl Hm2 Hspill)
      as Hfile.
    assert (drop (Z.to_nat copy) d = drop (Z.to_nat (limit - zlen c)) d) as -> by (f_equal; lia).
    destruct (spool_to_file _ _ os e1) as [[[st2 v2] os2] e2].
    destruct Hfile as [Hos2 [(-> & f & p & b2 & -> & ? & ?)| ->]].
    + rewrite decide_False by auto. split; [done|]. right. exists (c ++ d, o).
      split; [constructor; by right|]. cbn. rewrite Hsize, zlen_app. split_and!; done || lia.
    + rewrite decide_True by done. split; [done|]. by left.
  - rewrite decide_False by auto. split; [done|]. right. exists (c ++ d, o).
    split; [constructor; by right|]. cbn. rewrite Hsize, zlen_app. split_and!; [done || lia..|].
    assert (zlen c + zlen d ≤ limit) as Hfit by lia.
    destruct (sp_spill_fp v) as [f|]; [|done]. destruct Hspill as (-> & ?). split; [|done].
    rewrite !drop_ge; [done|unfold zlen in *; rewrite ?length_app; lia..].
Qed.

Lemma read_refines v n r d v' c o :
  holds v (c, o) → zlen c < 2 ^ 63 → 0 ≤ n → lonejson_spooled_read v n = (r, d, v') →
  bytes_read r = zlen d
  ∧ ∃ q, queue_step hard (c, o) (Read n) (R_read d (eof r) (error_code r)) q ∧ holds v' q.
Proof.
  intros H Hshort Hn. pose proof (queue_memory_len v c o H) as Hlen.
  pose proof H as (Hl & Hx & Ho & Hm & Hs & Hr & Hspill). unfold lonejson_spooled_read.
  assert (holds v (c, o + 0)) as H0 by (by rewrite Z.add_0_r).
  destruct (n =? 0) eqn:En.
  { intros [= <- <- <-]. split; [done|]. exists (c, o + 0). split; [|done].
    apply (queue_read _ _ _ _ [] (drop (Z.to_nat o) c)); [done|done|left; lia|]. by rewrite En. }
  rewrite Hlen, Hr.
  assert (Z.min limit (zlen c) ≤ limit ∧ Z.min limit (zlen c) ≤ zlen c
          ∧ (Z.min limit (zlen c) = limit ∨ Z.min limit (zlen c) = zlen c)) as (Hm1 & Hm2 & Hm3) by (clear; lia).
  revert Hm1 Hm2 Hm3. generalize (Z.min limit (zlen c)). intros len Hm1 Hm2 Hm3.
  set (remaining := if o <? _ then _ else _).
  assert (remaining = Z.max 0 (len - o)) as Hrem
    by (subst remaining; clear; destruct (Z.ltb_spec o len); lia).
  set (copied := if remaining <? n then remaining else n).
  assert (copied = Z.min remaining n) as Hcop
    by (subst copied; clear; destruct (Z.ltb_spec remaining n); lia).
  clearbody remaining copied. rewrite Hm.
  assert (∀ l1 l2 : bytes, drop (Z.to_nat o) c = l1 ++ l2 → zlen c - o = zlen l1 + zlen l2) as Hcount.
  { intros l1 l2 Heq. apply (f_equal zlen) in Heq. rewrite zlen_app in Heq. rewrite <- Heq.
    unfold zlen. rewrite length_drop. unfold zlen in Ho. lia. }
  assert (∀ l : bytes, bool_decide (l = []) = (zlen l =? 0)) as Hempty.
  { intros [|x l]; [done|]. rewrite zlen_cons, bool_decide_eq_false_2 by done.
    pose proof (zlen_nonneg l). lia. }
  destruct (copied =? 0) eqn:Ec; cbn [negb].
  - destruct (sp_spill_fp v) as [f|] eqn:Esp.
    2:{ intros [= <- <- <-]. split; [done|]. exists (c, o + 0). split; [|done].
        apply (queue_read _ _ _ _ [] []); [|done|by right|by rewrite orb_true_r].
        apply drop_ge. unfold zlen in *. lia. }
    replace (_ <? 9223372036854775808) with true by lia.
    destruct Hspill as (Hdata & Hfault & Herr & Hseek). unfold pread.
    set (off := o - len) in *.
    destruct (fd_read_sound (f_at f off) n) as (got & f' & -> & _ & Hrest & Hle & Hgot); [|lia|].
    { split_and!; [done..|]. change (0 ≤ off). subst off. lia. }
    assert (f_rest (f_at f off) = drop (Z.to_nat o) c) as Hat.
    { unfold f_rest. cbn. rewrite Hdata, drop_drop. subst off.
      destruct (Z.le_gt_cases limit (zlen c)); [f_equal; lia|]. rewrite !drop_ge; [done|unfold zlen in *; lia..]. }
    rewrite Hat in *. cbn [fst]. intros [= <- <- <-]. split; [done|]. exists (c, o + zlen got).
    split; [|cbn; rewrite Esp; pose proof (Hcount _ _ Hrest); pose proof (zlen_nonneg (f_rest f'));
             pose proof (zlen_nonneg got); split_and!; done || lia].
    apply (queue_read _ _ _ _ _ (f_rest f')); [done|done| |].
    + intros ->. right. specialize (Hgot eq_refl). by rewrite Hgot in Hrest.
    + rewrite En, Hempty. cbn. rewrite Hs. pose proof (Hcount _ _ Hrest). pose proof (zlen_nonneg (f_rest f')). lia.
  - assert (take (Z.to_nat copied) (drop (Z.to_nat o) (take (Z.to_nat limit) c))
            = take (Z.to_nat copied) (drop (Z.to_nat o) c)) as ->.
    { rewrite !take_drop_commute, take_take. do 2 f_equal. lia. }
    set (data := take _ _). set (rest := drop (Z.to_nat copied) (drop (Z.to_nat o) c)).
    assert (drop (Z.to_nat o) c = data ++ rest) as Hsplit by (symmetry; apply take_drop).
    pose proof (Hcount _ _ Hsplit) as Hn'.
    assert (zlen data = copied) as Hdata.
    { subst data. unfold zlen. rewrite length_take, length_drop. unfold zlen in *. lia. }
    intros [= <- <- <-]. split; [by symmetry|]. exists (c, o + zlen data).
    pose proof (zlen_nonneg rest).
    split; [|cbn; rewrite Hdata; split_and!; try done; lia].
    apply (queue_read _ _ _ _ _ rest); [done|lia| |].
    + intros E. rewrite E, zlen_nil in Hdata. lia.
    + rewrite En, Hempty. cbn. rewrite Hs. lia.
Qed.

Lemma rewind_refines v e st v' e' c o :
  holds v (c, o) → lonejson_spooled_rewind (Some v) e = (st, Some v', e') →
  st = LONEJSON_STATUS_IO_ERROR
  ∨ ∃ q, queue_step hard (c, o) Rewind (R_status st) q ∧ holds v' q.
Proof.
  intros (Hl & Hx & Ho & Hm & Hs & Hr & Hspill). unfold lonejson_spooled_rewind.
  cbn. destruct (sp_spill_fp v) as [f|] eqn:Ef.
  - unfold fseek_start, spool_io_error, source_error. destruct (f_seekable f); cbn [negb].
    + intros [= <- <- <-]. right. exists (c, 0). split; [constructor|]. cbn.
      destruct Hspill. split_and!; done || lia.
    + split_error. intros [= <- <- <-]. by left.
  - intros [= <- <- <-]. right. exists (c, 0). split; [constructor|]. cbn. rewrite Ef.
    split_and!; done || lia.
Qed.

Lemma reset_refines v os v' os' c o :
  holds v (c, o) → lonejson_spooled_reset v os = (v', os') →
  holds v' ([], 0) ∧ os_temp os' = os_temp os.
Proof.
  intros (Hl & Hx & _). unfold lonejson_spooled_reset, lonejson_spooled_cleanup,
    lonejson__spooled_close_temp. cbn.
  destruct (sp_spill_fp v) eqn:Ef; cbn; (destruct (sp_temp_path v); cbn; intros [= <- <-]; cbn;
    rewrite ?Ef;
    rewrite ?take_nil, ?zlen_nil; split_and!; done || lia).
Qed.
End queue.

(** ** Sequences *)

Lemma step_refines limit hard s op r s' q :
  0 ≤ limit → spool_step s op r s' → r ≠ R_status LONEJSON_STATUS_IO_ERROR →
  spool_queue limit hard s.1 q → fresh_temps s.2 → zlen q.1 + zlen (op_data (op, r)) < 2 ^ 63 →
  fresh_temps s'.2 ∧ ∃ q', queue_step hard q op r q' ∧ spool_queue limit hard s'.1 q'.
Proof.
  intros Hlimit Hstep Hr H Hos Hshort. destruct q as [c o].
  destruct Hstep as [v os d e st v' os' e' Hcall|v os n rr d v' Hn Hcall|v os e st v' e' Hcall|v os v' os' Hcall];
    cbn [fst snd] in *.
  - pose proof (append_refines limit hard Hlimit v os d e c o H Hos) as Happ.
    unfold lonejson_spooled_append, lonejson__spooled_append in Hcall.
    rewrite bool_decide_eq_false_2 in Hcall by done. change (default [] (Some d)) with d in Hcall. cbn in Hcall.
    destruct (spooled_append_bytes v d os e) as [[[st1 v1] os1] e1].
    injection Hcall as <- <- <- <-. cbn in Hshort. rewrite zlen_app in Happ.
    destruct (Happ Hshort) as [? [->|?]]; [done|by split].
  - split; [done|]. eapply read_refines; try done. cbn in Hshort.
    rewrite zlen_nil in Hshort. lia.
  - split; [done|]. destruct (rewind_refines limit hard Hlimit v e st v' e' c o H Hcall) as [->|?]; [done|].
    done.
  - destruct (reset_refines limit hard Hlimit v os v' os' c o H Hcall) as [Hq Htemp].
    split; [unfold fresh_temps; by rewrite Htemp|]. exists ([], 0). split; [constructor|done].
Qed.

Lemma queue_step_bytes hard q op r q' :
  queue_step hard q op r q' → zlen q'.1 ≤ zlen q.1 + zlen (op_data (op, r)).
Proof.
  destruct 1; cbn; rewrite ?zlen_app, ?zlen_nil; pose proof (zlen_nonneg c);
    try (pose proof (zlen_nonneg d)); lia.
Qed.

Lemma trace_bytes_snoc l op r : trace_bytes (l ++ [(op, r)]) = trace_bytes l + zlen (op_data (op, r)).
Proof.
  unfold trace_bytes. rewrite flat_map_app, zlen_app. cbn. by rewrite app_nil_r.
Qed.

Lemma trace_refines limit hard s l s' :
  0 ≤ limit → spool_trace s l s' → no_io_error l → trace_bytes l < 2 ^ 63 →
  spool_queue limit hard s.1 ([], 0) → fresh_temps s.2 →
  fresh_temps s'.2 ∧ ∃ q, queue_trace hard l q ∧ spool_queue limit hard s'.1 q
                     ∧ zlen q.1 ≤ trace_bytes l.
Proof.
  intros Hlimit Htr. induction Htr as [|l s1 op r s2 _ IH Hstep]; intros Hok Hshort Hs Hos.
  - split; [done|]. exists ([], 0). split_and!; [constructor|done|done].
  - apply Forall_app in Hok. destruct Hok as [Hok [Hr _]%Forall_cons]. rewrite trace_bytes_snoc in *.
    pose proof (zlen_nonneg (op_data (op, r))).
    destruct (IH Hok ltac:(lia) Hs Hos) as (Hos1 & q & Hq & Hrel & Hlen).
    destruct (step_refines limit hard s1 op r s2 q) as (Hos2 & q2 & Hq2 & Hrel2); [done..|lia|].
    split; [done|]. exists q2. split_and!; [by econstructor|done|].
    pose proof (queue_step_bytes _ _ _ _ _ Hq2). lia.
Qed.

(** A value just initialised is an empty queue with the configured limits. *)
Lemma init_queue options a :
  let local := default lonejson__default_spool_options options in
  0 ≤ so_memory_limit local →
  spool_queue (so_memory_limit local) (so_max_bytes local)
    (lonejson_spooled_init_with_allocator options a) ([], 0).
Proof.
  intros local Hl. unfold lonejson_spooled_init_with_allocator.
  destruct (lonejson__owned_strdup a _) as [dir a']. cbn.
  split_and!; rewrite ?take_nil; try done; change (@zlen Z []) with 0; lia.
Qed.

(** ** Copying to a sink *)

Lemma queue_read_inv hard c o n d ef er q :
  queue_step hard (c, o) (Read n) (R_read d ef er) q →
  er = 0 ∧ q = (c, o + zlen d) ∧ ∃ rest,
    drop (Z.to_nat o) c = d ++ rest ∧ (d = [] → n = 0 ∨ rest = [])
    ∧ ef = (n =? 0) || bool_decide (rest = []).
Proof. inversion 1; subst. split_and!; [done..|]. eauto. Qed.

Lemma copy_loop_content {U} (sink : lonejson_sink_fn U) `{!LosslessSink sink} limit hard fuel v u e c o :
  0 ≤ limit → spool_queue limit hard v (c, o) → zlen c < 2 ^ 63 → (Z.to_nat (zlen c - o) < fuel)%nat →
  ∃ u', spooled_copy_loop sink fuel v u e = Done (LONEJSON_STATUS_OK, u', e)
        ∧ sink_out sink u' = sink_out sink u ++ drop (Z.to_nat o) c.
Proof.
  intros Hlimit. revert v u o. induction fuel as [|fuel IH]; intros v u o H Hshort Hf; [lia|].
  cbn [spooled_copy_loop]. destruct (lonejson_spooled_read v 4096) as [[chunk buffer] v'] eqn:Er.
  destruct (read_refines limit hard Hlimit v 4096 chunk buffer v' c o H Hshort ltac:(lia) Er)
    as (Hbr & q & Hq & H').
  assert (0 ≤ o ≤ zlen c) as Ho by apply H.
  apply queue_read_inv in Hq. destruct Hq as (Herr & -> & rest & Hrest & Hnil & Heof).
  rewrite Herr, Hbr, Heof. cbn [negb Z.eqb orb].
  pose proof (zlen_nonneg buffer) as Hb.
  assert (∃ u1, (if negb (zlen buffer =? 0) then sink u buffer e else (LONEJSON_STATUS_OK, u, e))
                = (LONEJSON_STATUS_OK, u1, e) ∧ sink_out sink u1 = sink_out sink u ++ buffer)
    as (u1 & -> & Hu1).
  { destruct buffer as [|b buffer]; [exists u; by rewrite app_nil_r|].
    destruct (sink_lossless sink u (b :: buffer) e) as (u1 & Hs & Hu). exists u1.
    rewrite zlen_cons. replace (zlen buffer + 1 =? 0) with false by (pose proof (zlen_nonneg buffer); lia).
    by rewrite Hs. }
  cbn [status_fails]. rewrite Hrest, app_assoc, <- Hu1. case_bool_decide as Hr.
  { subst rest. exists u1. by rewrite app_nil_r. }
  assert (buffer ≠ []) as Hne by (intros ->; destruct (Hnil eq_refl); [lia|done]).
  destruct (IH v' u1 (o + zlen buffer)) as (u2 & -> & Hu2); [done..| |].
  { destruct buffer as [|b l]; [done|]. apply (f_equal zlen) in Hrest. rewrite zlen_app, zlen_cons in Hrest.
    unfold zlen in *. rewrite length_drop in Hrest. simpl length in *. lia. }
  exists u2. split; [done|]. rewrite Hu2. f_equal. unfold zlen.
  rewrite Z2Nat.inj_add, Nat2Z.id by (clear -Ho; lia).
  by rewrite <- drop_drop, Hrest, drop_app_length.
Qed.

Lemma write_to_sink_content {U} (sink : lonejson_sink_fn U) `{!LosslessSink sink} limit hard fuel v u e c o :
  0 ≤ limit → spool_queue limit hard v (c, o) → zlen c < 2 ^ 63 → (length c < fuel)%nat →
  ∃ u' e', lonejson_spooled_write_to_sink sink fuel (Some v) u e = Done (LONEJSON_STATUS_OK, u', e')
           ∧ sink_out sink u' = sink_out sink u ++ c.
Proof.
  intros Hlimit H Hshort Hf. unfold lonejson_spooled_write_to_sink.
  destruct (lonejson_spooled_rewind (Some v) e) as [[st [cursor|]] e1] eqn:Er.
  2:{ exfalso. revert Er. unfold lonejson_spooled_rewind. cbn. destruct (sp_spill_fp v) as [f|]; [|done].
      unfold fseek_start. destruct (f_seekable f); [done|]. cbn. by destruct (spool_io_error _ _ _). }
  assert (st = LONEJSON_STATUS_OK) as ->.
  { revert Er. unfold lonejson_spooled_rewind. cbn. destruct (sp_spill_fp v) as [f|] eqn:Ef; [|congruence].
    destruct H as (_ & _ & _ & _ & _ & _ & H). rewrite Ef in H. destruct H as (_ & _ & _ & Hseek).
    unfold fseek_start. rewrite Hseek. cbn. congruence. }
  destruct (rewind_refines limit hard Hlimit v e _ cursor e1 c o H Er) as [?|(q & Hq & H')]; [done|].
  inversion Hq; subst.
  destruct (copy_loop_content sink limit hard fuel cursor u e1 c 0) as (u' & -> & Hu); [done..| |].
  { unfold zlen. lia. }
  exists u', e1. by rewrite Hu, drop_0.
Qed.

(** ** What a value owns

    [k0] and [streams0] are the blocks and streams of others. *)
Definition memory_blocks (v : lonejson_spooled) : Z := one_if (bool_decide (is_Some (sp_memory v))).
Definition dir_blocks (v : lonejson_spooled) : Z := one_if (bool_decide (is_Some (sp_temp_dir v))).

Definition spool_owned (base : option Z) (streams0 : Z) (v : lonejson_spooled) (os : spool_os) : Prop :=
  live_blocks (sp_allocator v) = shift (memory_blocks v + dir_blocks v) base
  ∧ os_streams os = streams0 + one_if (bool_decide (is_Some (sp_spill_fp v)))
  ∧ ∀ p, p ∈ os_created os →
      p ∈ os_unlinked os ∨ (is_Some (sp_spill_fp v) ∧ p = sp_temp_path v ∧ p ≠ []).

Section owned.
#[local] Set Default Proof Using "Type*".
Context (base : option Z) (streams0 : Z).
#[local] Abbreviation owned := (spool_owned base streams0).

Lemma owned_strdup_blocks a src :
  let '(dir, a') := lonejson__owned_strdup a src in
  live_blocks a' = shift (one_if (bool_decide (is_Some dir))) (live_blocks a).
Proof.
  destruct src as [[|b s]|]; cbn; [by rewrite shift_0| |by rewrite shift_0].
  pose proof (owned_malloc_blocks a (zlen (b :: s) + 1)) as H.
  destruct (lonejson__owned_malloc _ _) as [[] a']; by destruct H as (_ & -> & _).
Qed.

Lemma open_temp_owned v os e :
  owned v os →
  let '(st, v', os', e') := lonejson__spooled_open_temp v os e in
  owned v' os' ∧ (st = LONEJSON_STATUS_OK → is_Some (sp_spill_fp v')).
Proof.
  intros (Hb & Hs & Hp). unfold lonejson__spooled_open_temp, spool_io_error, source_error.
  destruct (sp_spill_fp v) as [f|] eqn:Ef.
  { split; [by rewrite <- Ef in Hs, Hp|]. intros _. by rewrite Ef. }
  assert (∀ p, p ∈ os_created os → p ∈ os_unlinked os) as Hp' by (intros p Hin; by destruct (Hp p Hin) as [?|[[] _]]).
  cbn in Hs. destruct (sp_temp_dir v) as [[|b dir]|] eqn:Ed; [| |].
  2: destruct (_ <=? _); [|destruct (os_attempt os) as [suffix f|errno|suffix errno]].
  all: try (destruct (os_attempt os) as [suffix f|errno|suffix errno]).
  all: try split_error.
  all: unfold memory_blocks, dir_blocks in Hb; rewrite Ed in Hb;
    unfold spool_owned, memory_blocks, dir_blocks; cbn; rewrite ?Ef, ?Ed; split; [split_and!; [exact Hb|cbn; lia|]|done].
  all: intros p Hin; rewrite ?elem_of_app, ?list_elem_of_singleton in *.
  all: repeat match goal with H : _ ∨ _ |- _ => destruct H as [H| ->] end; auto.
Qed.

(** Calls that leave the blocks and whether there is a stream alone. *)
Lemma owned_same v v' os :
  owned v os → sp_allocator v' = sp_allocator v → memory_blocks v' = memory_blocks v →
  sp_temp_dir v' = sp_temp_dir v → sp_temp_path v' = sp_temp_path v →
  (is_Some (sp_spill_fp v') ↔ is_Some (sp_spill_fp v)) → owned v' os.
Proof.
  intros (Hb & Hs & Hp) Ha Hm Hd Hpath Hiff. unfold spool_owned, dir_blocks. rewrite Ha, Hm, Hd, Hpath.
  split_and!; [done| |].
  - by rewrite (bool_decide_ext _ _ Hiff).
  - intros p Hin. rewrite Hiff. by apply Hp.
Qed.

Lemma spool_to_memory_owned v d os e :
  owned v os →
  let '(st, v', e') := spool_to_memory v d e in owned v' os.
Proof.
  intros H. unfold spool_to_memory, lonejson__spooled_reserve_memory, source_error.
  destruct (zlen d =? 0) eqn:Ed; [done|]. cbn [negb]. pose proof (zlen_nonneg d).
  replace (_ <=? sp_memory_len v) with false by lia.
  pose proof (owned_realloc_blocks (sp_allocator v) (bool_decide (sp_memory v = None)) (sp_block v)
    (sp_memory_len v + zlen d)) as Hr.
  assert (0 ≤ sp_memory_len v) by apply zlen_nonneg.
  destruct (lonejson__owned_realloc _ _ _ _) as [ok a]. destruct Hr as (_ & Hr & _); [lia|].
  destruct H as (Hb & Hs & Hp).
  assert (bool_decide (sp_memory v = None) = negb (bool_decide (is_Some (sp_memory v)))) as Hnone.
  { by destruct (sp_memory v). }
  rewrite Hnone, Hb, shift_shift in Hr.
  destruct ok; cbn [negb andb] in *.
  - rewrite decide_False by auto. split_and!; [|done|done]. cbn. rewrite Hr. f_equal.
    unfold memory_blocks, dir_blocks. cbn. destruct (sp_memory v); cbn; lia.
  - split_error. rewrite decide_True by done. split_and!; [|done|done]. cbn. rewrite Hr. f_equal.
    unfold memory_blocks, dir_blocks. cbn. lia.
Qed.

Lemma spool_to_file_owned v d os e :
  owned v os →
  let '(st, v', os', e') := spool_to_file v d os e in owned v' os'.
Proof.
  intros H. unfold spool_to_file, spool_io_error, source_error.
  pose proof (open_temp_owned v os e H) as Ho.
  destruct (lonejson__spooled_open_temp v os e) as [[[st v1] os1] e1]. destruct Ho as [Ho Hsome].
  case_decide; [done|]. destruct (sp_spill_fp v1) as [f|] eqn:Ef; [|done].
  assert (∀ f' n, owned (sp_set_spill (Some f') v1) (os_write n os1)) as Hw.
  { intros f' n. destruct Ho as (Hb & Hs & Hp). rewrite Ef in Hs, Hp.
    split_and!; [exact Hb|exact Hs|]. intros p Hin. destruct (Hp p Hin) as [?|[_ ?]]; [by left|by right]. }
  destruct (f_seekable f); cbn [negb]; [|by split_error].
  unfold fwrite_end. destruct (negb _); [split_error|]; apply Hw.
Qed.

Lemma append_owned v d os e :
  owned v os →
  let '(st, v', os', e') := spooled_append_bytes v d os e in owned v' os'.
Proof.
  intros H. unfold spooled_append_bytes, source_error. destruct (zlen d =? 0); [done|].
  destruct (negb _ && _); [by split_error|]. set (copy := if zlen d <? _ then _ else _).
  pose proof (spool_to_memory_owned v (take (Z.to_nat copy) d) os e H) as Hm.
  destruct (spool_to_memory v _ e) as [[st v1] e1]. case_decide; [done|].
  destruct (copy <? zlen d); [|done].
  pose proof (spool_to_file_owned v1 (drop (Z.to_nat copy) d) os e1 Hm) as Hf.
  destruct (spool_to_file _ _ _ _) as [[[st2 v2] os2] e2]. by case_decide.
Qed.

Lemma close_temp_owned v os :
  owned v os →
  let '(v', os') := lonejson__spooled_close_temp v os in
  owned v' os' ∧ sp_spill_fp v' = None ∧ sp_memory v' = sp_memory v ∧ sp_temp_dir v' = sp_temp_dir v.
Proof.
  intros (Hb & Hs & Hp). unfold lonejson__spooled_close_temp.
  destruct (sp_spill_fp v) as [f|] eqn:Ef;
    (destruct (sp_temp_path _) as [|b path] eqn:Ep; cbn [sp_set_spill sp_temp_path] in Ep;
     (split; [|by split_and!])); (split; [exact Hb|]); (split; [cbn in *; rewrite ?Ef; cbn; lia|]);
    intros p Hin; cbn in Hin; cbn; rewrite ?elem_of_app, ?list_elem_of_singleton; left;
    destruct (Hp p Hin) as [?|(Hsome & -> & ?)]; rewrite ?Ep in *; auto; by destruct Hsome.
Qed.

Lemma temp_dir_free_owned v os : owned v os → owned (temp_dir_free v) os.
Proof.
  intros (Hb & Hs & Hp). unfold spool_owned, temp_dir_free.
  cbn [sp_allocator sp_set_temp_dir sp_set_allocator sp_spill_fp sp_temp_path].
  pose proof (owned_free_blocks (sp_allocator v) (bool_decide (sp_temp_dir v = None))
                (zlen (default [] (sp_temp_dir v)) + 1)) as [_ ->].
  split_and!; [|done|done]. rewrite Hb, shift_shift. f_equal. unfold memory_blocks, dir_blocks.
  cbn [sp_memory sp_temp_dir sp_set_temp_dir sp_set_allocator]. destruct (sp_temp_dir v); cbn; lia.
Qed.

(** The first assignments of a cleanup. *)
Lemma memory_free_owned v os a :
  owned v os →
  a = lonejson__owned_free (sp_allocator v) (bool_decide (sp_memory v = None)) (sp_block v) →
  owned (sp_set_spilled false (sp_set_read_offset 0 (sp_set_size 0
           (sp_set_memory None 0 (sp_set_allocator a v))))) os.
Proof.
  intros (Hb & Hs & Hp) ->. unfold spool_owned.
  cbn [sp_allocator sp_set_spilled sp_set_read_offset sp_set_size sp_set_memory sp_set_allocator
       sp_spill_fp sp_temp_path].
  pose proof (owned_free_blocks (sp_allocator v) (bool_decide (sp_memory v = None)) (sp_block v)) as [_ ->].
  split_and!; [|done|done]. rewrite Hb, shift_shift. f_equal. unfold memory_blocks, dir_blocks. cbn.
  destruct (sp_memory v); cbn; lia.
Qed.

Lemma cleanup_owned v os :
  owned v os →
  let '(v', os') := lonejson_spooled_cleanup v os in
  owned v' os' ∧ sp_memory v' = None ∧ sp_temp_dir v' = None ∧ sp_spill_fp v' = None.
Proof.
  intros H. unfold lonejson_spooled_cleanup.
  pose proof (close_temp_owned _ os (memory_free_owned v os _ H eq_refl)) as Hc.
  destruct (lonejson__spooled_close_temp _ os) as [v1 os1]. destruct Hc as (Ho & Hf & Hm & Hd).
  split; [by apply temp_dir_free_owned|]. by split_and!.
Qed.
End owned.

(** [reset] takes the directory name out and puts it back. *)
Lemma reset_owned base streams0 v os :
  spool_owned base streams0 v os →
  let '(v', os') := lonejson_spooled_reset v os in spool_owned base streams0 v' os'.
Proof.
  intros (Hb & Hs & Hp). unfold lonejson_spooled_reset.
  pose proof (cleanup_owned (shift (dir_blocks v) base) streams0 (sp_set_temp_dir None v) os) as H.
  destruct (lonejson_spooled_cleanup _ os) as [v1 os1]. destruct H as ((Hb1 & Hs1 & Hp1) & Hm & Hd & Hf).
  { split_and!; [|done|done]. cbn [sp_allocator sp_set_temp_dir]. rewrite Hb, shift_shift. f_equal.
    unfold memory_blocks, dir_blocks. cbn. lia. }
  unfold memory_blocks, dir_blocks in *. rewrite Hm, Hd in Hb1. rewrite Hf in Hs1.
  split_and!.
  - unfold memory_blocks, dir_blocks. cbn. rewrite Hb1, shift_shift, Hm. f_equal. cbn. lia.
  - cbn. by rewrite Hf.
  - intros p Hin. left. cbn in *. by destruct (Hp1 p Hin) as [?|([] & _)]; [|rewrite Hf in *].
Qed.

Lemma step_owned base streams0 s op r s' :
  spool_step s op r s' → spool_owned base streams0 s.1 s.2 → spool_owned base streams0 s'.1 s'.2.
Proof.
  destruct 1 as [v os d e st v' os' e' Hcall|v os n rr d v' Hn Hcall|v os e st v' e' Hcall|v os v' os' Hcall];
    cbn [fst snd]; intros H.
  - pose proof (append_owned base streams0 v d os e H) as Ha.
    unfold lonejson_spooled_append, lonejson__spooled_append in Hcall.
    rewrite bool_decide_eq_false_2 in Hcall by done. change (default [] (Some d)) with d in Hcall.
    cbn in Hcall. destruct (spooled_append_bytes v d os e) as [[[st1 v1] os1] e1].
    by injection Hcall as <- <- <- <-.
  - revert Hcall. unfold lonejson_spooled_read. destruct (n =? 0); [by intros [= <- <- <-]|].
    destruct (negb _); [intros [= <- <- <-]; by apply (owned_same base streams0 v)|].
    destruct (sp_spill_fp v) as [f|] eqn:Ef; [|by intros [= <- <- <-]].
    destruct (_ <? 9223372036854775808).
    + destruct (pread f n _); intros [= <- <- <-]; by apply (owned_same base streams0 v).
    + destruct (fread f n) as [[got errno] f']. intros [= <- <- <-].
      apply (owned_same base streams0 v); try done; cbn; by rewrite Ef.
  - revert Hcall. unfold lonejson_spooled_rewind, spool_io_error, source_error. cbn.
    destruct (sp_spill_fp v) as [f|] eqn:Ef.
    + unfold fseek_start. destruct (f_seekable f); cbn [negb]; [|split_error]; intros [= <- <- <-];
        apply (owned_same base streams0 v); try done; cbn; by rewrite Ef.
    + intros [= <- <- <-]. by apply (owned_same base streams0 v).
  - pose proof (reset_owned base streams0 v os H) as Hr. by rewrite Hcall in Hr.
Qed.

Lemma trace_owned base streams0 s l s' :
  spool_trace s l s' → spool_owned base streams0 s.1 s.2 → spool_owned base streams0 s'.1 s'.2.
Proof. intros Ht H. induction Ht; [done|]. by eapply step_owned; [|apply IHHt]. Qed.

Lemma init_owned options a os :
  os_created os = [] →
  spool_owned (live_blocks a) (os_streams os) (lonejson_spooled_init_with_allocator options a) os.
Proof.
  intros Hc. unfold lonejson_spooled_init_with_allocator.
  pose proof (owned_strdup_blocks a (options ≫= so_temp_dir)) as H.
  destruct (lonejson__owned_strdup a _) as [dir a']. split_and!.
  - exact H.
  - cbn. lia.
  - rewrite Hc. intros p Hin. by apply not_elem_of_nil in Hin.
Qed.

(** ** Properties *)

(** C15: a spooled value is a byte queue.  Take any sequence of appends, reads of any
    sizes, rewinds and resets on an initialised value, over any allocator and any
    outcomes of the temporary files but an I/O error.  What the calls returned is
    what the abstract queue returns: an append is taken whole or refused whole, for
    the hard limit or for memory; a read gives the next bytes, at least one unless
    the content is used up, and reports the end exactly there.  The size is that of
    the content, the part in memory its prefix within the limit, and copying the
    value to a sink delivers the content. *)
Theorem spooled_refines {U} (sink : lonejson_sink_fn U) `{!LosslessSink sink} options a os l s fuel u e :
  let limits := default lonejson__default_spool_options options in
  0 ≤ so_memory_limit limits → fresh_temps os →
  spool_trace (lonejson_spooled_init_with_allocator options a, os) l s →
  no_io_error l → trace_bytes l < 2 ^ 63 →
  ∃ c o,
    queue_trace (so_max_bytes limits) l (c, o)
    ∧ lonejson_spooled_size (Some s.1) = zlen c
    ∧ sp_memory_len s.1 = Z.min (so_memory_limit limits) (zlen c)
    ∧ ((length c < fuel)%nat → ∃ u' e',
         lonejson_spooled_write_to_sink sink fuel (Some s.1) u e = Done (LONEJSON_STATUS_OK, u', e')
         ∧ sink_out sink u' = sink_out sink u ++ c).
Proof.
  intros limits Hlimit Hos Htr Hok Hshort.
  pose proof (init_queue options a Hlimit) as Hinit.
  destruct (trace_refines (so_memory_limit limits) (so_max_bytes limits) _ l s Hlimit Htr Hok Hshort
    Hinit Hos) as (_ & [c o] & Hq & Hrel & Hlen).
  cbn [fst] in Hlen. exists c, o. split_and!; [done| | |].
  - cbn. by destruct Hrel as (_ & _ & _ & _ & -> & _).
  - by eapply queue_memory_len.
  - intros Hf. eapply (write_to_sink_content sink); [exact Hlimit|exact Hrel|lia|done].
Qed.

(** C24: nothing leaks.  After any calls, with any results, over an allocator and an
    operating system that may fail at any point, cleaning the value up returns the
    heap blocks and the open streams to what they were before it was initialised,
    and every temporary file that was created has been unlinked. *)
Theorem spooled_no_leak options a os l s :
  os_created os = [] →
  spool_trace (lonejson_spooled_init_with_allocator options a, os) l s →
  let '(v, os') := lonejson_spooled_cleanup s.1 s.2 in
  live_blocks (sp_allocator v) = live_blocks a ∧ os_streams os' = os_streams os
  ∧ ∀ p, p ∈ os_created os' → p ∈ os_unlinked os'.
Proof.
  intros Hc Htr. pose proof (trace_owned _ _ _ _ _ Htr (init_owned options a os Hc)) as H.
  apply cleanup_owned in H. destruct (lonejson_spooled_cleanup s.1 s.2) as [v os'].
  destruct H as ((Hb & Hs & Hp) & Hm & Hd & Hf).
  unfold memory_blocks, dir_blocks in Hb. rewrite Hm, Hd in Hb. rewrite Hf in *. split_and!.
  - rewrite Hb. apply shift_0.
  - rewrite Hs. cbn. lia.
  - intros p Hin. by destruct (Hp p Hin) as [?|([] & _)].
Qed.

(** ** Examples

    Four bytes stay in memory, the rest goes to a named file. *)

Definition demo_temp_file : c_file := mk_file [] 0 true None false (λ _, 3).
Definition demo_os : spool_os :=
  mk_os (λ _, Temp_stream (c_str "aB3xYz") demo_temp_file) 0 1000 0 [] [].
(** No temporary file can be had. *)
Definition demo_os_no_files : spool_os := mk_os (λ _, Temp_no_file 24) 0 1000 0 [] [].
Definition demo_options : lonejson__spool_options := mk_spool_options 4 10 (Some (c_str "/tmp")).

Definition demo_append (s : lonejson_spooled * spool_os) (d : bytes) : lonejson_spooled * spool_os :=
  let '(_, v, os, _) := spooled_append_bytes s.1 d s.2 None in (v, os).
Definition demo_start (os : spool_os) : lonejson_spooled * spool_os :=
  (lonejson_spooled_init_with_allocator (Some demo_options) fresh_allocator, os).
Definition demo_end : lonejson_spooled * spool_os :=
  demo_append (demo_append (demo_start demo_os) (c_str "abc")) (c_str "defgh").
Definition demo_calls : list (spool_op * spool_result) :=
  [(Append (c_str "abc"), R_status LONEJSON_STATUS_OK);
   (Append (c_str "defgh"), R_status LONEJSON_STATUS_OK)].

Lemma demo_append_step (s s' : lonejson_spooled * spool_os) d st :
  lonejson_spooled_append (Some s.1) (Some d) (zlen d) s.2 None = (st, Some s'.1, s'.2, None) →
  spool_step s (Append d) (R_status st) s'.
Proof. destruct s, s'. apply step_append. Qed.

Lemma demo_trace : spool_trace (demo_start demo_os) demo_calls demo_end.
Proof.
  apply (trace_snoc _ [(Append (c_str "abc"), R_status LONEJSON_STATUS_OK)]
           (demo_append (demo_start demo_os) (c_str "abc"))).
  - apply (trace_snoc _ [] (demo_start demo_os)); [constructor|]. apply demo_append_step; vm_compute; reflexivity.
  - apply demo_append_step; vm_compute; reflexivity.
Qed.

Lemma spooled_refines_witness :
  ∃ c o, queue_trace 10 demo_calls (c, o) ∧ lonejson_spooled_size (Some demo_end.1) = zlen c
    ∧ sp_memory_len demo_end.1 = Z.min 4 (zlen c)
    ∧ ((length c < 20)%nat → ∃ u' e',
         lonejson_spooled_write_to_sink collect_sink 20 (Some demo_end.1) [] None
         = Done (LONEJSON_STATUS_OK, u', e')
         ∧ sink_out collect_sink u' = sink_out collect_sink [] ++ c).
Proof.
  destruct (spooled_refines collect_sink (Some demo_options) fresh_allocator demo_os demo_calls demo_end 20
             [] None) as (c & o & H1 & H2 & H3 & H4).
  - done.
  - intros k suffix f [= <- <-]. done.
  - exact demo_trace.
  - repeat constructor; done.
  - done.
  - exists c, o. split; [exact H1|]. split; [exact H2|]. split; [exact H3|exact H4].
Defined.

Lemma spooled_no_leak_witness :
  let '(v, os') := lonejson_spooled_cleanup demo_end.1 demo_end.2 in
  live_blocks (sp_allocator v) = live_blocks fresh_allocator ∧ os_streams os' = os_streams demo_os
  ∧ ∀ p, p ∈ os_created os' → p ∈ os_unlinked os'.
Proof.
  exact (spooled_no_leak (Some demo_options) fresh_allocator demo_os demo_calls demo_end eq_refl demo_trace).
Defined.

(** An append that fails at the temporary file has already put its first bytes into
    memory: they are delivered by a copy although the size is still 0, and stay in
    front of what a later append stores. *)
Example append_not_atomic :
  let s := demo_append (demo_start demo_os_no_files) (c_str "abcdef") in
  (lonejson_spooled_append (Some (demo_start demo_os_no_files).1) (Some (c_str "abcdef")) 6
     demo_os_no_files None).1.1.1 = LONEJSON_STATUS_IO_ERROR
  ∧ lonejson_spooled_size (Some s.1) = 0
  ∧ lonejson_spooled_write_to_sink collect_sink 20 (Some s.1) [] None
    = Done (LONEJSON_STATUS_OK, c_str "abcd", None)
  ∧ lonejson_spooled_write_to_sink collect_sink 20
      (Some (demo_append (s.1, demo_os) (c_str "xy")).1) [] None
    = Done (LONEJSON_STATUS_OK, c_str "abcdxy", None).
Proof. by vm_compute. Qed.

(** Where the directory is too long for [temp_path], the truncated path is kept, and
    the cleanup unlinks a file of that name, which the library never made. *)
Example cleanup_unlinks_foreign :
  let dir := replicate 600 97 in
  let v := lonejson_spooled_init_with_allocator (Some (mk_spool_options 0 0 (Some dir))) fresh_allocator in
  let s := demo_append (v, demo_os) [120] in
  os_unlinked (lonejson_spooled_cleanup s.1 s.2).2 = [replicate 511 97]
  ∧ os_created (lonejson_spooled_cleanup s.1 s.2).2 = [].
Proof. by vm_compute. Qed.
