(* ===== verification/Base64.v ===== *)
(** * Base64 codec ([src/impl/09_base64.h])

    The four RFC 4648 variants: length computation with its overflow checks,
    streaming encoder, validator and streaming decoder, and the two entry
    points that write into a caller buffer.  A [const char *] / length pair is
    an [option bytes] ([None] is NULL) with the length; a pointer into the
    input is the bytes from there on. *)

From stdpp Require Import base numbers list strings.
From Stdlib Require Import ZArith Lia.
From S2P Require Import Prelude Runtime.

(** ** Variants and alphabets *)

Inductive lonejson_base64_variant :=
| LONEJSON_BASE64_STANDARD
| LONEJSON_BASE64_STANDARD_RAW
| LONEJSON_BASE64_URL
| LONEJSON_BASE64_URL_RAW
(* any other value of the C enumeration's integer type *)
| LONEJSON_BASE64_OTHER (v : Z).

Definition lonejson__base64_std_alphabet : bytes :=
  Eval vm_compute in
    c_str "ABCDEFGHIJKLMNOPQRSTUVWXYZabcdefghijklmnopqrstuvwxyz0123456789+/".
Definition lonejson__base64_url_alphabet : bytes :=
  Eval vm_compute in
    c_str "ABCDEFGHIJKLMNOPQRSTUVWXYZabcdefghijklmnopqrstuvwxyz0123456789-_".

Definition lonejson__base64_is_url (variant : lonejson_base64_variant) : bool :=
  match variant with
  | LONEJSON_BASE64_URL | LONEJSON_BASE64_URL_RAW => true
  | _ => false
  end.

Definition lonejson__base64_is_raw (variant : lonejson_base64_variant) : bool :=
  match variant with
  | LONEJSON_BASE64_STANDARD_RAW | LONEJSON_BASE64_URL_RAW => true
  | _ => false
  end.

Definition lonejson__base64_alphabet (variant : lonejson_base64_variant) : bytes :=
  if lonejson__base64_is_url variant then lonejson__base64_url_alphabet
  else lonejson__base64_std_alphabet.

Definition lonejson__base64_variant_valid (variant : lonejson_base64_variant) : bool :=
  match variant with
  | LONEJSON_BASE64_OTHER _ => false
  | _ => true
  end.

Definition lonejson__base64_value_for_variant (ch : Z)
    (variant : lonejson_base64_variant) : Z :=
  if ("A"%ch <=? ch) && (ch <=? "Z"%ch) then ch - "A"%ch
  else if ("a"%ch <=? ch) && (ch <=? "z"%ch) then ch - "a"%ch + 26
  else if ("0"%ch <=? ch) && (ch <=? "9"%ch) then ch - "0"%ch + 52
  else if lonejson__base64_is_url variant then
    if ch =? "-"%ch then 62 else if ch =? "_"%ch then 63 else -1
  else
    if ch =? "+"%ch then 62 else if ch =? "/"%ch then 63 else -1.

Definition lonejson__base64_require_variant (variant : lonejson_base64_variant)
    (error : error_ptr) : lonejson_status * error_ptr :=
  if negb (lonejson__base64_variant_valid variant)
  then lonejson__set_error error LONEJSON_STATUS_INVALID_ARGUMENT 0 0 0
         "base64 variant is invalid"
  else (LONEJSON_STATUS_OK, error).

(** ** Encoded length

    [out_len] is the output pointer: [None] is NULL, [Some v] its content. *)

Definition lonejson_base64_encoded_len (len : Z) (variant : lonejson_base64_variant)
    (out_len : option Z) (error : error_ptr) : lonejson_status * option Z * error_ptr :=
  let error := lonejson__clear_error error in
  match out_len with
  | None =>
      let '(st, error) := lonejson__set_error error LONEJSON_STATUS_INVALID_ARGUMENT 0 0 0
                            "base64 encoded length output is required" in
      (st, None, error)
  | Some _ =>
      let '(st, error) := lonejson__base64_require_variant variant error in
      if decide (st ≠ LONEJSON_STATUS_OK)
      then (LONEJSON_STATUS_INVALID_ARGUMENT, Some 0, error)
      else
        let groups := len / 3 in
        let rem := len mod 3 in
        if SIZE_MAX / 4 <? groups
        then let '(st, error) := lonejson__set_error error LONEJSON_STATUS_OVERFLOW 0 0 0
                                   "base64 encoded length overflows" in
             (st, Some 0, error)
        else
          let encoded := u64 (groups * 4) in
          if negb (rem =? 0) then
            if lonejson__base64_is_raw variant
            then (LONEJSON_STATUS_OK, Some (u64 (encoded + (rem + 1))), error)
            else if SIZE_MAX - 4 <? encoded
            then let '(st, error) := lonejson__set_error error LONEJSON_STATUS_OVERFLOW 0 0 0
                                       "base64 encoded length overflows" in
                 (st, Some 0, error)
            else (LONEJSON_STATUS_OK, Some (u64 (encoded + 4)), error)
          else (LONEJSON_STATUS_OK, Some encoded, error)
  end.

(** ** Encoder *)

(** [data] holds the [len] (1 to 3) bytes of the group; the source reads
    [data[1]] and [data[2]] only when they exist. *)
Definition base64_quad (data : bytes) (len : Z) (variant : lonejson_base64_variant) : bytes :=
  let alphabet := lonejson__base64_alphabet variant in
  let at_ (i : Z) := nth (Z.to_nat i) alphabet 0 in
  let d0 := nth 0 data 0 in
  let d1 := if 1 <? len then nth 1 data 0 else 0 in
  let d2 := if 2 <? len then nth 2 data 0 else 0 in
  let raw := lonejson__base64_is_raw variant in
  [at_ (Z.land (Z.shiftr d0 2) 63);
   at_ (Z.lor (Z.shiftl (Z.land d0 3) 4) (Z.shiftr d1 4))]
  ++ (if 1 <? len then [at_ (Z.lor (Z.shiftl (Z.land d1 15) 2) (Z.shiftr d2 6))]
      else if negb raw then ["="%ch] else [])
  ++ (if 2 <? len then [at_ (Z.land d2 63)]
      else if negb raw then ["="%ch] else []).

Section encoder.
Context {U : Type} (sink : lonejson_sink_fn U).

Definition lonejson__base64_emit_quad (data : bytes) (len : Z)
    (variant : lonejson_base64_variant) (user : U) (error : error_ptr) :
    lonejson_status * U * error_ptr :=
  sink user (base64_quad data len variant) error.

(** The loop of [lonejson_base64_encode_sink] and its tail call: [data] is
    what is left from [offset]. *)
Fixpoint encode_sink_loop (data : bytes) (variant : lonejson_base64_variant)
    (user : U) (error : error_ptr) : lonejson_status * U * error_ptr :=
  match data with
  | a :: b :: c :: rest =>
      let '(st, user, error) :=
        lonejson__base64_emit_quad [a; b; c] 3 variant user error in
      if decide (st ≠ LONEJSON_STATUS_OK) then (st, user, error)
      else encode_sink_loop rest variant user error
  | [] => (LONEJSON_STATUS_OK, user, error)
  | _ => lonejson__base64_emit_quad data (zlen data) variant user error
  end.
End encoder.

(** The sink argument is an option: [None] is the NULL function pointer. *)
Definition lonejson_base64_encode_sink {U} (data : option bytes) (len : Z)
    (variant : lonejson_base64_variant) (sink : option (lonejson_sink_fn U)) (user : U)
    (error : error_ptr) : lonejson_status * U * error_ptr :=
  let error := lonejson__clear_error error in
  let '(st, error) := lonejson__base64_require_variant variant error in
  if decide (st ≠ LONEJSON_STATUS_OK) then (st, user, error)
  else match sink with
  | None =>
      let '(st, error) := lonejson__set_error error LONEJSON_STATUS_INVALID_ARGUMENT 0 0 0
                            "base64 sink is required" in (st, user, error)
  | Some sink =>
      if bool_decide (data = None) && negb (len =? 0)
      then let '(st, error) := lonejson__set_error error LONEJSON_STATUS_INVALID_ARGUMENT
                                 0 0 0 "base64 input is required" in (st, user, error)
      else encode_sink_loop sink (take (Z.to_nat len) (default [] data)) variant user error
  end.

(** [lonejson__base64_buffer_sink]: [bs_out] is the caller's memory, all
    [bs_capacity] bytes of it; [memcpy] past its end would make it longer. *)
Record lonejson__base64_buffer_sink := mk_buffer_sink {
  bs_out : bytes;
  bs_capacity : Z;
  bs_len : Z
}.

Definition memcpy (mem : bytes) (at_ : Z) (data : bytes) : bytes :=
  take (Z.to_nat at_) mem ++ data ++ drop (Z.to_nat at_ + length data) mem.

Definition lonejson__base64_write_buffer : lonejson_sink_fn lonejson__base64_buffer_sink :=
  λ sink data error,
    (LONEJSON_STATUS_OK,
     mk_buffer_sink (memcpy (bs_out sink) (bs_len sink) data) (bs_capacity sink)
       (u64 (bs_len sink + zlen data)), error).

(** The caller's buffer is [out] ([None] is NULL), [needed] the output pointer.
    The result carries the buffer's final content. *)
Definition lonejson_base64_encode (data : option bytes) (len : Z)
    (variant : lonejson_base64_variant) (out : option bytes) (capacity : Z)
    (needed : option Z) (error : error_ptr) :
    lonejson_status * option bytes * option Z * error_ptr :=
  let error := lonejson__clear_error error in
  match needed with
  | None =>
      let '(st, error) := lonejson__set_error error LONEJSON_STATUS_INVALID_ARGUMENT 0 0 0
                            "base64 needed output is required" in (st, out, None, error)
  | Some _ =>
      let '(st, encoded_len, error) := lonejson_base64_encoded_len len variant (Some 0) error in
      if decide (st ≠ LONEJSON_STATUS_OK) then (st, out, Some 0, error)
      else
        let encoded_len := default 0 encoded_len in
        if capacity <? encoded_len
        then let '(st, error) := lonejson__set_error error LONEJSON_STATUS_TRUNCATED 0 0 0
                                   "base64 output buffer is too small" in
             (st, out, Some encoded_len, error)
        else if negb (encoded_len =? 0) && bool_decide (out = None)
        then let '(st, error) := lonejson__set_error error LONEJSON_STATUS_INVALID_ARGUMENT
                                   0 0 0 "base64 output buffer is required" in
             (st, out, Some encoded_len, error)
        else
          let '(st, sink, error) :=
            lonejson_base64_encode_sink data len variant (Some lonejson__base64_write_buffer)
              (mk_buffer_sink (default [] out) capacity 0) error in
          (st, (λ _, bs_out sink) <$> out, Some encoded_len, error)
  end.

(** ** Validator *)

Record check_state := mk_check {
  ck_decoded_len : Z;
  ck_quartet_len : Z;
  ck_padding : Z;
  ck_saw_padding : bool
}.

(** One iteration of the loop of [lonejson__base64_check] on the character at
    index [i]: the state for the next one, or the status returned. *)
Definition check_step (variant : lonejson_base64_variant) (ch i : Z) (s : check_state)
    (error : error_ptr) : (lonejson_status * error_ptr) + check_state :=
  let raw := lonejson__base64_is_raw variant in
  let invalid msg :=
    inl (lonejson__set_error error LONEJSON_STATUS_INVALID_JSON i 0 0 msg) in
  let count (padding : Z) (saw_padding : bool) :=
    let quartet_len := ck_quartet_len s + 1 in
    if quartet_len =? 4
    then inr (mk_check (u64 (ck_decoded_len s + u64 (3 - padding))) 0 0 saw_padding)
    else if saw_padding && (quartet_len =? 0)
    then invalid "invalid base64 padding"%string
    else inr (mk_check (ck_decoded_len s) quartet_len padding saw_padding) in
  if ch =? "="%ch then
    if raw then invalid "base64 raw variant rejects padding"%string
    else
      let padding := ck_padding s + 1 in
      if (2 <? padding) || (ck_quartet_len s <? 2)
      then invalid "invalid base64 padding"%string
      else count padding true
  else if ck_saw_padding s
  then invalid "non-padding base64 data after padding"%string
  else if lonejson__base64_value_for_variant ch variant <? 0
  then invalid "invalid base64 character"%string
  else count (ck_padding s) (ck_saw_padding s).

Fixpoint check_loop (variant : lonejson_base64_variant) (data : bytes) (i : Z)
    (s : check_state) (error : error_ptr) : (lonejson_status * error_ptr) + check_state :=
  match data with
  | [] => inr s
  | ch :: rest =>
      match check_step variant ch i s error with
      | inl r => inl r
      | inr s => check_loop variant rest (i + 1) s error
      end
  end.

(** After the loop: the incomplete last group. *)
Definition check_tail (variant : lonejson_base64_variant) (len : Z) (s : check_state)
    (error : error_ptr) : (lonejson_status * error_ptr) + Z :=
  let invalid msg :=
    inl (lonejson__set_error error LONEJSON_STATUS_INVALID_JSON len 0 0 msg) in
  if negb (ck_quartet_len s =? 0) then
    if negb (lonejson__base64_is_raw variant)
    then invalid "incomplete padded base64 quartet"%string
    else if ck_quartet_len s =? 1
    then invalid "invalid raw base64 length"%string
    else inr (u64 (ck_decoded_len s + (ck_quartet_len s - 1)))
  else if ck_saw_padding s && negb (ck_padding s =? 0)
  then invalid "invalid base64 padding"%string
  else inr (ck_decoded_len s).

Definition lonejson__base64_check (data : option bytes) (len : Z)
    (variant : lonejson_base64_variant) (out_len : option Z) (error : error_ptr) :
    lonejson_status * option Z * error_ptr :=
  match out_len with
  | None =>
      let '(st, error) := lonejson__set_error error LONEJSON_STATUS_INVALID_ARGUMENT 0 0 0
                            "base64 decoded length output is required" in (st, None, error)
  | Some _ =>
      if bool_decide (data = None) && negb (len =? 0)
      then let '(st, error) := lonejson__set_error error LONEJSON_STATUS_INVALID_ARGUMENT
                                 0 0 0 "base64 input is required" in (st, out_len, error)
      else
        let '(st, error) := lonejson__base64_require_variant variant error in
        if decide (st ≠ LONEJSON_STATUS_OK)
        then (LONEJSON_STATUS_INVALID_ARGUMENT, Some 0, error)
        else
          match check_loop variant (take (Z.to_nat len) (default [] data)) 0
                  (mk_check 0 0 0 false) error with
          | inl (st, error) => (st, out_len, error)
          | inr s =>
              match check_tail variant len s error with
              | inl (st, error) => (st, out_len, error)
              | inr decoded_len => (LONEJSON_STATUS_OK, Some decoded_len, error)
              end
          end
  end.

Definition lonejson_base64_decoded_len (data : option bytes) (len : Z)
    (variant : lonejson_base64_variant) (out_len : option Z) (error : error_ptr) :
    lonejson_status * option Z * error_ptr :=
  lonejson__base64_check data len variant out_len (lonejson__clear_error error).

(** ** Decoder *)

(** [int values[4]]. *)
Definition values_zero : list Z := [0; 0; 0; 0].

Definition base64_bits (values : list Z) : Z :=
  Z.lor (Z.lor (Z.lor (u32 (Z.shiftl (nth 0 values 0) 18)) (u32 (Z.shiftl (nth 1 values 0) 12)))
               (u32 (Z.shiftl (nth 2 values 0) 6))) (u32 (nth 3 values 0)).

(** The [out_len] bytes of [out] handed to the sink. *)
Definition base64_group (values : list Z) (group_len out_len : Z) : bytes :=
  let bits := base64_bits values in
  let o0 := if (2 <=? group_len) && (1 <=? out_len) then Z.land (Z.shiftr bits 16) 255 else 0 in
  let o1 := if (3 <=? group_len) && (2 <=? out_len) then Z.land (Z.shiftr bits 8) 255 else 0 in
  let o2 := if (group_len =? 4) && (out_len =? 3) then Z.land bits 255 else 0 in
  take (Z.to_nat out_len) [o0; o1; o2].

Section decoder.
Context {U : Type} (sink : lonejson_sink_fn U).

Definition lonejson__base64_decode_emit (values : list Z) (group_len out_len : Z)
    (user : U) (error : error_ptr) : lonejson_status * U * error_ptr :=
  if out_len =? 0 then (LONEJSON_STATUS_OK, user, error)
  else sink user (base64_group values group_len out_len) error.

Fixpoint decode_loop (variant : lonejson_base64_variant) (data : bytes)
    (values : list Z) (group_len padding : Z) (user : U) (error : error_ptr) :
    lonejson_status * U * error_ptr :=
  match data with
  | [] =>
      if negb (group_len =? 0)
      then lonejson__base64_decode_emit values group_len (group_len - 1) user error
      else (LONEJSON_STATUS_OK, user, error)
  | ch :: rest =>
      let pad := ch =? "="%ch in
      let v := if pad then 0 else lonejson__base64_value_for_variant ch variant in
      let values := <[Z.to_nat group_len := v]> values in
      let group_len := group_len + 1 in
      let padding := if pad then padding + 1 else padding in
      if group_len =? 4 then
        let '(st, user, error) :=
          lonejson__base64_decode_emit values group_len (u64 (3 - padding)) user error in
        if decide (st ≠ LONEJSON_STATUS_OK) then (st, user, error)
        else decode_loop variant rest values_zero 0 0 user error
      else decode_loop variant rest values group_len padding user error
  end.
End decoder.

Definition lonejson_base64_decode_sink {U} (data : option bytes) (len : Z)
    (variant : lonejson_base64_variant) (sink : option (lonejson_sink_fn U)) (user : U)
    (error : error_ptr) : lonejson_status * U * error_ptr :=
  let error := lonejson__clear_error error in
  let '(st, _, error) := lonejson__base64_check data len variant (Some 0) error in
  if decide (st ≠ LONEJSON_STATUS_OK) then (st, user, error)
  else match sink with
  | None =>
      let '(st, error) := lonejson__set_error error LONEJSON_STATUS_INVALID_ARGUMENT 0 0 0
                            "base64 sink is required" in (st, user, error)
  | Some sink =>
      decode_loop sink variant (take (Z.to_nat len) (default [] data)) values_zero 0 0
        user error
  end.

Record lonejson__base64_decode_buffer_sink := mk_decode_sink {
  ds_out : bytes;
  ds_len : Z
}.

Definition lonejson__base64_write_decode_buffer :
    lonejson_sink_fn lonejson__base64_decode_buffer_sink :=
  λ sink data error,
    (LONEJSON_STATUS_OK,
     mk_decode_sink (memcpy (ds_out sink) (ds_len sink) data)
       (u64 (ds_len sink + zlen data)), error).

Definition lonejson_base64_decode (data : option bytes) (len : Z)
    (variant : lonejson_base64_variant) (out : option bytes) (capacity : Z)
    (needed : option Z) (error : error_ptr) :
    lonejson_status * option bytes * option Z * error_ptr :=
  let error := lonejson__clear_error error in
  match needed with
  | None =>
      let '(st, error) := lonejson__set_error error LONEJSON_STATUS_INVALID_ARGUMENT 0 0 0
                            "base64 needed output is required" in (st, out, None, error)
  | Some _ =>
      let '(st, decoded_len, error) :=
        lonejson_base64_decoded_len data len variant (Some 0) error in
      if decide (st ≠ LONEJSON_STATUS_OK) then (st, out, Some 0, error)
      else
        let decoded_len := default 0 decoded_len in
        if capacity <? decoded_len
        then let '(st, error) := lonejson__set_error error LONEJSON_STATUS_TRUNCATED 0 0 0
                                   "base64 output buffer is too small" in
             (st, out, Some decoded_len, error)
        else if negb (decoded_len =? 0) && bool_decide (out = None)
        then let '(st, error) := lonejson__set_error error LONEJSON_STATUS_INVALID_ARGUMENT
                                   0 0 0 "base64 output buffer is required" in
             (st, out, Some decoded_len, error)
        else
          let '(st, sink, error) :=
            lonejson_base64_decode_sink data len variant
              (Some lonejson__base64_write_decode_buffer)
              (mk_decode_sink (default [] out) 0) error in
          (st, (λ _, ds_out sink) <$> out, Some decoded_len, error)
  end.

(** ** Examples *)

Definition dec_ex (v : lonejson_base64_variant) (s : string) :=
  lonejson_base64_decode_sink (Some (c_str s)) (zlen (c_str s)) v (Some collect_sink) [] None.
Definition enc_ex (v : lonejson_base64_variant) (s : string) :=
  lonejson_base64_encode_sink (Some (c_str s)) (zlen (c_str s)) v (Some collect_sink) [] None.

Example enc_foobar :
  enc_ex LONEJSON_BASE64_STANDARD "fooba" =
  (LONEJSON_STATUS_OK, c_str "Zm9vYmE=", None).
Proof. vm_compute. reflexivity. Qed.
Example dec_fooba :
  dec_ex LONEJSON_BASE64_URL_RAW "Zm9vYmE" =
  (LONEJSON_STATUS_OK, c_str "fooba", None).
Proof. vm_compute. reflexivity. Qed.
Example dec_rejects :
  fst (fst (dec_ex LONEJSON_BASE64_STANDARD "QQ==QQ==")) = LONEJSON_STATUS_INVALID_JSON.
Proof. vm_compute. reflexivity. Qed.

(** ** Specification: RFC 4648, section 4

    A 24-bit group is four 6-bit digits, most significant first; a final group
    of one or two bytes keeps two or three digits, padded with '=' in the
    padded variants. *)

Section spec.
Context (v : lonejson_base64_variant).

Definition digit (k : Z) : Z := nth (Z.to_nat k) (lonejson__base64_alphabet v) 0.

Definition group_digits (n : Z) : bytes :=
  [digit (n / 262144); digit (n / 4096 mod 64); digit (n / 64 mod 64); digit (n mod 64)].

Definition padding_of (k : nat) : bytes :=
  if lonejson__base64_is_raw v then [] else repeat "="%ch k.

Fixpoint rfc4648_encode (data : bytes) : bytes :=
  match data with
  | a :: b :: c :: rest =>
      group_digits (a * 65536 + b * 256 + c) ++ rfc4648_encode rest
  | [a; b] => take 3 (group_digits (a * 65536 + b * 256)) ++ padding_of 1
  | [a] => take 2 (group_digits (a * 65536)) ++ padding_of 2
  | [] => []
  end.
End spec.

(** *** Induction by groups of three bytes *)
Lemma group_ind (P : bytes → Prop) :
  P [] → (∀ a, P [a]) → (∀ a b, P [a; b]) →
  (∀ a b c l, P l → P (a :: b :: c :: l)) → ∀ l, P l.
Proof.
  intros H0 H1 H2 H3. fix IH 1.
  intros [|a [|b [|c l]]]; [exact H0|apply H1|apply H2|apply H3, IH].
Qed.

(** *** Facts on digits *)

Definition digits_ok (v : lonejson_base64_variant) : bool :=
  forallb (λ k, let d := digit v (Z.of_nat k) in
                (lonejson__base64_value_for_variant d v =? Z.of_nat k)
                && negb (d =? "="%ch)) (seq 0 64).

Lemma digits_all v : digits_ok v = true.
Proof. destruct v; vm_compute; reflexivity. Qed.

Lemma digit_facts v k :
  0 ≤ k < 64 →
  lonejson__base64_value_for_variant (digit v k) v = k ∧ (digit v k =? "="%ch) = false.
Proof.
  intros Hk. pose proof (digits_all v) as H. unfold digits_ok in H.
  assert (In (Z.to_nat k) (seq 0 64)) as Hin by (apply in_seq; lia).
  pose proof (proj1 (forallb_forall _ _) H _ Hin) as Hd. cbv beta zeta in Hd.
  rewrite Z2Nat.id in Hd by lia. apply andb_prop in Hd as [H1 H2].
  split; [by apply Z.eqb_eq|by apply negb_true_iff].
Qed.

Lemma digit_value v k :
  0 ≤ k < 64 → lonejson__base64_value_for_variant (digit v k) v = k.
Proof. apply digit_facts. Qed.
Lemma digit_not_pad v k : 0 ≤ k < 64 → (digit v k =? "="%ch) = false.
Proof. apply digit_facts. Qed.

Lemma u32_shiftl_digit v k :
  0 ≤ v < 64 → 0 ≤ k ≤ 18 → u32 (Z.shiftl v k) = Z.shiftl v k.
Proof.
  intros Hv Hk. unfold u32. apply Z.mod_small. rewrite Z.shiftl_mul_pow2 by lia.
  pose proof (Z.pow_le_mono_r 2 k 18). pose proof (Z.pow_pos_nonneg 2 k). nia.
Qed.

Lemma base64_bits_sum v0 v1 v2 v3 :
  0 ≤ v0 < 64 → 0 ≤ v1 < 64 → 0 ≤ v2 < 64 → 0 ≤ v3 < 64 →
  base64_bits [v0; v1; v2; v3] = v0 * 262144 + v1 * 4096 + v2 * 64 + v3.
Proof.
  intros. unfold base64_bits. simpl nth.
  rewrite !u32_shiftl_digit by lia. unfold u32. rewrite Z.mod_small by lia.
  rewrite (lor_shiftl_add v0) by (rewrite ?Z.shiftl_mul_pow2; lia).
  replace (v0 * 2 ^ 18 + Z.shiftl v1 12) with (Z.shiftl (v0 * 64 + v1) 12)
    by (rewrite !Z.shiftl_mul_pow2; lia).
  rewrite lor_shiftl_add by (rewrite ?Z.shiftl_mul_pow2; lia).
  replace ((v0 * 64 + v1) * 2 ^ 12 + Z.shiftl v2 6)
    with (Z.shiftl (v0 * 4096 + v1 * 64 + v2) 6) by (rewrite !Z.shiftl_mul_pow2; lia).
  rewrite lor_shiftl_add by lia. lia.
Qed.

Ltac div_mod_lia := Z.div_mod_to_equations; lia.
(** Turn the source's shifts and masks into divisions and remainders. *)
Ltac bits_to_arith :=
  rewrite ?shiftr_div, ?(land_ones_mod _ 2 3), ?(land_ones_mod _ 4 15),
    ?(land_ones_mod _ 6 63), ?(land_ones_mod _ 8 255) by (reflexivity || lia);
  change (2 ^ 2) with 4 in *; change (2 ^ 4) with 16 in *;
  change (2 ^ 6) with 64 in *; change (2 ^ 8) with 256 in *;
  change (2 ^ 16) with 65536 in *;
  repeat (rewrite lor_shiftl_add by
    (change (2 ^ 2) with 4; change (2 ^ 4) with 16; div_mod_lia));
  change (2 ^ 2) with 4 in *; change (2 ^ 4) with 16 in *.
Ltac digits_eq v :=
  repeat (apply f_equal2; [apply (f_equal (digit v)); div_mod_lia|]); reflexivity.

(** The encoder's bit operations are the digits of the 24-bit group. *)
Lemma base64_quad_3 v a b c :
  is_byte a → is_byte b → is_byte c →
  base64_quad [a; b; c] 3 v = group_digits v (a * 65536 + b * 256 + c).
Proof.
  unfold is_byte. intros. unfold base64_quad, group_digits. simpl.
  bits_to_arith. digits_eq v.
Qed.

Lemma base64_quad_2 v a b :
  is_byte a → is_byte b →
  base64_quad [a; b] 2 v = take 3 (group_digits v (a * 65536 + b * 256)) ++ padding_of v 1.
Proof.
  unfold is_byte. intros. unfold base64_quad, group_digits, padding_of. simpl.
  bits_to_arith. destruct (lonejson__base64_is_raw v); simpl; digits_eq v.
Qed.

Lemma base64_quad_1 v a :
  is_byte a →
  base64_quad [a] 1 v = take 2 (group_digits v (a * 65536)) ++ padding_of v 2.
Proof.
  unfold is_byte. intros. unfold base64_quad, group_digits, padding_of. simpl.
  bits_to_arith. destruct (lonejson__base64_is_raw v); simpl; digits_eq v.
Qed.

Lemma base64_group_sum v0 v1 v2 v3 k :
  0 ≤ v0 < 64 → 0 ≤ v1 < 64 → 0 ≤ v2 < 64 → 0 ≤ v3 < 64 →
  k = 4 →
  let n := v0 * 262144 + v1 * 4096 + v2 * 64 + v3 in
  base64_group [v0; v1; v2; v3] k 3 = [n / 65536; n / 256 mod 256; n mod 256].
Proof.
  intros ? ? ? ? -> n. unfold base64_group. rewrite base64_bits_sum by done. simpl.
  bits_to_arith. fold n.
  repeat (apply f_equal2; [subst n; div_mod_lia|]). reflexivity.
Qed.

(** ** Correctness of the encoder *)
Section encode_spec.
Context {U : Type} (sink : lonejson_sink_fn U) `{!BoundedSink sink}.

Lemma encode_loop_spec v data u e n :
  is_bytes data → sink_fits sink u n → zlen (rfc4648_encode v data) ≤ n →
  ∃ u', encode_sink_loop sink data v u e = (LONEJSON_STATUS_OK, u', e)
        ∧ sink_out sink u' = sink_out sink u ++ rfc4648_encode v data
        ∧ sink_fits sink u' (n - zlen (rfc4648_encode v data)).
Proof.
  revert u n. induction data as [|a|a b|a b c l IH] using group_ind; intros u n Hd Hf Hn.
  - exists u. rewrite app_nil_r. change (zlen (rfc4648_encode v [])) with 0.
    by rewrite Z.sub_0_r.
  - rewrite !Forall_cons in Hd. destruct Hd as (Ha & _).
    cbn [encode_sink_loop]. unfold lonejson__base64_emit_quad. change (zlen [a]) with 1.
    rewrite base64_quad_1 by done. by apply sink_accepts.
  - rewrite !Forall_cons in Hd. destruct Hd as (Ha & Hb & _).
    cbn [encode_sink_loop]. unfold lonejson__base64_emit_quad. change (zlen [a; b]) with 2.
    rewrite base64_quad_2 by done. by apply sink_accepts.
  - rewrite !Forall_cons in Hd. destruct Hd as (Ha & Hb & Hc & Hl).
    cbn [encode_sink_loop rfc4648_encode] in *. unfold lonejson__base64_emit_quad.
    rewrite base64_quad_3 by done. rewrite zlen_app in *.
    set (g := group_digits v _) in *. pose proof (zlen_nonneg (rfc4648_encode v l)).
    destruct (sink_accepts u n g e Hf) as (u1 & -> & Hu1 & Hf1); [lia|]. cbn.
    destruct (IH u1 _ Hl Hf1) as (u' & -> & Hu' & Hf'); [lia|].
    exists u'. rewrite Hu', Hu1, <- app_assoc, Z.sub_add_distr. done.
Qed.
End encode_spec.

(** ** The encoded length *)

Lemma group_digits_length v n : length (group_digits v n) = 4%nat.
Proof. done. Qed.
Lemma padding_length v k :
  zlen (padding_of v k) = if lonejson__base64_is_raw v then 0 else Z.of_nat k.
Proof.
  unfold padding_of, zlen. destruct (lonejson__base64_is_raw v); [done|].
  by rewrite repeat_length.
Qed.

(** The mathematical length of the encoding of [n] bytes. *)
Definition encoded_size (v : lonejson_base64_variant) (n : Z) : Z :=
  n / 3 * 4 + (if n mod 3 =? 0 then 0
               else if lonejson__base64_is_raw v then n mod 3 + 1 else 4).

Lemma encoded_size_step v n : encoded_size v (n + 3) = encoded_size v n + 4.
Proof.
  unfold encoded_size. replace (n + 3) with (n + 1 * 3) by lia.
  rewrite Z.div_add, Z.mod_add by lia. case_if; [lia|]. case_if; lia.
Qed.

Lemma rfc4648_length v data : zlen (rfc4648_encode v data) = encoded_size v (zlen data).
Proof.
  induction data as [|a|a b|a b c l IH] using group_ind.
  - done.
  - simpl. rewrite !zlen_cons, padding_length. unfold encoded_size. simpl.
    destruct (lonejson__base64_is_raw v); done.
  - simpl. rewrite !zlen_cons, padding_length. unfold encoded_size. simpl.
    destruct (lonejson__base64_is_raw v); done.
  - simpl. rewrite !zlen_cons, IH.
    replace (zlen l + 1 + 1 + 1) with (zlen l + 3) by lia. rewrite encoded_size_step. lia.
Qed.

(** ** The validator and the decoder on an encoding *)

Lemma check_step_digit v k i m q p e :
  0 ≤ k < 64 →
  check_step v (digit v k) i (mk_check m q p false) e =
  inr (if q + 1 =? 4 then mk_check (u64 (m + u64 (3 - p))) 0 0 false
       else mk_check m (q + 1) p false).
Proof.
  intros Hk. unfold check_step. rewrite digit_not_pad, digit_value by done. simpl.
  replace (k <? 0) with false by lia. by destruct (q + 1 =? 4).
Qed.

Lemma check_group v n rest i m e :
  0 ≤ n < 16777216 →
  check_loop v (group_digits v n ++ rest) i (mk_check m 0 0 false) e =
  check_loop v rest (i + 4) (mk_check (u64 (m + 3)) 0 0 false) e.
Proof.
  intros Hn. unfold group_digits. simpl.
  do 4 (rewrite check_step_digit by div_mod_lia; simpl).
  f_equal. lia.
Qed.

Definition check_all v data i s len e : (lonejson_status * error_ptr) + Z :=
  match check_loop v data i s e with
  | inl r => inl r
  | inr s => check_tail v len s e
  end.

Lemma u64_add_idemp a b : u64 (u64 a + b) = u64 (a + b).
Proof. unfold u64. by rewrite Zplus_mod_idemp_l. Qed.

Lemma check_text v data i m len e :
  is_bytes data →
  check_all v (rfc4648_encode v data) i (mk_check (u64 m) 0 0 false) len e =
  inr (u64 (m + zlen data)).
Proof.
  revert i m. induction data as [|a|a b|a b c l IH] using group_ind; intros i m Hd;
    rewrite ?Forall_cons in Hd; unfold is_byte in Hd.
  - unfold check_all, check_tail, zlen. simpl. f_equal. f_equal. lia.
  - unfold check_all. cbn [rfc4648_encode]. unfold group_digits, padding_of. simpl.
    do 2 (rewrite check_step_digit by div_mod_lia; simpl).
    destruct (lonejson__base64_is_raw v) eqn:Hraw; simpl;
      unfold check_tail, check_step; simpl; rewrite ?Hraw; simpl;
      change (u64 1) with 1; change (u64 2) with 2; by rewrite u64_add_idemp.
  - unfold check_all. cbn [rfc4648_encode]. unfold group_digits, padding_of. simpl.
    do 3 (rewrite check_step_digit by div_mod_lia; simpl).
    destruct (lonejson__base64_is_raw v) eqn:Hraw; simpl;
      unfold check_tail, check_step; simpl; rewrite ?Hraw; simpl;
      change (u64 1) with 1; change (u64 2) with 2; by rewrite u64_add_idemp.
  - unfold check_all in *. cbn [rfc4648_encode]. rewrite check_group by lia.
    rewrite u64_add_idemp, IH by tauto. f_equal. f_equal. zlia.
Qed.

(** Groups shorter than three bytes. *)
Lemma base64_group_two v0 v1 v2 k :
  0 ≤ v0 < 64 → 0 ≤ v1 < 64 → 0 ≤ v2 < 64 → k = 3 ∨ k = 4 →
  let n := v0 * 262144 + v1 * 4096 + v2 * 64 in
  base64_group [v0; v1; v2; 0] k 2 = [n / 65536; n / 256 mod 256].
Proof.
  intros ? ? ? Hk n. unfold base64_group. rewrite base64_bits_sum by lia.
  destruct Hk as [-> | ->]; simpl; bits_to_arith; fold n;
    (repeat (apply f_equal2; [subst n; div_mod_lia|])); reflexivity.
Qed.

Lemma base64_group_one v0 v1 k :
  0 ≤ v0 < 64 → 0 ≤ v1 < 64 → k = 2 ∨ k = 4 →
  let n := v0 * 262144 + v1 * 4096 in
  base64_group [v0; v1; 0; 0] k 1 = [n / 65536].
Proof.
  intros ? ? Hk n. unfold base64_group. rewrite base64_bits_sum by lia.
  destruct Hk as [-> | ->]; simpl; bits_to_arith; fold n;
    (repeat (apply f_equal2; [subst n; div_mod_lia|])); reflexivity.
Qed.

Section decode_spec.
Context {U : Type} (sink : lonejson_sink_fn U) `{!BoundedSink sink}.

Lemma decode_digit v k rest values g p u e :
  0 ≤ k < 64 →
  decode_loop sink v (digit v k :: rest) values g p u e =
  let values := <[Z.to_nat g := k]> values in
  if g + 1 =? 4 then
    let '(st, user, error) :=
      lonejson__base64_decode_emit sink values (g + 1) (u64 (3 - p)) u e in
    if decide (st ≠ LONEJSON_STATUS_OK) then (st, user, error)
    else decode_loop sink v rest values_zero 0 0 user error
  else decode_loop sink v rest values (g + 1) p u e.
Proof. intros Hk. simpl. by rewrite digit_not_pad, digit_value by done. Qed.

Lemma decode_group v a b c rest u e n :
  is_byte a → is_byte b → is_byte c → sink_fits sink u n → 3 ≤ n →
  ∃ u', decode_loop sink v (group_digits v (a * 65536 + b * 256 + c) ++ rest)
          values_zero 0 0 u e =
        decode_loop sink v rest values_zero 0 0 u' e
        ∧ sink_out sink u' = sink_out sink u ++ [a; b; c] ∧ sink_fits sink u' (n - 3).
Proof.
  unfold is_byte. intros Ha Hb Hc Hf Hn. unfold group_digits.
  simpl app. do 4 (rewrite decode_digit by div_mod_lia; simpl Z.eqb; cbv beta iota zeta).
  unfold lonejson__base64_decode_emit.
  change (u64 (3 - 0)) with 3. simpl Z.eqb. cbv iota. simpl Z.add.
  simpl insert. rewrite base64_group_sum by (try div_mod_lia; done).
  match goal with |- context [sink u ?d e] => replace d with [a; b; c] end.
  - destruct (sink_accepts u n [a; b; c] e Hf Hn) as (u' & -> & Hu').
    exists u'. by split.
  - repeat (apply f_equal2; [div_mod_lia|]). reflexivity.
Qed.

Lemma decode_text v data u e n :
  is_bytes data → sink_fits sink u n → zlen data ≤ n →
  ∃ u', decode_loop sink v (rfc4648_encode v data) values_zero 0 0 u e =
        (LONEJSON_STATUS_OK, u', e)
        ∧ sink_out sink u' = sink_out sink u ++ data ∧ sink_fits sink u' (n - zlen data).
Proof.
  revert u n. induction data as [|a|a b|a b c l IH] using group_ind; intros u n Hd Hf Hn;
    rewrite ?Forall_cons in Hd.
  - exists u. rewrite app_nil_r. change (zlen (@nil Z)) with 0. by rewrite Z.sub_0_r.
  - unfold is_byte in Hd. cbn [rfc4648_encode]. unfold group_digits, padding_of. simpl take. simpl app.
    do 2 (rewrite decode_digit by div_mod_lia; simpl Z.eqb; cbv beta iota zeta).
    destruct (lonejson__base64_is_raw v); simpl; unfold lonejson__base64_decode_emit;
      change (u64 1) with 1; simpl;
      (rewrite base64_group_one by (try lia; div_mod_lia));
      (match goal with |- context [sink u ?d e] =>
        replace d with [a] by (apply f_equal2; [div_mod_lia|done]) end);
      destruct (sink_accepts u n [a] e Hf Hn) as (u' & -> & Hu'); by exists u'.
  - unfold is_byte in Hd. cbn [rfc4648_encode]. unfold group_digits, padding_of. simpl take. simpl app.
    do 3 (rewrite decode_digit by div_mod_lia; simpl Z.eqb; cbv beta iota zeta).
    destruct (lonejson__base64_is_raw v); simpl; unfold lonejson__base64_decode_emit;
      change (u64 2) with 2; simpl;
      (rewrite base64_group_two by (try lia; div_mod_lia));
      (match goal with |- context [sink u ?d e] =>
        replace d with [a; b] by (repeat (apply f_equal2; [div_mod_lia|]); done) end);
      destruct (sink_accepts u n [a; b] e Hf Hn) as (u' & -> & Hu'); by exists u'.
  - destruct Hd as (Ha & Hb & Hc & Hl). cbn [rfc4648_encode].
    rewrite !zlen_cons in *. pose proof (zlen_nonneg l).
    destruct (decode_group v a b c (rfc4648_encode v l) u e n) as (u1 & -> & Hu1 & Hf1);
      [done..|lia|].
    destruct (IH u1 _ Hl Hf1) as (u' & -> & Hu' & Hf'); [lia|].
    exists u'. rewrite Hu', Hu1, <- app_assoc. split_and!; [done..|].
    by replace (n - (zlen l + 1 + 1 + 1)) with (n - 3 - zlen l) by lia.
Qed.
End decode_spec.

(** ** The validator counts exactly what the decoder emits *)

Lemma base64_group_length values g k :
  0 ≤ k ≤ 3 → zlen (base64_group values g k) = k.
Proof. intros Hk. unfold base64_group, zlen. rewrite length_take. simpl. lia. Qed.

(** What one accepted character does to the validator's state. *)
Lemma check_step_inv v ch i m q p saw e s :
  0 ≤ q ≤ 3 → 0 ≤ p ≤ 2 →
  check_step v ch i (mk_check m q p saw) e = inr s →
  let p' := if ch =? "="%ch then p + 1 else p in
  p' ≤ 2 ∧
  ∃ saw', s = if q + 1 =? 4 then mk_check (u64 (m + u64 (3 - p'))) 0 0 saw'
              else mk_check m (q + 1) p' saw'.
Proof.
  intros Hq Hp H p'. unfold check_step in H.
  cbn [ck_saw_padding ck_padding ck_quartet_len ck_decoded_len] in H. cbv zeta in H. subst p'.
  replace (q + 1 =? 0) with false in H by lia. rewrite !andb_false_r in H.
  destruct (ch =? 61) eqn:Hpad.
  - destruct (lonejson__base64_is_raw v); [done|].
    destruct ((2 <? p + 1) || (q <? 2)) eqn:Hc; [done|].
    split; [lia|]. exists true. destruct (q + 1 =? 4); by inversion H.
  - destruct saw; [done|]. destruct (_ <? 0); [done|].
    split; [lia|]. exists false. destruct (q + 1 =? 4); by inversion H.
Qed.

Section decode_bound.
Context {U : Type} (sink : lonejson_sink_fn U) `{!BoundedSink sink}.

Lemma decode_emit_ok values g k u e n :
  0 ≤ k ≤ 3 → sink_fits sink u n → k ≤ n →
  ∃ u' d, lonejson__base64_decode_emit sink values g k u e = (LONEJSON_STATUS_OK, u', e)
          ∧ sink_out sink u' = sink_out sink u ++ d ∧ zlen d = k
          ∧ sink_fits sink u' (n - k).
Proof.
  intros Hk Hf Hn. unfold lonejson__base64_decode_emit. destruct (k =? 0) eqn:E.
  - exists u, []. replace k with 0 in * by lia. rewrite app_nil_r, Z.sub_0_r.
    by split_and!.
  - pose proof (base64_group_length values g k Hk) as Hl.
    destruct (sink_accepts u n (base64_group values g k) e Hf) as (u' & ? & ? & ?); [lia|].
    rewrite Hl in *. eauto 10.
Qed.

Lemma check_decode v len data i m q p saw total e0 values u e n :
  0 ≤ m → 0 ≤ q ≤ 3 → 0 ≤ p ≤ 2 → m + q + zlen data ≤ SIZE_MAX →
  check_all v data i (mk_check m q p saw) len e0 = inr total →
  m ≤ total ≤ m + q + zlen data ∧
  (sink_fits sink u n → total - m ≤ n →
   ∃ u' d, decode_loop sink v data values q p u e = (LONEJSON_STATUS_OK, u', e)
           ∧ sink_out sink u' = sink_out sink u ++ d ∧ zlen d = total - m
           ∧ sink_fits sink u' (n - (total - m))).
Proof.
  revert i m q p saw values u n.
  induction data as [|ch rest IH]; intros i m q p saw values u n Hm Hq Hp Hb Hc.
  - rewrite zlen_nil in *. unfold check_all, check_tail in Hc. simpl in Hc.
    destruct (q =? 0) eqn:Eq; simpl in *.
    + assert (total = m) as -> by (destruct saw, (p =? 0); simpl in Hc; congruence).
      split; [lia|]. intros Hf Hn.
      exists u, []. cbn [decode_loop]. rewrite Eq, app_nil_r, Z.sub_diag, Z.sub_0_r.
      by split_and!.
    + destruct (lonejson__base64_is_raw v); [|done]. simpl in Hc.
      destruct (q =? 1) eqn:E1; [done|]. injection Hc as <-.
      rewrite u64_small by (unfold is_u64; lia). split; [lia|]. intros Hf Hn.
      replace (m + (q - 1) - m) with (q - 1) in * by lia.
      cbn [decode_loop]. rewrite Eq. apply decode_emit_ok; lia || done.
  - rewrite zlen_cons in *. pose proof (zlen_nonneg rest).
    unfold check_all in Hc. simpl in Hc.
    destruct (check_step v ch i _ e0) as [|s] eqn:Hs; [done|].
    destruct (check_step_inv _ _ _ _ _ _ _ _ _ Hq Hp Hs) as (Hp' & saw' & ->). cbn [decode_loop].
    set (p' := if ch =? 61 then p + 1 else p) in *.
    assert (0 ≤ p') by (subst p'; destruct (ch =? 61); lia).
    destruct (q + 1 =? 4) eqn:Eq.
    + rewrite (u64_small (3 - p')) in * by (unfold is_u64; lia).
      rewrite u64_small in Hc by (unfold is_u64; lia).
      set (vs := <[_:=_]> values).
      specialize (IH (i + 1) (m + (3 - p')) 0 0 saw' values_zero).
      destruct (IH u n) as [Hle _]; [lia..|exact Hc|]. split; [lia|]. intros Hf Hn.
      destruct (decode_emit_ok vs (q + 1) (3 - p') u e n) as (u1 & d1 & -> & Ho & Hd & Hf1);
        [lia|done|lia|]. cbn.
      destruct (IH u1 (n - (3 - p'))) as [_ Hrun]; [lia..|exact Hc|].
      destruct Hrun as (u' & d & -> & Ho' & Hd' & Hf'); [done|lia|].
      exists u', (d1 ++ d). rewrite Ho', Ho, app_assoc, zlen_app.
      split_and!; [done..|lia|].
      by replace (n - (total - m)) with (n - (3 - p') - (total - (m + (3 - p')))) by lia.
    + destruct (IH (i + 1) m (q + 1) p' saw' (<[Z.to_nat q:=
        if ch =? 61 then 0 else lonejson__base64_value_for_variant ch v]> values) u n)
        as [Hle Hrun]; [lia..|exact Hc|]. split; [lia|]. exact Hrun.
Qed.
End decode_bound.

(** ** The caller-buffer sinks

    Relative to the memory [mem] the caller passed: the bytes written so far,
    then what [mem] held. *)
Section buffers.
Context (mem : bytes).

Lemma memcpy_app w d :
  zlen w + zlen d ≤ zlen mem →
  memcpy (w ++ drop (length w) mem) (zlen w) d =
  (w ++ d) ++ drop (length (w ++ d)) mem.
Proof.
  intros H. unfold memcpy, zlen in *. rewrite Nat2Z.id, take_app_length.
  rewrite drop_app_add, drop_drop, length_app, <- app_assoc. done.
Qed.

Definition buffer_fits (out : bytes) (len n : Z) : Prop :=
  ∃ w, out = w ++ drop (length w) mem ∧ len = zlen w
       ∧ 0 ≤ n ∧ zlen w + n ≤ zlen mem ∧ zlen mem ≤ SIZE_MAX.

Lemma buffer_fits_step out len n d :
  buffer_fits out len n → zlen d ≤ n →
  take (Z.to_nat (u64 (len + zlen d))) (memcpy out len d) =
    take (Z.to_nat len) out ++ d
  ∧ buffer_fits (memcpy out len d) (u64 (len + zlen d)) (n - zlen d).
Proof.
  intros (w & -> & -> & Hn & Hw & Hm) Hd. pose proof (zlen_nonneg w). pose proof (zlen_nonneg d).
  rewrite memcpy_app by lia. rewrite u64_small by (unfold is_u64; lia).
  rewrite <- zlen_app. unfold zlen at 1 2. rewrite !Nat2Z.id, !take_app_length.
  split; [done|]. exists (w ++ d). rewrite zlen_app. split_and!; [done..|lia|lia|lia].
Qed.

#[export] Instance write_buffer_bounded : BoundedSink lonejson__base64_write_buffer.
Proof using mem.
  refine {| sink_out := λ u, take (Z.to_nat (bs_len u)) (bs_out u);
            sink_fits := λ u, buffer_fits (bs_out u) (bs_len u) |}.
  intros u n d e Hf Hd. eexists. split; [reflexivity|]. by apply buffer_fits_step.
Defined.

#[export] Instance write_decode_buffer_bounded :
  BoundedSink lonejson__base64_write_decode_buffer.
Proof using mem.
  refine {| sink_out := λ u, take (Z.to_nat (ds_len u)) (ds_out u);
            sink_fits := λ u, buffer_fits (ds_out u) (ds_len u) |}.
  intros u n d e Hf Hd. eexists. split; [reflexivity|]. by apply buffer_fits_step.
Defined.

Lemma buffer_fits_start : zlen mem ≤ SIZE_MAX → buffer_fits mem 0 (zlen mem).
Proof.
  exists []. pose proof (zlen_nonneg mem). change (zlen (@nil Z)) with 0.
  split_and!; lia || done.
Qed.

Lemma buffer_fits_content out len n :
  buffer_fits out len n →
  out = take (Z.to_nat len) out ++ drop (length (take (Z.to_nat len) out)) mem.
Proof.
  intros (w & -> & -> & _). unfold zlen. by rewrite Nat2Z.id, take_app_length.
Qed.
End buffers.

(** ** Properties *)

(** The variants the entry points accept. *)
Definition valid_variant (v : lonejson_base64_variant) : Prop :=
  lonejson__base64_variant_valid v = true.

Lemma require_variant_ok v e :
  valid_variant v → lonejson__base64_require_variant v e = (LONEJSON_STATUS_OK, e).
Proof. unfold valid_variant, lonejson__base64_require_variant. by intros ->. Qed.

Lemma encode_sink_ok {U} (sink : lonejson_sink_fn U) v data u e :
  valid_variant v →
  lonejson_base64_encode_sink (Some data) (zlen data) v (Some sink) u e =
  encode_sink_loop sink data v u (lonejson__clear_error e).
Proof.
  intros Hv. unfold lonejson_base64_encode_sink. rewrite require_variant_ok by done.
  simpl. by rewrite take_zlen.
Qed.

Lemma check_ok v data e len m :
  valid_variant v →
  check_all v data 0 (mk_check 0 0 0 false) (zlen data) e = inr m →
  lonejson__base64_check (Some data) (zlen data) v (Some len) e =
  (LONEJSON_STATUS_OK, Some m, e).
Proof.
  intros Hv. unfold lonejson__base64_check, check_all. rewrite require_variant_ok by done.
  simpl. rewrite take_zlen. destruct (check_loop _ _ _ _ _); [done|]. by intros ->.
Qed.

(** Every rejection of the validator is [INVALID_JSON]. *)
Lemma check_step_rejects v ch i s e r :
  check_step v ch i s e = inl r → fst r = LONEJSON_STATUS_INVALID_JSON.
Proof.
  unfold check_step. intros H.
  repeat (case_match; try done); injection H as <-; apply set_error_fst.
Qed.

Lemma check_all_rejects v data i s len e r :
  check_all v data i s len e = inl r → fst r = LONEJSON_STATUS_INVALID_JSON.
Proof.
  revert i s. induction data as [|ch rest IH]; intros i s H; unfold check_all in *; simpl in H.
  - unfold check_tail in H. repeat (case_match; try done); injection H as <-; apply set_error_fst.
  - destruct (check_step v ch i s e) as [r'|s'] eqn:Hs.
    + injection H as ->. by eapply check_step_rejects.
    + by apply (IH (i + 1) s').
Qed.

Lemma check_ok_inv v data e len m e' :
  lonejson__base64_check (Some data) (zlen data) v (Some len) e =
  (LONEJSON_STATUS_OK, m, e') →
  valid_variant v ∧ e' = e ∧
  ∃ n, m = Some n ∧ check_all v data 0 (mk_check 0 0 0 false) (zlen data) e = inr n.
Proof.
  unfold lonejson__base64_check, lonejson__base64_require_variant, valid_variant. simpl.
  destruct (lonejson__base64_variant_valid v); simpl; [|by destruct e].
  rewrite take_zlen. intros H.
  pose proof (check_all_rejects v data 0 (mk_check 0 0 0 false) (zlen data) e) as Hr.
  unfold check_all in *. destruct (check_loop _ _ _ _ _) as [[st e1]|s].
  - specialize (Hr _ eq_refl). simpl in Hr. congruence.
  - destruct (check_tail _ _ _ _) as [[st e1]|n].
    + specialize (Hr _ eq_refl). simpl in Hr. congruence.
    + simplify_eq. eauto.
Qed.

Lemma clear_error_idem e :
  lonejson__clear_error (lonejson__clear_error e) = lonejson__clear_error e.
Proof. by destruct e. Qed.

(** *** The theorems *)

(** C37 (roundtrip): in each of the four variants, decoding the encoding of any
    byte string gives the byte string back, through any sink with room for it,
    without touching the error object beyond clearing it; and the text in between is
    the RFC 4648 encoding. *)
Theorem base64_roundtrip {U} (sink : lonejson_sink_fn U) `{!BoundedSink sink}
    v data u n e e' :
  valid_variant v → is_bytes data → zlen data ≤ SIZE_MAX →
  sink_fits sink u n → zlen data ≤ n →
  ∃ text u',
    lonejson_base64_encode_sink (Some data) (zlen data) v (Some collect_sink) [] e =
      (LONEJSON_STATUS_OK, text, lonejson__clear_error e)
    ∧ text = rfc4648_encode v data
    ∧ lonejson_base64_decode_sink (Some text) (zlen text) v (Some sink) u e' =
      (LONEJSON_STATUS_OK, u', lonejson__clear_error e')
    ∧ sink_out sink u' = sink_out sink u ++ data.
Proof.
  intros Hv Hd Hmax Hf Hn.
  assert (sink_fits collect_sink [] (zlen (rfc4648_encode v data))) as Hc by done.
  destruct (encode_loop_spec collect_sink v data [] (lonejson__clear_error e)
              (zlen (rfc4648_encode v data)) Hd Hc) as (text & Henc & Hout & _); [lia|].
  simpl in Hout. subst text.
  destruct (decode_text sink v data u (lonejson__clear_error e') n Hd Hf Hn)
    as (u' & Hdec & Hu' & _).
  exists (rfc4648_encode v data), u'. rewrite encode_sink_ok by done.
  split_and!; [done|done| |done].
  pose proof (check_text v data 0 0 (zlen (rfc4648_encode v data))
                (lonejson__clear_error e') Hd) as Hck.
  change (u64 0) with 0 in Hck. rewrite Z.add_0_l, u64_small in Hck by (split; [apply zlen_nonneg|done]).
  unfold lonejson_base64_decode_sink. rewrite (check_ok v _ _ 0 (zlen data)) by done.
  simpl. by rewrite take_zlen.
Qed.

(** [lonejson_base64_encoded_len] is exact: it returns the length
    of the encoding whenever that is a [size_t], and reports [OVERFLOW] with a
    zero length otherwise; no intermediate sum wraps around. *)
Theorem encoded_len_exact v len old e :
  valid_variant v → is_u64 len →
  let n := encoded_size v len in
  if n <=? SIZE_MAX
  then lonejson_base64_encoded_len len v (Some old) e =
       (LONEJSON_STATUS_OK, Some n, lonejson__clear_error e)
  else ∃ e', lonejson_base64_encoded_len len v (Some old) e =
             (LONEJSON_STATUS_OVERFLOW, Some 0, e').
Proof.
  intros Hv Hlen n. unfold lonejson_base64_encoded_len.
  rewrite require_variant_ok by done. simpl.
  unfold is_u64 in Hlen. subst n. unfold encoded_size.
  pose proof (Z.mod_pos_bound len 3). pose proof (Z.div_mod len 3).
  change (SIZE_MAX / 4) with 4611686018427387903.
  destruct (4611686018427387903 <? len / 3) eqn:E1.
  - replace (_ <=? SIZE_MAX) with false by (repeat case_if; lia).
    destruct e; simpl; eauto.
  - rewrite (u64_small (len / 3 * 4)) by (unfold is_u64; lia).
    destruct (len mod 3 =? 0) eqn:E2; simpl.
    + rewrite Z.add_0_r. replace (_ <=? _) with true by lia. done.
    + destruct (lonejson__base64_is_raw v).
      * replace (_ <=? _) with true by lia. by rewrite u64_small by (unfold is_u64; lia).
      * change (SIZE_MAX - 4) with 18446744073709551611.
        destruct (18446744073709551611 <? len / 3 * 4) eqn:E3.
        -- replace (_ <=? _) with false by lia. destruct e; simpl; eauto.
        -- replace (_ <=? _) with true by lia. by rewrite u64_small by (unfold is_u64; lia).
Qed.

(** [lonejson_base64_encode] into a caller's buffer: with
    enough capacity the buffer holds the encoding followed by its old content
    (so nothing is written past the encoding, let alone past the buffer);
    otherwise the buffer is untouched, [TRUNCATED] is reported, and [needed]
    says how much room it takes. *)
Theorem base64_encode_buffer v data out old e :
  valid_variant v → is_bytes data → zlen out ≤ SIZE_MAX →
  encoded_size v (zlen data) ≤ SIZE_MAX →
  let n := encoded_size v (zlen data) in
  if n <=? zlen out
  then lonejson_base64_encode (Some data) (zlen data) v (Some out) (zlen out) (Some old) e =
       (LONEJSON_STATUS_OK,
        Some (rfc4648_encode v data ++ drop (Z.to_nat n) out), Some n,
        lonejson__clear_error e)
  else ∃ e', lonejson_base64_encode (Some data) (zlen data) v (Some out) (zlen out)
               (Some old) e = (LONEJSON_STATUS_TRUNCATED, Some out, Some n, e').
Proof.
  intros Hv Hd Hout Hmax n. pose proof (zlen_nonneg data).
  assert (is_u64 (zlen data)) as Hu64.
  { subst n. unfold encoded_size in Hmax. unfold is_u64. Z.div_mod_to_equations.
    repeat case_if; lia. }
  pose proof (encoded_len_exact v (zlen data) 0 (lonejson__clear_error e) Hv Hu64) as Hlen.
  fold n in Hlen, Hmax. cbv zeta in Hlen. replace (n <=? SIZE_MAX) with true in Hlen by lia.
  unfold lonejson_base64_encode. rewrite Hlen. simpl.
  pose proof (rfc4648_length v data) as Hrl. fold n in Hrl.
  destruct (n <=? zlen out) eqn:E.
  - replace (zlen out <? n) with false by lia. rewrite andb_false_r.
    pose proof (@encode_loop_spec _ _ (write_buffer_bounded out) v data (mk_buffer_sink out (zlen out) 0)
      (lonejson__clear_error (lonejson__clear_error (lonejson__clear_error e))) (zlen out) Hd
      (buffer_fits_start out Hout)) as (s & Hs & Ho & Hf); [lia|].
    rewrite encode_sink_ok, Hs by done. simpl.
    apply buffer_fits_content in Hf. simpl in Ho, Hf. rewrite Ho in Hf.
    rewrite Hf. replace (Z.to_nat n) with (length (rfc4648_encode v data))
      by (unfold zlen in Hrl; lia). by destruct e.
  - replace (zlen out <? n) with true by lia. by destruct e; simpl; eauto.
Qed.

(** C38 (safety): whatever the input, when the validator accepts it and counts
    [n] decoded bytes, the decoder writes exactly [n] bytes: decoding into a
    caller's buffer of at least [n] bytes changes its first [n] bytes only, a
    smaller buffer is left alone with [TRUNCATED], and [n] is less than the
    input length. *)
Theorem base64_decode_buffer v text out old e n e1 :
  zlen text ≤ SIZE_MAX → zlen out ≤ SIZE_MAX →
  lonejson_base64_decoded_len (Some text) (zlen text) v (Some 0) e =
    (LONEJSON_STATUS_OK, Some n, e1) →
  0 ≤ n ≤ zlen text ∧
  if n <=? zlen out
  then ∃ d, zlen d = n
       ∧ lonejson_base64_decode (Some text) (zlen text) v (Some out) (zlen out) (Some old) e =
         (LONEJSON_STATUS_OK, Some (d ++ drop (Z.to_nat n) out), Some n,
          lonejson__clear_error e)
  else ∃ e', lonejson_base64_decode (Some text) (zlen text) v (Some out) (zlen out)
               (Some old) e = (LONEJSON_STATUS_TRUNCATED, Some out, Some n, e').
Proof.
  intros Ht Hout H. pose proof H as H0. unfold lonejson_base64_decoded_len in H0.
  apply check_ok_inv in H0 as (Hv & -> & n' & [= <-] & Hc).
  pose proof (zlen_nonneg text).
  destruct (@check_decode _ _ (write_decode_buffer_bounded out) v (zlen text) text 0 0 0 0
              false n (lonejson__clear_error e) values_zero (mk_decode_sink out 0)
              (lonejson__clear_error e) (zlen out)) as [Hn Hrun]; [lia..|done|].
  split; [lia|]. unfold lonejson_base64_decode.
  assert (lonejson_base64_decoded_len (Some text) (zlen text) v (Some 0)
            (lonejson__clear_error e) = (LONEJSON_STATUS_OK, Some n, lonejson__clear_error e))
    as -> by (unfold lonejson_base64_decoded_len in *; by rewrite clear_error_idem).
  simpl. destruct (n <=? zlen out) eqn:E.
  - replace (zlen out <? n) with false by lia. rewrite andb_false_r.
    destruct Hrun as (s & d & Hs & Ho & Hd & Hf); [by apply buffer_fits_start|lia|].
    apply buffer_fits_content in Hf. simpl in Ho, Hf. rewrite Ho in Hf.
    exists d. split; [lia|]. unfold lonejson_base64_decode_sink.
    rewrite clear_error_idem, (check_ok v text _ 0 n) by done. simpl.
    rewrite take_zlen, Hs. simpl. rewrite Hf.
    by replace (Z.to_nat n) with (length d) by (unfold zlen in Hd; lia).
  - replace (zlen out <? n) with true by lia. by destruct e; simpl; eauto.
Qed.

(** *** Witnesses *)

Lemma base64_roundtrip_witness :
  ∃ text u',
    lonejson_base64_encode_sink (Some [0; 255; 16; 77; 3]) (zlen [0; 255; 16; 77; 3])
      LONEJSON_BASE64_URL (Some collect_sink) [] None = (LONEJSON_STATUS_OK, text, lonejson__clear_error None)
    ∧ text = rfc4648_encode LONEJSON_BASE64_URL [0; 255; 16; 77; 3]
    ∧ lonejson_base64_decode_sink (Some text) (zlen text) LONEJSON_BASE64_URL
        (Some collect_sink) [] None = (LONEJSON_STATUS_OK, u', lonejson__clear_error None)
    ∧ sink_out collect_sink u' = sink_out collect_sink [] ++ [0; 255; 16; 77; 3].
Proof.
  apply (base64_roundtrip collect_sink LONEJSON_BASE64_URL [0; 255; 16; 77; 3] [] 5 None None);
    [reflexivity|repeat constructor; discriminate|discriminate|exact I|discriminate].
Defined.

Lemma encoded_len_exact_witness :
  lonejson_base64_encoded_len 5 LONEJSON_BASE64_STANDARD (Some 7) None =
  (LONEJSON_STATUS_OK, Some 8, None).
Proof.
  apply (encoded_len_exact LONEJSON_BASE64_STANDARD 5 7 None);
    [reflexivity|split; discriminate].
Defined.

Lemma base64_encode_buffer_witness :
  lonejson_base64_encode (Some [77; 97]) 2 LONEJSON_BASE64_URL_RAW (Some [0; 0; 0; 9]) 4
    (Some 0) None =
  (LONEJSON_STATUS_OK, Some [84; 87; 69; 9], Some 3, None).
Proof.
  apply (base64_encode_buffer LONEJSON_BASE64_URL_RAW [77; 97] [0; 0; 0; 9] 0 None);
    [reflexivity|repeat constructor; discriminate|discriminate|discriminate].
Defined.

Lemma base64_decode_buffer_witness :
  0 ≤ 2 ≤ 4 ∧ ∃ d, zlen d = 2 ∧
    lonejson_base64_decode (Some [84; 87; 70; 61]) 4 LONEJSON_BASE64_STANDARD
      (Some [7; 7; 7]) 3 (Some 0) None =
    (LONEJSON_STATUS_OK, Some (d ++ [7]), Some 2, None).
Proof.
  apply (base64_decode_buffer LONEJSON_BASE64_STANDARD [84; 87; 70; 61] [7; 7; 7] 0 None 2 None);
    [discriminate|discriminate|vm_compute; reflexivity].
Defined.
