(* ===== verification/ByteBuffer.v ===== *)
(** * Growable byte buffers and small text helpers
      ([src/impl/33_array_stream_api.h], lines 1-165)

    The buffers behind the framing parsers: a heap block of [cap] bytes holding
    the content and its terminating NUL.  The record keeps whether [data] is
    NULL, the content (of length [len]) and [cap]. *)

From stdpp Require Import base numbers list strings.
From Stdlib Require Import ZArith Lia.
From S2P Require Import Prelude Runtime.

Record lonejson__byte_buffer := mk_buffer {
  data_null : bool;
  contents : bytes;
  cap : Z
}.

Definition buffer_empty : lonejson__byte_buffer := mk_buffer true [] 0.

(** [buffer->len] *)
Definition blen (b : lonejson__byte_buffer) : Z := zlen (contents b).

(** ** ASCII helpers *)

Definition ascii_lower (c : Z) : Z :=
  if ("A"%ch <=? c) && (c <=? "Z"%ch) then u8 (c + ("a"%ch - "A"%ch)) else c.

(** [a] has [a_len] bytes, [b] is a C string. *)
Fixpoint lonejson__ascii_ieq (a b : bytes) : bool :=
  match a, b with
  | [], [] => true
  | ac :: a, bc :: b =>
      if negb (ascii_lower ac =? ascii_lower bc) then false else lonejson__ascii_ieq a b
  | _, _ => false
  end.

(** [Some] is the value stored in [*out] when the function returns 1;
    [ULONG_MAX] is that of LP64. *)
Definition lonejson__parse_sse_retry (value : bytes) : option Z :=
  if zlen value =? 0 then None
  else match decimal_loop UINT64_MAX value 0 with
       | Dec_ok acc => Some acc
       | Dec_invalid | Dec_overflow => None
       end.

(** ** Buffer operations *)

(** [while (next_cap < needed) ...]: doubling, or [needed] itself when doubling
    would overflow.  At most 64 doublings of a [size_t]. *)
Fixpoint grow_cap (fuel : nat) (next_cap needed : Z) : Z :=
  match fuel with
  | O => next_cap
  | S fuel =>
      if next_cap <? needed then
        if SIZE_MAX / 2 <? next_cap then needed
        else grow_cap fuel (u64 (next_cap * 2)) needed
      else next_cap
  end.

Definition lonejson__byte_reserve (buffer : lonejson__byte_buffer) (needed limit : Z)
    (alloc : lonejson_allocator) (error : error_ptr) :
    lonejson_status * lonejson__byte_buffer * lonejson_allocator * error_ptr :=
  if limit <? needed then
    let '(st, error) := lonejson__set_error error LONEJSON_STATUS_OVERFLOW 0 0 0
                          "framing buffer limit exceeded" in
    (st, buffer, alloc, error)
  else if needed <=? cap buffer then (LONEJSON_STATUS_OK, buffer, alloc, error)
  else
    let next_cap := grow_cap 64 (if cap buffer =? 0 then 64 else cap buffer) needed in
    let next_cap := if limit <? next_cap then needed else next_cap in
    let '(next, alloc) :=
      lonejson__buffer_realloc alloc (data_null buffer) (cap buffer) next_cap in
    if negb next then
      let '(st, error) := lonejson__set_error error LONEJSON_STATUS_ALLOCATION_FAILED 0 0 0
                            "failed to allocate framing buffer" in
      (st, buffer, alloc, error)
    else (LONEJSON_STATUS_OK, mk_buffer false (contents buffer) next_cap, alloc, error).

Definition lonejson__byte_append (buffer : lonejson__byte_buffer) (data : bytes)
    (limit : Z) (alloc : lonejson_allocator) (error : error_ptr) :
    lonejson_status * lonejson__byte_buffer * lonejson_allocator * error_ptr :=
  let len := zlen data in
  if len =? 0 then (LONEJSON_STATUS_OK, buffer, alloc, error)
  else if SIZE_MAX - len <? blen buffer then
    let '(st, error) := lonejson__set_error error LONEJSON_STATUS_OVERFLOW 0 0 0
                          "framing buffer size overflow" in
    (st, buffer, alloc, error)
  else
    let needed := blen buffer + len in
    if (limit <? needed) || (needed =? SIZE_MAX) then
      let '(st, error) := lonejson__set_error error LONEJSON_STATUS_OVERFLOW 0 0 0
                            "framing buffer limit exceeded" in
      (st, buffer, alloc, error)
    else
      let '(st, buffer, alloc, error) :=
        lonejson__byte_reserve buffer (u64 (needed + 1)) (u64 (limit + 1)) alloc error in
      if decide (st ≠ LONEJSON_STATUS_OK) then (st, buffer, alloc, error)
      else (LONEJSON_STATUS_OK,
            mk_buffer (data_null buffer) (contents buffer ++ data) (cap buffer), alloc, error).

Definition lonejson__byte_append_char (buffer : lonejson__byte_buffer) (ch limit : Z)
    (a : lonejson_allocator) (error : error_ptr) :
    lonejson_status * lonejson__byte_buffer * lonejson_allocator * error_ptr :=
  lonejson__byte_append buffer [ch] limit a error.

Definition lonejson__byte_reset (buffer : lonejson__byte_buffer) : lonejson__byte_buffer :=
  mk_buffer (data_null buffer) [] (cap buffer).

Definition lonejson__byte_consume (buffer : lonejson__byte_buffer) (len : Z) :
    lonejson__byte_buffer :=
  if blen buffer <=? len then lonejson__byte_reset buffer
  else mk_buffer (data_null buffer) (drop (Z.to_nat len) (contents buffer)) (cap buffer).

Definition lonejson__byte_free (buffer : lonejson__byte_buffer)
    (allocator : lonejson_allocator) : lonejson__byte_buffer * lonejson_allocator :=
  (buffer_empty, lonejson__buffer_free allocator (data_null buffer) (cap buffer)).

(** The copy, with the size of its block ([*alloc_size]). *)
Definition lonejson__dup_range (range : bytes) (allocator : lonejson_allocator)
    (error : error_ptr) : option (bytes * Z) * lonejson_allocator * error_ptr :=
  let '(out, allocator) := lonejson__buffer_alloc allocator (u64 (zlen range + 1)) in
  if negb out then
    let '(_, error) := lonejson__set_error error LONEJSON_STATUS_ALLOCATION_FAILED 0 0 0
                         "failed to allocate string" in
    (None, allocator, error)
  else (Some (range, zlen range + 1), allocator, error).

(** The C string at [buffer->data], [""] when [data] is NULL. *)
Definition buffer_c_string (b : lonejson__byte_buffer) : bytes := c_string (contents b).

(** ** Well-formedness

    The content and its NUL fit in the block; a NULL block is empty. *)
Definition buffer_wf (b : lonejson__byte_buffer) : Prop :=
  if data_null b then contents b = [] ∧ cap b = 0
  else blen b < cap b ≤ SIZE_MAX.

Lemma buffer_empty_wf : buffer_wf buffer_empty.
Proof. done. Qed.

Lemma byte_reset_wf b : buffer_wf b → buffer_wf (lonejson__byte_reset b).
Proof.
  unfold buffer_wf, blen. destruct b as [[] c k]; simpl; [tauto|].
  change (zlen (@nil Z)) with 0. pose proof (zlen_nonneg c). lia.
Qed.

Lemma blen_reset b : blen (lonejson__byte_reset b) = 0.
Proof. done. Qed.

Lemma byte_consume_wf b n : 0 ≤ n → buffer_wf b → buffer_wf (lonejson__byte_consume b n).
Proof.
  intros Hn Hb. unfold lonejson__byte_consume. destruct (blen b <=? n); [by apply byte_reset_wf|].
  unfold buffer_wf, blen in *. destruct b as [[] c k]; simpl in *.
  - destruct Hb as [-> ->]. by rewrite drop_nil.
  - unfold zlen in *. rewrite length_drop. lia.
Qed.

Lemma byte_consume_contents b n :
  0 ≤ n → contents (lonejson__byte_consume b n) = drop (Z.to_nat n) (contents b).
Proof.
  intros Hn. unfold lonejson__byte_consume, blen, zlen. case_if; simpl; [|done].
  rewrite drop_ge by lia. done.
Qed.

(** *** Growth *)

Lemma grow_cap_enough fuel c needed :
  1 ≤ c → needed ≤ SIZE_MAX → SIZE_MAX < c * 2 ^ Z.of_nat fuel →
  needed ≤ grow_cap fuel c needed ∧ (c ≤ SIZE_MAX → grow_cap fuel c needed ≤ SIZE_MAX).
Proof.
  revert c. induction fuel as [|fuel IH]; intros c Hc Hn Hf; simpl.
  - simpl in Hf. lia.
  - destruct (c <? needed) eqn:E; [|lia].
    destruct (_ <? c) eqn:E2; [lia|]. change (SIZE_MAX / 2) with 9223372036854775807 in E2.
    rewrite u64_small by (unfold is_u64; lia). destruct (IH (c * 2)); [lia|lia| |lia].
    rewrite Nat2Z.inj_succ, Z.pow_succ_r in Hf by lia. lia.
Qed.

Lemma grow_cap_64 c needed :
  1 ≤ c ≤ SIZE_MAX → needed ≤ SIZE_MAX → needed ≤ grow_cap 64 c needed ≤ SIZE_MAX.
Proof.
  intros Hc Hn. destruct (grow_cap_enough 64 c needed) as [H1 H2]; [lia|lia| |lia].
  change (2 ^ Z.of_nat 64) with 18446744073709551616. lia.
Qed.

(** The new capacity, when [reserve] reallocates. *)
Definition reserve_cap (c needed limit : Z) : Z :=
  let k := grow_cap 64 (if c =? 0 then 64 else c) needed in
  if limit <? k then needed else k.

Lemma reserve_cap_bounds c needed limit :
  0 ≤ c ≤ SIZE_MAX → needed ≤ limit → needed ≤ SIZE_MAX →
  needed ≤ reserve_cap c needed limit ≤ SIZE_MAX.
Proof.
  intros Hc Hn Hm. unfold reserve_cap.
  pose proof (grow_cap_64 (if c =? 0 then 64 else c) needed) as H.
  destruct (c =? 0) eqn:E; (destruct (_ <? _); [lia|]; apply H; lia).
Qed.

Lemma reserve_cap_limit c needed limit :
  needed ≤ limit → reserve_cap c needed limit ≤ limit.
Proof. intros Hn. unfold reserve_cap. destruct (limit <? _) eqn:E; lia. Qed.

(** ** Appending *)

(** What an append may do: extend the content, or leave the buffer alone. *)
Inductive append_outcome (b : lonejson__byte_buffer) (d : bytes) (limit : Z)
    (a : lonejson_allocator) (e : error_ptr) :
    lonejson_status * lonejson__byte_buffer * lonejson_allocator * error_ptr → Prop :=
| append_done b' a' :
    contents b' = contents b ++ d → buffer_wf b' →
    d = [] ∨ blen b + zlen d ≤ limit →
    data_null b' = data_null b && (zlen d =? 0) →
    (never_fails a → never_fails a') →
    append_outcome b d limit a e (LONEJSON_STATUS_OK, b', a', e)
| append_overflow e' :
    d ≠ [] → limit < blen b + zlen d ∨ SIZE_MAX ≤ limit →
    append_outcome b d limit a e (LONEJSON_STATUS_OVERFLOW, b, a, e')
| append_no_memory a' e' :
    d ≠ [] → ¬ never_fails a →
    append_outcome b d limit a e (LONEJSON_STATUS_ALLOCATION_FAILED, b, a', e').

(** The statistics count the buffer's block, next to [k] other live bytes. *)
Definition accounts (a : lonejson_allocator) (b : lonejson__byte_buffer) (k : Z) : Prop :=
  ∃ s, stats a = Some s ∧ bytes_live s = cap b + k.

Lemma buffer_realloc_accounts a b k n r a' :
  buffer_wf b → accounts a b k → 0 ≤ k → 0 ≤ n → n + k ≤ SIZE_MAX →
  lonejson__buffer_realloc a (data_null b) (cap b) n = (r, a') →
  ∃ s, stats a' = Some s ∧ bytes_live s = (if r then n else cap b) + k.
Proof.
  intros Hb (s & Hs & Hl) Hk Hn Hnk H.
  unfold lonejson__buffer_realloc, lonejson__buffer_alloc in H. rewrite !Hs in H.
  assert (0 ≤ cap b) as Hc.
  { unfold buffer_wf in Hb. pose proof (zlen_nonneg (contents b)). unfold blen in Hb.
    destruct (data_null b); lia. }
  destruct (data_null b) eqn:Hd.
  - unfold buffer_wf in Hb. rewrite Hd in Hb. destruct Hb as [_ Hb].
    destruct (malloc_fn a _ _); injection H as <- <-; eexists; (split; [reflexivity|]); simpl;
      [rewrite u64_small by (unfold is_u64; lia)|]; lia.
  - destruct (realloc_fn a _ _); injection H as <- <-; eexists; (split; [reflexivity|]); simpl;
      [|lia].
    replace (cap b <=? bytes_live s) with true by lia.
    rewrite u64_small by (unfold is_u64; lia). lia.
Qed.

Section append.
Context (b : lonejson__byte_buffer) (d : bytes) (limit : Z)
  (a : lonejson_allocator) (e : error_ptr).
Context (Hb : buffer_wf b) (Hlim : is_u64 limit).

Lemma wf_cap : 0 ≤ cap b ≤ SIZE_MAX.
Proof using Hb.
  unfold buffer_wf, blen in Hb. pose proof (zlen_nonneg (contents b)).
  destruct (data_null b); lia.
Qed.

Lemma wf_extend k :
  blen b + zlen d < k ≤ SIZE_MAX → buffer_wf (mk_buffer false (contents b ++ d) k).
Proof. intros Hk. unfold buffer_wf, blen in *. simpl. rewrite zlen_app. lia. Qed.

Lemma byte_append_outcome :
  append_outcome b d limit a e (lonejson__byte_append b d limit a e).
Proof using Hb Hlim.
  unfold lonejson__byte_append. unfold is_u64 in Hlim.
  pose proof wf_cap as Hc. pose proof (zlen_nonneg (contents b)) as Hz. fold (blen b) in Hz.
  destruct (zlen d =? 0) eqn:E0.
  { assert (d = []) as -> by (destruct d; [done|rewrite zlen_cons in E0;
      pose proof (zlen_nonneg l); lia]).
    apply append_done; rewrite ?app_nil_r; auto.
    change (zlen (@nil Z)) with 0. by destruct (data_null b). }
  assert (d ≠ []) as Hd by (intros ->; done).
  destruct (_ <? blen b) eqn:E1; [destruct e; apply append_overflow; auto; lia|].
  destruct ((limit <? blen b + zlen d) || (blen b + zlen d =? SIZE_MAX)) eqn:E2;
    [destruct e; apply append_overflow; auto; lia|].
  pose proof (zlen_nonneg d).
  rewrite (u64_small (blen b + zlen d + 1)) by (unfold is_u64; lia).
  unfold lonejson__byte_reserve.
  destruct (u64 (limit + 1) <? _) eqn:E3.
  { assert (limit = SIZE_MAX).
    { destruct (decide (limit = SIZE_MAX)); [done|].
      rewrite u64_small in E3 by (unfold is_u64; lia). lia. }
    destruct e; apply append_overflow; auto; lia. }
  destruct (_ <=? cap b) eqn:E4.
  { assert (data_null b = false) as Hnn.
    { unfold buffer_wf in Hb. destruct (data_null b); [destruct Hb; lia|done]. }
    cbn. apply append_done; auto; [|lia|by rewrite Hnn].
    unfold buffer_wf, blen in *. simpl. rewrite Hnn in *. rewrite zlen_app. lia. }
  fold (reserve_cap (cap b) (blen b + zlen d + 1) (u64 (limit + 1))).
  pose proof (reserve_cap_bounds (cap b) (blen b + zlen d + 1) (u64 (limit + 1))) as Hr.
  destruct (lonejson__buffer_realloc _ _ _ _) as [[] a'] eqn:Ea; simpl.
  - apply append_done; simpl; auto; [apply wf_extend; lia|lia|by rewrite E0, andb_false_r|].
    intros Hn. edestruct (buffer_realloc_ok a) as (a2 & Ha2 & ?); [done|].
    rewrite Ha2 in Ea. by injection Ea as <-.
  - assert (¬ never_fails a) as Hn.
    { intros Hn. edestruct (buffer_realloc_ok a) as (a2 & Ha2 & ?); [done|].
      by rewrite Ha2 in Ea. }
    destruct e; by apply append_no_memory.
Qed.

End append.

Lemma append_contents b d limit a e st b' a' e' :
  buffer_wf b → is_u64 limit →
  lonejson__byte_append b d limit a e = (st, b', a', e') →
  (contents b' = contents b ++ d ∧ (d = [] ∨ blen b + zlen d ≤ limit) ∧ buffer_wf b')
  ∨ b' = b.
Proof.
  intros Hb Hu H. pose proof (byte_append_outcome b d limit a e Hb Hu) as Ho.
  rewrite H in Ho. inversion Ho; subst; auto.
Qed.

(** With a working allocator, an append within the limit succeeds. *)
Lemma byte_append_ok b d limit a e :
  buffer_wf b → never_fails a → 0 ≤ limit < SIZE_MAX → blen b + zlen d ≤ limit →
  ∃ b' a', lonejson__byte_append b d limit a e = (LONEJSON_STATUS_OK, b', a', e)
           ∧ contents b' = contents b ++ d ∧ buffer_wf b' ∧ never_fails a'
           ∧ data_null b' = data_null b && (zlen d =? 0).
Proof.
  intros Hb Ha Hl Hd.
  assert (is_u64 limit) as Hu by (unfold is_u64; lia).
  pose proof (byte_append_outcome b d limit a e Hb Hu) as Ho.
  inversion Ho; subst; [eauto 10|exfalso; lia|done].
Qed.

(** The same append fails with [OVERFLOW] once the limit is passed. *)
Lemma byte_append_overflows b d limit a e :
  d ≠ [] → limit < blen b + zlen d →
  ∃ e', lonejson__byte_append b d limit a e = (LONEJSON_STATUS_OVERFLOW, b, a, e').
Proof.
  intros Hd Hlen. unfold lonejson__byte_append.
  assert (0 < zlen d).
  { destruct d as [|x d]; [done|]. rewrite zlen_cons. pose proof (zlen_nonneg d). lia. }
  replace (zlen d =? 0) with false by lia.
  destruct (_ <? blen b); [destruct e; simpl; eauto|].
  replace (_ || _) with true by lia. destruct e; simpl; eauto.
Qed.

(** Appending keeps the block accounted for, and its size within the limit. *)
Lemma append_accounts b d limit a e k st b' a' e' :
  buffer_wf b → is_u64 limit → accounts a b k → 0 ≤ k →
  blen b + zlen d + 1 + k ≤ SIZE_MAX → u64 (limit + 1) + k ≤ SIZE_MAX →
  lonejson__byte_append b d limit a e = (st, b', a', e') →
  accounts a' b' k ∧ (cap b ≤ u64 (limit + 1) → cap b' ≤ u64 (limit + 1)).
Proof.
  intros Hb Hu Hacc Hk Hfit Hlk.
  unfold lonejson__byte_append, lonejson__byte_reserve.
  pose proof (wf_cap b Hb). pose proof (zlen_nonneg d).
  pose proof (zlen_nonneg (contents b)) as Hz. fold (blen b) in Hz.
  destruct (zlen d =? 0); [intros; simplify_eq; (split; [done|simpl; lia])|].
  destruct (_ <? blen b); [destruct e; simpl; intros; simplify_eq; (split; [done|simpl; lia])|].
  destruct (_ || _) eqn:E2; [destruct e; simpl; intros; simplify_eq; (split; [done|simpl; lia])|].
  rewrite (u64_small (blen b + zlen d + 1)) by (unfold is_u64; lia).
  destruct (u64 (limit + 1) <? _) eqn:E3; [destruct e; simpl; intros; simplify_eq; (split; [done|simpl; lia])|].
  destruct (_ <=? cap b); [simpl; intros; simplify_eq; (split; [done|simpl; lia])|].
  fold (reserve_cap (cap b) (blen b + zlen d + 1) (u64 (limit + 1))).
  pose proof (reserve_cap_limit (cap b) (blen b + zlen d + 1) (u64 (limit + 1))) as Hr.
  pose proof (reserve_cap_bounds (cap b) (blen b + zlen d + 1) (u64 (limit + 1))) as Hr'.
  destruct (lonejson__buffer_realloc _ _ _ _) as [r a2] eqn:Ea.
  apply (buffer_realloc_accounts _ _ k) in Ea; [|done|done|lia|lia|lia].
  destruct r; [|destruct e]; simpl; intros; simplify_eq; (split; [done|simpl; lia]).
Qed.

(** ** Properties *)

(** C39 (invariant): appending keeps the block accounted for: if the allocator's
    statistics say the live bytes are the buffer's block plus [k] others, they
    still do afterwards, whether the append succeeds, is over the limit, or the
    allocator refuses; nothing is leaked or counted twice. *)
Theorem byte_append_accounts b d limit a e k :
  buffer_wf b → is_u64 limit → accounts a b k → 0 ≤ k →
  blen b + zlen d + 1 + k ≤ SIZE_MAX → u64 (limit + 1) + k ≤ SIZE_MAX →
  let '(st, b', a', e') := lonejson__byte_append b d limit a e in
  accounts a' b' k ∧ buffer_wf b' ∧
  contents b' = if decide (st = LONEJSON_STATUS_OK) then contents b ++ d else contents b.
Proof.
  intros Hb Hu Hacc Hk Hfit Hlk.
  pose proof (byte_append_outcome b d limit a e Hb Hu) as Ho.
  destruct (lonejson__byte_append b d limit a e) as [[[st b'] a'] e'] eqn:Happ.
  apply (append_accounts _ _ _ _ _ k) in Happ as [Hacc' _]; [|done..].
  inversion Ho; subst; split_and!; try done; case_decide; done.
Qed.

(** The [retry:] field parser accepts exactly the non-empty
    digit strings whose value is an [unsigned long], and returns that value. *)
Theorem parse_sse_retry_spec value n :
  lonejson__parse_sse_retry value = Some n ↔
  value ≠ [] ∧ all_digits value ∧ n = decimal_from 0 value ∧ n ≤ UINT64_MAX.
Proof.
  unfold lonejson__parse_sse_retry. destruct value as [|c v]; [simpl; intuition done|].
  rewrite zlen_cons. pose proof (zlen_nonneg v).
  replace (zlen v + 1 =? 0) with false by lia.
  pose proof (decimal_loop_spec UINT64_MAX (c :: v) 0 n) as Hs.
  destruct (decimal_loop _ _ _) as [m| |]; split.
  - intros [= ->]. split; [done|]. by apply Hs.
  - intros (_ & Hr). f_equal. apply Hs in Hr; [congruence|lia|lia].
  - done.
  - intros (_ & Hr). apply Hs in Hr; [done|lia|lia].
  - done.
  - intros (_ & Hr). apply Hs in Hr; [done|lia|lia].
Qed.

(** A limit of [SIZE_MAX], the natural way to ask for no limit,
    makes every append fail: [limit + 1] wraps to zero. *)
Theorem byte_append_size_max b d a e :
  buffer_wf b → d ≠ [] → blen b + zlen d < SIZE_MAX →
  ∃ e', lonejson__byte_append b d SIZE_MAX a e = (LONEJSON_STATUS_OVERFLOW, b, a, e').
Proof.
  intros Hb Hd Hlen. unfold lonejson__byte_append, lonejson__byte_reserve.
  pose proof (zlen_nonneg (contents b)) as Hz. fold (blen b) in Hz.
  assert (0 < zlen d).
  { destruct d as [|x d]; [done|]. rewrite zlen_cons. pose proof (zlen_nonneg d). lia. }
  replace (zlen d =? 0) with false by lia.
  replace (_ <? blen b) with false by lia. replace (_ || _) with false by lia.
  rewrite (u64_small (blen b + zlen d + 1)) by (unfold is_u64; lia).
  change (u64 (SIZE_MAX + 1)) with 0. replace (0 <? _) with true by lia.
  destruct e; simpl; eauto.
Qed.

Lemma byte_append_accounts_witness :
  let '(st, b', a', e') :=
    lonejson__byte_append buffer_empty [1; 2; 3] 10 fresh_allocator None in
  accounts a' b' 0 ∧ buffer_wf b' ∧
  contents b' = if decide (st = LONEJSON_STATUS_OK) then [] ++ [1; 2; 3] else [].
Proof.
  apply (byte_append_accounts buffer_empty [1; 2; 3] 10 fresh_allocator None 0);
    [done|split; discriminate|eexists; split; reflexivity|reflexivity|discriminate|discriminate].
Defined.

Lemma byte_append_size_max_witness :
  ∃ e', lonejson__byte_append buffer_empty [65] SIZE_MAX fresh_allocator None =
        (LONEJSON_STATUS_OVERFLOW, buffer_empty, fresh_allocator, e').
Proof. apply (byte_append_size_max buffer_empty [65] fresh_allocator None); done. Defined.
