(* ===== verification/Sse.v ===== *)
(** * Server-Sent Events parser
      ([src/impl/34_protocol_framing_api.h], lines 3-305 and 995-1007)

    [lonejson_sse_push] consumes bytes one at a time, collects one physical
    line in [line], turns each line into a field and streams the data of the
    current event to the handler; [lonejson_sse_finish] treats the bytes left as
    a last line and dispatches the event in progress.  The fields of
    [struct lonejson_sse] that only the JSON front end uses are left out. *)

From stdpp Require Import base numbers list strings.
From Stdlib Require Import ZArith Lia.
From S2P Require Import Prelude Runtime ByteBuffer.

(** ** Data *)

Record lonejson_sse_options := mk_sse_options {
  max_line_bytes : Z;
  max_event_data_bytes : Z;
  max_buffered_bytes : Z
}.

Record lonejson_sse := mk_sse {
  sse_options : lonejson_sse_options;
  sse_allocator : lonejson_allocator;
  sse_line : lonejson__byte_buffer;
  sse_event : lonejson__byte_buffer;
  sse_id : lonejson__byte_buffer;
  event_data_len : Z;
  retry_ms : Z;
  has_retry : bool;
  sse_saw_cr : bool;
  sse_closed : bool;
  event_pending : bool;
  event_started : bool;
  data_seen : bool
}.

(** [lonejson_sse_event]: [None] is a NULL string. *)
Record lonejson_sse_event := mk_sse_event {
  ev_event : option bytes;
  ev_id : option bytes;
  ev_data_len : Z;
  ev_retry_ms : Z;
  ev_has_retry : bool
}.

Record lonejson_sse_handler (U : Type) := mk_sse_handler {
  begin_event : option (lonejson_sse_event → callback U);
  data_chunk : option (bytes → callback U);
  end_event : option (lonejson_sse_event → callback U)
}.
Arguments mk_sse_handler {U} _ _ _.
Arguments begin_event {U} _.
Arguments data_chunk {U} _.
Arguments end_event {U} _.

(** ** Field updates *)

Definition sse_set_line (b : lonejson__byte_buffer) (s : lonejson_sse) : lonejson_sse :=
  mk_sse (sse_options s) (sse_allocator s) b (sse_event s) (sse_id s) (event_data_len s)
    (retry_ms s) (has_retry s) (sse_saw_cr s) (sse_closed s) (event_pending s)
    (event_started s) (data_seen s).
Definition sse_set_event (b : lonejson__byte_buffer) (s : lonejson_sse) : lonejson_sse :=
  mk_sse (sse_options s) (sse_allocator s) (sse_line s) b (sse_id s) (event_data_len s)
    (retry_ms s) (has_retry s) (sse_saw_cr s) (sse_closed s) (event_pending s)
    (event_started s) (data_seen s).
Definition sse_set_id (b : lonejson__byte_buffer) (s : lonejson_sse) : lonejson_sse :=
  mk_sse (sse_options s) (sse_allocator s) (sse_line s) (sse_event s) b (event_data_len s)
    (retry_ms s) (has_retry s) (sse_saw_cr s) (sse_closed s) (event_pending s)
    (event_started s) (data_seen s).
Definition sse_set_allocator (a : lonejson_allocator) (s : lonejson_sse) : lonejson_sse :=
  mk_sse (sse_options s) a (sse_line s) (sse_event s) (sse_id s) (event_data_len s)
    (retry_ms s) (has_retry s) (sse_saw_cr s) (sse_closed s) (event_pending s)
    (event_started s) (data_seen s).
Definition sse_set_data_len (n : Z) (s : lonejson_sse) : lonejson_sse :=
  mk_sse (sse_options s) (sse_allocator s) (sse_line s) (sse_event s) (sse_id s) n
    (retry_ms s) (has_retry s) (sse_saw_cr s) (sse_closed s) (event_pending s)
    (event_started s) (data_seen s).
Definition sse_set_retry (n : Z) (has : bool) (s : lonejson_sse) : lonejson_sse :=
  mk_sse (sse_options s) (sse_allocator s) (sse_line s) (sse_event s) (sse_id s)
    (event_data_len s) n has (sse_saw_cr s) (sse_closed s) (event_pending s)
    (event_started s) (data_seen s).
Definition sse_set_saw_cr (v : bool) (s : lonejson_sse) : lonejson_sse :=
  mk_sse (sse_options s) (sse_allocator s) (sse_line s) (sse_event s) (sse_id s)
    (event_data_len s) (retry_ms s) (has_retry s) v (sse_closed s) (event_pending s)
    (event_started s) (data_seen s).
Definition sse_set_closed (s : lonejson_sse) : lonejson_sse :=
  mk_sse (sse_options s) (sse_allocator s) (sse_line s) (sse_event s) (sse_id s)
    (event_data_len s) (retry_ms s) (has_retry s) (sse_saw_cr s) true (event_pending s)
    (event_started s) (data_seen s).
(** [event_pending], [event_started] and [data_seen]. *)
Definition sse_set_flags (pending started seen : bool) (s : lonejson_sse) : lonejson_sse :=
  mk_sse (sse_options s) (sse_allocator s) (sse_line s) (sse_event s) (sse_id s)
    (event_data_len s) (retry_ms s) (has_retry s) (sse_saw_cr s) (sse_closed s)
    pending started seen.

(** [sse->event_pending = 1;] *)
Definition sse_set_pending (s : lonejson_sse) : lonejson_sse :=
  sse_set_flags true (event_started s) (data_seen s) s.
Definition sse_reset_line (s : lonejson_sse) : lonejson_sse :=
  sse_set_line (lonejson__byte_reset (sse_line s)) s.

(** ** Options and construction *)

Definition lonejson_default_sse_options : lonejson_sse_options :=
  mk_sse_options (64 * 1024) (1024 * 1024) (1024 * 1024).

(** The limits the parser works with: a zero field selects the default. *)
Definition sse_resolve_options (options : option lonejson_sse_options) :
    lonejson_sse_options :=
  let resolved := default lonejson_default_sse_options options in
  mk_sse_options
    (if max_line_bytes resolved =? 0 then 64 * 1024 else max_line_bytes resolved)
    (if max_event_data_bytes resolved =? 0 then 1024 * 1024
     else max_event_data_bytes resolved)
    (if max_buffered_bytes resolved =? 0 then 1024 * 1024 else max_buffered_bytes resolved).

Definition sse_zero (options : lonejson_sse_options) (a : lonejson_allocator) : lonejson_sse :=
  mk_sse options a buffer_empty buffer_empty buffer_empty 0 0 false false false false
    false false.

(** [allocator] is the resolved one, [None] when the options name some but not
    all callbacks; [sizeof_sse] is [sizeof( *sse)]. *)
Definition lonejson_sse_open (sizeof_sse : Z) (options : option lonejson_sse_options)
    (allocator : option lonejson_allocator) (error : error_ptr) :
    option lonejson_sse * option lonejson_allocator * error_ptr :=
  let resolved := sse_resolve_options options in
  match allocator with
  | None =>
      (None, allocator,
       snd (lonejson__set_error error LONEJSON_STATUS_INVALID_ARGUMENT 0 0 0
              "allocator must provide either all callbacks or none"))
  | Some a =>
      let '(sse, a) := lonejson__buffer_alloc a sizeof_sse in
      if negb sse then
        (None, Some a,
         snd (lonejson__set_error error LONEJSON_STATUS_ALLOCATION_FAILED 0 0 0
                "failed to allocate SSE parser"))
      else (Some (sse_zero resolved a), Some a, lonejson__clear_error error)
  end.

Definition lonejson__sse_event_view (sse : lonejson_sse) : lonejson_sse_event :=
  mk_sse_event
    (Some (if data_null (sse_event sse) then c_str "" else buffer_c_string (sse_event sse)))
    (if data_null (sse_id sse) then None else Some (buffer_c_string (sse_id sse)))
    (event_data_len sse) (retry_ms sse) (has_retry sse).

Definition lonejson__sse_reset_event (sse : lonejson_sse) : lonejson_sse :=
  mk_sse (sse_options sse) (sse_allocator sse) (sse_line sse)
    (lonejson__byte_reset (sse_event sse)) (lonejson__byte_reset (sse_id sse))
    0 0 false (sse_saw_cr sse) (sse_closed sse) false false false.

(** ** The parser *)

Section parser.
Context {U : Type} (handler : option (lonejson_sse_handler U)).

Abbreviation sse_step := (step lonejson_sse U).

(** [lonejson__byte_append] on one of the parser's buffers. *)
Definition sse_append (get : lonejson_sse → lonejson__byte_buffer)
    (set : lonejson__byte_buffer → lonejson_sse → lonejson_sse)
    (data : bytes) (limit : lonejson_sse_options → Z) : sse_step := λ c,
  let s := self c in
  let '(st, b, a, e) :=
    lonejson__byte_append (get s) data (limit (sse_options s)) (sse_allocator s) (error c) in
  (st, mk_ctx (set b (sse_set_allocator a s)) (user c) e).

(** [lonejson__sse_callback_error] is [Runtime.callback_error]. *)

Definition lonejson__sse_begin_if_needed : sse_step := λ c,
  if event_started (self c) then (LONEJSON_STATUS_OK, c)
  else
    (modify (λ s, sse_set_flags (event_pending s) true (data_seen s) s) &> λ c,
       call ((λ f, f (lonejson__sse_event_view (self c))) <$> (handler ≫= begin_event))
         "SSE begin_event callback failed" c) c.

Definition lonejson__sse_emit_data (data : bytes) : sse_step := λ c,
  let s := self c in
  let len := zlen data in
  let max := max_event_data_bytes (sse_options s) in
  let add_len := u64 (len + (if data_seen s then 1 else 0)) in
  if (max <? add_len) || (max - add_len <? event_data_len s) then
    fail_with LONEJSON_STATUS_OVERFLOW "SSE event data exceeds configured limit" c
  else
    (modify sse_set_pending &>
     lonejson__sse_begin_if_needed &>
     (if data_seen s then
        call ((λ f, f ([10])) <$> (handler ≫= data_chunk)) "SSE data_chunk callback failed" &>
        modify (λ s, sse_set_data_len (u64 (event_data_len s + 1)) s)
      else ok) &>
     (if negb (len =? 0) then
        call ((λ f, f data) <$> (handler ≫= data_chunk)) "SSE data_chunk callback failed"
      else ok) &>
     modify (λ s, sse_set_flags (event_pending s) (event_started s) true
                    (sse_set_data_len (u64 (event_data_len s + len)) s))) c.

Definition lonejson__sse_emit : sse_step := λ c,
  if negb (event_pending (self c)) then (LONEJSON_STATUS_OK, c)
  else
    (lonejson__sse_begin_if_needed &>
     (λ c, call ((λ f, f (lonejson__sse_event_view (self c))) <$> (handler ≫= end_event))
             "SSE end_event callback failed" c) &>
     modify lonejson__sse_reset_event) c.

(** The name and the value of a line: up to the first colon, and after it less
    one leading space; the whole line and nothing without a colon. *)
Definition sse_split_field (line : bytes) : bytes * bytes :=
  match split_at ":"%ch line with
  | None => (line, [])
  | Some (name, value) =>
      (name, match value with
             | v :: rest => if v =? " "%ch then rest else value
             | [] => []
             end)
  end.

Definition lonejson__sse_process_line : sse_step := λ c,
  let line := contents (sse_line (self c)) in
  match line with
  | [] => lonejson__sse_emit c
  | first :: _ =>
      if first =? ":"%ch then (LONEJSON_STATUS_OK, c)
      else
        let '(name, value) := sse_split_field line in
        if bool_decide (name = c_str "data") then lonejson__sse_emit_data value c
        else if bool_decide (name = c_str "event") then
          (modify (λ s, sse_set_pending
                          (sse_set_event (lonejson__byte_reset (sse_event s)) s)) &>
           sse_append sse_event sse_set_event value max_buffered_bytes) c
        else if bool_decide (name = c_str "id") && negb (existsb (Z.eqb 0) value) then
          (modify (λ s, sse_set_pending
                          (sse_set_id (lonejson__byte_reset (sse_id s)) s)) &>
           sse_append sse_id sse_set_id value max_buffered_bytes) c
        else if bool_decide (name = c_str "retry") then
          match lonejson__parse_sse_retry value with
          | Some retry => modify (λ s, sse_set_pending (sse_set_retry retry true s)) c
          | None => (LONEJSON_STATUS_OK, c)
          end
        else (LONEJSON_STATUS_OK, c)
  end.

(** [status = process_line(...); byte_reset(&sse->line);]: the line is cleared
    whatever the status. *)
Definition sse_finish_line : sse_step := λ c,
  let '(st, c) := lonejson__sse_process_line c in
  (st, mk_ctx (sse_reset_line (self c)) (user c) (error c)).

Definition lonejson__sse_feed_char (ch : Z) : sse_step := λ c,
  if sse_saw_cr (self c) then
    (modify (sse_set_saw_cr false) &> sse_finish_line &>
     (if ch =? 10 then ok
      else if ch =? 13 then modify (sse_set_saw_cr true)
      else sse_append sse_line sse_set_line [ch] max_line_bytes)) c
  else if ch =? 13 then modify (sse_set_saw_cr true) c
  else if ch =? 10 then sse_finish_line c
  else sse_append sse_line sse_set_line [ch] max_line_bytes c.

Definition lonejson_sse_push (sse : option lonejson_sse) (data : option bytes) (len : Z)
    (user : U) (error : error_ptr) :
    lonejson_status * option lonejson_sse * U * error_ptr :=
  match sse with
  | Some s =>
      if bool_decide (data = None) && negb (len =? 0) then
        let '(st, e) := lonejson__set_error error LONEJSON_STATUS_INVALID_ARGUMENT 0 0 0
                          "SSE parser and bytes are required" in (st, sse, user, e)
      else if sse_closed s then
        let '(st, e) := lonejson__set_error error LONEJSON_STATUS_INVALID_ARGUMENT 0 0 0
                          "SSE parser is already finished" in (st, sse, user, e)
      else
        let '(st, c) := for_each lonejson__sse_feed_char
                          (take (Z.to_nat len) (default [] data))
                          (mk_ctx s user (lonejson__clear_error error)) in
        (st, Some (self c), Runtime.user c, Runtime.error c)
  | None =>
      let '(st, e) := lonejson__set_error error LONEJSON_STATUS_INVALID_ARGUMENT 0 0 0
                        "SSE parser and bytes are required" in (st, sse, user, e)
  end.

Definition sse_finish_step : sse_step := λ c,
  let s := self c in
  ((if sse_saw_cr s || negb (blen (sse_line s) =? 0)
    then modify (sse_set_saw_cr false) &> sse_finish_line else ok) &>
   lonejson__sse_emit &> modify sse_set_closed) c.

Definition lonejson_sse_finish (sse : option lonejson_sse) (user : U) (error : error_ptr) :
    lonejson_status * option lonejson_sse * U * error_ptr :=
  match sse with
  | None =>
      let '(st, e) := lonejson__set_error error LONEJSON_STATUS_INVALID_ARGUMENT 0 0 0
                        "SSE parser is required" in (st, sse, user, e)
  | Some s =>
      if sse_closed s then (LONEJSON_STATUS_OK, sse, user, error)
      else
        let '(st, c) := sse_finish_step (mk_ctx s user error) in
        (st, Some (self c), Runtime.user c, Runtime.error c)
  end.
End parser.

(** The buffers and the object are released; the allocator is what is left. *)
Definition lonejson_sse_close (sizeof_sse : Z) (sse : lonejson_sse) : lonejson_allocator :=
  let '(_, a) := lonejson__byte_free (sse_line sse) (sse_allocator sse) in
  let '(_, a) := lonejson__byte_free (sse_event sse) a in
  let '(_, a) := lonejson__byte_free (sse_id sse) a in
  lonejson__buffer_free a false sizeof_sse.

(** ** Reference semantics

    What an event stream means, without buffers or flags: the input is cut
    into lines at LF, CR LF and CR; lines are grouped by blank lines; a group
    with at least one field is an event. *)

Fixpoint sse_lines (s : bytes) : list bytes :=
  match s with
  | [] => [[]]
  | c :: r =>
      if c =? 10 then [] :: sse_lines r
      else if c =? 13 then
        match r with
        | c2 :: r2 => if c2 =? 10 then [] :: sse_lines r2 else [] :: sse_lines r
        | [] => [[]; []]
        end
      else match sse_lines r with
           | l :: ls => (c :: l) :: ls
           | [] => [[c]]
           end
  end.

Inductive sse_field :=
| Field_data (v : bytes)
| Field_event (v : bytes)
| Field_id (v : bytes)
| Field_retry (n : Z).

(** The field of a line; comments, unknown names, ids with a NUL and retries
    that are not a number contribute nothing. *)
Definition sse_line_field (l : bytes) : option sse_field :=
  match l with
  | [] => None
  | first :: _ =>
      if first =? ":"%ch then None
      else
        let '(name, value) := sse_split_field l in
        if bool_decide (name = c_str "data") then Some (Field_data value)
        else if bool_decide (name = c_str "event") then Some (Field_event value)
        else if bool_decide (name = c_str "id") && negb (existsb (Z.eqb 0) value)
        then Some (Field_id value)
        else if bool_decide (name = c_str "retry")
        then Field_retry <$> lonejson__parse_sse_retry value
        else None
  end.

Definition field_data (f : sse_field) : option bytes :=
  match f with Field_data v => Some v | _ => None end.
Definition field_event (f : sse_field) : option bytes :=
  match f with Field_event v => Some v | _ => None end.
Definition field_id (f : sse_field) : option bytes :=
  match f with Field_id v => Some v | _ => None end.
Definition field_retry (f : sse_field) : option Z :=
  match f with Field_retry n => Some n | _ => None end.

(** Data lines are joined by LF. *)
Fixpoint join_lf (ls : list bytes) : bytes :=
  match ls with
  | [] => []
  | [l] => l
  | l :: ls => l ++ 10 :: join_lf ls
  end.

Definition group_data (g : list sse_field) : bytes := join_lf (omap field_data g).

(** The event that lonejson.h documents: its type and id are NULL when it has
    none, and its other members are the group's. *)
Definition documented_text (v : bytes) : option bytes :=
  if decide (v = []) then None else Some (c_string v).

Definition documented_event (g : list sse_field) : lonejson_sse_event * bytes :=
  (mk_sse_event
     (documented_text (default [] (last (omap field_event g))))
     (documented_text (default [] (last (omap field_id g))))
     (zlen (group_data g))
     (default 0 (last (omap field_retry g)))
     (bool_decide (omap field_retry g ≠ [])),
   group_data g).

(** The documented events of the lines [ls] when the group [g] is already
    open: a blank line closes a group, and a group with a field is an event. *)
Fixpoint documented_events (g : list sse_field) (ls : list bytes) :
    list (lonejson_sse_event * bytes) :=
  let dispatched := match g with [] => [] | _ => [documented_event g] end in
  match ls with
  | [] => dispatched
  | [] :: ls => dispatched ++ documented_events [] ls
  | l :: ls => documented_events (g ++ option_list (sse_line_field l)) ls
  end.

(** What a listener is shown for a documented text: that text, and for none
    NULL or the empty string. *)
Definition text_shown (shown documented : option bytes) : Prop :=
  shown = documented ∨ documented = None ∧ shown = Some [].

(** A delivered event is the documented one, up to the text of an absent type
    or id. *)
Definition event_shown (shown documented : lonejson_sse_event * bytes) : Prop :=
  text_shown (ev_event shown.1) (ev_event documented.1)
  ∧ text_shown (ev_id shown.1) (ev_id documented.1)
  ∧ ev_data_len shown.1 = ev_data_len documented.1
  ∧ ev_retry_ms shown.1 = ev_retry_ms documented.1
  ∧ ev_has_retry shown.1 = ev_has_retry documented.1
  ∧ shown.2 = documented.2.

(** An event as the code delivers it.  [seen] tells whether a non-empty id
    occurred before: from then on an event without an id shows [""] instead of
    NULL. *)
Definition group_event (seen : bool) (g : list sse_field) : lonejson_sse_event * bytes :=
  let id := default [] (last (omap field_id g)) in
  (mk_sse_event
     (Some (c_string (default [] (last (omap field_event g)))))
     (if seen || existsb (λ v, negb (zlen v =? 0)) (omap field_id g)
      then Some (c_string id) else None)
     (zlen (group_data g))
     (default 0 (last (omap field_retry g)))
     (bool_decide (omap field_retry g ≠ [])),
   group_data g).

Definition id_seen (seen : bool) (g : list sse_field) : bool :=
  seen || existsb (λ v, negb (zlen v =? 0)) (omap field_id g).

Definition dispatch (seen : bool) (g : list sse_field) : list (lonejson_sse_event * bytes) :=
  match g with
  | [] => []
  | _ => [group_event seen g]
  end.

(** The events of the lines [ls] when the group [g] is already open. *)
Fixpoint sse_events (seen : bool) (g : list sse_field) (ls : list bytes) :
    list (lonejson_sse_event * bytes) :=
  match ls with
  | [] => dispatch seen g
  | l :: ls =>
      match l with
      | [] => dispatch seen g ++ sse_events (id_seen seen g) [] ls
      | _ => sse_events seen (g ++ option_list (sse_line_field l)) ls
      end
  end.

(** The limits the options put on an input. *)
Definition field_fits (o : lonejson_sse_options) (f : sse_field) : Prop :=
  match f with
  | Field_event v | Field_id v => zlen v ≤ max_buffered_bytes o
  | Field_data _ | Field_retry _ => True
  end.

Definition group_fits (o : lonejson_sse_options) (g : list sse_field) : Prop :=
  zlen (group_data g) ≤ max_event_data_bytes o.

Fixpoint lines_fit (o : lonejson_sse_options) (g : list sse_field) (ls : list bytes) : Prop :=
  group_fits o g ∧
  match ls with
  | [] => True
  | l :: ls =>
      zlen l ≤ max_line_bytes o ∧ Forall (field_fits o) (option_list (sse_line_field l)) ∧
      match l with
      | [] => lines_fit o [] ls
      | _ => lines_fit o (g ++ option_list (sse_line_field l)) ls
      end
  end.

#[export] Instance field_fits_dec o f : Decision (field_fits o f).
Proof. destruct f; simpl; apply _. Defined.
#[export] Instance lines_fit_dec o ls : ∀ g, Decision (lines_fit o g ls).
Proof.
  induction ls as [|l ls IH]; intros g; simpl; unfold group_fits; [apply _|].
  destruct l; apply _.
Defined.

(** Limits below [SIZE_MAX], where the buffers' arithmetic is exact. *)
Definition sse_options_ok (o : lonejson_sse_options) : Prop :=
  0 ≤ max_line_bytes o < SIZE_MAX ∧ 0 ≤ max_event_data_bytes o < SIZE_MAX
  ∧ 0 ≤ max_buffered_bytes o < SIZE_MAX.

(** What the code delivers, against what is documented. *)
Lemma group_event_shown seen g : event_shown (group_event seen g) (documented_event g).
Proof.
  unfold event_shown, text_shown, group_event, documented_event, documented_text. simpl.
  split_and!; try done.
  - case_decide as E; [right; by rewrite E|by left].
  - case_decide as E; [rewrite E; change (c_string []) with (@nil Z)
                      |replace (seen || _) with true; [by left|]].
    { case_match; [by right|by left]. }
    symmetry. apply orb_true_iff. right. apply existsb_exists.
    exists (default [] (last (omap field_id g))). split.
    + destruct (last (omap field_id g)) as [v|] eqn:El; [|done].
      apply last_Some in El as [l ->]. apply in_or_app. right. by left.
    + apply negb_true_iff, Z.eqb_neq. unfold zlen. intros ?.
      apply E, nil_length_inv. lia.
Qed.

Lemma sse_events_shown ls : ∀ seen g,
  Forall2 event_shown (sse_events seen g ls) (documented_events g ls).
Proof.
  induction ls as [|l ls IH]; intros seen g; [|destruct l as [|c l]; [|apply IH]]; simpl;
    unfold dispatch; destruct g; simpl; auto using group_event_shown, Forall2_cons, Forall2_nil.
Qed.

(** *** Lines *)

Definition no_break (l : bytes) : Prop := Forall (λ c, c ≠ 10 ∧ c ≠ 13) l.

Lemma sse_lines_nonempty s : ∃ l ls, sse_lines s = l :: ls.
Proof.
  destruct s as [|c r]; simpl; [eauto|]. repeat case_match; eauto.
Qed.

Lemma sse_lines_app l s :
  no_break l →
  ∃ h t, sse_lines s = h :: t ∧ sse_lines (l ++ s) = (l ++ h) :: t.
Proof.
  induction 1 as [|c l [Hc1 Hc2] _ IH].
  - destruct (sse_lines_nonempty s) as (h & t & H). eauto.
  - destruct IH as (h & t & H1 & H2). exists h, t. split; [done|].
    cbn [app sse_lines]. rewrite H2.
    replace (c =? 10) with false by lia. by replace (c =? 13) with false by lia.
Qed.

Lemma sse_lines_lf l s : no_break l → sse_lines (l ++ 10 :: s) = l :: sse_lines s.
Proof.
  intros Hl. destruct (sse_lines_app l (10 :: s) Hl) as (h & t & H1 & H2).
  rewrite H2. simpl in H1. simplify_eq. by rewrite app_nil_r.
Qed.

Lemma sse_lines_crlf l s : no_break l → sse_lines (l ++ 13 :: 10 :: s) = l :: sse_lines s.
Proof.
  intros Hl. destruct (sse_lines_app l (13 :: 10 :: s) Hl) as (h & t & H1 & H2).
  rewrite H2. cbn in H1. simplify_eq. by rewrite app_nil_r.
Qed.

Lemma sse_lines_cr l c s :
  no_break l → c ≠ 10 → sse_lines (l ++ 13 :: c :: s) = l :: sse_lines (c :: s).
Proof.
  intros Hl Hc. destruct (sse_lines_app l (13 :: c :: s) Hl) as (h & t & H1 & H2).
  rewrite H2.
  assert (sse_lines (13 :: c :: s) = [] :: sse_lines (c :: s)) as H3.
  { change (sse_lines (13 :: c :: s)) with
      (if c =? 10 then [] :: sse_lines s else [] :: sse_lines (c :: s)).
    by replace (c =? 10) with false by lia. }
  rewrite H1 in H3. injection H3 as -> ->. by rewrite app_nil_r.
Qed.

Lemma sse_lines_last l : no_break l → sse_lines l = [l].
Proof.
  intros Hl. destruct (sse_lines_app l [] Hl) as (h & t & H1 & H2).
  rewrite app_nil_r in H2. injection H1 as <- <-. by rewrite app_nil_r in H2.
Qed.

Lemma sse_lines_last_cr l : no_break l → sse_lines (l ++ [13]) = [l; []].
Proof.
  intros Hl. destruct (sse_lines_app l [13] Hl) as (h & t & H1 & H2).
  rewrite H2. simpl in H1. simplify_eq. by rewrite app_nil_r.
Qed.

(** *** Groups *)

Lemma join_lf_snoc ls l :
  join_lf (ls ++ [l]) = match ls with [] => l | _ => join_lf ls ++ 10 :: l end.
Proof.
  induction ls as [|x ls IH]; [done|]. simpl.
  destruct ls as [|y ls]; [done|]. cbn [app] in *. rewrite IH. simpl.
  by rewrite <- app_assoc.
Qed.

Lemma group_data_snoc g f :
  group_data (g ++ [f]) =
  match field_data f with
  | Some v => match omap field_data g with [] => v | _ => group_data g ++ 10 :: v end
  | None => group_data g
  end.
Proof.
  unfold group_data. rewrite omap_app. simpl.
  destruct (field_data f); [by rewrite join_lf_snoc|by rewrite app_nil_r].
Qed.

Lemma group_fits_snoc o g f : group_fits o (g ++ [f]) → group_fits o g.
Proof.
  unfold group_fits. rewrite group_data_snoc. destruct (field_data f); [|done].
  destruct (omap field_data g) eqn:E.
  - unfold group_data. rewrite E. simpl. pose proof (zlen_nonneg l).
    change (zlen (@nil Z)) with 0. lia.
  - rewrite zlen_app, zlen_cons. pose proof (zlen_nonneg l). lia.
Qed.

Lemma lines_fit_group o g ls : lines_fit o g ls → group_fits o g.
Proof. destruct ls; simpl; tauto. Qed.

(** ** Listeners

    What the refinement needs of a handler: its three callbacks succeed, and
    what the caller's state shows of them: the events delivered so far and the
    data of the event being delivered. *)
Class SseListener {U : Type} (h : lonejson_sse_handler U) := {
  events_of : U → list (lonejson_sse_event * bytes);
  data_of : U → bytes;
  listen_begin : ∀ v u e, ∃ f u' e',
    begin_event h = Some f ∧ f v u e = (LONEJSON_STATUS_OK, u', e')
    ∧ events_of u' = events_of u ∧ data_of u' = [];
  listen_data : ∀ d u e, ∃ f u' e',
    data_chunk h = Some f ∧ f d u e = (LONEJSON_STATUS_OK, u', e')
    ∧ events_of u' = events_of u ∧ data_of u' = data_of u ++ d;
  listen_end : ∀ v u e, ∃ f u' e',
    end_event h = Some f ∧ f v u e = (LONEJSON_STATUS_OK, u', e')
    ∧ events_of u' = events_of u ++ [(v, data_of u)]
}.

(** The recording handler. *)
Definition recorder : lonejson_sse_handler (list (lonejson_sse_event * bytes) * bytes) :=
  mk_sse_handler
    (Some (λ _ u e, (LONEJSON_STATUS_OK, (u.1, []), e)))
    (Some (λ d u e, (LONEJSON_STATUS_OK, (u.1, u.2 ++ d), e)))
    (Some (λ v u e, (LONEJSON_STATUS_OK, (u.1 ++ [(v, u.2)], u.2), e))).

#[export] Instance recorder_listener : SseListener recorder.
Proof.
  refine {| events_of := fst; data_of := snd |}; intros; do 3 eexists; split_and!; reflexivity.
Defined.

Section refinement.
Context {U : Type} (h : lonejson_sse_handler U) `{!SseListener h}.
Context (o : lonejson_sse_options) (Ho : sse_options_ok o).

(** The parser between two bytes: [g] is the open group, [cur] the open line,
    [cr] a pending CR, [evs] what the handler has been told. *)
Record sse_rel (seen : bool) (g : list sse_field) (cur : bytes) (cr : bool)
    (evs : list (lonejson_sse_event * bytes)) (c : ctx_of lonejson_sse U) : Prop := {
  r_options : sse_options (self c) = o;
  r_allocator : never_fails (sse_allocator (self c));
  r_closed : sse_closed (self c) = false;
  r_line : contents (sse_line (self c)) = cur ∧ buffer_wf (sse_line (self c));
  r_cr : sse_saw_cr (self c) = cr;
  r_event : contents (sse_event (self c)) = default [] (last (omap field_event g))
            ∧ buffer_wf (sse_event (self c));
  r_id : contents (sse_id (self c)) = default [] (last (omap field_id g))
         ∧ buffer_wf (sse_id (self c));
  r_seen : data_null (sse_id (self c)) = negb (id_seen seen g);
  r_retry : retry_ms (self c) = default 0 (last (omap field_retry g));
  r_has : has_retry (self c) = bool_decide (omap field_retry g ≠ []);
  r_pending : event_pending (self c) = bool_decide (g ≠ []);
  r_started : event_started (self c) = bool_decide (omap field_data g ≠ []);
  r_data_seen : data_seen (self c) = bool_decide (omap field_data g ≠ []);
  r_len : event_data_len (self c) = zlen (group_data g);
  r_evs : events_of (user c) = evs;
  r_data : omap field_data g ≠ [] → data_of (user c) = group_data g
}.

Lemma sse_view_rel seen g cur cr evs c :
  sse_rel seen g cur cr evs c →
  lonejson__sse_event_view (self c) = (group_event seen g).1.
Proof.
  intros []. unfold lonejson__sse_event_view, group_event, buffer_c_string. cbn [fst].
  fold (id_seen seen g). f_equal; try done.
  - destruct r_event0 as [<- Hw]. unfold buffer_wf in Hw.
    destruct (data_null _); [|done]. destruct Hw as [-> _]. done.
  - rewrite r_seen0. destruct r_id0 as [<- _]. by destruct (id_seen seen g).
Qed.

(** One call of [begin_event], unless the event has begun. *)
Lemma begin_if_needed_ok c :
  ∃ u' e', lonejson__sse_begin_if_needed (Some h) c =
    (LONEJSON_STATUS_OK,
     mk_ctx (sse_set_flags (event_pending (self c)) true (data_seen (self c)) (self c)) u' e')
    ∧ events_of u' = events_of (user c)
    ∧ data_of u' = if event_started (self c) then data_of (user c) else [].
Proof.
  unfold lonejson__sse_begin_if_needed. destruct (event_started (self c)) eqn:Es.
  - exists (user c), (error c). split; [|done]. destruct c as [[] u e]. simpl in *. by subst.
  - erewrite and_then_ok by reflexivity. cbn [mbind option_bind].
    edestruct (listen_begin (lonejson__sse_event_view
      (sse_set_flags (event_pending (self c)) true (data_seen (self c)) (self c)))
      (user c) (error c)) as (f & u' & e' & Hf & Hc & H1 & H2).
    exists u', e'. rewrite Hf. split; [|done]. by apply call_ok.
Qed.

Lemma data_chunk_ok d (c : ctx_of lonejson_sse U) :
  ∃ u' e', call ((λ f, f d) <$> (Some h ≫= data_chunk)) "SSE data_chunk callback failed" c =
    (LONEJSON_STATUS_OK, mk_ctx (self c) u' e')
    ∧ events_of u' = events_of (user c) ∧ data_of u' = data_of (user c) ++ d.
Proof.
  cbn [mbind option_bind].
  edestruct (listen_data d (user c) (error c)) as (f & u' & e' & Hf & Hc & H).
  exists u', e'. rewrite Hf. split; [|done]. by apply call_ok.
Qed.

Lemma separator_ok (seenb : bool) (c : ctx_of lonejson_sse U) :
  ∃ u' e',
    (if seenb then
       call ((λ f, f [10]) <$> (Some h ≫= data_chunk)) "SSE data_chunk callback failed" &>
       modify (λ s, sse_set_data_len (u64 (event_data_len s + 1)) s)
     else ok) c =
    (LONEJSON_STATUS_OK,
     mk_ctx (if seenb then sse_set_data_len (u64 (event_data_len (self c) + 1)) (self c)
             else self c) u' e')
    ∧ events_of u' = events_of (user c)
    ∧ data_of u' = data_of (user c) ++ (if seenb then [10] else []).
Proof.
  destruct seenb.
  - destruct (data_chunk_ok [10] c) as (u' & e' & H & H'). exists u', e'.
    split; [|done]. by erewrite and_then_ok by exact H.
  - exists (user c), (error c). rewrite app_nil_r. split; [by destruct c|done].
Qed.

Lemma chunk_ok v (c : ctx_of lonejson_sse U) :
  ∃ u' e',
    (if negb (zlen v =? 0)
     then call ((λ f, f v) <$> (Some h ≫= data_chunk)) "SSE data_chunk callback failed"
     else ok) c = (LONEJSON_STATUS_OK, mk_ctx (self c) u' e')
    ∧ events_of u' = events_of (user c) ∧ data_of u' = data_of (user c) ++ v.
Proof.
  destruct (zlen v =? 0) eqn:E; [|apply data_chunk_ok].
  exists (user c), (error c). destruct v as [|x v]; [|rewrite zlen_cons in E;
    pose proof (zlen_nonneg v); lia].
  rewrite app_nil_r. split; [by destruct c|done].
Qed.

Lemma omap_snoc_default {A} (sel : sse_field → option A) (d : A) g f :
  default d (last (omap sel (g ++ [f]))) =
  match sel f with Some v => v | None => default d (last (omap sel g)) end.
Proof.
  rewrite omap_app. simpl. destruct (sel f); [by rewrite last_snoc|by rewrite app_nil_r].
Qed.

(** The length of the group's data once [v] is added. *)
Lemma group_data_extend g v (b := bool_decide (omap field_data g ≠ [])) :
  group_data (g ++ [Field_data v]) = (if b then group_data g else []) ++
                                     (if b then [10] else []) ++ v
  ∧ (b = false → group_data g = []).
Proof.
  rewrite group_data_snoc. unfold group_data, b. simpl.
  destruct (omap field_data g) as [|x l]; [rewrite bool_decide_eq_false_2 by tauto|]; [done|].
  by rewrite bool_decide_eq_true_2.
Qed.

Lemma bool_decide_snoc {A} (sel : sse_field → option A) g f :
  bool_decide (omap sel (g ++ [f]) ≠ []) =
  match sel f with Some _ => true | None => bool_decide (omap sel g ≠ []) end.
Proof.
  rewrite omap_app. simpl. destruct (sel f); [|by rewrite app_nil_r].
  apply bool_decide_eq_true_2. by destruct (omap sel g).
Qed.

Lemma snoc_pending (g : list sse_field) f : bool_decide (g ++ [f] ≠ []) = true.
Proof. apply bool_decide_eq_true_2. by destruct g. Qed.

Lemma id_seen_snoc seen g f :
  id_seen seen (g ++ [f]) =
  match field_id f with
  | Some v => id_seen seen g || negb (zlen v =? 0)
  | None => id_seen seen g
  end.
Proof.
  unfold id_seen. rewrite omap_app, existsb_app. simpl.
  destruct (field_id f); simpl; rewrite ?orb_false_r; [by rewrite orb_assoc|done].
Qed.

Lemma emit_data_ok seen g cur cr evs c v :
  sse_rel seen g cur cr evs c → group_fits o (g ++ [Field_data v]) →
  ∃ c', lonejson__sse_emit_data (Some h) v c = (LONEJSON_STATUS_OK, c')
        ∧ sse_rel seen (g ++ [Field_data v]) cur cr evs c'.
Proof using Ho.
  intros [] Hfit. unfold group_fits in Hfit.
  destruct (group_data_extend g v) as [Hg Hb].
  destruct Ho as (_ & Hm & _). pose proof (zlen_nonneg v) as Hv.
  pose proof (zlen_nonneg (group_data g)) as Hz.
  unfold lonejson__sse_emit_data. rewrite r_options0, r_len0, r_data_seen0.
  set (b := bool_decide (omap field_data g ≠ [])) in *.
  assert (zlen (group_data (g ++ [Field_data v])) =
          zlen (group_data g) + (if b then 1 else 0) + zlen v) as Hlen.
  { rewrite Hg. destruct b; simpl; [rewrite zlen_app, zlen_cons; lia|].
    rewrite (Hb eq_refl). change (zlen (@nil Z)) with 0. lia. }
  rewrite u64_small by (unfold is_u64; destruct b; lia).
  replace (_ || _) with false by (destruct b; lia).
  erewrite and_then_ok by reflexivity.
  set (c1 := mk_ctx (sse_set_pending (self c)) (user c) (error c)).
  destruct (begin_if_needed_ok c1) as (u1 & e1 & H1 & He1 & Hd1).
  erewrite and_then_ok by exact H1.
  edestruct (separator_ok b) as (u2 & e2 & H2 & He2 & Hd2).
  erewrite and_then_ok by exact H2.
  edestruct (chunk_ok v) as (u3 & e3 & H3 & He3 & Hd3).
  erewrite and_then_ok by exact H3.
  eexists. split; [reflexivity|].
  simpl in He1, Hd1, He2, Hd2, He3, Hd3. rewrite r_started0 in Hd1.
  assert (data_of u3 = group_data (g ++ [Field_data v])) as Hdata.
  { rewrite Hd3, Hd2, Hd1, Hg, <- app_assoc. destruct b eqn:Eb; [|done].
    rewrite r_data0; [done|]. by apply bool_decide_eq_true in Eb. }
  split; simpl; rewrite ?omap_snoc_default, ?bool_decide_snoc, ?id_seen_snoc, ?snoc_pending;
    simpl; try done; destruct b; simpl; try done; try congruence.
  all: rewrite r_len0, ?(u64_small (_ + 1)), u64_small; unfold is_u64; lia.
Qed.

(** Storing a metadata value in its buffer. *)
Lemma sse_append_ok get set v limit (c : ctx_of lonejson_sse U) :
  buffer_wf (get (self c)) → never_fails (sse_allocator (self c)) →
  0 ≤ limit (sse_options (self c)) < SIZE_MAX →
  blen (get (self c)) + zlen v ≤ limit (sse_options (self c)) →
  ∃ b a, sse_append get set v limit c =
         (LONEJSON_STATUS_OK, mk_ctx (set b (sse_set_allocator a (self c))) (user c) (error c))
         ∧ contents b = contents (get (self c)) ++ v ∧ buffer_wf b ∧ never_fails a
         ∧ data_null b = data_null (get (self c)) && (zlen v =? 0).
Proof.
  intros Hb Ha Hl Hd. unfold sse_append.
  destruct (byte_append_ok (get (self c)) v (limit (sse_options (self c)))
              (sse_allocator (self c)) (error c) Hb Ha Hl Hd) as (b' & a' & -> & H).
  by exists b', a'.
Qed.

(** The field of a line, in an open group. *)
Definition field_step (f : option sse_field) : step lonejson_sse U :=
  match f with
  | Some (Field_data v) => lonejson__sse_emit_data (Some h) v
  | Some (Field_event v) =>
      modify (λ s, sse_set_pending (sse_set_event (lonejson__byte_reset (sse_event s)) s)) &>
      sse_append sse_event sse_set_event v max_buffered_bytes
  | Some (Field_id v) =>
      modify (λ s, sse_set_pending (sse_set_id (lonejson__byte_reset (sse_id s)) s)) &>
      sse_append sse_id sse_set_id v max_buffered_bytes
  | Some (Field_retry n) => modify (λ s, sse_set_pending (sse_set_retry n true s))
  | None => ok
  end.

Lemma process_line_field c :
  contents (sse_line (self c)) ≠ [] →
  lonejson__sse_process_line (Some h) c =
  field_step (sse_line_field (contents (sse_line (self c)))) c.
Proof.
  intros Hl. unfold lonejson__sse_process_line, sse_line_field.
  destruct (contents (sse_line (self c))) as [|first l]; [done|].
  destruct (first =? _); [done|]. destruct (sse_split_field (first :: l)) as [name value].
  repeat (case_bool_decide; simpl; try done); repeat case_match; simplify_eq; try done.
Qed.

Lemma field_step_ok seen g cur cr evs c f :
  sse_rel seen g cur cr evs c → group_fits o (g ++ option_list f) →
  Forall (field_fits o) (option_list f) →
  ∃ c', field_step f c = (LONEJSON_STATUS_OK, c')
        ∧ sse_rel seen (g ++ option_list f) cur cr evs c'.
Proof using Ho.
  intros Hr Hg Hf. destruct f as [f|]; [|exists c; by rewrite app_nil_r].
  change (option_list (Some f)) with [f] in *. rewrite Forall_singleton in Hf.
  destruct f as [v|v|v|n]; cbn [field_step]; [by apply emit_data_ok| | |].
  - destruct Hr, Ho as (_ & _ & Hm). simpl in Hf. erewrite and_then_ok by reflexivity.
    destruct (sse_append_ok sse_event sse_set_event v max_buffered_bytes
      (mk_ctx (sse_set_pending (sse_set_event (lonejson__byte_reset (sse_event (self c))) (self c)))
         (user c) (error c)))
      as (b & a & -> & Hb & Hw & Ha & _); cbn [self sse_options sse_set_pending sse_set_flags];
      [by apply byte_reset_wf; tauto|done|simpl; rewrite r_options0; lia
      |simpl; rewrite r_options0, blen_reset; lia|].
    eexists. split; [reflexivity|].
    split; simpl; rewrite ?omap_snoc_default, ?bool_decide_snoc, ?id_seen_snoc, ?snoc_pending,
      ?group_data_snoc; simpl; try done; (rewrite omap_app; simpl; by rewrite app_nil_r).
  - destruct Hr, Ho as (_ & _ & Hm). simpl in Hf. erewrite and_then_ok by reflexivity.
    destruct (sse_append_ok sse_id sse_set_id v max_buffered_bytes
      (mk_ctx (sse_set_pending (sse_set_id (lonejson__byte_reset (sse_id (self c))) (self c)))
         (user c) (error c)))
      as (b & a & -> & Hb & Hw & Ha & Hn); cbn [self sse_options sse_set_pending sse_set_flags];
      [by apply byte_reset_wf; tauto|done|simpl; rewrite r_options0; lia
      |simpl; rewrite r_options0, blen_reset; lia|].
    eexists. split; [reflexivity|].
    split; simpl; rewrite ?omap_snoc_default, ?bool_decide_snoc, ?id_seen_snoc, ?snoc_pending,
      ?group_data_snoc; simpl; try done; try (rewrite omap_app; simpl; by rewrite app_nil_r).
    rewrite Hn. simpl. by rewrite r_seen0, negb_orb, negb_involutive.
  - destruct Hr. eexists. split; [reflexivity|].
    split; simpl; rewrite ?omap_snoc_default, ?bool_decide_snoc, ?id_seen_snoc, ?snoc_pending,
      ?group_data_snoc; simpl; try done; (rewrite omap_app; simpl; by rewrite app_nil_r).
Qed.

Lemma emit_ok seen g cur cr evs c :
  sse_rel seen g cur cr evs c →
  ∃ c', lonejson__sse_emit (Some h) c = (LONEJSON_STATUS_OK, c')
        ∧ sse_rel (id_seen seen g) [] cur cr (evs ++ dispatch seen g) c'.
Proof.
  intros Hr. unfold lonejson__sse_emit. rewrite (r_pending _ _ _ _ _ _ Hr).
  destruct (decide (g = [])) as [->|Hg].
  - exists c. simpl. rewrite app_nil_r. split; [done|]. unfold id_seen. simpl.
    by rewrite orb_false_r.
  - rewrite bool_decide_eq_true_2 by done. cbn [negb].
    destruct (begin_if_needed_ok c) as (u1 & e1 & H1 & He1 & Hd1).
    erewrite and_then_ok by exact H1.
    set (c1 := mk_ctx (sse_set_flags (event_pending (self c)) true (data_seen (self c)) (self c))
                 u1 e1).
    assert (lonejson__sse_event_view (self c1) = (group_event seen g).1) as Hv.
    { rewrite <- (sse_view_rel _ _ _ _ _ _ Hr). done. }
    destruct (listen_end (lonejson__sse_event_view (self c1)) u1 e1)
      as (f & u2 & e2 & Hf & Hc & He2).
    erewrite and_then_ok.
    2: { cbn [mbind option_bind]. rewrite Hf. apply call_ok. exact Hc. }
    eexists. split; [reflexivity|].
    assert (data_of u1 = group_data g) as Hd.
    { rewrite Hd1, (r_started _ _ _ _ _ _ Hr). case_bool_decide as Hb.
      - by apply (r_data _ _ _ _ _ _ Hr).
      - unfold group_data. by rewrite Hb. }
    destruct Hr. split; simpl; try done; try (split; [done|]; apply byte_reset_wf; tauto).
    + rewrite r_seen0. unfold id_seen. simpl. by rewrite orb_false_r.
    + rewrite He2, He1, r_evs0, Hv, Hd. unfold dispatch. destruct g; [done|].
      by rewrite <- surjective_pairing.
Qed.

(** Processing the collected line and clearing it. *)
Lemma finish_line_ok seen g cur cr evs ls c :
  sse_rel seen g cur cr evs c → lines_fit o g (cur :: ls) →
  ∃ seen' g' evs' c',
    sse_finish_line (Some h) c = (LONEJSON_STATUS_OK, c')
    ∧ sse_rel seen' g' [] cr evs' c' ∧ lines_fit o g' ls
    ∧ evs' ++ sse_events seen' g' ls = evs ++ sse_events seen g (cur :: ls).
Proof using Ho.
  intros Hr (Hg & Hl & Hf & Hls). unfold sse_finish_line.
  assert (∃ seen' g' evs' c',
    lonejson__sse_process_line (Some h) c = (LONEJSON_STATUS_OK, c')
    ∧ sse_rel seen' g' cur cr evs' c' ∧ lines_fit o g' ls
    ∧ evs' ++ sse_events seen' g' ls = evs ++ sse_events seen g (cur :: ls))
    as (seen' & g' & evs' & c' & Hp & Hr' & H1 & H2).
  { destruct (r_line _ _ _ _ _ _ Hr) as [Hline _]. destruct (decide (cur = [])) as [Hn|Hn].
    - subst cur. rewrite Hn in *. unfold lonejson__sse_process_line. rewrite Hn.
      destruct (emit_ok seen g [] cr evs c) as (c' & Hc & Hc'); [done|].
      exists (id_seen seen g), [], (evs ++ dispatch seen g), c'. split_and!; try done.
      by rewrite <- app_assoc.
    - rewrite process_line_field by congruence. rewrite Hline.
      destruct (field_step_ok seen g cur cr evs c (sse_line_field cur)) as (c' & Hc & Hc');
        [done|destruct cur; [done|]; by eapply lines_fit_group|done|].
      exists seen, (g ++ option_list (sse_line_field cur)), evs, c'.
      split_and!; try done; by destruct cur. }
  rewrite Hp. exists seen', g', evs'. eexists. split; [reflexivity|].
  split; [|done]. destruct Hr'. split; simpl; try done.
  split; [done|]. apply byte_reset_wf. tauto.
Qed.

(** The lines of the input still to come, with what is already collected. *)
Definition open_lines (cur : bytes) (cr : bool) (rest : bytes) : list bytes :=
  sse_lines (cur ++ (if cr then [13] else []) ++ rest).

Lemma append_line_ok seen g cur evs rest c ch :
  sse_rel seen g cur false evs c → no_break cur → ch ≠ 10 → ch ≠ 13 →
  lines_fit o g (open_lines cur false (ch :: rest)) →
  ∃ c', sse_append sse_line sse_set_line [ch] max_line_bytes c = (LONEJSON_STATUS_OK, c')
        ∧ sse_rel seen g (cur ++ [ch]) false evs c' ∧ no_break (cur ++ [ch])
        ∧ open_lines (cur ++ [ch]) false rest = open_lines cur false (ch :: rest).
Proof using Ho.
  intros Hr Hn H10 H13 Hfit. destruct (r_line _ _ _ _ _ _ Hr) as [Hl Hw].
  assert (no_break (cur ++ [ch])) as Hn' by (apply Forall_app; split; [done|by constructor]).
  assert (open_lines (cur ++ [ch]) false rest = open_lines cur false (ch :: rest)) as Heq.
  { unfold open_lines. simpl. by rewrite <- app_assoc. }
  destruct Ho as (Hm & _). rewrite <- Heq in Hfit. unfold open_lines in Hfit. simpl in Hfit.
  destruct (sse_lines_app (cur ++ [ch]) rest Hn') as (hd & tl & _ & H2). rewrite H2 in Hfit.
  destruct Hfit as (_ & Hlen & _). rewrite !zlen_app in Hlen. pose proof (zlen_nonneg hd).
  destruct (sse_append_ok sse_line sse_set_line [ch] max_line_bytes c)
    as (b & a & -> & Hb & Hbw & Ha & _);
    [done|by destruct Hr|by rewrite (r_options _ _ _ _ _ _ Hr)
    |rewrite (r_options _ _ _ _ _ _ Hr); unfold blen; rewrite Hl; lia|].
  eexists. split; [reflexivity|]. split; [|done].
  destruct Hr. split; simpl; try done. by rewrite Hb, Hl.
Qed.

Lemma set_cr_ok seen g cur cr evs c v :
  sse_rel seen g cur cr evs c →
  sse_rel seen g cur v evs (mk_ctx (sse_set_saw_cr v (self c)) (user c) (error c)).
Proof. intros []. by split. Qed.

(** The parser with [rest] still to come, when the whole stream delivers the
    events [total]. *)
Definition stream_rel (total : list (lonejson_sse_event * bytes)) (rest : bytes)
    (c : ctx_of lonejson_sse U) : Prop :=
  ∃ seen g cur cr evs,
    sse_rel seen g cur cr evs c ∧ no_break cur ∧ lines_fit o g (open_lines cur cr rest)
    ∧ evs ++ sse_events seen g (open_lines cur cr rest) = total.

(** A byte that is not the LF of a pending CR LF. *)
Lemma feed_plain_ok total g seen cur evs ch rest c :
  sse_rel seen g cur false evs c → no_break cur →
  lines_fit o g (open_lines cur false (ch :: rest)) →
  evs ++ sse_events seen g (open_lines cur false (ch :: rest)) = total →
  ∃ c', (if ch =? 13 then modify (sse_set_saw_cr true)
         else if ch =? 10 then sse_finish_line (Some h)
         else sse_append sse_line sse_set_line [ch] max_line_bytes) c = (LONEJSON_STATUS_OK, c')
        ∧ stream_rel total rest c'.
Proof using Ho.
  intros Hr Hn Hfit Ht. destruct (ch =? 13) eqn:E13; [|destruct (ch =? 10) eqn:E10].
  - apply Z.eqb_eq in E13 as ->. eexists. split; [reflexivity|].
    exists seen, g, cur, true, evs. split; [by eapply set_cr_ok|done].
  - apply Z.eqb_eq in E10 as ->. unfold open_lines in Hfit, Ht. simpl in Hfit, Ht.
    rewrite sse_lines_lf in Hfit, Ht by done.
    destruct (finish_line_ok _ _ _ _ _ _ _ Hr Hfit)
      as (seen' & g' & evs' & c' & -> & Hr' & Hfit' & Ht').
    eexists. split; [reflexivity|].
    exists seen', g', [], false, evs'. rewrite Ht in Ht'. split_and!; [done|by constructor|done..].
  - destruct (append_line_ok seen g cur evs rest c ch) as (c' & -> & Hr' & Hn' & Heq);
      [done|done|lia|lia|done|].
    eexists. split; [reflexivity|]. rewrite <- Heq in Hfit, Ht.
    by exists seen, g, (cur ++ [ch]), false, evs.
Qed.

Lemma feed_char_ok total ch rest c :
  stream_rel total (ch :: rest) c →
  ∃ c', lonejson__sse_feed_char (Some h) ch c = (LONEJSON_STATUS_OK, c')
        ∧ stream_rel total rest c'.
Proof using Ho.
  intros (seen & g & cur & cr & evs & Hr & Hn & Hfit & Ht).
  unfold lonejson__sse_feed_char. rewrite (r_cr _ _ _ _ _ _ Hr). destruct cr.
  - erewrite and_then_ok by reflexivity. unfold open_lines in Hfit, Ht. simpl in Hfit, Ht.
    apply (set_cr_ok _ _ _ _ _ _ false) in Hr. destruct (ch =? 10) eqn:E10.
    + apply Z.eqb_eq in E10 as ->. rewrite sse_lines_crlf in Hfit, Ht by done.
      destruct (finish_line_ok _ _ _ _ _ _ _ Hr Hfit)
        as (seen' & g' & evs' & c' & H & Hr' & Hfit' & Ht').
      erewrite and_then_ok by exact H. eexists. split; [reflexivity|].
      exists seen', g', [], false, evs'. rewrite Ht in Ht'. split_and!; [done|by constructor|done..].
    + rewrite sse_lines_cr in Hfit, Ht by (done || lia).
      destruct (finish_line_ok _ _ _ _ _ _ _ Hr Hfit)
        as (seen' & g' & evs' & c' & H & Hr' & Hfit' & Ht').
      erewrite and_then_ok by exact H. rewrite Ht in Ht'.
      destruct (feed_plain_ok total g' seen' [] evs' ch rest c') as (c2 & H2 & Hs); [done|by constructor|done|done|].
      rewrite E10 in H2. exists c2. split; [|done]. revert H2. by destruct (ch =? 13).
  - edestruct (feed_plain_ok total g seen cur evs ch rest c) as (c2 & H2 & Hs); try done.
    exists c2. split; [|done]. revert H2. by destruct (ch =? 13), (ch =? 10).
Qed.

Lemma feed_all_ok total d rest c :
  stream_rel total (d ++ rest) c →
  ∃ c', for_each (lonejson__sse_feed_char (Some h)) d c = (LONEJSON_STATUS_OK, c')
        ∧ stream_rel total rest c'.
Proof using Ho.
  revert c. induction d as [|ch d IH]; intros c Hc; [by exists c|].
  destruct (feed_char_ok total ch (d ++ rest) c Hc) as (c1 & H1 & Hc1).
  cbn [for_each]. erewrite and_then_ok by exact H1. by apply IH.
Qed.

Lemma finish_stream_ok total c :
  stream_rel total [] c →
  ∃ c', sse_finish_step (Some h) c = (LONEJSON_STATUS_OK, c') ∧ events_of (user c') = total
        ∧ sse_closed (self c') = true.
Proof using Ho.
  intros (seen & g & cur & cr & evs & Hr & Hn & Hfit & Ht).
  assert (∃ seen' g' cr' evs' c1,
    (if sse_saw_cr (self c) || negb (blen (sse_line (self c)) =? 0)
     then modify (sse_set_saw_cr false) &> sse_finish_line (Some h) else ok) c
    = (LONEJSON_STATUS_OK, c1)
    ∧ sse_rel seen' g' [] cr' evs' c1 ∧ evs' ++ dispatch seen' g' = total)
    as (seen' & g' & cr' & evs' & c1 & H1 & Hr1 & Ht1).
  { rewrite (r_cr _ _ _ _ _ _ Hr). unfold blen.
    destruct (r_line _ _ _ _ _ _ Hr) as [-> _]. unfold open_lines in Hfit, Ht.
    rewrite app_nil_r in Hfit, Ht. destruct cr; simpl orb.
    - rewrite sse_lines_last_cr in Hfit, Ht by done. apply (set_cr_ok _ _ _ _ _ _ false) in Hr.
      destruct (finish_line_ok _ _ _ _ _ _ _ Hr Hfit)
        as (seen' & g' & evs' & c' & H & Hr' & Hfit' & Ht').
      exists seen', g', false, evs', c'. split_and!; [exact H|done|]. rewrite <- Ht, <- Ht'. simpl. by rewrite app_nil_r.
    - rewrite app_nil_r, sse_lines_last in Hfit, Ht by done.
      destruct (decide (cur = [])) as [->|Hc].
      + exists seen, g, false, evs, c. split_and!; [done..|].
        rewrite <- Ht. simpl. by rewrite app_nil_r.
      + assert ((zlen cur =? 0) = false) as ->.
        { destruct cur; [done|]. rewrite zlen_cons. pose proof (zlen_nonneg cur). lia. }
        apply (set_cr_ok _ _ _ _ _ _ false) in Hr.
        destruct (finish_line_ok _ _ _ _ _ _ _ Hr Hfit)
          as (seen' & g' & evs' & c' & H & Hr' & Hfit' & Ht').
        exists seen', g', false, evs', c'. split_and!; [exact H|done|]. by rewrite <- Ht, <- Ht'. }
  unfold sse_finish_step. erewrite and_then_ok by exact H1.
  destruct (emit_ok _ _ _ _ _ _ Hr1) as (c2 & H2 & Hr2).
  erewrite and_then_ok by exact H2. eexists. split; [reflexivity|]. simpl.
  split; [|done]. by rewrite (r_evs _ _ _ _ _ _ Hr2).
Qed.
End refinement.

(** ** The parser's invariant

    Buffers, counters and the allocator's books, for every handler and every
    outcome.  [k] are the live bytes that are not the three buffers'. *)
Record sse_inv (o : lonejson_sse_options) (k : Z) (s : lonejson_sse) : Prop := {
  i_same : sse_options s = o;
  i_options : sse_options_ok (sse_options s);
  i_room : max_line_bytes (sse_options s) + 2 * max_buffered_bytes (sse_options s) + 3 + k
           ≤ SIZE_MAX;
  i_line : buffer_wf (sse_line s) ∧ blen (sse_line s) ≤ max_line_bytes (sse_options s)
           ∧ cap (sse_line s) ≤ max_line_bytes (sse_options s) + 1;
  i_event : buffer_wf (sse_event s) ∧ blen (sse_event s) ≤ max_buffered_bytes (sse_options s)
            ∧ cap (sse_event s) ≤ max_buffered_bytes (sse_options s) + 1;
  i_id : buffer_wf (sse_id s) ∧ blen (sse_id s) ≤ max_buffered_bytes (sse_options s)
         ∧ cap (sse_id s) ≤ max_buffered_bytes (sse_options s) + 1;
  i_data_len : 0 ≤ event_data_len s ≤ max_event_data_bytes (sse_options s);
  i_live : ∃ st, stats (sse_allocator s) = Some st ∧
           bytes_live st = cap (sse_line s) + cap (sse_event s) + cap (sse_id s) + k
}.

(** An append to one buffer: what the buffer and the books become. *)
Lemma append_inv b d limit a e r st b' a' e' :
  buffer_wf b → 0 ≤ limit < SIZE_MAX → blen b ≤ limit → cap b ≤ limit + 1 →
  0 ≤ r → limit + 1 + r ≤ SIZE_MAX → accounts a b r →
  lonejson__byte_append b d limit a e = (st, b', a', e') →
  buffer_wf b' ∧ blen b' ≤ limit ∧ cap b' ≤ limit + 1 ∧ accounts a' b' r.
Proof.
  intros Hw Hl Hbl Hc Hr Hlr Hacc H.
  assert (u64 (limit + 1) = limit + 1) as Hu by (apply u64_small; unfold is_u64; lia).
  pose proof (wf_cap b Hw). pose proof (zlen_nonneg (contents b)). pose proof (zlen_nonneg d).
  fold (blen b) in *.
  destruct (decide (blen b + zlen d ≤ limit)) as [Hfit|Hfit].
  - pose proof (append_contents b d limit a e st b' a' e' Hw ltac:(unfold is_u64; lia) H) as Hct.
    apply (append_accounts _ _ _ _ _ r) in H as [Ha' Hc']; [|done|unfold is_u64; lia|done|lia|lia|lia].
    rewrite Hu in Hc'. destruct Hct as [(Hct & _ & Hw')| -> ]; [|split_and!; auto].
    split_and!; [done| |by apply Hc'|done]. unfold blen in *. rewrite Hct, zlen_app. lia.
  - destruct (byte_append_overflows b d limit a e) as (e2 & He2);
      [intros ->; change (zlen (@nil Z)) with 0 in Hfit; lia|lia|].
    rewrite He2 in H. simplify_eq. done.
Qed.

Section invariant.
Context {U : Type} (handler : option (lonejson_sse_handler U)) (o : lonejson_sse_options) (k : Z)
  (Hk : 0 ≤ k).

Abbreviation I := (λ c : ctx_of lonejson_sse U, sse_inv o k (self c)).

Lemma self_call f msg (c : ctx_of lonejson_sse U) : self (snd (call f msg c)) = self c.
Proof.
  unfold call. destruct f as [f|]; [|done]. destruct (f _ _) as [[st u] e].
  case_decide; [|done].
  by destruct (callback_error_fails msg (mk_ctx (self c) u e)) as (_ & -> & _).
Qed.

Lemma call_inv (P : lonejson_sse → Prop) (Q : ctx_of lonejson_sse U → Prop) f msg :
  (∀ c, P (self c) → Q c) →
  triple (λ c, P (self c)) (call f msg) (λ c, P (self c)) Q.
Proof.
  intros HQ c Hc. pose proof (self_call f msg c) as H. destruct (call f msg c) as [st c'].
  simpl in H. rewrite <- H in Hc. case_decide; auto.
Qed.

Lemma fail_inv code msg : code ≠ LONEJSON_STATUS_OK → triple I (fail_with code msg) I I.
Proof.
  intros Hcode c Hc. unfold fail_with, lonejson__set_error.
  destruct (error c); by rewrite decide_False.
Qed.

Lemma modify_inv f : (∀ s, sse_inv o k s → sse_inv o k (f s)) → triple I (modify f) I I.
Proof. intros H. apply triple_modify. intros c. apply H. Qed.

Lemma append_line_inv d : triple I (sse_append sse_line sse_set_line d max_line_bytes) I I.
Proof using Hk.
  intros c []. unfold sse_append.
  destruct (lonejson__byte_append _ _ _ _ _) as [[[st b'] a'] e'] eqn:H.
  pose proof i_options0 as (Hm & _ & Hb). destruct i_live0 as (ss & Hs & Hlive).
  pose proof i_line0 as (Hw & Hl & Hc). pose proof i_event0 as (He & ? & ?).
  pose proof i_id0 as (Hi & ? & ?).
  pose proof (wf_cap _ He). pose proof (wf_cap _ Hi).
  eapply (append_inv _ _ _ _ _ (cap (sse_event (self c)) + cap (sse_id (self c)) + k)) in H
    as (Hn1 & Hn2 & Hn3 & ss' & Hs' & Hlive'); [|done|lia|done|done|lia|lia|exists ss; auto with lia].
  case_decide; split; simpl; try done; try lia; exists ss'; (split; [done|lia]).
Qed.

Lemma append_event_inv d : triple I (sse_append sse_event sse_set_event d max_buffered_bytes) I I.
Proof using Hk.
  intros c []. unfold sse_append.
  destruct (lonejson__byte_append _ _ _ _ _) as [[[st b'] a'] e'] eqn:H.
  pose proof i_options0 as (Hm & _ & Hb). destruct i_live0 as (ss & Hs & Hlive).
  pose proof i_line0 as (Hw & ? & ?). pose proof i_event0 as (He & Hl & Hc).
  pose proof i_id0 as (Hi & ? & ?).
  pose proof (wf_cap _ Hw). pose proof (wf_cap _ Hi).
  eapply (append_inv _ _ _ _ _ (cap (sse_line (self c)) + cap (sse_id (self c)) + k)) in H
    as (Hn1 & Hn2 & Hn3 & ss' & Hs' & Hlive'); [|done|lia|done|done|lia|lia|exists ss; auto with lia].
  case_decide; split; simpl; try done; try lia; exists ss'; (split; [done|lia]).
Qed.

Lemma append_id_inv d : triple I (sse_append sse_id sse_set_id d max_buffered_bytes) I I.
Proof using Hk.
  intros c []. unfold sse_append.
  destruct (lonejson__byte_append _ _ _ _ _) as [[[st b'] a'] e'] eqn:H.
  pose proof i_options0 as (Hm & _ & Hb). destruct i_live0 as (ss & Hs & Hlive).
  pose proof i_line0 as (Hw & ? & ?). pose proof i_event0 as (He & ? & ?).
  pose proof i_id0 as (Hi & Hl & Hc).
  pose proof (wf_cap _ Hw). pose proof (wf_cap _ He).
  eapply (append_inv _ _ _ _ _ (cap (sse_line (self c)) + cap (sse_event (self c)) + k)) in H
    as (Hn1 & Hn2 & Hn3 & ss' & Hs' & Hlive'); [|done|lia|done|done|lia|lia|exists ss; auto with lia].
  case_decide; split; simpl; try done; try lia; exists ss'; (split; [done|lia]).
Qed.

(** Resetting a buffer keeps its block. *)
Lemma reset_inv b m :
  buffer_wf b ∧ blen b ≤ m ∧ cap b ≤ m + 1 →
  buffer_wf (lonejson__byte_reset b) ∧ blen (lonejson__byte_reset b) ≤ m
  ∧ cap (lonejson__byte_reset b) ≤ m + 1.
Proof.
  intros (Hw & Hl & Hc). pose proof (zlen_nonneg (contents b)). fold (blen b) in *.
  rewrite blen_reset. split_and!; [by apply byte_reset_wf|lia|done].
Qed.

Lemma begin_inv (P : lonejson_sse → Prop) :
  (∀ s, P s → sse_inv o k s) →
  (∀ s, P s → P (sse_set_flags (event_pending s) true (data_seen s) s)) →
  triple (λ c, P (self c)) (lonejson__sse_begin_if_needed handler) (λ c, P (self c)) I.
Proof.
  intros HI HP c Hc. unfold lonejson__sse_begin_if_needed.
  destruct (event_started (self c)); [done|]. revert c Hc.
  apply (triple_and_then _ _ (λ c, P (self c))).
  - apply triple_modify. intros c Hc. exact (HP _ Hc).
  - intros c. apply call_inv. auto.
Qed.

(** With [n] bytes still to be counted, the event's data stays in its limit. *)
Definition room_for (n : Z) (s : lonejson_sse) : Prop :=
  sse_inv o k s ∧ event_data_len s + n ≤ max_event_data_bytes (sse_options s).

Lemma room_for_inv n s : room_for n s → sse_inv o k s.
Proof. by intros []. Qed.

Lemma count_inv n m s :
  0 ≤ m ≤ n → room_for n s →
  room_for (n - m) (sse_set_data_len (u64 (event_data_len s + m)) s).
Proof.
  intros Hm [Hs Hn]. pose proof (i_data_len _ _ _ Hs). pose proof (i_options _ _ _ Hs) as (_ & Ho & _).
  rewrite u64_small by (unfold is_u64; lia).
  destruct Hs. split; [split; simpl; try done|simpl]; lia.
Qed.

Lemma emit_data_inv d :
  zlen d < SIZE_MAX → triple I (lonejson__sse_emit_data handler d) I I.
Proof.
  intros Hd c Hc. unfold lonejson__sse_emit_data. pose proof (zlen_nonneg d).
  rewrite u64_small by (unfold is_u64; destruct (data_seen _); lia).
  destruct (_ || _) eqn:E; [by apply fail_inv|].
  set (b := data_seen (self c)) in *. set (n := zlen d + if b then 1 else 0) in *.
  assert (room_for n (self c)) as Hr by (split; [done|lia]).
  assert (0 ≤ n - zlen d) as Hnd by (unfold n; destruct b; lia).
  generalize Hr. generalize c.
  apply (triple_and_then _ _ (λ c, room_for n (self c))).
  { apply triple_modify. intros c' [Hs Hn]. split; [|done]. by destruct Hs; split. }
  apply (triple_and_then _ _ (λ c, room_for n (self c))).
  { apply begin_inv; [apply room_for_inv|]. intros s [Hs Hn]. split; [|done].
    by destruct Hs; split. }
  apply (triple_and_then _ _ (λ c, room_for (zlen d) (self c))).
  { destruct b; [|unfold n; rewrite Z.add_0_r; apply triple_ok].
    apply (triple_and_then _ _ (λ c, room_for n (self c))).
    - apply call_inv. intros c'. apply room_for_inv.
    - apply triple_modify. intros c' Hc'. replace (zlen d) with (n - 1) by (unfold n; lia).
      apply count_inv; [unfold n; lia|done]. }
  apply (triple_and_then _ _ (λ c, room_for (zlen d) (self c))).
  { destruct (negb _); [|apply triple_ok]. apply call_inv. intros c'. apply room_for_inv. }
  apply triple_modify. intros c' Hc'. apply (count_inv (zlen d) (zlen d)) in Hc' as [Hs _]; [|lia].
  by destruct Hs; split.
Qed.

Lemma emit_inv : triple I (lonejson__sse_emit handler) I I.
Proof.
  intros c Hc. unfold lonejson__sse_emit. destruct (negb _); [done|]. generalize Hc. generalize c.
  apply (triple_and_then _ _ I).
  { apply begin_inv; [done|]. intros s Hs. by destruct Hs; split. }
  apply (triple_and_then _ _ I).
  - intros c'. by apply (call_inv (sse_inv o k)).
  - apply modify_inv. intros s []. pose proof i_options0 as (_ & Ho & _).
    split; simpl; try done; [by apply reset_inv..|lia].
Qed.

(** A field value is shorter than the line it is cut from. *)
Lemma split_field_length l name value :
  sse_split_field l = (name, value) → zlen value ≤ zlen l.
Proof.
  unfold sse_split_field. destruct (split_at _ l) as [[n v]|] eqn:E; intros H; simplify_eq.
  - apply split_at_Some in E as [-> _]. rewrite zlen_app, zlen_cons.
    pose proof (zlen_nonneg name). destruct v as [|x v]; [lia|].
    rewrite zlen_cons. destruct (x =? _); rewrite ?zlen_cons; lia.
  - apply zlen_nonneg.
Qed.

Lemma process_line_inv : triple I (lonejson__sse_process_line handler) I I.
Proof using Hk.
  intros c Hc. unfold lonejson__sse_process_line.
  destruct (contents (sse_line (self c))) as [|first l] eqn:El; [by apply emit_inv|].
  destruct (first =? _); [done|]. destruct (sse_split_field (first :: l)) as [name value] eqn:Ef.
  assert (zlen value < SIZE_MAX) as Hv.
  { apply split_field_length in Ef. rewrite <- El in Ef.
    destruct Hc as [_ [Hm _] _ (_ & Hl & _)]. unfold blen in Hl. lia. }
  destruct (bool_decide _); [by apply emit_data_inv|].
  destruct (bool_decide _).
  { revert c El Hc. intros c _. revert c. eapply triple_and_then; [|apply append_event_inv].
    apply modify_inv. intros s []. split; simpl; try done. by apply reset_inv. }
  destruct (bool_decide _ && _).
  { revert c El Hc. intros c _. revert c. eapply triple_and_then; [|apply append_id_inv].
    apply modify_inv. intros s []. split; simpl; try done. by apply reset_inv. }
  destruct (bool_decide _); [|done]. destruct (lonejson__parse_sse_retry value); [|done].
  apply modify_inv; [|done]. intros s []. by split.
Qed.

Lemma finish_line_inv : triple I (sse_finish_line handler) I I.
Proof using Hk.
  intros c Hc. unfold sse_finish_line. pose proof (process_line_inv c Hc) as H.
  destruct (lonejson__sse_process_line handler c) as [st c'].
  assert (sse_inv o k (self c')) as H' by (by case_decide).
  assert (sse_inv o k (sse_reset_line (self c'))).
  { destruct H'. split; simpl; try done. by apply reset_inv. }
  by case_decide.
Qed.

Lemma feed_char_inv ch : triple I (lonejson__sse_feed_char handler ch) I I.
Proof using Hk.
  assert (∀ v, triple I (modify (sse_set_saw_cr v)) I I) as Hcr.
  { intros v. apply modify_inv. intros s []. by split. }
  intros c Hc. unfold lonejson__sse_feed_char. destruct (sse_saw_cr (self c)).
  - revert c Hc. do 2 (eapply triple_and_then; [apply Hcr || apply finish_line_inv|]).
    destruct (ch =? 10); [apply triple_ok|]. destruct (ch =? 13); [apply Hcr|].
    apply append_line_inv.
  - destruct (ch =? 13); [by apply Hcr|]. destruct (ch =? 10); [by apply finish_line_inv|].
    by apply append_line_inv.
Qed.

Lemma finish_step_inv : triple I (sse_finish_step handler) I I.
Proof using Hk.
  intros c Hc. unfold sse_finish_step.
  eapply (triple_and_then I _ I); [|eapply triple_and_then; [apply emit_inv|]|done].
  - destruct (_ || _); [|apply triple_ok]. eapply triple_and_then; [|apply finish_line_inv].
    apply modify_inv. intros s []. by split.
  - apply modify_inv. intros s []. by split.
Qed.

Definition sse_inv_opt (s : option lonejson_sse) : Prop := from_option (sse_inv o k) False s.

Lemma push_inv s d len u e :
  sse_inv o k s →
  let '(st, s', u', e') := lonejson_sse_push handler (Some s) d len u e in sse_inv_opt s'.
Proof using Hk.
  intros Hs. unfold lonejson_sse_push. destruct (_ && _); [by destruct e|].
  destruct (sse_closed s); [by destruct e|].
  pose proof (triple_for_each I I (lonejson__sse_feed_char handler)
    (take (Z.to_nat len) (default [] d)) feed_char_inv
    (mk_ctx s u (lonejson__clear_error e)) Hs) as H.
  destruct (for_each _ _ _) as [st c']. simpl. by case_decide.
Qed.

Lemma finish_inv s u e :
  sse_inv o k s →
  let '(st, s', u', e') := lonejson_sse_finish handler (Some s) u e in sse_inv_opt s'.
Proof using Hk.
  intros Hs. unfold lonejson_sse_finish. destruct (sse_closed s); [done|].
  pose proof (finish_step_inv (mk_ctx s u e) Hs) as H.
  destruct (sse_finish_step _ _) as [st c']. simpl. by case_decide.
Qed.
End invariant.

(** ** Callback failures

    [logged h] is [h] with a log of the statuses its callbacks return. *)
Section callbacks.
Context {U : Type}.

Definition log_call {A} (f : A → callback U) (x : A) : callback (U * list lonejson_status) :=
  λ u e, let '(st, u', e') := f x u.1 e in (st, (u', u.2 ++ [st]), e').

Definition logged (h : lonejson_sse_handler U) :
    lonejson_sse_handler (U * list lonejson_status) :=
  mk_sse_handler (log_call <$> begin_event h) (log_call <$> data_chunk h)
    (log_call <$> end_event h).

Context (h : lonejson_sse_handler U) (log0 : list lonejson_status).

Abbreviation log_ctx := (ctx_of lonejson_sse (U * list lonejson_status)).

(** Every callback so far succeeded. *)
Definition all_ok (c : log_ctx) : Prop :=
  ∃ n, (user c).2 = log0 ++ replicate n LONEJSON_STATUS_OK.

(** At most the last one failed. *)
Definition last_failed (c : log_ctx) : Prop :=
  all_ok c ∨ ∃ n bad, bad ≠ LONEJSON_STATUS_OK ∧
    (user c).2 = log0 ++ replicate n LONEJSON_STATUS_OK ++ [bad].

Lemma log_frame (m : step lonejson_sse (U * list lonejson_status)) :
  (∀ c, user (snd (m c)) = user c) → triple all_ok m all_ok last_failed.
Proof.
  intros Hm c Hc. specialize (Hm c). destruct (m c) as [st c']. simpl in Hm.
  unfold last_failed, all_ok in *. rewrite Hm. case_decide; auto.
Qed.

Lemma log_modify f : triple all_ok (modify f) all_ok last_failed.
Proof. by apply log_frame. Qed.

Lemma log_append get set d limit : triple all_ok (sse_append get set d limit) all_ok last_failed.
Proof.
  apply log_frame. intros c. unfold sse_append.
  by destruct (lonejson__byte_append _ _ _ _ _) as [[[st b] a] e].
Qed.

Lemma log_call_triple {A} (f : A → callback U) x msg :
  triple all_ok (call (Some (log_call f x)) msg) all_ok last_failed.
Proof.
  intros c [n Hn]. unfold call, log_call.
  destruct (f x (user c).1 (error c)) as [[st u] e]. case_decide as Hst.
  - set (c' := mk_ctx (self c) (u, (user c).2 ++ [st]) e).
    destruct (callback_error_fails msg c') as (Hf & _ & Hu).
    destruct (callback_error msg c') as [st' c2]. simpl in Hf, Hu.
    rewrite decide_False by done. right. exists n, st. split; [done|].
    rewrite Hu. simpl. by rewrite Hn, <- app_assoc.
  - subst st. rewrite decide_True by done. exists (S n). simpl.
    by rewrite Hn, <- app_assoc, <- replicate_S_end.
Qed.

Lemma log_call_opt {A} (f : option (A → callback U)) x msg :
  triple all_ok (call ((λ g, g x) <$> (log_call <$> f)) msg) all_ok last_failed.
Proof. destruct f; [apply log_call_triple|apply triple_ok]. Qed.

Lemma log_fail code msg :
  code ≠ LONEJSON_STATUS_OK → triple all_ok (fail_with code msg) all_ok last_failed.
Proof. intros _. apply log_frame. intros c. by destruct c as [s u [e|]]. Qed.

Create HintDb log discriminated.
#[local] Hint Resolve log_modify log_append log_call_opt log_fail triple_ok
  triple_and_then : log.

Lemma log_begin :
  triple all_ok (lonejson__sse_begin_if_needed (Some (logged h))) all_ok last_failed.
Proof.
  intros c. unfold lonejson__sse_begin_if_needed. destruct (event_started (self c)); [auto|].
  revert c. apply (triple_and_then _ _ all_ok); [apply log_modify|].
  intros c. apply log_call_opt.
Qed.
Lemma log_data d msg :
  triple all_ok (call ((λ f, f d) <$> (Some (logged h) ≫= data_chunk)) msg) all_ok last_failed.
Proof. apply (log_call_opt (data_chunk h)). Qed.
#[local] Hint Resolve log_begin log_data : log.

Lemma log_emit_data d :
  triple all_ok (lonejson__sse_emit_data (Some (logged h)) d) all_ok last_failed.
Proof.
  intros c. unfold lonejson__sse_emit_data. destruct (_ || _); [by apply log_fail|].
  generalize (data_seen (self c)). intros b. revert c.
  do 2 (eapply triple_and_then; [eauto with log|]).
  apply (triple_and_then _ _ all_ok); [destruct b; eauto with log|].
  apply (triple_and_then _ _ all_ok); [destruct (negb (zlen d =? 0)); eauto with log|eauto with log].
Qed.

Lemma log_emit : triple all_ok (lonejson__sse_emit (Some (logged h))) all_ok last_failed.
Proof.
  intros c. unfold lonejson__sse_emit. destruct (negb _); [auto|]. revert c.
  eapply triple_and_then; [eauto with log|].
  apply (triple_and_then _ _ all_ok); [|eauto with log]. intros c. apply log_call_opt.
Qed.
#[local] Hint Resolve log_emit log_emit_data : log.

Lemma log_finish_line : triple all_ok (sse_finish_line (Some (logged h))) all_ok last_failed.
Proof.
  assert (triple all_ok (lonejson__sse_process_line (Some (logged h))) all_ok last_failed) as Hp.
  { intros c. unfold lonejson__sse_process_line.
    destruct (contents _) as [|x l]; [apply log_emit|]. destruct (x =? _); [auto|].
    destruct (sse_split_field _) as [name value]. intros Hc.
    do 2 (destruct (bool_decide _); [eapply triple_at; eauto with log|]).
    destruct (bool_decide _ && _); [eapply triple_at; eauto with log|].
    destruct (bool_decide _); [|done].
    destruct (lonejson__parse_sse_retry value); [|done]. eapply triple_at; eauto with log. }
  intros c Hc. specialize (Hp c Hc). unfold sse_finish_line.
  by destruct (lonejson__sse_process_line _ c) as [st c'].
Qed.

Lemma log_feed_char ch :
  triple all_ok (lonejson__sse_feed_char (Some (logged h)) ch) all_ok last_failed.
Proof.
  pose proof log_finish_line as Hl. intros c. unfold lonejson__sse_feed_char.
  intros Hc. destruct (sse_saw_cr (self c)).
  - eapply triple_at; [|done]. do 2 (eapply triple_and_then; [eauto with log|]).
    repeat case_match; eauto with log.
  - destruct (ch =? 13); [|destruct (ch =? 10)]; eapply triple_at; eauto with log.
Qed.
End callbacks.

(** ** Runs

    A caller's use of the parser: pushes until one fails, then the finish. *)
Fixpoint sse_run {U} (handler : option (lonejson_sse_handler U)) (sse : option lonejson_sse)
    (chunks : list bytes) (user : U) (error : error_ptr) :
    lonejson_status * option lonejson_sse * U * error_ptr :=
  match chunks with
  | [] => lonejson_sse_finish handler sse user error
  | d :: chunks =>
      let '(st, sse, user, error) :=
        lonejson_sse_push handler sse (Some d) (zlen d) user error in
      if decide (st = LONEJSON_STATUS_OK) then sse_run handler sse chunks user error
      else (st, sse, user, error)
  end.

(** Any sequence of calls, whatever they return; [None] is a finish. *)
Fixpoint sse_calls {U} (handler : option (lonejson_sse_handler U)) (sse : option lonejson_sse)
    (calls : list (option bytes)) (user : U) (error : error_ptr) :
    option lonejson_sse * U * error_ptr :=
  match calls with
  | [] => (sse, user, error)
  | call :: calls =>
      let '(st, sse, user, error) :=
        match call with
        | Some d => lonejson_sse_push handler sse (Some d) (zlen d) user error
        | None => lonejson_sse_finish handler sse user error
        end in
      sse_calls handler sse calls user error
  end.

Section runs.
Context {U : Type} (h : lonejson_sse_handler U) `{!SseListener h}.

Lemma run_ok o total chunks s u e :
  sse_options_ok o → stream_rel h o total (mjoin chunks) (mk_ctx s u e) →
  ∃ s' u' e', sse_run (Some h) (Some s) chunks u e = (LONEJSON_STATUS_OK, Some s', u', e')
              ∧ events_of u' = total ∧ sse_closed s' = true.
Proof.
  intros Ho. revert s u e. induction chunks as [|d chunks IH]; intros s u e Hs.
  - assert (sse_closed s = false) as Hc by (by destruct Hs as (? & ? & ? & ? & ? & [] & _)).
    destruct (finish_stream_ok h o Ho total _ Hs) as ([s' u' e'] & H & He & Hc').
    exists s', u', e'. simpl. unfold lonejson_sse_finish. by rewrite Hc, H.
  - assert (sse_closed s = false) as Hc by (by destruct Hs as (? & ? & ? & ? & ? & [] & _)).
    assert (stream_rel h o total (d ++ mjoin chunks)
              (mk_ctx s u (lonejson__clear_error e))) as Hs'.
    { destruct Hs as (seen & g & cur & cr & evs & [] & Hs).
      exists seen, g, cur, cr, evs. by split. }
    destruct (feed_all_ok h o Ho total d _ _ Hs') as ([s1 u1 e1] & H & H1).
    simpl. unfold lonejson_sse_push. simpl. rewrite Hc, take_zlen, H. by apply IH.
Qed.

Lemma open_rel sizeof options a e s a' e' u chunks :
  lonejson_sse_open sizeof options (Some a) e = (Some s, a', e') → never_fails a →
  lines_fit (sse_resolve_options options) [] (sse_lines chunks) →
  stream_rel h (sse_resolve_options options)
    (events_of u ++ sse_events false [] (sse_lines chunks)) chunks (mk_ctx s u None).
Proof.
  unfold lonejson_sse_open. intros H Ha Hfit.
  destruct (buffer_alloc_ok a sizeof Ha) as (a2 & Ha2 & Hn). rewrite Ha2 in H. simpl in H.
  injection H as <- <- <-. exists false, [], [], false, (events_of u). split_and!; try done.
  constructor.
Qed.
End runs.

Lemma stream_rel_error {U} (h : lonejson_sse_handler U) `{!SseListener h} o total rest s u e e' :
  stream_rel h o total rest (mk_ctx s u e) → stream_rel h o total rest (mk_ctx s u e').
Proof.
  intros (seen & g & cur & cr & evs & [] & Hs). exists seen, g, cur, cr, evs. by split.
Qed.

(** The opened parser satisfies the invariant. *)
Lemma open_inv sizeof options a e s a' e' st0 :
  lonejson_sse_open sizeof options (Some a) e = (Some s, a', e') →
  sse_options_ok (sse_resolve_options options) → 0 ≤ sizeof →
  stats a = Some st0 → 0 ≤ bytes_live st0 →
  max_line_bytes (sse_resolve_options options)
    + 2 * max_buffered_bytes (sse_resolve_options options) + 3 + (bytes_live st0 + sizeof)
    ≤ SIZE_MAX →
  sse_inv (sse_resolve_options options) (bytes_live st0 + sizeof) s.
Proof.
  unfold lonejson_sse_open. intros H Ho Hsz Hst Hb Hroom.
  unfold lonejson__buffer_alloc in H. rewrite Hst in H.
  destruct (malloc_fn a _ _); [|done]. simpl in H. injection H as <- <- <-.
  generalize dependent (sse_resolve_options options). intros o Ho Hroom.
  pose proof Ho as (H1 & H2 & H3). split; simpl; try done; try lia;
    try (change (blen buffer_empty) with 0; split_and!; [done|lia|lia]).
  eexists. split; [reflexivity|]. unfold lonejson__allocator_note_alloc. cbn [bytes_live].
  rewrite u64_small; [lia|unfold is_u64; lia].
Qed.

(** Freeing a block of the books. *)
Lemma buffer_free_live a b n st k :
  stats a = Some st → bytes_live st = n + k → 0 ≤ k → 0 ≤ n → (b = true → n = 0) →
  ∃ st', stats (lonejson__buffer_free a b n) = Some st' ∧ bytes_live st' = k.
Proof.
  intros Hs Hl Hk Hn Hb. unfold lonejson__buffer_free. destruct b.
  - exists st. split; [done|]. rewrite Hl, Hb by done. lia.
  - simpl. rewrite Hs. eexists. split; [reflexivity|]. unfold lonejson__allocator_note_free.
    cbn [bytes_live]. case_if; lia.
Qed.

Lemma wf_null_cap b : buffer_wf b → data_null b = true → cap b = 0.
Proof. unfold buffer_wf. intros H Hn. rewrite Hn in H. tauto. Qed.

Lemma close_live o k sizeof s :
  sse_inv o (k + sizeof) s → 0 ≤ k → 0 ≤ sizeof →
  ∃ st, stats (lonejson_sse_close sizeof s) = Some st ∧ bytes_live st = k.
Proof.
  intros [] Hk Hsz. destruct i_live0 as (st & Hst & Hl), i_line0 as [Hw1 _],
    i_event0 as [Hw2 _], i_id0 as [Hw3 _].
  pose proof (wf_cap _ Hw1). pose proof (wf_cap _ Hw2). pose proof (wf_cap _ Hw3).
  unfold lonejson_sse_close, lonejson__byte_free.
  destruct (buffer_free_live _ (data_null (sse_line s)) (cap (sse_line s)) _
    (cap (sse_event s) + cap (sse_id s) + (k + sizeof)) Hst)
    as (st1 & Hb1 & Hl1); [lia|lia|lia|by apply wf_null_cap|].
  destruct (buffer_free_live _ (data_null (sse_event s)) (cap (sse_event s)) _
    (cap (sse_id s) + (k + sizeof)) Hb1)
    as (st2 & Hb2 & Hl2); [lia|lia|lia|by apply wf_null_cap|].
  destruct (buffer_free_live _ (data_null (sse_id s)) (cap (sse_id s)) _ (k + sizeof) Hb2)
    as (st3 & Hb3 & Hl3); [lia|lia|lia|by apply wf_null_cap|].
  eapply buffer_free_live; [exact Hb3|lia|lia|lia|done].
Qed.

Lemma calls_inv {U} (handler : option (lonejson_sse_handler U)) o k s calls u e :
  0 ≤ k → sse_inv o k s →
  ∃ s' u' e', sse_calls handler (Some s) calls u e = (Some s', u', e') ∧ sse_inv o k s'.
Proof.
  intros Hk. revert s u e. induction calls as [|call calls IH]; intros s u e Hs; [eauto 6|].
  cbn [sse_calls]. destruct call as [d|].
  - pose proof (push_inv handler o k Hk s (Some d) (zlen d) u e Hs) as H.
    destruct (lonejson_sse_push _ _ _ _ _ _) as [[[st [s1|]] u1] e1]; [|done]. by apply IH.
  - pose proof (finish_inv handler o k Hk s u e Hs) as H.
    destruct (lonejson_sse_finish _ _ _ _) as [[[st [s1|]] u1] e1]; [|done]. by apply IH.
Qed.

(** ** Properties *)

(** C1 (refinement): an event stream within the limits is delivered as the
    documented semantics says, however it is cut into chunks: every call
    succeeds, the parser is closed, and the listener sees one event for every
    documented event of the stream's lines, in their order, with the documented
    type, id, data, data length and retry.  Where the documented type or id is
    NULL because the event has none, the listener may see the empty string. *)
Theorem sse_refines {U} (h : lonejson_sse_handler U) `{!SseListener h}
    sizeof options a e0 s a1 e1 chunks u e :
  lonejson_sse_open sizeof options (Some a) e0 = (Some s, a1, e1) →
  sse_options_ok (sse_resolve_options options) → never_fails a →
  lines_fit (sse_resolve_options options) [] (sse_lines (mjoin chunks)) →
  ∃ s' u' e' delivered,
    sse_run (Some h) (Some s) chunks u e = (LONEJSON_STATUS_OK, Some s', u', e')
    ∧ sse_closed s' = true
    ∧ events_of u' = events_of u ++ delivered
    ∧ Forall2 event_shown delivered (documented_events [] (sse_lines (mjoin chunks))).
Proof.
  intros Hopen Ho Ha Hfit.
  destruct (run_ok h (sse_resolve_options options)
              (events_of u ++ sse_events false [] (sse_lines (mjoin chunks))) chunks s u e)
    as (s' & u' & e' & Hrun & Hev & Hc); [done|eapply stream_rel_error; by eapply open_rel|].
  eauto 8 using sse_events_shown.
Qed.

(** C22 (safety): no leak.  After any sequence of calls, failing or not, with
    any handler and any allocator, closing the parser gives the allocator's
    live bytes back to what they were before it was opened. *)
Theorem sse_no_leak {U} (handler : option (lonejson_sse_handler U))
    sizeof options a e0 s a1 e1 st0 calls u e :
  lonejson_sse_open sizeof options (Some a) e0 = (Some s, a1, e1) →
  sse_options_ok (sse_resolve_options options) → 0 ≤ sizeof →
  stats a = Some st0 → 0 ≤ bytes_live st0 →
  max_line_bytes (sse_resolve_options options)
    + 2 * max_buffered_bytes (sse_resolve_options options) + 3 + (bytes_live st0 + sizeof)
    ≤ SIZE_MAX →
  ∃ s' u' e' st',
    sse_calls handler (Some s) calls u e = (Some s', u', e')
    ∧ stats (lonejson_sse_close sizeof s') = Some st' ∧ bytes_live st' = bytes_live st0.
Proof.
  intros Hopen Ho Hsz Hst Hb Hroom.
  pose proof (open_inv _ _ _ _ _ _ _ _ Hopen Ho Hsz Hst Hb Hroom) as Hs.
  destruct (calls_inv handler _ (bytes_live st0 + sizeof) s calls u e ltac:(lia) Hs) as (s' & u' & e' & H & Hs').
  exists s', u', e'. edestruct (close_live (sse_resolve_options options) (bytes_live st0) sizeof s') as (st' & H1 & H2);
    [done|lia|done|]. eauto.
Qed.

(** C26 (bounds): bounded retention.  After any sequence of calls, failing or
    not, with any handler, each of the three buffers holds at most its limit,
    its block has at most one byte more, for the terminating NUL, and the
    event's byte count is within its limit. *)
Theorem sse_bounded {U} (handler : option (lonejson_sse_handler U))
    sizeof options a e0 s a1 e1 st0 calls u e (o := sse_resolve_options options) :
  lonejson_sse_open sizeof options (Some a) e0 = (Some s, a1, e1) →
  sse_options_ok o → 0 ≤ sizeof → stats a = Some st0 → 0 ≤ bytes_live st0 →
  max_line_bytes o + 2 * max_buffered_bytes o + 3 + (bytes_live st0 + sizeof) ≤ SIZE_MAX →
  ∃ s' u' e',
    sse_calls handler (Some s) calls u e = (Some s', u', e')
    ∧ blen (sse_line s') ≤ max_line_bytes o ∧ cap (sse_line s') ≤ max_line_bytes o + 1
    ∧ blen (sse_event s') ≤ max_buffered_bytes o
    ∧ cap (sse_event s') ≤ max_buffered_bytes o + 1
    ∧ blen (sse_id s') ≤ max_buffered_bytes o ∧ cap (sse_id s') ≤ max_buffered_bytes o + 1
    ∧ event_data_len s' ≤ max_event_data_bytes o
    ∧ buffer_wf (sse_line s') ∧ buffer_wf (sse_event s') ∧ buffer_wf (sse_id s').
Proof.
  intros Hopen Ho Hsz Hst Hb Hroom.
  pose proof (open_inv _ _ _ _ _ _ _ _ Hopen Ho Hsz Hst Hb Hroom) as Hs.
  destruct (calls_inv handler o (bytes_live st0 + sizeof) s calls u e ltac:(lia) Hs)
    as (s' & u' & e' & H & [Heq _ _ (? & ? & ?) (? & ? & ?) (? & ? & ?) ? _]).
  rewrite Heq in *. exists s', u', e'. split_and!; try done; lia.
Qed.

(** C28 (error): a push stops at the first callback that fails.  Of the
    callbacks it makes, only the last can have failed, and if one failed the
    push does not return [OK]. *)
Theorem sse_push_stops {U} (h : lonejson_sse_handler U) s d u log e :
  let '(st, s', u', e') := lonejson_sse_push (Some (logged h)) (Some s) (Some d) (zlen d)
                             (u, log) e in
  ∃ n, u'.2 = log ++ replicate n LONEJSON_STATUS_OK
     ∨ st ≠ LONEJSON_STATUS_OK ∧
       ∃ bad, bad ≠ LONEJSON_STATUS_OK ∧
              u'.2 = log ++ replicate n LONEJSON_STATUS_OK ++ [bad].
Proof.
  unfold lonejson_sse_push. simpl. destruct (sse_closed s).
  { destruct e; simpl; exists 0%nat; left; simpl; by rewrite app_nil_r. }
  pose proof (triple_for_each (all_ok log) (last_failed log)
    (lonejson__sse_feed_char (Some (logged h))) (take (Z.to_nat (zlen d)) d)
    (log_feed_char h log) (mk_ctx s (u, log) (lonejson__clear_error e))) as H.
  destruct (for_each _ _ _) as [st c]. simpl.
  lapply H; [clear H; intros H|exists 0%nat; simpl; by rewrite app_nil_r].
  case_decide as Hst; [destruct H as [n H]; exists n; by left|].
  destruct H as [[n H]|(n & bad & Hb & H)]; exists n; eauto.
Qed.

(** Once finished, the parser refuses input: a push returns
    [INVALID_ARGUMENT] and neither the parser nor the caller's state changes,
    and another finish is a no-op. *)
Theorem sse_closed_is_final {U} (handler : option (lonejson_sse_handler U)) s u e s' u' e' :
  lonejson_sse_finish handler (Some s) u e = (LONEJSON_STATUS_OK, Some s', u', e') →
  (∀ d, ∃ e2, lonejson_sse_push handler (Some s') (Some d) (zlen d) u' e' =
              (LONEJSON_STATUS_INVALID_ARGUMENT, Some s', u', e2))
  ∧ lonejson_sse_finish handler (Some s') u' e' = (LONEJSON_STATUS_OK, Some s', u', e').
Proof.
  intros H. assert (sse_closed s' = true) as Hc.
  { unfold lonejson_sse_finish in H. destruct (sse_closed s) eqn:E; [congruence|].
    destruct (sse_finish_step handler (mk_ctx s u e)) as [st c'] eqn:Ef.
    simplify_eq. unfold sse_finish_step in Ef.
    apply and_then_inv in Ef as (c1 & _ & Ef). apply and_then_inv in Ef as (c2 & _ & Ef).
    unfold modify in Ef. by simplify_eq. }
  split; unfold lonejson_sse_push, lonejson_sse_finish; rewrite Hc; [|done].
  intros d. simpl. destruct e'; simpl; eauto.
Qed.

(** *** Witnesses *)

(** [event: a], two [data:] lines, an event with an id only; CR, LF and CR LF,
    cut in the middle of a CR LF. *)
Definition demo_chunks : list bytes :=
  [c_str "event: a" ++ [10] ++ c_str "data: x" ++ [13];
   [10] ++ c_str "data:y" ++ [13; 13] ++ c_str "id: 7"; []].

Definition demo_parser : lonejson_sse :=
  sse_zero (sse_resolve_options None) (lonejson__buffer_alloc fresh_allocator 1000).2.

Example demo_events :
  sse_events false [] (sse_lines (mjoin demo_chunks)) =
  [(mk_sse_event (Some (c_str "a")) None 3 0 false, c_str "x" ++ [10] ++ c_str "y");
   (mk_sse_event (Some []) (Some (c_str "7")) 0 0 false, [])].
Proof. reflexivity. Qed.

Example demo_documented :
  documented_events [] (sse_lines (mjoin demo_chunks)) =
  [(mk_sse_event (Some (c_str "a")) None 3 0 false, c_str "x" ++ [10] ++ c_str "y");
   (mk_sse_event None (Some (c_str "7")) 0 0 false, [])].
Proof. reflexivity. Qed.

Lemma sse_refines_witness :
  ∃ s' u' e' delivered,
    sse_run (Some recorder) (Some demo_parser) demo_chunks ([], []) None
    = (LONEJSON_STATUS_OK, Some s', u', e')
    ∧ sse_closed s' = true
    ∧ events_of u' = events_of ([], []) ++ delivered
    ∧ Forall2 event_shown delivered (documented_events [] (sse_lines (mjoin demo_chunks))).
Proof.
  eapply (sse_refines recorder 1000 None fresh_allocator None demo_parser);
    [reflexivity|repeat split; discriminate || reflexivity|done|].
  apply (bool_decide_unpack _). vm_compute. exact I.
Defined.

Lemma sse_no_leak_witness :
  ∃ s' u' e' st',
    sse_calls (Some recorder) (Some demo_parser) (map Some demo_chunks) ([], []) None
    = (Some s', u', e')
    ∧ stats (lonejson_sse_close 1000 s') = Some st' ∧ bytes_live st' = 0.
Proof.
  eapply (sse_no_leak (Some recorder) 1000 None fresh_allocator None demo_parser
            _ _ (mk_stats 0 0 0 0 0));
    [reflexivity|repeat split; discriminate || reflexivity|discriminate|reflexivity
    |discriminate|discriminate].
Defined.

Lemma sse_bounded_witness :
  ∃ s' u' e',
    sse_calls (Some recorder) (Some demo_parser) (map Some demo_chunks) ([], []) None
    = (Some s', u', e')
    ∧ blen (sse_line s') ≤ 65536 ∧ cap (sse_line s') ≤ 65536 + 1
    ∧ blen (sse_event s') ≤ 1048576 ∧ cap (sse_event s') ≤ 1048576 + 1
    ∧ blen (sse_id s') ≤ 1048576 ∧ cap (sse_id s') ≤ 1048576 + 1
    ∧ event_data_len s' ≤ 1048576
    ∧ buffer_wf (sse_line s') ∧ buffer_wf (sse_event s') ∧ buffer_wf (sse_id s').
Proof.
  eapply (sse_bounded (Some recorder) 1000 None fresh_allocator None demo_parser
            _ _ (mk_stats 0 0 0 0 0));
    [reflexivity|repeat split; discriminate || reflexivity|discriminate|reflexivity
    |discriminate|discriminate].
Defined.

Lemma sse_closed_is_final_witness (p := sse_set_closed demo_parser) :
  (∀ d, ∃ e2, lonejson_sse_push (Some recorder) (Some p) (Some d) (zlen d) ([], []) None =
              (LONEJSON_STATUS_INVALID_ARGUMENT, Some p, ([], []), e2))
  ∧ lonejson_sse_finish (Some recorder) (Some p) ([], []) None =
    (LONEJSON_STATUS_OK, Some p, ([], []), None).
Proof. apply (sse_closed_is_final (Some recorder) demo_parser ([], []) None). reflexivity. Defined.
