(* ===== verification/Multipart.v ===== *)
(** * Multipart parser
      ([src/impl/34_protocol_framing_api.h], lines 1009-1793)

    [lonejson_multipart_push] is a state machine over the bytes of a
    [multipart/...] body: boundary lines and header lines are collected in
    [line]; a body with a [Content-Length] is streamed by count, any other body
    is scanned for the boundary with a bounded look-ahead in [body].  This file
    holds the data and the operations; [MultipartSpec.v] the theorems. *)

From stdpp Require Import base numbers list strings.
From Stdlib Require Import ZArith Lia.
From S2P Require Import Prelude Runtime ByteBuffer.

(** ** Data *)

Record lonejson_multipart_options := mk_multipart_options {
  max_boundary_bytes : Z;
  max_header_line_bytes : Z;
  max_header_count : Z;
  max_part_buffered_bytes : Z
}.

Inductive lonejson__multipart_phase :=
| MULTIPART_EXPECT_BOUNDARY
| MULTIPART_HEADERS
| MULTIPART_BODY_LENGTH
| MULTIPART_BODY_SCAN
| MULTIPART_DONE.

#[global] Instance lonejson__multipart_phase_eq_dec : EqDecision lonejson__multipart_phase.
Proof. solve_decision. Defined.

(** [headers[0 .. header_count)]. *)
Record lonejson_header := mk_header { hdr_name : bytes; hdr_value : bytes }.

(** [sizeof(lonejson_header)]: two pointers. *)
Definition sizeof_header : Z := 16.

(** An owned string: its pointer ([None] is NULL) and its [..._alloc_size]. *)
Record owned_string := mk_owned { str : option bytes; alloc_size : Z }.
Definition owned_null : owned_string := mk_owned None 0.

(** The part in progress: what [reset_part] clears. *)
Record multipart_part_state := mk_part_state {
  headers : list lonejson_header;
  part_name : owned_string;
  content_type : owned_string;
  content_length : Z;
  remaining : Z;
  in_part : bool
}.

Record lonejson_multipart := mk_multipart {
  mp_options : lonejson_multipart_options;
  mp_allocator : lonejson_allocator;
  mp_boundary : lonejson__byte_buffer;
  mp_boundary_line : lonejson__byte_buffer;
  mp_closing_boundary_line : lonejson__byte_buffer;
  mp_line : lonejson__byte_buffer;
  mp_body : lonejson__byte_buffer;
  headers_null : bool;
  header_cap : Z;
  headers_alloc_size : Z;
  mp_part : multipart_part_state;
  mp_saw_cr : bool;
  mp_closed : bool;
  mp_phase : lonejson__multipart_phase
}.

Record lonejson_multipart_part := mk_multipart_part {
  mpp_name : option bytes;
  mpp_content_type : option bytes;
  mpp_content_length : Z;
  mpp_headers : list lonejson_header
}.

Record lonejson_multipart_handler (U : Type) := mk_multipart_handler {
  begin_part : option (lonejson_multipart_part → callback U);
  part_data : option (bytes → callback U);
  end_part : option (lonejson_multipart_part → callback U)
}.
Arguments mk_multipart_handler {U} _ _ _.
Arguments begin_part {U} _.
Arguments part_data {U} _.
Arguments end_part {U} _.

(** ** Field updates *)

Definition mp_set_allocator (a : lonejson_allocator) (m : lonejson_multipart) :=
  mk_multipart (mp_options m) a (mp_boundary m) (mp_boundary_line m)
    (mp_closing_boundary_line m) (mp_line m) (mp_body m) (headers_null m) (header_cap m)
    (headers_alloc_size m) (mp_part m) (mp_saw_cr m) (mp_closed m) (mp_phase m).
Definition mp_set_line (b : lonejson__byte_buffer) (m : lonejson_multipart) :=
  mk_multipart (mp_options m) (mp_allocator m) (mp_boundary m) (mp_boundary_line m)
    (mp_closing_boundary_line m) b (mp_body m) (headers_null m) (header_cap m)
    (headers_alloc_size m) (mp_part m) (mp_saw_cr m) (mp_closed m) (mp_phase m).
Definition mp_set_body (b : lonejson__byte_buffer) (m : lonejson_multipart) :=
  mk_multipart (mp_options m) (mp_allocator m) (mp_boundary m) (mp_boundary_line m)
    (mp_closing_boundary_line m) (mp_line m) b (headers_null m) (header_cap m)
    (headers_alloc_size m) (mp_part m) (mp_saw_cr m) (mp_closed m) (mp_phase m).
Definition mp_set_boundaries (b bl cl : lonejson__byte_buffer) (m : lonejson_multipart) :=
  mk_multipart (mp_options m) (mp_allocator m) b bl cl (mp_line m) (mp_body m)
    (headers_null m) (header_cap m) (headers_alloc_size m) (mp_part m) (mp_saw_cr m)
    (mp_closed m) (mp_phase m).
Definition mp_set_headers_block (cap size : Z) (m : lonejson_multipart) :=
  mk_multipart (mp_options m) (mp_allocator m) (mp_boundary m) (mp_boundary_line m)
    (mp_closing_boundary_line m) (mp_line m) (mp_body m) false cap size (mp_part m)
    (mp_saw_cr m) (mp_closed m) (mp_phase m).
Definition mp_set_part (p : multipart_part_state) (m : lonejson_multipart) :=
  mk_multipart (mp_options m) (mp_allocator m) (mp_boundary m) (mp_boundary_line m)
    (mp_closing_boundary_line m) (mp_line m) (mp_body m) (headers_null m) (header_cap m)
    (headers_alloc_size m) p (mp_saw_cr m) (mp_closed m) (mp_phase m).
Definition mp_set_saw_cr (v : bool) (m : lonejson_multipart) :=
  mk_multipart (mp_options m) (mp_allocator m) (mp_boundary m) (mp_boundary_line m)
    (mp_closing_boundary_line m) (mp_line m) (mp_body m) (headers_null m) (header_cap m)
    (headers_alloc_size m) (mp_part m) v (mp_closed m) (mp_phase m).
Definition mp_set_phase (p : lonejson__multipart_phase) (m : lonejson_multipart) :=
  mk_multipart (mp_options m) (mp_allocator m) (mp_boundary m) (mp_boundary_line m)
    (mp_closing_boundary_line m) (mp_line m) (mp_body m) (headers_null m) (header_cap m)
    (headers_alloc_size m) (mp_part m) (mp_saw_cr m) (mp_closed m) p.
Definition mp_set_closed (m : lonejson_multipart) :=
  mk_multipart (mp_options m) (mp_allocator m) (mp_boundary m) (mp_boundary_line m)
    (mp_closing_boundary_line m) (mp_line m) (mp_body m) (headers_null m) (header_cap m)
    (headers_alloc_size m) (mp_part m) (mp_saw_cr m) true (mp_phase m).

Definition part_add_header (h : lonejson_header) (p : multipart_part_state) :=
  mk_part_state (headers p ++ [h]) (part_name p) (content_type p) (content_length p)
    (remaining p) (in_part p).
Definition part_set_name (s : owned_string) (p : multipart_part_state) :=
  mk_part_state (headers p) s (content_type p) (content_length p) (remaining p) (in_part p).
Definition part_set_content_type (s : owned_string) (p : multipart_part_state) :=
  mk_part_state (headers p) (part_name p) s (content_length p) (remaining p) (in_part p).
Definition part_set_content_length (n : Z) (p : multipart_part_state) :=
  mk_part_state (headers p) (part_name p) (content_type p) n (remaining p) (in_part p).
Definition part_set_remaining (n : Z) (p : multipart_part_state) :=
  mk_part_state (headers p) (part_name p) (content_type p) (content_length p) n (in_part p).
Definition part_set_in_part (p : multipart_part_state) :=
  mk_part_state (headers p) (part_name p) (content_type p) (content_length p)
    (remaining p) true.

Definition mp_on_part (f : multipart_part_state → multipart_part_state)
    (m : lonejson_multipart) := mp_set_part (f (mp_part m)) m.
Definition mp_on_line (f : lonejson__byte_buffer → lonejson__byte_buffer)
    (m : lonejson_multipart) := mp_set_line (f (mp_line m)) m.
Definition mp_on_body (f : lonejson__byte_buffer → lonejson__byte_buffer)
    (m : lonejson_multipart) := mp_set_body (f (mp_body m)) m.

(** [lonejson__buffer_free(&mp->allocator, ptr, size)] *)
Definition mp_free (ptr_null : bool) (size : Z) (m : lonejson_multipart) :=
  mp_set_allocator (lonejson__buffer_free (mp_allocator m) ptr_null size) m.

(** ** Scanning C strings *)

Definition is_blank (c : Z) : bool := (c =? " "%ch) || (c =? 9).

(** [while (end > begin && (end[-1] == ' ' || end[-1] == '\t')) --end;] *)
Definition trim_right (s : bytes) : bytes := rev (drop_while is_blank (rev s)).

(** [while ( *p != '\0' && *p != '=' && *p != ';') ++p;] *)
Definition name_char (c : Z) : bool := negb (c =? "="%ch) && negb (c =? ";"%ch).
(** [while ( *p != '\0' && *p != ';' && *p != ' ' && *p != '\t') ++p;] *)
Definition token_char (c : Z) : bool := negb (c =? ";"%ch) && negb (is_blank c).
Definition not_semicolon (c : Z) : bool := negb (c =? ";"%ch).
Definition not_quote (c : Z) : bool := negb (c =? 34).

(** ** Boundary parameter of the Content-Type *)

Definition lonejson_default_multipart_options : lonejson_multipart_options :=
  mk_multipart_options 200 (64 * 1024) 64 (1024 * 1024).

Definition multipart_resolve_options (options : option lonejson_multipart_options) :
    lonejson_multipart_options :=
  let resolved := default lonejson_default_multipart_options options in
  mk_multipart_options
    (if max_boundary_bytes resolved =? 0 then 200 else max_boundary_bytes resolved)
    (if max_header_line_bytes resolved =? 0 then 64 * 1024
     else max_header_line_bytes resolved)
    (if max_header_count resolved =? 0 then 64 else max_header_count resolved)
    (if max_part_buffered_bytes resolved =? 0 then 1024 * 1024
     else max_part_buffered_bytes resolved).

(** One turn of the loop over the parameters at [p], a non-empty C string. *)
Inductive param_turn :=
| Param_none (rest : bytes)
| Param_unterminated
| Param (name value rest : bytes).

Definition boundary_param (p : bytes) : param_turn :=
  let p := drop_while (λ c, (c =? ";"%ch) || is_blank c) p in
  let name := trim_right (take_while name_char p) in
  match drop_while name_char p with
  | c :: p =>
      if negb (c =? "="%ch) then Param_none (drop_while not_semicolon (c :: p))
      else
        let value := drop_while is_blank p in
        match value with
        | q :: quoted =>
            if q =? 34 then
              match drop_while not_quote quoted with
              | [] => Param_unterminated
              | _ :: rest => Param name (take_while not_quote quoted) rest
              end
            else Param name (take_while token_char value) (drop_while token_char value)
        | [] => Param name [] []
        end
  | [] => Param_none []
  end.

(** The loop; [fuel] is a sequence at least as long as [p], of which every turn
    uses one element. *)
Fixpoint parse_boundary_loop (fuel : bytes) (p : bytes) (out : lonejson__byte_buffer)
    (options : lonejson_multipart_options) (allocator : lonejson_allocator)
    (error : error_ptr) :
    lonejson_status * lonejson__byte_buffer * lonejson_allocator * error_ptr :=
  let fails c msg :=
    let '(st, error) := lonejson__set_error error c 0 0 0 msg in
    (st, out, allocator, error) in
  match fuel, p with
  | _ :: fuel, _ :: _ =>
      match boundary_param p with
      | Param_none rest => parse_boundary_loop fuel rest out options allocator error
      | Param_unterminated =>
          fails LONEJSON_STATUS_INVALID_ARGUMENT "multipart boundary quote is unterminated"%string
      | Param name value rest =>
          if lonejson__ascii_ieq name (c_str "boundary") then
            let len := zlen value in
            if len =? 0 then
              fails LONEJSON_STATUS_INVALID_ARGUMENT "multipart boundary is invalid"%string
            else if max_boundary_bytes options <? len then
              fails LONEJSON_STATUS_OVERFLOW "multipart boundary length limit exceeded"%string
            else lonejson__byte_append out value (max_boundary_bytes options) allocator error
          else parse_boundary_loop fuel rest out options allocator error
      end
  | _, _ =>
      fails LONEJSON_STATUS_INVALID_ARGUMENT "multipart Content-Type missing boundary"%string
  end.

Definition lonejson__multipart_parse_boundary (content_type : bytes)
    (out : lonejson__byte_buffer) (options : lonejson_multipart_options)
    (allocator : lonejson_allocator) (error : error_ptr) :
    lonejson_status * lonejson__byte_buffer * lonejson_allocator * error_ptr :=
  parse_boundary_loop content_type content_type out options allocator error.

(** ** Parts *)

Definition part_zero : multipart_part_state := mk_part_state [] owned_null owned_null (-1) 0 false.

(** The blocks of [headers[i]]; [strlen] finds the sizes. *)
Definition free_header (a : lonejson_allocator) (h : lonejson_header) : lonejson_allocator :=
  let a := lonejson__buffer_free a false (zlen (c_string (hdr_name h)) + 1) in
  lonejson__buffer_free a false (zlen (c_string (hdr_value h)) + 1).

Definition is_null (s : option bytes) : bool :=
  match s with None => true | Some _ => false end.

Definition lonejson__multipart_reset_part (m : lonejson_multipart) : lonejson_multipart :=
  let p := mp_part m in
  let a := fold_left free_header (headers p) (mp_allocator m) in
  let a := lonejson__buffer_free a (is_null (str (part_name p))) (alloc_size (part_name p)) in
  let a := lonejson__buffer_free a (is_null (str (content_type p)))
             (alloc_size (content_type p)) in
  mp_set_allocator a (mp_on_body lonejson__byte_reset (mp_set_part part_zero m)).

Definition lonejson__multipart_part_view (m : lonejson_multipart) : lonejson_multipart_part :=
  let p := mp_part m in
  mk_multipart_part (str (part_name p)) (str (content_type p)) (content_length p) (headers p).

(** ** Construction and release *)

Definition lonejson_multipart_close (sizeof_mp : Z) (m : lonejson_multipart) :
    lonejson_allocator :=
  let m := lonejson__multipart_reset_part m in
  let '(_, a) := lonejson__byte_free (mp_boundary m) (mp_allocator m) in
  let '(_, a) := lonejson__byte_free (mp_boundary_line m) a in
  let '(_, a) := lonejson__byte_free (mp_closing_boundary_line m) a in
  let '(_, a) := lonejson__byte_free (mp_line m) a in
  let '(_, a) := lonejson__byte_free (mp_body m) a in
  let a := lonejson__buffer_free a (headers_null m) (headers_alloc_size m) in
  lonejson__buffer_free a false sizeof_mp.

Definition multipart_zero (options : lonejson_multipart_options) (a : lonejson_allocator) :
    lonejson_multipart :=
  mk_multipart options a buffer_empty buffer_empty buffer_empty buffer_empty buffer_empty
    true 0 0 part_zero false false MULTIPART_EXPECT_BOUNDARY.

(** The boundary and the two delimiter lines made of it. *)
Definition multipart_boundaries (content_type : bytes) (options : lonejson_multipart_options)
    (m : lonejson_multipart) (error : error_ptr) :
    lonejson_status * lonejson_multipart * error_ptr :=
  let '(st, b, a, error) :=
    lonejson__multipart_parse_boundary content_type (mp_boundary m) options
      (mp_allocator m) error in
  let bl := mp_boundary_line m in
  let cl := mp_closing_boundary_line m in
  let result st b bl cl a error :=
    (st, mp_set_allocator a (mp_set_boundaries b bl cl m), error) in
  if decide (st ≠ LONEJSON_STATUS_OK) then result st b bl cl a error
  else
    let '(st, bl, a, error) :=
      lonejson__byte_append bl (c_str "--") (u64 (max_boundary_bytes options + 4)) a error in
    if decide (st ≠ LONEJSON_STATUS_OK) then result st b bl cl a error
    else
    let '(st, bl, a, error) :=
      lonejson__byte_append bl (contents b) (u64 (max_boundary_bytes options + 4)) a error in
    if decide (st ≠ LONEJSON_STATUS_OK) then result st b bl cl a error
    else
    let '(st, cl, a, error) :=
      lonejson__byte_append cl (contents bl) (u64 (max_boundary_bytes options + 6)) a error in
    if decide (st ≠ LONEJSON_STATUS_OK) then result st b bl cl a error
    else
    let '(st, cl, a, error) :=
      lonejson__byte_append cl (c_str "--") (u64 (max_boundary_bytes options + 6)) a error in
    result st b bl cl a error.

(** [content_type] is a C string or NULL; [allocator] is the resolved one,
    [None] when the options name some but not all callbacks; [sizeof_mp] is
    [sizeof( *mp)]. *)
Definition lonejson_multipart_open (sizeof_mp : Z) (content_type : option bytes)
    (options : option lonejson_multipart_options) (allocator : option lonejson_allocator)
    (error : error_ptr) :
    option lonejson_multipart * option lonejson_allocator * error_ptr :=
  match content_type, allocator with
  | None, _ =>
      (None, allocator,
       snd (lonejson__set_error error LONEJSON_STATUS_INVALID_ARGUMENT 0 0 0
              "multipart Content-Type is required"))
  | _, None =>
      (None, allocator,
       snd (lonejson__set_error error LONEJSON_STATUS_INVALID_ARGUMENT 0 0 0
              "allocator must provide either all callbacks or none"))
  | Some content_type, Some a =>
      let resolved := multipart_resolve_options options in
      let '(mp, a) := lonejson__buffer_alloc a sizeof_mp in
      if negb mp then
        (None, Some a,
         snd (lonejson__set_error error LONEJSON_STATUS_ALLOCATION_FAILED 0 0 0
                "failed to allocate multipart parser"))
      else
        let '(st, m, error) :=
          multipart_boundaries content_type resolved (multipart_zero resolved a) error in
        if decide (st ≠ LONEJSON_STATUS_OK) then
          (None, Some (lonejson_multipart_close sizeof_mp m), error)
        else (Some m, Some (mp_allocator m), lonejson__clear_error error)
  end.

(** ** Headers *)

Section parser.
Context {U : Type}.

Abbreviation mp_step := (step lonejson_multipart U).

(** [return error ? error->code : LONEJSON_STATUS_ALLOCATION_FAILED;] *)
Definition return_error_code : mp_step := λ c,
  (error_code_or (error c) LONEJSON_STATUS_ALLOCATION_FAILED, c).

(** [lonejson__dup_range] with the parser's allocator. *)
Definition mp_dup_range (range : bytes) (c : ctx_of lonejson_multipart U) :
    option (bytes * Z) * ctx_of lonejson_multipart U :=
  let '(out, a, e) := lonejson__dup_range range (mp_allocator (self c)) (error c) in
  (out, mk_ctx (mp_set_allocator a (self c)) (user c) e).

(** The new capacity when the header array is full. *)
Definition header_next_cap (cap max : Z) : Z :=
  let next_cap := if cap =? 0 then 8 else u64 (cap * 2) in
  if max <? next_cap then max else next_cap.

(** Room for one more header. *)
Definition reserve_header : mp_step := λ c,
  let m := self c in
  if zlen (headers (mp_part m)) =? header_cap m then
    let next_cap := header_next_cap (header_cap m) (max_header_count (mp_options m)) in
    let size := u64 (next_cap * sizeof_header) in
    let '(next, a) :=
      lonejson__buffer_realloc (mp_allocator m) (headers_null m) (headers_alloc_size m) size in
    let m := mp_set_allocator a m in
    if negb next then
      fail_with LONEJSON_STATUS_ALLOCATION_FAILED "failed to allocate headers"
        (mk_ctx m (user c) (error c))
    else (LONEJSON_STATUS_OK, mk_ctx (mp_set_headers_block next_cap size m) (user c) (error c))
  else (LONEJSON_STATUS_OK, c).

Definition lonejson__multipart_add_header (name value : bytes) : mp_step := λ c,
  if max_header_count (mp_options (self c)) <=? zlen (headers (mp_part (self c))) then
    fail_with LONEJSON_STATUS_OVERFLOW "multipart header count limit exceeded" c
  else
    (reserve_header &> λ c,
      let '(owned_name, c) := mp_dup_range name c in
      match owned_name with
      | None => return_error_code c
      | Some (owned_name, name_size) =>
          let '(owned_value, c) := mp_dup_range value c in
          match owned_value with
          | None => (modify (mp_free false name_size) &> return_error_code) c
          | Some (owned_value, _) =>
              modify (mp_on_part (part_add_header (mk_header owned_name owned_value))) c
          end
      end) c.

(** [lonejson__buffer_free(old); field = lonejson__dup_range(range);]: a failed
    copy leaves the old [..._alloc_size] next to the NULL pointer. *)
Definition replace_string (get : multipart_part_state → owned_string)
    (set : owned_string → multipart_part_state → multipart_part_state)
    (range : bytes) : mp_step := λ c,
  let old := get (mp_part (self c)) in
  let c := mk_ctx (mp_free (is_null (str old)) (alloc_size old) (self c)) (user c) (error c) in
  let '(out, c) := mp_dup_range range c in
  match out with
  | Some (s, size) => modify (mp_on_part (set (mk_owned (Some s) size))) c
  | None => (modify (mp_on_part (set (mk_owned None (alloc_size old)))) &> return_error_code) c
  end.

(** The quoted-string loop at [p]: the unescaped bytes go to [unescaped], a
    local buffer; the third component is the scan position reached. *)
Fixpoint unescape_loop (p : bytes) (unescaped : lonejson__byte_buffer)
    (c : ctx_of lonejson_multipart U) :
    lonejson_status * lonejson__byte_buffer * bytes * ctx_of lonejson_multipart U :=
  let append ch (k : lonejson__byte_buffer → ctx_of lonejson_multipart U → _) :=
    let '(st, b, a, e) :=
      lonejson__byte_append_char unescaped ch (max_header_line_bytes (mp_options (self c)))
        (mp_allocator (self c)) (error c) in
    let c := mk_ctx (mp_set_allocator a (self c)) (user c) e in
    if decide (st ≠ LONEJSON_STATUS_OK) then (st, b, p, c) else k b c in
  match p with
  | [] => (LONEJSON_STATUS_OK, unescaped, p, c)
  | ch :: p' =>
      if ch =? 34 then (LONEJSON_STATUS_OK, unescaped, p, c)
      else if ch =? 92 then
        match p' with
        | ch2 :: p'' => append ch2 (unescape_loop p'')
        | [] => append ch (unescape_loop p')
        end
      else append ch (unescape_loop p')
  end.

(** [lonejson__byte_free(&unescaped, &mp->allocator)] *)
Definition free_local (b : lonejson__byte_buffer) : mp_step :=
  modify (λ m, mp_set_allocator (snd (lonejson__byte_free b (mp_allocator m))) m).

(** What follows the value of a parameter: it is the part's name, or the next
    parameter is looked for from the scan position [p]. *)
Definition disposition_value (name value p : bytes) (unescaped : lonejson__byte_buffer)
    (next : bytes → mp_step) : mp_step := λ c,
  if lonejson__ascii_ieq name (c_str "name") then
    let '(st, c) := replace_string part_name part_set_name value c in
    let '(_, c) := free_local unescaped c in
    match str (part_name (mp_part (self c))) with
    | Some _ => (LONEJSON_STATUS_OK, c)
    | None => return_error_code c
    end
  else (free_local unescaped &> next (drop_while not_semicolon p)) c.

(** [while ( *p == ';')]; [fuel] is a sequence at least as long as [p]. *)
Fixpoint disposition_loop (fuel : bytes) (p : bytes) : mp_step := λ c,
  match fuel, p with
  | _ :: fuel, semi :: p =>
      if negb (semi =? ";"%ch) then (LONEJSON_STATUS_OK, c)
      else
        let p := drop_while is_blank p in
        let name := trim_right (take_while name_char p) in
        match drop_while name_char p with
        | eq :: p =>
            if negb (eq =? "="%ch) then disposition_loop fuel (drop_while not_semicolon (eq :: p)) c
            else
              let p := drop_while is_blank p in
              match p with
              | q :: quoted =>
                  if q =? 34 then
                    let '(st, unescaped, p, c) := unescape_loop quoted buffer_empty c in
                    if decide (st ≠ LONEJSON_STATUS_OK) then
                      let '(_, c) := free_local unescaped c in (st, c)
                    else
                      match p with
                      | [] =>
                          (free_local unescaped &>
                           fail_with LONEJSON_STATUS_INVALID_JSON
                             "multipart Content-Disposition name invalid") c
                      | _ :: p =>
                          disposition_value name (contents unescaped) p unescaped
                            (disposition_loop fuel) c
                      end
                  else
                    disposition_value name (take_while token_char p) (drop_while token_char p)
                      buffer_empty (disposition_loop fuel) c
              | [] => disposition_value name [] [] buffer_empty (disposition_loop fuel) c
              end
        | [] => (LONEJSON_STATUS_OK, c)
        end
  | _, _ => (LONEJSON_STATUS_OK, c)
  end.

Definition lonejson__multipart_parse_content_disposition (value : bytes) : mp_step :=
  let p := drop_while not_semicolon value in
  disposition_loop p p.

(** [line] is a C string. *)
Definition lonejson__multipart_process_header_line (line : bytes) : mp_step :=
  match split_at ":"%ch line with
  | None => fail_with LONEJSON_STATUS_INVALID_JSON "invalid multipart header line"
  | Some (name, rest) =>
      let value := drop_while is_blank rest in
      let trimmed := trim_right value in
      lonejson__multipart_add_header name trimmed &>
      if lonejson__ascii_ieq name (c_str "Content-Disposition") then
        lonejson__multipart_parse_content_disposition value
      else if lonejson__ascii_ieq name (c_str "Content-Type") then
        replace_string content_type part_set_content_type trimmed
      else if lonejson__ascii_ieq name (c_str "Content-Length") then
        match trimmed with
        | [] => fail_with LONEJSON_STATUS_INVALID_JSON "multipart Content-Length is invalid"
        | _ :: _ =>
            match decimal_loop INT64_MAX trimmed 0 with
            | Dec_invalid =>
                fail_with LONEJSON_STATUS_INVALID_JSON "multipart Content-Length is invalid"
            | Dec_overflow =>
                fail_with LONEJSON_STATUS_OVERFLOW
                  "multipart Content-Length exceeds supported range"
            | Dec_ok acc =>
                modify (mp_on_part (part_set_content_length acc))
            end
        end
      else ok
  end.
End parser.

(** ** Callbacks, lines and bodies *)

Section machine.
Context {U : Type} (handler : option (lonejson_multipart_handler U)).

Abbreviation mp_step := (step lonejson_multipart U).

Definition lonejson__multipart_call_begin : mp_step := λ c,
  call ((λ f, f (lonejson__multipart_part_view (self c))) <$> (handler ≫= begin_part))
    "multipart begin_part callback failed" c.

Definition lonejson__multipart_call_data (data : bytes) : mp_step :=
  if zlen data =? 0 then ok
  else call ((λ f, f data) <$> (handler ≫= part_data))
         "multipart part_data callback failed".

Definition lonejson__multipart_call_end : mp_step := λ c,
  call ((λ f, f (lonejson__multipart_part_view (self c))) <$> (handler ≫= end_part))
    "multipart end_part callback failed" c.

(** The blank line after the headers: the body's kind is decided. *)
Definition end_of_headers : mp_step :=
  lonejson__multipart_call_begin &>
  modify (mp_on_part part_set_in_part) &> λ c,
  let n := content_length (mp_part (self c)) in
  if 0 <=? n then
    (modify (mp_on_part (part_set_remaining n)) &> λ c,
     if n =? 0 then
       let '(st, c) := lonejson__multipart_call_end c in
       (st, mk_ctx (mp_set_phase MULTIPART_EXPECT_BOUNDARY
                      (lonejson__multipart_reset_part (self c))) (user c) (error c))
     else modify (mp_set_phase MULTIPART_BODY_LENGTH) c) c
  else modify (mp_set_phase MULTIPART_BODY_SCAN) c.

Definition lonejson__multipart_process_line : mp_step := λ c,
  let m := self c in
  let line := contents (mp_line m) in
  match mp_phase m with
  | MULTIPART_EXPECT_BOUNDARY =>
      if zlen line =? 0 then (LONEJSON_STATUS_OK, c)
      else if bool_decide (c_string line = buffer_c_string (mp_boundary_line m)) then
        modify (λ m, mp_set_phase MULTIPART_HEADERS (lonejson__multipart_reset_part m)) c
      else if bool_decide (c_string line = buffer_c_string (mp_closing_boundary_line m)) then
        modify (λ m, mp_set_closed (mp_set_phase MULTIPART_DONE m)) c
      else fail_with LONEJSON_STATUS_INVALID_JSON "unexpected multipart boundary line" c
  | MULTIPART_HEADERS =>
      if zlen line =? 0 then end_of_headers c
      else lonejson__multipart_process_header_line (c_string line) c
  | _ => (LONEJSON_STATUS_OK, c)
  end.

(** [status = process_line(...); byte_reset(&mp->line);] *)
Definition mp_finish_line : mp_step := λ c,
  let '(st, c) := lonejson__multipart_process_line c in
  (st, mk_ctx (mp_on_line lonejson__byte_reset (self c)) (user c) (error c)).

(** [lonejson__byte_append_char] on the line or the body buffer. *)
Definition mp_append (get : lonejson_multipart → lonejson__byte_buffer)
    (set : lonejson__byte_buffer → lonejson_multipart → lonejson_multipart)
    (ch : Z) (limit : lonejson_multipart_options → Z) : mp_step := λ c,
  let m := self c in
  let '(st, b, a, e) :=
    lonejson__byte_append_char (get m) ch (limit (mp_options m)) (mp_allocator m) (error c) in
  (st, mk_ctx (set b (mp_set_allocator a m)) (user c) e).

Definition lonejson__multipart_feed_line_char (ch : Z) : mp_step := λ c,
  if mp_saw_cr (self c) then
    (modify (mp_set_saw_cr false) &> mp_finish_line &>
     (if ch =? 10 then ok
      else if ch =? 13 then modify (mp_set_saw_cr true)
      else mp_append mp_line mp_set_line ch max_header_line_bytes)) c
  else if ch =? 13 then modify (mp_set_saw_cr true) c
  else if ch =? 10 then mp_finish_line c
  else mp_append mp_line mp_set_line ch max_header_line_bytes c.

(** The three scanning helpers, on the bytes [body->data + pos]. *)

(** [Some] is [*consume_len - pos]: [line] stands at the position, followed by
    LF or CR LF. *)
Definition lonejson__multipart_boundary_line_complete (at_pos line : bytes) : option Z :=
  if bool_decide (take (length line) at_pos = line) then
    match drop (length line) at_pos with
    | [] => None
    | c :: rest =>
        if c =? 10 then Some (zlen line + 1)
        else if c =? 13 then
          match rest with
          | c2 :: _ => if c2 =? 10 then Some (zlen line + 2) else None
          | [] => None
          end
        else None
    end
  else None.

Definition lonejson__multipart_boundary_line_prefix (at_pos line : bytes) : bool :=
  match at_pos with
  | [] => false
  | _ =>
      if zlen line <=? zlen at_pos then
        bool_decide (take (length line) at_pos = line) &&
        match drop (length line) at_pos with
        | [] => true
        | c :: _ => (c =? 13) || (c =? 10)
        end
      else bool_decide (at_pos = take (length at_pos) line)
  end.

(** [before] are the bytes up to the position: how many of them come before the
    line end that precedes it. *)
Definition lonejson__multipart_emit_len_before_boundary (before : bytes) : Z :=
  match rev before with
  | c :: rest =>
      if c =? 10 then
        match rest with
        | c2 :: _ => if c2 =? 13 then zlen before - 2 else zlen before - 1
        | [] => zlen before - 1
        end
      else zlen before
  | [] => 0
  end.

Definition lonejson__multipart_finish_boundary (closing : bool) : mp_step :=
  lonejson__multipart_call_end &>
  modify lonejson__multipart_reset_part &>
  if closing then modify (λ m, mp_set_closed (mp_set_phase MULTIPART_DONE m))
  else modify (mp_set_phase MULTIPART_HEADERS).

(** [call_data(body.data, n)] and, when it succeeds, [byte_consume(&body, consume)]. *)
Definition emit_body (n consume : Z) : mp_step := λ c,
  (lonejson__multipart_call_data (take (Z.to_nat n) (contents (mp_body (self c)))) &>
   modify (mp_on_body (λ b, lonejson__byte_consume b consume))) c.

(** [if (keep_from > 0u) { call_data; byte_consume; }] *)
Definition emit_keep (keep_from : Z) : mp_step :=
  if 0 <? keep_from then emit_body keep_from keep_from else ok.

(** How many bytes the end of the scan lets go: all but a trailing CR, LF or
    CR LF. *)
Definition keep_from_end (body : bytes) : Z :=
  match rev body with
  | c :: rest =>
      if c =? 10 then
        match rest with
        | c2 :: _ => if c2 =? 13 then zlen body - 2 else zlen body - 1
        | [] => zlen body - 1
        end
      else if c =? 13 then zlen body - 1
      else zlen body
  | [] => 0
  end.

(** [while (pos < mp->body.len)]: [before] are the bytes up to [pos], [at_pos]
    the others. *)
Fixpoint body_scan (before at_pos : bytes) : mp_step := λ c,
  let closing := contents (mp_closing_boundary_line (self c)) in
  let line := contents (mp_boundary_line (self c)) in
  match at_pos with
  | [] => emit_keep (keep_from_end before) c
  | ch :: rest =>
      if match last before with None => true | Some p => p =? 10 end then
        match lonejson__multipart_boundary_line_complete at_pos closing with
        | Some n =>
            (emit_body (lonejson__multipart_emit_len_before_boundary before)
               (zlen before + n) &>
             lonejson__multipart_finish_boundary true) c
        | None =>
        match lonejson__multipart_boundary_line_complete at_pos line with
        | Some n =>
            (emit_body (lonejson__multipart_emit_len_before_boundary before)
               (zlen before + n) &>
             lonejson__multipart_finish_boundary false) c
        | None =>
            if lonejson__multipart_boundary_line_prefix at_pos closing
               || lonejson__multipart_boundary_line_prefix at_pos line
            then emit_keep (lonejson__multipart_emit_len_before_boundary before) c
            else body_scan (before ++ [ch]) rest c
        end
        end
      else body_scan (before ++ [ch]) rest c
  end.

Definition lonejson__multipart_process_body_buffer : mp_step := λ c,
  body_scan [] (contents (mp_body (self c))) c.

Definition lonejson__multipart_feed_body_scan_char (ch : Z) : mp_step :=
  mp_append mp_body mp_set_body ch max_part_buffered_bytes &>
  lonejson__multipart_process_body_buffer.

(** A chunk of a body with a length. *)
Definition push_length (data : bytes) : mp_step :=
  lonejson__multipart_call_data data &>
  modify (mp_on_part (λ p, part_set_remaining (remaining p - zlen data) p)) &> λ c,
  if remaining (mp_part (self c)) =? 0 then
    (lonejson__multipart_call_end &>
     modify (λ m, mp_set_phase MULTIPART_EXPECT_BOUNDARY (lonejson__multipart_reset_part m))) c
  else (LONEJSON_STATUS_OK, c).

(** A turn of the loop on the bytes [ch :: rest]: what it does and the bytes it
    leaves. *)
Definition push_turn (ch : Z) (rest : bytes) (m : lonejson_multipart) : mp_step * bytes :=
  match mp_phase m with
  | MULTIPART_BODY_LENGTH =>
      let p := ch :: rest in
      let r := u64 (remaining (mp_part m)) in
      let chunk := if r <? zlen p then r else zlen p in
      (push_length (take (Z.to_nat chunk) p), drop (Z.to_nat chunk) p)
  | MULTIPART_BODY_SCAN => (lonejson__multipart_feed_body_scan_char ch, rest)
  | _ => (lonejson__multipart_feed_line_char ch, rest)
  end.

(** [while (i < len)]; [fuel] bounds the turns, and a loop that is not over
    after them has no result. *)
Fixpoint push_loop (fuel : nat) (p : bytes) (c : ctx_of lonejson_multipart U) :
    run (lonejson_status * ctx_of lonejson_multipart U) :=
  match p, fuel with
  | [], _ => Done (LONEJSON_STATUS_OK, c)
  | _, O => Out_of_fuel
  | ch :: rest, S fuel =>
      let '(turn, rest2) := push_turn ch rest (self c) in
      let '(st, c) := turn c in
      if decide (st = LONEJSON_STATUS_OK) then push_loop fuel rest2 c else Done (st, c)
  end.

(** Every byte takes one turn, and a count of zero one more, after which the
    phase is another one. *)
Definition push_fuel (p : bytes) : nat := 2 * length p + 1.

Definition lonejson_multipart_push (mp : option lonejson_multipart) (data : option bytes)
    (len : Z) (user : U) (error : error_ptr) :
    run (lonejson_status * option lonejson_multipart * U * error_ptr) :=
  match mp with
  | Some m =>
      if bool_decide (data = None) && negb (len =? 0) then
        let '(st, e) := lonejson__set_error error LONEJSON_STATUS_INVALID_ARGUMENT 0 0 0
                          "multipart parser and bytes are required" in Done (st, mp, user, e)
      else if mp_closed m then
        let '(st, e) := lonejson__set_error error LONEJSON_STATUS_INVALID_ARGUMENT 0 0 0
                          "multipart parser is already finished" in Done (st, mp, user, e)
      else
        let p := take (Z.to_nat len) (default [] data) in
        '(st, c) ← push_loop (push_fuel p) p (mk_ctx m user (lonejson__clear_error error));
        Done (st, Some (self c), Runtime.user c, Runtime.error c)
  | None =>
      let '(st, e) := lonejson__set_error error LONEJSON_STATUS_INVALID_ARGUMENT 0 0 0
                        "multipart parser and bytes are required" in Done (st, mp, user, e)
  end.
End machine.

(** The handler and the user are not used. *)
Definition lonejson_multipart_finish (mp : option lonejson_multipart) (error : error_ptr) :
    lonejson_status * option lonejson_multipart * error_ptr :=
  match mp with
  | None =>
      let '(st, e) := lonejson__set_error error LONEJSON_STATUS_INVALID_ARGUMENT 0 0 0
                        "multipart parser is required" in (st, mp, e)
  | Some m =>
      if mp_closed m || bool_decide (mp_phase m = MULTIPART_DONE) then
        (LONEJSON_STATUS_OK, Some (mp_set_closed m), error)
      else
        let '(st, e) := lonejson__set_error error LONEJSON_STATUS_INVALID_JSON 0 0 0
                          "multipart stream ended before closing boundary" in (st, mp, e)
  end.
