(* ===== verification/MultipartSpec.v ===== *)
(** * Multipart parser: properties

    The refinement of the multipart parser of [Multipart.v] against an encoder:
    the parts an encoded message was made of are what the handler sees, however
    the message is cut into chunks. *)

From stdpp Require Import base numbers list strings.
From Stdlib Require Import ZArith Lia.
From S2P Require Import Prelude Runtime ByteBuffer Multipart.

(** ** Listeners *)

(** A handler whose callbacks succeed, with what the caller's state shows of
    them: the parts delivered so far and the data of the part in progress. *)
Class MultipartListener {U : Type} (h : lonejson_multipart_handler U) := {
  parts_of : U → list (lonejson_multipart_part * bytes);
  part_data_of : U → bytes;
  hear_begin : ∀ v u e, ∃ f u' e',
    begin_part h = Some f ∧ f v u e = (LONEJSON_STATUS_OK, u', e')
    ∧ parts_of u' = parts_of u ∧ part_data_of u' = [];
  hear_data : ∀ d u e, ∃ f u' e',
    part_data h = Some f ∧ f d u e = (LONEJSON_STATUS_OK, u', e')
    ∧ parts_of u' = parts_of u ∧ part_data_of u' = part_data_of u ++ d;
  hear_end : ∀ v u e, ∃ f u' e',
    end_part h = Some f ∧ f v u e = (LONEJSON_STATUS_OK, u', e')
    ∧ parts_of u' = parts_of u ++ [(v, part_data_of u)]
}.

(** The recording handler. *)
Definition part_recorder :
    lonejson_multipart_handler (list (lonejson_multipart_part * bytes) * bytes) :=
  mk_multipart_handler
    (Some (λ _ u e, (LONEJSON_STATUS_OK, (u.1, []), e)))
    (Some (λ d u e, (LONEJSON_STATUS_OK, (u.1, u.2 ++ d), e)))
    (Some (λ v u e, (LONEJSON_STATUS_OK, (u.1 ++ [(v, u.2)], u.2), e))).

#[export] Instance part_recorder_listener : MultipartListener part_recorder.
Proof.
  refine {| parts_of := fst; part_data_of := snd |};
    intros; do 3 eexists; split_and!; reflexivity.
Defined.

(** ** The abstract message *)

(** A header of a part: the three the parser interprets, or another one. *)
Inductive part_header :=
| H_name (n : bytes)
| H_type (t : bytes)
| H_length (digits : bytes)
| H_other (name value : bytes).

Record part := mk_part { p_headers : list part_header; p_body : bytes }.

(** RFC 822 quoted-string escapes. *)
Definition quote_char (c : Z) : bytes := if (c =? 34) || (c =? 92) then [92; c] else [c].
Definition quote (s : bytes) : bytes := mjoin (map quote_char s).

Definition header_name (h : part_header) : bytes :=
  match h with
  | H_name _ => c_str "Content-Disposition"
  | H_type _ => c_str "Content-Type"
  | H_length _ => c_str "Content-Length"
  | H_other name _ => name
  end.

Definition header_value (h : part_header) : bytes :=
  match h with
  | H_name n => c_str "form-data; name=" ++ [34] ++ quote n ++ [34]
  | H_type t => t
  | H_length digits => digits
  | H_other _ value => value
  end.

Definition crlf : bytes := [13; 10].

Definition header_line (h : part_header) : bytes :=
  header_name h ++ c_str ": " ++ header_value h.
Definition encode_headers (hs : list part_header) : bytes :=
  mjoin (map (λ h, header_line h ++ crlf) hs).

(** [dl] is the delimiter, two hyphens and the boundary. *)
Definition closing (dl : bytes) : bytes := dl ++ c_str "--".

Fixpoint encode_parts (dl : bytes) (ps : list part) : bytes :=
  match ps with
  | [] => closing dl ++ crlf
  | p :: ps =>
      dl ++ crlf ++ encode_headers (p_headers p) ++ crlf ++ p_body p ++ crlf
      ++ encode_parts dl ps
  end.

(** What the handler is shown of the headers. *)
Definition see_header (v : lonejson_multipart_part) (h : part_header) :
    lonejson_multipart_part :=
  let hs := mpp_headers v ++ [mk_header (header_name h) (header_value h)] in
  match h with
  | H_name n => mk_multipart_part (Some n) (mpp_content_type v) (mpp_content_length v) hs
  | H_type t => mk_multipart_part (mpp_name v) (Some t) (mpp_content_length v) hs
  | H_length digits =>
      mk_multipart_part (mpp_name v) (mpp_content_type v) (decimal_from 0 digits) hs
  | H_other _ _ =>
      mk_multipart_part (mpp_name v) (mpp_content_type v) (mpp_content_length v) hs
  end.

Definition no_headers : lonejson_multipart_part := mk_multipart_part None None (-1) [].
Definition see_part (p : part) : lonejson_multipart_part * bytes :=
  (fold_left see_header (p_headers p) no_headers, p_body p).

(** ** Well-formed messages *)

(** Text of a header line: no CR, LF or NUL. *)
Definition is_text (l : bytes) : Prop := Forall (λ c, c ≠ 13 ∧ c ≠ 10 ∧ c ≠ 0) l.
(** Not surrounded by blanks. *)
Definition is_trimmed (l : bytes) : Prop :=
  (∀ c, head l = Some c → is_blank c = false) ∧ (∀ c, last l = Some c → is_blank c = false).

Definition special_name (n : bytes) : bool :=
  lonejson__ascii_ieq n (c_str "Content-Disposition")
  || lonejson__ascii_ieq n (c_str "Content-Type")
  || lonejson__ascii_ieq n (c_str "Content-Length").

Definition header_ok (body : bytes) (h : part_header) : Prop :=
  match h with
  | H_name n => is_text n
  | H_type t => is_text t ∧ is_trimmed t
  | H_length digits => digits ≠ [] ∧ all_digits digits ∧ decimal_from 0 digits = zlen body
  | H_other name value =>
      is_text name ∧ Forall (λ c, c ≠ ":"%ch) name ∧ special_name name = false
      ∧ is_text value ∧ is_trimmed value
  end.

Definition has_length (p : part) : bool :=
  existsb (λ h, match h with H_length _ => true | _ => false end) (p_headers p).

(** A body without a length must not contain the delimiter. *)
Definition occurs (w s : bytes) : Prop := ∃ x y, s = x ++ w ++ y.

Definition part_ok (o : lonejson_multipart_options) (dl : bytes) (p : part) : Prop :=
  Forall (header_ok (p_body p)) (p_headers p)
  ∧ Forall (λ h, zlen (header_line h) ≤ max_header_line_bytes o) (p_headers p)
  ∧ zlen (p_headers p) ≤ max_header_count o
  ∧ zlen (p_body p) ≤ INT64_MAX
  ∧ (has_length p = false → ¬ occurs dl (p_body p)).

(** The delimiter and the limits. *)
Record delimiter_ok (o : lonejson_multipart_options) (dl : bytes) : Prop := {
  d_dashes : ∃ b, dl = c_str "--" ++ b;
  d_text : is_text dl;
  d_line : zlen (closing dl) ≤ max_header_line_bytes o < SIZE_MAX;
  d_body : zlen (closing dl) + 4 ≤ max_part_buffered_bytes o < SIZE_MAX
}.

(** ** The parser's state, abstractly *)

Record mpos := mk_mpos {
  q_phase : lonejson__multipart_phase;
  q_cur : bytes;                        (* the open line *)
  q_cr : bool;                          (* a CR is pending *)
  q_body : bytes;                       (* the bytes held back *)
  q_view : lonejson_multipart_part;
  q_rem : Z;
  q_parts : list (lonejson_multipart_part * bytes);
  q_data : bytes                        (* data delivered of the part in progress *)
}.

Section refinement.
Context {U : Type} (h : lonejson_multipart_handler U) `{!MultipartListener h}.
Context (o : lonejson_multipart_options) (dl : bytes) (Hdl : delimiter_ok o dl).

Abbreviation state := (ctx_of lonejson_multipart U).

Record mp_rel (q : mpos) (c : state) : Prop := {
  m_options : mp_options (self c) = o;
  m_alloc : never_fails (mp_allocator (self c));
  m_bline : contents (mp_boundary_line (self c)) = dl;
  m_cline : contents (mp_closing_boundary_line (self c)) = closing dl;
  m_line : contents (mp_line (self c)) = q_cur q ∧ buffer_wf (mp_line (self c));
  m_body : contents (mp_body (self c)) = q_body q ∧ buffer_wf (mp_body (self c));
  m_phase : mp_phase (self c) = q_phase q;
  m_closed : mp_closed (self c) = bool_decide (q_phase q = MULTIPART_DONE);
  m_cr : mp_saw_cr (self c) = q_cr q;
  m_view : lonejson__multipart_part_view (self c) = q_view q;
  m_rem : remaining (mp_part (self c)) = q_rem q;
  m_parts : parts_of (user c) = q_parts q;
  m_data : q_phase q = MULTIPART_BODY_LENGTH ∨ q_phase q = MULTIPART_BODY_SCAN →
           part_data_of (user c) = q_data q
}.

(** *** Allocation never fails *)

Lemma free_headers_ok hs a : never_fails a → never_fails (fold_left free_header hs a).
Proof.
  revert a. induction hs as [|x hs IH]; intros a Ha; [done|]. simpl. apply IH.
  unfold free_header. auto with lonejson.
Qed.

Lemma reset_part_alloc m :
  never_fails (mp_allocator m) → never_fails (mp_allocator (lonejson__multipart_reset_part m)).
Proof. intros Ha. simpl. auto using free_headers_ok with lonejson. Qed.

Lemma mp_dup_ok range (c : state) :
  never_fails (mp_allocator (self c)) →
  ∃ a, never_fails a ∧
       mp_dup_range range c =
       (Some (range, zlen range + 1), mk_ctx (mp_set_allocator a (self c)) (user c) (error c)).
Proof.
  intros Ha. unfold mp_dup_range, lonejson__dup_range.
  destruct (buffer_alloc_ok (mp_allocator (self c)) (u64 (zlen range + 1)) Ha) as (a & -> & Hn).
  simpl. by exists a.
Qed.

Lemma mp_append_ok get set ch limit (c : state) :
  buffer_wf (get (self c)) → never_fails (mp_allocator (self c)) →
  0 ≤ limit (mp_options (self c)) < SIZE_MAX →
  blen (get (self c)) + 1 ≤ limit (mp_options (self c)) →
  ∃ b a, mp_append get set ch limit c =
         (LONEJSON_STATUS_OK, mk_ctx (set b (mp_set_allocator a (self c))) (user c) (error c))
         ∧ contents b = contents (get (self c)) ++ [ch] ∧ buffer_wf b ∧ never_fails a.
Proof.
  intros Hb Ha Hl Hd. unfold mp_append, lonejson__byte_append_char.
  destruct (byte_append_ok (get (self c)) [ch] (limit (mp_options (self c)))
              (mp_allocator (self c)) (error c) Hb Ha Hl Hd) as (b' & a' & -> & H1 & H2 & H3 & _).
  by exists b', a'.
Qed.

(** *** Callbacks *)

Lemma call_begin_ok (c : state) :
  ∃ u' e', lonejson__multipart_call_begin (Some h) c =
           (LONEJSON_STATUS_OK, mk_ctx (self c) u' e')
           ∧ parts_of u' = parts_of (user c) ∧ part_data_of u' = [].
Proof.
  unfold lonejson__multipart_call_begin. cbn [mbind option_bind].
  destruct (hear_begin (lonejson__multipart_part_view (self c)) (user c) (error c))
    as (f & u' & e' & Hf & Hc & H).
  exists u', e'. rewrite Hf. split; [|done]. by apply call_ok.
Qed.

Lemma call_data_ok d (c : state) :
  ∃ u' e', lonejson__multipart_call_data (Some h) d c =
           (LONEJSON_STATUS_OK, mk_ctx (self c) u' e')
           ∧ parts_of u' = parts_of (user c) ∧ part_data_of u' = part_data_of (user c) ++ d.
Proof.
  unfold lonejson__multipart_call_data. destruct (zlen d =? 0) eqn:E.
  - exists (user c), (error c). destruct d as [|x d]; [|rewrite zlen_cons in E;
      pose proof (zlen_nonneg d); lia].
    rewrite app_nil_r. split; [by destruct c|done].
  - cbn [mbind option_bind].
    destruct (hear_data d (user c) (error c)) as (f & u' & e' & Hf & Hc & H).
    exists u', e'. rewrite Hf. split; [|done]. by apply call_ok.
Qed.

Lemma call_end_ok (c : state) :
  ∃ u' e', lonejson__multipart_call_end (Some h) c =
           (LONEJSON_STATUS_OK, mk_ctx (self c) u' e')
           ∧ parts_of u' = parts_of (user c) ++
               [(lonejson__multipart_part_view (self c), part_data_of (user c))].
Proof.
  unfold lonejson__multipart_call_end. cbn [mbind option_bind].
  destruct (hear_end (lonejson__multipart_part_view (self c)) (user c) (error c))
    as (f & u' & e' & Hf & Hc & H).
  exists u', e'. rewrite Hf. split; [|done]. by apply call_ok.
Qed.

(** *** Header lines *)

(** The state after a header step: only the part and the allocator changed. *)
Definition part_changed (c c' : state) (v : lonejson_multipart_part) : Prop :=
  ∃ m', c' = mk_ctx m' (user c) (error c)
  ∧ mp_options m' = mp_options (self c) ∧ never_fails (mp_allocator m')
  ∧ mp_boundary_line m' = mp_boundary_line (self c)
  ∧ mp_closing_boundary_line m' = mp_closing_boundary_line (self c)
  ∧ mp_line m' = mp_line (self c) ∧ mp_body m' = mp_body (self c)
  ∧ mp_phase m' = mp_phase (self c) ∧ mp_closed m' = mp_closed (self c)
  ∧ mp_saw_cr m' = mp_saw_cr (self c) ∧ lonejson__multipart_part_view m' = v
  ∧ remaining (mp_part m') = remaining (mp_part (self c)).

Lemma part_changed_trans c1 c2 c3 v2 v3 :
  part_changed c1 c2 v2 → part_changed c2 c3 v3 → part_changed c1 c3 v3.
Proof.
  intros (m2 & -> & H2) (m3 & -> & H3). exists m3. simpl in *.
  destruct H2 as (? & ? & ? & ? & ? & ? & ? & ? & ? & ? & ?).
  destruct H3 as (? & ? & ? & ? & ? & ? & ? & ? & ? & ? & ?). split_and!; done || congruence.
Qed.

Definition view_of (c : state) : lonejson_multipart_part :=
  lonejson__multipart_part_view (self c).

Lemma add_header_ok name value (c : state) v :
  view_of c = v →
  never_fails (mp_allocator (self c)) →
  zlen (mpp_headers v) < max_header_count (mp_options (self c)) →
  ∃ c', lonejson__multipart_add_header name value c = (LONEJSON_STATUS_OK, c')
        ∧ part_changed c c'
            (mk_multipart_part (mpp_name v) (mpp_content_type v) (mpp_content_length v)
               (mpp_headers v ++ [mk_header name value])).
Proof.
  intros <- Ha Hn. unfold view_of in *. simpl in Hn. unfold lonejson__multipart_add_header.
  replace (_ <=? _) with false by lia.
  assert (∃ c1, reserve_header c = (LONEJSON_STATUS_OK, c1)
                ∧ part_changed c c1 (view_of c)) as (c1 & H1 & Hc1).
  { unfold reserve_header. destruct (_ =? _).
    - edestruct (buffer_realloc_ok (mp_allocator (self c))) as (a & -> & Hna); [done|].
      eexists. split; [reflexivity|]. eexists. split; [reflexivity|]. simpl. by split_and!.
    - eexists. split; [reflexivity|]. exists (self c). split; [by destruct c|]. by split_and!. }
  erewrite and_then_ok by exact H1. destruct Hc1 as (m1 & -> & Ho1 & Ha1 & Hm1).
  destruct (mp_dup_ok name (mk_ctx m1 (user c) (error c)) Ha1) as (a2 & Ha2 & ->).
  cbn [self user error].
  destruct (mp_dup_ok value (mk_ctx (mp_set_allocator a2 m1) (user c) (error c)) Ha2)
    as (a3 & Ha3 & ->).
  eexists. split; [reflexivity|]. eexists. split; [reflexivity|].
  destruct Hm1 as (? & ? & ? & ? & ? & ? & ? & Hv & ?). simpl in *.
  split_and!; try done. unfold view_of, lonejson__multipart_part_view in *. simpl in *.
  injection Hv as -> -> -> ->. done.
Qed.

Lemma replace_string_ok get set range (c : state) :
  never_fails (mp_allocator (self c)) →
  ∃ a, never_fails a ∧
    replace_string get set range c =
    (LONEJSON_STATUS_OK,
     mk_ctx (mp_on_part (set (mk_owned (Some range) (zlen range + 1)))
               (mp_set_allocator a (self c))) (user c) (error c)).
Proof.
  intros Ha. unfold replace_string.
  set (c1 := mk_ctx (mp_free _ _ _) _ _).
  destruct (mp_dup_ok range c1) as (a & Hn & ->); [by apply buffer_free_never_fails|].
  by exists a.
Qed.

(** Unescaping undoes [quote], up to the closing quote. *)
Lemma unescape_ok n rest b (c : state) :
  buffer_wf b → never_fails (mp_allocator (self c)) →
  0 ≤ max_header_line_bytes (mp_options (self c)) < SIZE_MAX →
  blen b + zlen n ≤ max_header_line_bytes (mp_options (self c)) →
  ∃ b' a, unescape_loop (quote n ++ 34 :: rest) b c =
          (LONEJSON_STATUS_OK, b', 34 :: rest,
           mk_ctx (mp_set_allocator a (self c)) (user c) (error c))
          ∧ contents b' = contents b ++ n ∧ never_fails a.
Proof.
  revert b c. induction n as [|ch n IH]; intros b c Hb Ha Hl Hlen.
  - exists b, (mp_allocator (self c)). rewrite app_nil_r. split; [|done].
    by destruct c as [[] u e].
  - rewrite zlen_cons in Hlen. pose proof (zlen_nonneg n).
    assert (∃ b1 a1,
      unescape_loop (quote (ch :: n) ++ 34 :: rest) b c =
      unescape_loop (quote n ++ 34 :: rest) b1 (mk_ctx (mp_set_allocator a1 (self c)) (user c) (error c))
      ∧ contents b1 = contents b ++ [ch] ∧ buffer_wf b1 ∧ never_fails a1)
      as (b1 & a1 & -> & Hc1 & Hw1 & Ha1).
    { destruct (byte_append_ok b [ch] (max_header_line_bytes (mp_options (self c)))
        (mp_allocator (self c)) (error c) Hb Ha Hl) as (b1 & a1 & H1 & Hc1 & Hw1 & Ha1 & _);
        [change (zlen [ch]) with 1; lia|].
      exists b1, a1. split; [|done]. change (quote (ch :: n)) with (quote_char ch ++ quote n).
      unfold quote_char. destruct ((ch =? 34) || (ch =? 92)) eqn:Eq.
      - cbn [app unescape_loop]. change (92 =? 34) with false. change (92 =? 92) with true.
        cbn match. unfold lonejson__byte_append_char. rewrite H1. by rewrite decide_False by tauto.
      - cbn [app unescape_loop]. replace (ch =? 34) with false by lia.
        replace (ch =? 92) with false by lia. unfold lonejson__byte_append_char. rewrite H1.
        by rewrite decide_False by tauto. }
    destruct (IH b1 (mk_ctx (mp_set_allocator a1 (self c)) (user c) (error c)))
      as (b' & a & H1 & H2 & H3); [done|done|done|unfold blen in *; simpl; rewrite Hc1, zlen_app;
      change (zlen [ch]) with 1; lia|].
    exists b', a. rewrite H1. split; [done|]. split; [|done]. by rewrite H2, Hc1, <- app_assoc.
Qed.

Lemma set_name_changed (c : state) v n a k :
  view_of c = v → never_fails a →
  part_changed c
    (mk_ctx (mp_on_part (part_set_name (mk_owned (Some n) k)) (mp_set_allocator a (self c)))
       (user c) (error c))
    (mk_multipart_part (Some n) (mpp_content_type v) (mpp_content_length v) (mpp_headers v)).
Proof. intros <- Ha. eexists. split; [reflexivity|]. simpl. by split_and!. Qed.

(** The loop at a parameter with a quoted value. *)
Lemma disposition_quoted f fuel p p1 name quoted (c : state) :
  drop_while is_blank p = p1 → trim_right (take_while name_char p1) = name →
  drop_while name_char p1 = "="%ch :: 34 :: quoted →
  disposition_loop (f :: fuel) (";"%ch :: p) c =
  (let '(st, unescaped, p, c) := unescape_loop quoted buffer_empty c in
   if decide (st ≠ LONEJSON_STATUS_OK) then
     let '(_, c) := free_local unescaped c in (st, c)
   else
     match p with
     | [] =>
         (free_local unescaped &>
          fail_with LONEJSON_STATUS_INVALID_JSON
            "multipart Content-Disposition name invalid") c
     | _ :: p =>
         disposition_value name (contents unescaped) p unescaped (disposition_loop fuel) c
     end).
Proof. intros <- <- H. cbn [disposition_loop]. rewrite H. reflexivity. Qed.

(** The [name] of a [form-data] disposition written by [quote] is read back. *)
Lemma disposition_ok n (c : state) v :
  view_of c = v → never_fails (mp_allocator (self c)) →
  0 ≤ max_header_line_bytes (mp_options (self c)) < SIZE_MAX →
  zlen n ≤ max_header_line_bytes (mp_options (self c)) →
  ∃ c', lonejson__multipart_parse_content_disposition (header_value (H_name n)) c =
        (LONEJSON_STATUS_OK, c')
        ∧ part_changed c c' (mk_multipart_part (Some n) (mpp_content_type v)
                               (mpp_content_length v) (mpp_headers v)).
Proof.
  intros Hv Ha Hl Hn. unfold lonejson__multipart_parse_content_disposition.
  remember (quote n ++ [34]) as r eqn:Hr.
  assert (drop_while not_semicolon (header_value (H_name n))
    = ";"%ch :: " "%ch :: c_str "name=" ++ 34 :: r) as -> by (by subst r).
  rewrite (disposition_quoted _ _ _ (c_str "name=" ++ 34 :: r) (c_str "name") r)
    by reflexivity.
  subst r. destruct (unescape_ok n [] buffer_empty c) as (b & a & -> & Hb & Hna);
    [done|done|done|unfold blen; simpl; change (zlen (@nil Z)) with 0; lia|].
  rewrite decide_False by tauto. unfold disposition_value.
  change (lonejson__ascii_ieq _ (c_str "name")) with true. cbn match.
  set (c1 := mk_ctx (mp_set_allocator a (self c)) (user c) (error c)).
  destruct (replace_string_ok part_name part_set_name (contents b) c1 Hna)
    as (a2 & Hna2 & ->).
  simpl in Hb. rewrite Hb. eexists. split; [reflexivity|].
  eexists. split; [reflexivity|]. simpl. subst v. split_and!; try done.
  by apply buffer_free_never_fails.
Qed.

(** *** The text of a header line *)

Lemma drop_blank v : is_trimmed v → drop_while is_blank (" "%ch :: v) = v.
Proof.
  intros [Hh _]. cbn [drop_while]. change (is_blank " "%ch) with true. cbn match.
  destruct v as [|x v]; [done|]. cbn [drop_while]. by rewrite Hh.
Qed.

Lemma trim_right_id v : is_trimmed v → trim_right v = v.
Proof.
  intros [_ Hl]. unfold trim_right. destruct v as [|x v _] using rev_ind; [done|].
  rewrite rev_unit. cbn [drop_while]. rewrite Hl by apply last_snoc. cbn [rev].
  by rewrite rev_involutive.
Qed.

Lemma c_string_text l : is_text l → c_string l = l.
Proof.
  unfold c_string. induction 1 as [|c l (_ & _ & H0) _ IH]; [done|]. cbn [take_while].
  replace (negb (c =? 0)) with true by lia. by rewrite IH.
Qed.

Lemma quote_text n : is_text n → is_text (quote n).
Proof.
  induction 1 as [|c l (H1 & H2 & H3) _ IH]; [constructor|].
  change (quote (c :: l)) with (quote_char c ++ quote l). apply Forall_app. split; [|done]. unfold quote_char.
  destruct (_ || _); repeat constructor; done.
Qed.

Lemma quote_length n : zlen n ≤ zlen (quote n).
Proof.
  induction n as [|c n IH]; [done|].
  change (quote (c :: n)) with (quote_char c ++ quote n).
  rewrite zlen_cons, zlen_app. unfold quote_char.
  destruct (_ || _); rewrite !zlen_cons; change (zlen (@nil Z)) with 0; lia.
Qed.

Lemma digits_text digits : all_digits digits → is_text digits.
Proof.
  intros H. eapply Forall_impl; [exact H|]. unfold is_digit. simpl. intros c Hc. lia.
Qed.

Lemma digits_trimmed digits : all_digits digits → is_trimmed digits.
Proof.
  unfold all_digits, is_digit, is_trimmed, is_blank. rewrite Forall_forall. intros H.
  split; intros c Hc.
  - destruct digits as [|x digits]; [done|]. simpl in Hc. simplify_eq.
    specialize (H c ltac:(by left)). lia.
  - apply last_Some_elem_of in Hc. apply H in Hc. lia.
Qed.

Lemma text_const s : forallb (λ c, negb (c =? 13) && negb (c =? 10) && negb (c =? 0)) s = true →
  is_text s.
Proof.
  intros H. apply Forall_forall. intros x Hx. rewrite forallb_forall in H.
  specialize (H x ltac:(by apply list_elem_of_In)). lia.
Qed.

(** The value of a well-formed header. *)
Lemma header_value_ok body x :
  header_ok body x →
  is_trimmed (header_value x) ∧ is_text (header_line x) ∧ Forall (λ c, c ≠ ":"%ch) (header_name x).
Proof.
  intros Hx. unfold header_line. destruct x as [n|t|digits|name value]; simpl in Hx.
  - split_and!.
    + split; [intros c; simpl; by intros [= <-]|].
      intros c. cbn [header_value]. rewrite !app_assoc, last_snoc. by intros [= <-].
    + unfold is_text. cbn [header_name header_value]. rewrite !Forall_app. split_and!; try by apply text_const.
      by apply quote_text.
    + cbn. repeat constructor; discriminate.
  - destruct Hx as [H1 H2]. split_and!; [done| |cbn; repeat constructor; discriminate].
    unfold is_text. cbn [header_name header_value]. rewrite !Forall_app. split_and!; try by apply text_const.
    done.
  - destruct Hx as (H0 & H1 & H2).
    split_and!; [by apply digits_trimmed| |cbn; repeat constructor; discriminate].
    unfold is_text. cbn [header_name header_value]. rewrite !Forall_app. split_and!; try by apply text_const.
    by apply digits_text.
  - destruct Hx as (H1 & H2 & H3 & H4 & H5). split_and!; [done| |done].
    unfold is_text. cbn [header_name header_value]. rewrite !Forall_app. split_and!; try by apply text_const.
    all: done.
Qed.

Lemma split_header body x :
  header_ok body x →
  split_at ":"%ch (header_line x) = Some (header_name x, " "%ch :: header_value x).
Proof.
  intros Hx. destruct (header_value_ok body x Hx) as (_ & _ & Hn).
  unfold header_line. by apply (split_at_app ":"%ch (header_name x)).
Qed.

Lemma part_changed_name (c c1 : state) v :
  part_changed c c1 v →
  view_of c1 = v ∧ never_fails (mp_allocator (self c1)) ∧ mp_options (self c1) = mp_options (self c).
Proof. intros (m & -> & H1 & H2 & H3). simpl. tauto. Qed.

Lemma set_part_changed (f : multipart_part_state → multipart_part_state) a (c : state) v :
  never_fails a → remaining (f (mp_part (self c))) = remaining (mp_part (self c)) →
  lonejson__multipart_part_view (mp_on_part f (mp_set_allocator a (self c))) = v →
  part_changed c (mk_ctx (mp_on_part f (mp_set_allocator a (self c))) (user c) (error c)) v.
Proof. intros Ha Hr Hv. eexists. split; [reflexivity|]. simpl. by split_and!. Qed.

Lemma process_header_ok body x (c : state) v :
  header_ok body x → zlen body ≤ INT64_MAX →
  view_of c = v → never_fails (mp_allocator (self c)) → mp_options (self c) = o →
  zlen (header_line x) ≤ max_header_line_bytes o < SIZE_MAX →
  zlen (mpp_headers v) < max_header_count o →
  ∃ c', lonejson__multipart_process_header_line (header_line x) c = (LONEJSON_STATUS_OK, c')
        ∧ part_changed c c' (see_header v x).
Proof.
  intros Hx Hbody Hv Ha Ho Hlen Hn. destruct (header_value_ok body x Hx) as (Ht & _ & _).
  unfold lonejson__multipart_process_header_line. rewrite (split_header body x Hx).
  rewrite drop_blank, trim_right_id by done.
  destruct (add_header_ok (header_name x) (header_value x) c v) as (c1 & H1 & Hc1);
    [done|done|by rewrite Ho|].
  erewrite and_then_ok by exact H1.
  destruct (part_changed_name _ _ _ Hc1) as (Hv1 & Ha1 & Ho1).
  set (v1 := mk_multipart_part _ _ _ _) in Hc1, Hv1.
  match goal with
  | |- ∃ c', ?m = _ ∧ _ =>
      enough (∃ c2, m = (LONEJSON_STATUS_OK, c2) ∧ part_changed c1 c2 (see_header v x))
        as (c2 & H2 & Hc2) by (exists c2; split; [exact H2|by eapply part_changed_trans])
  end.
  destruct x as [n|t|digits|name value]; cbn [header_name header_value].
  - change (lonejson__ascii_ieq _ _) with true at 1. cbn match.
    pose proof (quote_length n). unfold header_line in Hlen. cbn [header_name header_value] in Hlen.
    rewrite !zlen_app in Hlen. pose proof (zlen_nonneg (c_str "Content-Disposition")).
    pose proof (zlen_nonneg (c_str ": ")). pose proof (zlen_nonneg (c_str "form-data; name=")).
    pose proof (zlen_nonneg [34]). pose proof (zlen_nonneg n).
    apply (disposition_ok n c1 v1); [done|done|rewrite Ho1, Ho; lia..].
  - change (lonejson__ascii_ieq (c_str "Content-Type") (c_str "Content-Disposition")) with false.
    change (lonejson__ascii_ieq (c_str "Content-Type") (c_str "Content-Type")) with true. cbn match.
    destruct (replace_string_ok content_type part_set_content_type t c1 Ha1) as (a & Hna & ->).
    eexists. split; [reflexivity|]. apply set_part_changed; [done|done|].
    unfold v1, view_of, lonejson__multipart_part_view in *. simpl in *. injection Hv1 as ? ? ? ?. congruence.
  - change (lonejson__ascii_ieq (c_str "Content-Length") (c_str "Content-Disposition")) with false.
    change (lonejson__ascii_ieq (c_str "Content-Length") (c_str "Content-Type")) with false.
    change (lonejson__ascii_ieq (c_str "Content-Length") (c_str "Content-Length")) with true.
    cbn match. destruct Hx as (H3 & H4 & H5).
    destruct digits as [|d digits]; [done|].
    replace (decimal_loop INT64_MAX (d :: digits) 0) with (Dec_ok (decimal_from 0 (d :: digits))).
    2: { symmetry. apply decimal_loop_spec; [lia|lia|]. split_and!; [done|done|lia]. }
    eexists. split; [reflexivity|].
    destruct c1 as [m1 u1 e1]. apply (set_part_changed _ (mp_allocator m1)); [done|done|].
    unfold v1, view_of, lonejson__multipart_part_view in *. simpl in *. injection Hv1 as ? ? ? ?. congruence.
  - destruct Hx as (H3 & H4 & H5 & _). unfold special_name in H5.
    apply orb_false_iff in H5 as [H5 H7]. apply orb_false_iff in H5 as [H5 H6].
    rewrite H5, H6, H7. exists c1. split; [done|]. exists (self c1).
    split; [by destruct c1|]. by split_and!.
Qed.

(** *** Lines *)

Definition breaks (c : Z) : Prop := c = 13 ∨ c = 10.
Definition no_break (l : bytes) : Prop := Forall (λ c, ¬ breaks c) l.

Lemma break_split a b l1 l2 x y :
  no_break l1 → no_break l2 → breaks a → breaks b → l1 ++ a :: x = l2 ++ b :: y →
  l1 = l2 ∧ a = b ∧ x = y.
Proof.
  intros H1. revert l2. induction H1 as [|c l1 Hc H1 IH]; intros l2 H2 Ha Hb Heq.
  - destruct l2 as [|c l2]; simpl in Heq; [by simplify_eq|].
    inversion H2. by simplify_eq.
  - destruct l2 as [|c2 l2]; simpl in Heq; [by simplify_eq|].
    inversion H2; subst. injection Heq as -> Heq. destruct (IH l2) as (-> & -> & ->); auto.
Qed.

Lemma break_prefix b k l r y :
  no_break k → breaks b → k ++ r = l ++ b :: y → ∃ l2, l = k ++ l2.
Proof.
  intros Hk Hb. revert l. induction Hk as [|c k Hc _ IH]; intros l Heq; [by exists l|].
  destruct l as [|c2 l]; simpl in Heq; [by simplify_eq|].
  injection Heq as -> Heq. destruct (IH _ Heq) as [l2 ->]. by exists l2.
Qed.

Lemma text_no_break l : is_text l → no_break l.
Proof. intros H. eapply Forall_impl; [exact H|]. unfold breaks. intros c. lia. Qed.

Definition with_line (cur : bytes) (cr : bool) (q : mpos) : mpos :=
  mk_mpos (q_phase q) cur cr (q_body q) (q_view q) (q_rem q) (q_parts q) (q_data q).
Definition pending (q : mpos) (rest : bytes) : bytes :=
  q_cur q ++ (if q_cr q then [13] else []) ++ rest.

(** A byte of a line [l] that ends with CR LF: the line grows, or is complete. *)
Lemma feed_line_ok q ch rest l more c :
  mp_rel q c → no_break (q_cur q) → no_break l →
  zlen l ≤ max_header_line_bytes o < SIZE_MAX →
  pending q (ch :: rest) = l ++ 13 :: 10 :: more →
  (∃ cur cr c', lonejson__multipart_feed_line_char (Some h) ch c = (LONEJSON_STATUS_OK, c')
     ∧ mp_rel (with_line cur cr q) c' ∧ no_break cur
     ∧ pending (with_line cur cr q) rest = l ++ 13 :: 10 :: more)
  ∨ rest = more ∧ ∃ c1, mp_rel (with_line l false q) c1
     ∧ lonejson__multipart_feed_line_char (Some h) ch c = (mp_finish_line (Some h) &> ok) c1.
Proof.
  intros Hr Hcur Hl Hlen Heq. unfold pending in *. unfold lonejson__multipart_feed_line_char.
  rewrite (m_cr _ _ Hr). destruct (q_cr q) eqn:Ecr; simpl in Heq.
  - apply break_split in Heq as (Heq1 & _ & Heq2); [|done|done|by left|by left].
    injection Heq2 as -> ->. right. split; [done|].
    exists (mk_ctx (mp_set_saw_cr false (self c)) (user c) (error c)). split; [|done].
    rewrite <- Heq1. destruct Hr. by split.
  - destruct (ch =? 13) eqn:E13; [|destruct (ch =? 10) eqn:E10].
    + apply Z.eqb_eq in E13 as ->.
      apply break_split in Heq as (Heq1 & _ & Heq2); [|done|done|by left|by left].
      left. exists (q_cur q), true. eexists. split; [reflexivity|]. split_and!.
      * destruct Hr. by split.
      * done.
      * simpl. by rewrite Heq1, Heq2.
    + apply Z.eqb_eq in E10 as ->.
      by apply break_split in Heq as (_ & ? & _); [|done|done|right|left].
    + assert (no_break (q_cur q ++ [ch])) as Hcur'.
      { apply Forall_app. split; [done|]. repeat constructor. unfold breaks. lia. }
      destruct (break_prefix 13 (q_cur q ++ [ch]) l rest (10 :: more)) as [l2 Hl2];
        [done|by left|by rewrite <- app_assoc|].
      left. exists (q_cur q ++ [ch]), false. pose proof Hr as [].
      destruct (mp_append_ok mp_line mp_set_line ch max_header_line_bytes c)
        as (b & a & -> & Hb & Hw & Hna); [tauto|done|by rewrite m_options0; pose proof (zlen_nonneg l); lia| |].
      { rewrite m_options0. unfold blen. destruct m_line0 as [-> _].
        rewrite Hl2, !zlen_app in Hlen. change (zlen [ch]) with 1 in Hlen.
        pose proof (zlen_nonneg l2). lia. }
      eexists. split; [reflexivity|]. split_and!; [|done|simpl; by rewrite <- app_assoc].
      split; simpl; try done; [|by rewrite m_cr0].
      split; [|done]. by rewrite Hb; destruct m_line0 as [-> _].
Qed.

(** Clearing the line after it was processed. *)
Lemma finish_line_rel q c c' :
  mp_rel q c' → lonejson__multipart_process_line (Some h) c = (LONEJSON_STATUS_OK, c') →
  ∃ c2, (mp_finish_line (Some h) &> ok) c = (LONEJSON_STATUS_OK, c2)
        ∧ mp_rel (with_line [] (q_cr q) q) c2.
Proof.
  intros Hr H. eexists. split.
  - unfold mp_finish_line, and_then. rewrite H. reflexivity.
  - destruct Hr. split; simpl; try done. split; [done|]. apply byte_reset_wf. tauto.
Qed.

Lemma reset_rel q c :
  mp_rel q c →
  mp_rel (mk_mpos (q_phase q) (q_cur q) (q_cr q) [] no_headers 0 (q_parts q) (q_data q))
    (mk_ctx (lonejson__multipart_reset_part (self c)) (user c) (error c)).
Proof.
  intros []. split; try done; [by apply reset_part_alloc|]. simpl.
  split; [done|]. apply byte_reset_wf. tauto.
Qed.

Definition with_phase (ph : lonejson__multipart_phase) (q : mpos) : mpos :=
  mk_mpos ph (q_cur q) (q_cr q) (q_body q) (q_view q) (q_rem q) (q_parts q) (q_data q).

Lemma phase_rel q ph c :
  mp_rel q c → q_phase q ≠ MULTIPART_DONE → ph ≠ MULTIPART_DONE →
  ph = MULTIPART_BODY_LENGTH ∨ ph = MULTIPART_BODY_SCAN → part_data_of (user c) = q_data q →
  mp_rel (with_phase ph q) (mk_ctx (mp_set_phase ph (self c)) (user c) (error c)).
Proof.
  intros [] Hq Hph Hb Hd. split; simpl; try done. by rewrite m_closed0, !bool_decide_eq_false_2.
Qed.

(** *** Scanning a body for the delimiter *)

Definition with_body (r x : bytes) (q : mpos) : mpos :=
  mk_mpos (q_phase q) (q_cur q) (q_cr q) r (q_view q) (q_rem q) (q_parts q) x.

Lemma emit_body_ok n k q c :
  mp_rel q c → q_phase q = MULTIPART_BODY_SCAN → 0 ≤ k →
  ∃ c', emit_body (Some h) n k c = (LONEJSON_STATUS_OK, c')
        ∧ mp_rel (with_body (drop (Z.to_nat k) (q_body q))
                    (q_data q ++ take (Z.to_nat n) (q_body q)) q) c'.
Proof.
  intros Hr Hp Hk. unfold emit_body.
  destruct (call_data_ok (take (Z.to_nat n) (contents (mp_body (self c)))) c)
    as (u' & e' & H & Hu1 & Hu2).
  erewrite and_then_ok by exact H. eexists. split; [reflexivity|].
  destruct Hr. destruct m_body0 as [Hb Hw]. split; simpl; try done.
  - rewrite byte_consume_contents, Hb by done. split; [done|]. by apply byte_consume_wf.
  - congruence.
  - intros _. rewrite Hu2, m_data0, Hb by auto. done.
Qed.

Lemma emit_keep_ok k q c :
  mp_rel q c → q_phase q = MULTIPART_BODY_SCAN → 0 ≤ k →
  ∃ c', emit_keep (Some h) k c = (LONEJSON_STATUS_OK, c')
        ∧ mp_rel (with_body (drop (Z.to_nat k) (q_body q))
                    (q_data q ++ take (Z.to_nat k) (q_body q)) q) c'.
Proof.
  intros Hr Hp Hk. unfold emit_keep. destruct (0 <? k) eqn:E; [by apply emit_body_ok|].
  assert (k = 0) as -> by lia. exists c. split; [done|]. rewrite drop_0, take_0, app_nil_r.
  by destruct q.
Qed.

(** Nothing at this position looks like a delimiter line. *)
Definition hitless (y : bytes) : Prop :=
  lonejson__multipart_boundary_line_complete y (closing dl) = None
  ∧ lonejson__multipart_boundary_line_complete y dl = None
  ∧ lonejson__multipart_boundary_line_prefix y (closing dl) = false
  ∧ lonejson__multipart_boundary_line_prefix y dl = false.

Definition line_start (before : bytes) : bool :=
  match last before with None => true | Some p => p =? 10 end.

Lemma body_scan_miss before at_pos c :
  contents (mp_boundary_line (self c)) = dl →
  contents (mp_closing_boundary_line (self c)) = closing dl →
  (∀ x y, at_pos = x ++ y → y ≠ [] → line_start (before ++ x) = true → hitless y) →
  body_scan (Some h) before at_pos c = emit_keep (Some h) (keep_from_end (before ++ at_pos)) c.
Proof.
  intros Hb Hc. revert before. induction at_pos as [|ch r IH]; intros before Hh.
  - cbn [body_scan]. by rewrite app_nil_r.
  - assert (body_scan (Some h) (before ++ [ch]) r c =
            emit_keep (Some h) (keep_from_end (before ++ ch :: r)) c) as Hrec.
    { rewrite IH; [by rewrite <- app_assoc|]. intros x y -> Hy Hls.
      apply (Hh (ch :: x) y); [done|done|]. by rewrite <- app_assoc in Hls. }
    cbn [body_scan]. rewrite Hb, Hc. fold (line_start before).
    destruct (line_start before) eqn:El; [|done].
    destruct (Hh [] (ch :: r)) as (H1 & H2 & H3 & H4); [done|done|by rewrite app_nil_r|].
    by rewrite H1, H2, H3, H4.
Qed.

(** The scan up to a position where it stops. *)
Lemma body_scan_skip before skip at_pos c :
  contents (mp_boundary_line (self c)) = dl →
  contents (mp_closing_boundary_line (self c)) = closing dl →
  (∀ x y, skip = x ++ y → y ≠ [] → line_start (before ++ x) = true → hitless (y ++ at_pos)) →
  body_scan (Some h) before (skip ++ at_pos) c = body_scan (Some h) (before ++ skip) at_pos c.
Proof.
  intros Hb Hc. revert before. induction skip as [|ch r IH]; intros before Hh.
  - by rewrite app_nil_r.
  - assert (body_scan (Some h) (before ++ [ch]) (r ++ at_pos) c =
            body_scan (Some h) (before ++ ch :: r) at_pos c) as Hrec.
    { rewrite IH; [by rewrite <- app_assoc|]. intros x y -> Hy Hls.
      apply (Hh (ch :: x) y); [done|done|]. by rewrite <- app_assoc in Hls. }
    cbn [app body_scan]. rewrite Hb, Hc. fold (line_start before).
    destruct (line_start before) eqn:El; [|done].
    destruct (Hh [] (ch :: r)) as (H1 & H2 & H3 & H4); [done|done|by rewrite app_nil_r|].
    change ((ch :: r) ++ at_pos) with (ch :: r ++ at_pos) in *. by rewrite H1, H2, H3, H4.
Qed.

Lemma dl_head : ∃ b, dl = 45 :: 45 :: b.
Proof using Hdl. destruct Hdl as [[b ->]]. by exists b. Qed.

Lemma prefix_take (y l : bytes) : y = take (length y) l ↔ y `prefix_of` l.
Proof.
  split.
  - intros ->. apply prefix_take.
  - intros [k ->]. by rewrite take_app_length.
Qed.

Lemma hitless_head ch y : ch ≠ 45 → hitless (ch :: y).
Proof using Hdl.
  intros Hch. destruct dl_head as [b Hd].
  assert (∀ l, l = dl ∨ l = closing dl → take (length l) (ch :: y) ≠ l) as H1.
  { intros l Hl Ht. destruct Hl as [-> | ->]; unfold closing in Ht; rewrite Hd in Ht; simpl in Ht; congruence. }
  assert (∀ l, l = dl ∨ l = closing dl → ch :: y ≠ take (length (ch :: y)) l) as H2.
  { intros l Hl Ht. destruct Hl as [-> | ->]; unfold closing in Ht; rewrite Hd in Ht; simpl in Ht; congruence. }
  unfold hitless, lonejson__multipart_boundary_line_complete,
    lonejson__multipart_boundary_line_prefix.
  rewrite !(bool_decide_eq_false_2 _ (H1 _ (or_introl eq_refl))),
    !(bool_decide_eq_false_2 _ (H1 _ (or_intror eq_refl))),
    !(bool_decide_eq_false_2 _ (H2 _ (or_introl eq_refl))),
    !(bool_decide_eq_false_2 _ (H2 _ (or_intror eq_refl))).
  split_and!; try done; by case_match.
Qed.

(** Up to the length of the delimiter, a hit is a prefix of it. *)
Lemma short_hits y :
  y ≠ [] → (length y ≤ length dl)%nat →
  lonejson__multipart_boundary_line_complete y (closing dl) = None
  ∧ lonejson__multipart_boundary_line_complete y dl = None
  ∧ lonejson__multipart_boundary_line_prefix y (closing dl) || 
    lonejson__multipart_boundary_line_prefix y dl = bool_decide (y `prefix_of` dl).
Proof.
  intros Hy Hlen. unfold lonejson__multipart_boundary_line_complete,
    lonejson__multipart_boundary_line_prefix, closing.
  assert (length (dl ++ c_str "--") = length dl + 2)%nat as Hcl by (by rewrite length_app).
  assert (zlen (dl ++ c_str "--") = zlen dl + 2) as Hzl by (by rewrite zlen_app).
  destruct y as [|c0 y0] eqn:Ey; [done|]. rewrite <- Ey in *. clear c0 y0 Ey.
  assert ((zlen (dl ++ c_str "--") <=? zlen y) = false) as -> by (unfold zlen in *; lia).
  rewrite (take_ge y) by lia.
  rewrite (bool_decide_eq_false_2 (y = dl ++ c_str "--")).
  2: { intros Heq. rewrite Heq, Hcl in Hlen. lia. }
  split_and!; [done| |].
  - rewrite (take_ge y) by lia. case_bool_decide; [|done]. by rewrite drop_ge by lia.
  - rewrite (take_app_le dl) by lia.
    replace (bool_decide (y = take (length y) dl)) with (bool_decide (y `prefix_of` dl))
      by (apply bool_decide_ext; symmetry; apply prefix_take).
    destruct (zlen dl <=? zlen y) eqn:El; [|by rewrite orb_diag].
    rewrite (take_ge y) by lia. rewrite (drop_ge y) by lia. rewrite andb_true_r.
    case_bool_decide as Hp; [done|]. simpl. apply bool_decide_eq_false_2. intros ->. by apply Hp.
Qed.

(** *** Past the delimiter *)

Definition line_ending (line t : bytes) : option Z :=
  match t with
  | [] => None
  | c :: rest =>
      if c =? 10 then Some (zlen line + 1)
      else if c =? 13 then
        match rest with
        | c2 :: _ => if c2 =? 10 then Some (zlen line + 2) else None
        | [] => None
        end
      else None
  end.

Lemma complete_app line t :
  lonejson__multipart_boundary_line_complete (line ++ t) line = line_ending line t.
Proof.
  unfold lonejson__multipart_boundary_line_complete. rewrite take_app_length, drop_app_length.
  by rewrite bool_decide_eq_true_2.
Qed.

Lemma complete_closing t :
  lonejson__multipart_boundary_line_complete (dl ++ t) (closing dl) =
  if bool_decide (take 2 t = c_str "--") then line_ending (closing dl) (drop 2 t) else None.
Proof.
  unfold lonejson__multipart_boundary_line_complete, closing.
  rewrite length_app. change (length (c_str "--")) with 2%nat.
  rewrite take_app_add, drop_app_add. 
  case_bool_decide as H1; case_bool_decide as H2; try done; exfalso.
  - by apply app_inv_head in H1.
  - by rewrite H2 in H1.
Qed.

Lemma prefix_app line c t :
  lonejson__multipart_boundary_line_prefix (line ++ c :: t) line = (c =? 13) || (c =? 10).
Proof.
  unfold lonejson__multipart_boundary_line_prefix.
  destruct (line ++ c :: t) eqn:E; [by destruct line|]. rewrite <- E.
  rewrite zlen_app, zlen_cons. pose proof (zlen_nonneg t).
  replace (zlen line <=? _) with true by lia.
  by rewrite take_app_length, drop_app_length, bool_decide_eq_true_2.
Qed.

Lemma prefix_self line : line ≠ [] → lonejson__multipart_boundary_line_prefix line line = true.
Proof.
  intros Hl. unfold lonejson__multipart_boundary_line_prefix. destruct line eqn:E; [done|].
  rewrite <- E. rewrite Z.leb_refl, take_ge, drop_ge by lia. by rewrite bool_decide_eq_true_2.
Qed.

Lemma prefix_dash : lonejson__multipart_boundary_line_prefix (dl ++ [45]) (closing dl) = true.
Proof.
  unfold lonejson__multipart_boundary_line_prefix, closing.
  destruct (dl ++ [45]) eqn:E; [by apply app_nil in E as [_ E]|]. rewrite <- E.
  rewrite !zlen_app. change (zlen (c_str "--")) with 2. change (zlen [45]) with 1.
  replace (_ <=? _) with false by lia. apply bool_decide_eq_true_2. apply prefix_take.
  exists [45]. by rewrite <- app_assoc.
Qed.

(** A proper prefix of a delimiter line is held back. *)
Lemma line_prefix_hits d w z :
  d = dl ∨ d = closing dl → w ++ z = d ++ crlf → w ≠ [] → z ≠ [] →
  lonejson__multipart_boundary_line_complete w (closing dl) = None
  ∧ lonejson__multipart_boundary_line_complete w dl = None
  ∧ lonejson__multipart_boundary_line_prefix w (closing dl) || 
    lonejson__multipart_boundary_line_prefix w dl = true.
Proof.
  intros Hd Heq Hw Hz.
  assert (∃ t, d = dl ++ t ∧ (t = [] ∨ t = c_str "--")) as (t & -> & Ht).
  { destruct Hd as [-> | ->]; [exists []; rewrite app_nil_r; auto|exists (c_str "--"); auto]. }
  rewrite <- app_assoc in Heq.
  apply app_eq_inv in Heq as [(k & -> & Hk)|(k & Hk & Hz2)].
  - assert (k = [] ∨ k ≠ []) as [-> |Hkn] by (destruct k; auto).
    { rewrite app_nil_r in *. destruct (short_hits dl Hw ltac:(done)) as (H1 & H2 & H3).
      split_and!; [done|done|]. rewrite H3. by apply bool_decide_eq_true_2. }
    rewrite complete_app, complete_closing.
    assert (k = [13] ∧ t = [] ∨ t = c_str "--" ∧ (k = [45] ∨ k = [45; 45] ∨ k = [45; 45; 13]))
      as Hcases.
    { unfold crlf in Hk. destruct Ht as [-> | ->]; simpl in Hk.
      - left. destruct k as [|k1 [|k2 [|]]]; simplify_eq/=; try done.
      - right. destruct k as [|k1 [|k2 [|k3 [|k4 [|]]]]]; simplify_eq/=; try done; auto. }
    destruct k as [|k1 k]; [done|]. rewrite prefix_app.
    destruct Hcases as [[Hk1 ->]|[-> [Hk1|[Hk1|Hk1]]]]; simplify_eq; try done.
    + split_and!; [done|done|apply orb_true_r].
    + split_and!; [done|done|by rewrite prefix_dash].
    + split_and!; [done|done|]. change (dl ++ _) with (closing dl). by rewrite prefix_self.
    + split_and!; [done|done|].
      replace (dl ++ [45; 45; 13]) with (closing dl ++ [13]) by
        (unfold closing; by rewrite <- app_assoc).
      by rewrite prefix_app.
  - assert (length w ≤ length dl)%nat as Hlen by (rewrite Hk, length_app; lia).
    destruct (short_hits w Hw Hlen) as (H1 & H2 & H3). split_and!; [done|done|].
    rewrite H3. apply bool_decide_eq_true_2. by exists k.
Qed.

(** *** What the end of a scan keeps *)

Definition eol_ok (e : bytes) : Prop := e = [] ∨ e = [13] ∨ e = [10] ∨ e = crlf.

Lemma keep_from_split s :
  ∃ d e, s = d ++ e ∧ keep_from_end s = zlen d ∧ eol_ok e
         ∧ (∀ s', s = s' ++ [13] → e = [13]) ∧ (∀ s', s = s' ++ crlf → e = crlf).
Proof.
  unfold keep_from_end, eol_ok, crlf. destruct s as [|c s _] using rev_ind.
  { exists [], []. split_and!; auto; intros s' Hs; by destruct s'. }
  rewrite rev_unit. destruct (c =? 10) eqn:E10.
  - apply Z.eqb_eq in E10 as ->. destruct s as [|c2 s _] using rev_ind; simpl.
    { exists [], [10]. split_and!; auto; intros s' Hs; [|by destruct s' as [|? [|]]].
      by apply (app_inj_tail []) in Hs as [_ ?]. }
    rewrite rev_unit. destruct (c2 =? 13) eqn:E13.
    + apply Z.eqb_eq in E13 as ->. exists s, [13; 10]. rewrite <- !app_assoc. 
      split_and!; auto; [unfold zlen; rewrite !length_app; simpl; lia|].
      intros s' Hs. exfalso. change (s ++ [13; 10]) with (s ++ [13] ++ [10]) in Hs.
      rewrite app_assoc in Hs. by apply app_inj_tail in Hs as [_ ?].
    + exists (s ++ [c2]), [10]. 
      split_and!; auto; [unfold zlen; rewrite !length_app; simpl; lia| |].
      * intros s' Hs. by apply app_inj_tail in Hs as [_ ?].
      * intros s' Hs. change [13; 10] with ([13] ++ [10]) in Hs. rewrite (app_assoc s') in Hs.
        apply app_inj_tail in Hs as [Hs _]. apply app_inj_tail in Hs as [_ ?]. lia.
  - destruct (c =? 13) eqn:E13.
    + apply Z.eqb_eq in E13 as ->. exists s, [13].
      split_and!; auto; [unfold zlen; rewrite !length_app; simpl; lia|].
      intros s' Hs. change [13; 10] with ([13] ++ [10]) in Hs. rewrite (app_assoc s') in Hs.
      by apply app_inj_tail in Hs as [_ ?].
    + exists (s ++ [c]), []. rewrite app_nil_r. split_and!; auto.
      * intros s' Hs. apply app_inj_tail in Hs as [_ ?]. lia.
      * intros s' Hs. change [13; 10] with ([13] ++ [10]) in Hs. rewrite (app_assoc s') in Hs.
        apply app_inj_tail in Hs as [_ ?]. lia.
Qed.

(** The scan finds nothing in [e ++ k ++ [ch]]. *)
Lemma scan_miss e k ch (c : state) :
  contents (mp_boundary_line (self c)) = dl →
  contents (mp_closing_boundary_line (self c)) = closing dl →
  eol_ok e → no_break k → (length k < length dl)%nat → (e = [13] → k = []) →
  e = [13] ∨ ¬ (k ++ [ch]) `prefix_of` dl →
  body_scan (Some h) [] (e ++ k ++ [ch]) c =
  emit_keep (Some h) (keep_from_end (e ++ k ++ [ch])) c.
Proof using Hdl.
  intros Hb Hc He Hk Hlen Hek Hno. rewrite body_scan_miss; [done|done|done|].
  assert (¬ (k ++ [ch]) `prefix_of` dl → hitless (k ++ [ch])) as Hw.
  { intros Hp. destruct (short_hits (k ++ [ch])) as (H1 & H2 & H3);
      [by destruct k|rewrite length_app; simpl; lia|].
    rewrite bool_decide_eq_false_2 in H3 by done. apply orb_false_iff in H3 as [H3 H4].
    by split_and!. }
  intros x y Heq Hy Hls. simpl in Hls. destruct Hno as [-> | Hno].
  { rewrite (Hek eq_refl) in Heq. simpl in Heq. destruct x as [|x1 [|x2 x]].
    - simpl in Heq. subst y. by apply hitless_head.
    - simpl in Heq. injection Heq as <- <-. done.
    - exfalso. apply (f_equal length) in Heq. simpl in Heq. rewrite length_app in Heq.
      destruct y; [done|simpl in Heq; lia]. }
  apply app_eq_inv in Heq as [(k2 & He2 & ->)|(k2 & -> & Heq)].
  - destruct k2 as [|b k2]; [by apply Hw|]. apply hitless_head.
    assert (b ∈ e) as Hbe by (rewrite He2; apply elem_of_app; right; by left).
    unfold eol_ok, crlf in He. intros ->.
    destruct He as [-> |[-> |[-> | ->]]]; repeat (apply elem_of_cons in Hbe as [?|Hbe]; [done|]);
      by apply elem_of_nil in Hbe.
  - destruct k2 as [|b k2 _] using rev_ind; [simpl in Heq; subst y; by apply Hw|].
    exfalso. unfold line_start in Hls. rewrite app_assoc, last_snoc in Hls.
    apply Z.eqb_eq in Hls as ->. destruct y as [|y1 y _] using rev_ind; [done|].
    rewrite app_assoc in Heq. apply app_inj_tail in Heq as [-> _].
    rewrite <- app_assoc in Hk. apply Forall_app in Hk as [_ Hk]. inversion Hk as [|? ? Hk1].
    apply Hk1. by right.
Qed.

Lemma feed_scan q ch (c : state) :
  mp_rel q c → q_phase q = MULTIPART_BODY_SCAN →
  zlen (q_body q) + 1 ≤ max_part_buffered_bytes o →
  ∃ c1, lonejson__multipart_feed_body_scan_char (Some h) ch c =
        body_scan (Some h) [] (q_body q ++ [ch]) c1
        ∧ mp_rel (with_body (q_body q ++ [ch]) (q_data q) q) c1.
Proof using Hdl.
  intros Hr Hp Hlen. pose proof Hr as []. destruct m_body0 as [Hb Hw].
  destruct (d_body _ _ Hdl) as [Hd1 Hd2]. pose proof (zlen_nonneg (closing dl)).
  unfold lonejson__multipart_feed_body_scan_char.
  destruct (mp_append_ok mp_body mp_set_body ch max_part_buffered_bytes c)
    as (b & a & H1 & Hb1 & Hw1 & Ha); [done|done|by rewrite m_options0; lia
    |rewrite m_options0; unfold blen; by rewrite Hb|].
  erewrite and_then_ok by exact H1. unfold lonejson__multipart_process_body_buffer.
  cbn [self mp_body mp_set_body]. rewrite Hb1, Hb. eexists. split; [reflexivity|].
  split; simpl; try done. by rewrite Hb1, Hb.
Qed.

(** A body being scanned: [body] then CR LF, the delimiter line [d] and [more].
    First the body itself and its line end, then the line. *)
Inductive scanning (body d more : bytes) (q : mpos) (rest : bytes) : Prop :=
| scanning_body e k y :
    q_body q = e ++ k → eol_ok e → (∃ z, dl = k ++ z ∧ z ≠ []) → (e = [13] → k = []) →
    (∀ s, q_data q ++ q_body q = s ++ [13] → q_body q = [13]) →
    q_data q ++ q_body q ++ y = body ++ crlf → y ≠ [] → rest = y ++ d ++ crlf ++ more →
    scanning body d more q rest
| scanning_line k z :
    q_data q = body → q_body q = crlf ++ k → k ++ z = d ++ crlf → z ≠ [] → rest = z ++ more →
    scanning body d more q rest.

Lemma dl_no_break : no_break dl.
Proof using Hdl. apply text_no_break, Hdl. Qed.

(** The delimiter does not straddle the end of the body. *)
Lemma occurs_body a b body : a ++ dl ++ b = body ++ crlf → occurs dl body.
Proof using Hdl.
  intros Heq. pose proof dl_no_break as Hn. destruct dl_head as [b0 Hd].
  assert (∀ s x, dl = s ++ [x] → ¬ breaks x) as Hlast.
  { intros s x Hs. rewrite Hs in Hn. apply Forall_app in Hn as [_ Hn]. by inversion Hn. }
  destruct dl as [|x0 s0 _] eqn:E0 using rev_ind; [done|]. clear Hd.
  change crlf with ([13] ++ [10]) in Heq. rewrite (app_assoc body) in Heq.
  destruct b as [|b1 b _] using rev_ind.
  - rewrite app_nil_r, app_assoc in Heq. apply app_inj_tail in Heq as [_ ->].
    exfalso. by apply (Hlast s0 10); [|right].
  - rewrite !app_assoc in Heq. apply app_inj_tail in Heq as [Heq _].
    destruct b as [|b2 b _] using rev_ind.
    + rewrite app_nil_r in Heq. apply app_inj_tail in Heq as [_ ->].
      exfalso. by apply (Hlast s0 13); [|left].
    + rewrite !app_assoc in Heq. apply app_inj_tail in Heq as [Heq _].
      exists a, b. by rewrite <- Heq, <- !app_assoc.
Qed.

Lemma scanning_length body d more q rest :
  d = dl ∨ d = closing dl → scanning body d more q rest →
  zlen (q_body q) + 1 ≤ max_part_buffered_bytes o.
Proof using Hdl.
  intros Hd Hs. destruct (d_body _ _ Hdl) as [Hb _]. unfold closing in Hb.
  rewrite zlen_app in Hb. change (zlen (c_str "--")) with 2 in Hb.
  destruct Hs as [e k y Hq He (z & Hk & Hz)|k z Hx Hq Hk Hz].
  - rewrite Hq, zlen_app. assert (zlen e ≤ 2).
    { unfold eol_ok, crlf in He. destruct He as [-> |[-> |[-> | ->]]]; done. }
    rewrite Hk, zlen_app in Hb. pose proof (zlen_nonneg z). lia.
  - rewrite Hq, zlen_app. change (zlen crlf) with 2.
    assert (zlen k + 1 ≤ zlen d + 2).
    { apply (f_equal zlen) in Hk. rewrite !zlen_app in Hk. change (zlen crlf) with 2 in Hk.
      destruct z as [|z1 z]; [done|]. rewrite zlen_cons in Hk. pose proof (zlen_nonneg z). lia. }
    assert (zlen d ≤ zlen dl + 2).
    { unfold closing in Hd. destruct Hd as [-> | ->]; [lia|]. rewrite zlen_app.
      change (zlen (c_str "--")) with 2. lia. }
    lia.
Qed.

(** The position after a held line end, in front of [w]. *)
Lemma scan_to_line e w (c : state) :
  contents (mp_boundary_line (self c)) = dl →
  contents (mp_closing_boundary_line (self c)) = closing dl →
  eol_ok e → e ≠ [13] →
  body_scan (Some h) [] (e ++ w) c = body_scan (Some h) e w c
  ∧ line_start e = true ∧ lonejson__multipart_emit_len_before_boundary e = 0.
Proof using Hdl.
  intros Hb Hc He He13. split.
  - apply (body_scan_skip []); [done|done|]. intros x y -> Hy _.
    assert (∃ b y', y = b :: y' ∧ b ≠ 45) as (b & y' & -> & Hb45); [|by apply hitless_head].
    destruct y as [|b y]; [done|]. exists b, y. split; [done|].
    unfold eol_ok, crlf in He. intros ->.
    assert (45 ∈ x ++ 45 :: y) as Hin by (apply elem_of_app; right; by left).
    destruct He as [He|[He|[He|He]]]; rewrite He in Hin;
      repeat (apply elem_of_cons in Hin as [?|Hin]; [done|]); by apply elem_of_nil in Hin.
  - unfold eol_ok, crlf in He. by destruct He as [-> |[-> |[-> | ->]]].
Qed.

Lemma scan_hold e w (c : state) :
  contents (mp_boundary_line (self c)) = dl →
  contents (mp_closing_boundary_line (self c)) = closing dl →
  eol_ok e → e ≠ [13] → w ≠ [] →
  lonejson__multipart_boundary_line_complete w (closing dl) = None →
  lonejson__multipart_boundary_line_complete w dl = None →
  lonejson__multipart_boundary_line_prefix w (closing dl)
    || lonejson__multipart_boundary_line_prefix w dl = true →
  body_scan (Some h) [] (e ++ w) c = (LONEJSON_STATUS_OK, c).
Proof using Hdl.
  intros Hb Hc He He13 Hw H1 H2 H3.
  destruct (scan_to_line e w c Hb Hc He He13) as (-> & Hls & Hlen).
  destruct w as [|ch w]; [done|]. cbn [body_scan]. rewrite Hb, Hc. fold (line_start e).
  by rewrite Hls, H1, H2, H3, Hlen.
Qed.

Lemma with_body_twice r x r' x' q : with_body r x (with_body r' x' q) = with_body r x q.
Proof. done. Qed.

(** Within the body. *)
Lemma scan_step_body body d more q ch y e k c1 :
  mp_rel (with_body (q_body q ++ [ch]) (q_data q) q) c1 →
  q_phase q = MULTIPART_BODY_SCAN → ¬ occurs dl body →
  q_body q = e ++ k → eol_ok e → (∃ z, dl = k ++ z ∧ z ≠ []) → (e = [13] → k = []) →
  (∀ s, q_data q ++ q_body q = s ++ [13] → q_body q = [13]) →
  q_data q ++ q_body q ++ ch :: y = body ++ crlf →
  ∃ c' r x, body_scan (Some h) [] (q_body q ++ [ch]) c1 = (LONEJSON_STATUS_OK, c')
    ∧ mp_rel (with_body r x q) c'
    ∧ scanning body d more (with_body r x q) (y ++ d ++ crlf ++ more).
Proof using Hdl.
  intros Hr Hp Hocc Hq He (z & Hk & Hz) Hek Hlast Heq.
  assert (no_break k) as Hnk.
  { pose proof dl_no_break as Hn. rewrite Hk in Hn. by apply Forall_app in Hn as [Hn _]. }
  assert (length k < length dl)%nat as Hkl.
  { rewrite Hk, length_app. destruct z; [done|]. simpl. lia. }
  rewrite Hq, <- app_assoc in Hr |- *.
  destruct (decide (e = [13] ∨ ¬ (k ++ [ch]) `prefix_of` dl)) as [Hmiss|Hhit].
  - rewrite scan_miss by (by destruct Hr || done).
    destruct (keep_from_split (e ++ k ++ [ch])) as (dd & e' & Hs & Hkeep & He' & H13 & Hcr).
    rewrite Hkeep. edestruct (emit_keep_ok (zlen dd)) as (c' & H & Hr');
      [exact Hr|done|apply zlen_nonneg|].
    simpl in Hr'. rewrite with_body_twice, Hs in Hr'. unfold zlen in Hr'.
    rewrite Nat2Z.id, drop_app_length, take_app_length in Hr'.
    exists c', e', (q_data q ++ dd). split_and!; [done|done|].
    assert (q_data q ++ dd ++ e' ++ y = body ++ crlf) as Heq'.
    { rewrite <- Heq, Hq, (app_assoc dd), <- Hs. by rewrite <- !app_assoc. }
    destruct y as [|y1 y].
    + apply (scanning_line _ _ _ _ _ [] (d ++ crlf)); simpl; try done.
      * assert (ch = 10 ∧ q_data q ++ q_body q = body ++ [13]) as [-> Hd].
        { change crlf with ([13] ++ [10]) in Heq. rewrite !app_assoc in Heq.
          by apply app_inj_tail in Heq as [? ->]. }
        pose proof (Hlast _ Hd) as Hbody.
        rewrite Hbody in Hq, Hd. apply app_inj_tail in Hd as [Hd _].
        assert (e' = crlf) as ->.
        { apply (Hcr []). rewrite app_assoc, <- Hq. done. }
        assert (dd = []) as ->; [|by rewrite app_nil_r].
        rewrite app_assoc, <- Hq in Hs. by apply (app_inv_tail crlf []) in Hs.
      * change crlf with ([13] ++ [10]) in Heq. rewrite !app_assoc in Heq.
        apply app_inj_tail in Heq as [Hd ->]. pose proof (Hlast _ Hd) as Hbody.
        apply (Hcr []). rewrite app_assoc, <- Hq, Hbody. done.
      * by destruct d.
      * by rewrite <- app_assoc.
    + apply (scanning_body _ _ _ _ _ e' [] (y1 :: y)); simpl; try done.
      * by rewrite app_nil_r.
      * exists dl. split; [done|]. destruct dl_head as [b ->]. done.
      * intros s Hs'. rewrite <- app_assoc, <- Hs in Hs'. rewrite !app_assoc in Hs'.
        apply app_inj_tail in Hs' as [_ ->]. apply (H13 (e ++ k)). by rewrite app_assoc.
      * by rewrite <- app_assoc.
  - assert (e ≠ [13] ∧ (k ++ [ch]) `prefix_of` dl) as [He13 Hpre].
    { split; [tauto|]. destruct (decide ((k ++ [ch]) `prefix_of` dl)); tauto. }
    destruct (short_hits (k ++ [ch])) as (H1 & H2 & H3);
      [by destruct k|rewrite length_app; simpl; lia|].
    rewrite bool_decide_eq_true_2 in H3 by done.
    rewrite scan_hold by (done || (by destruct Hr) || (by destruct k)).
    exists c1, (e ++ k ++ [ch]), (q_data q). split_and!; [done|done|].
    destruct Hpre as [z2 Hz2].
    assert (¬ breaks ch) as Hbr.
    { pose proof dl_no_break as Hn. rewrite Hz2 in Hn. apply Forall_app in Hn as [Hn _].
      apply Forall_app in Hn as [_ Hn]. by inversion Hn. }
    assert (y ≠ []) as Hy.
    { intros ->. change crlf with ([13] ++ [10]) in Heq. rewrite !app_assoc in Heq.
      apply app_inj_tail in Heq as [_ ->]. apply Hbr. by right. }
    apply (scanning_body _ _ _ _ _ e (k ++ [ch]) y); simpl; try done.
    + exists z2. split; [done|]. intros ->. apply Hocc.
      apply (occurs_body (q_data q ++ e) y). rewrite <- Heq, Hq, Hz2, app_nil_r.
      by rewrite <- !app_assoc.
    + intros s Hs'. rewrite !app_assoc in Hs'. apply app_inj_tail in Hs' as [_ ->].
      exfalso. apply Hbr. by left.
    + rewrite <- Heq, Hq. by rewrite <- !app_assoc.
Qed.

Definition end_phase (cl : bool) : lonejson__multipart_phase :=
  if cl then MULTIPART_DONE else MULTIPART_HEADERS.
Definition delim_line (cl : bool) : bytes := if cl then closing dl else dl.

(** The part is over. *)
Definition part_ended (ph : lonejson__multipart_phase) (q : mpos) : mpos :=
  mk_mpos ph (q_cur q) (q_cr q) [] no_headers 0 (q_parts q ++ [(q_view q, q_data q)])
    (q_data q).

Lemma ended_rel q c u' ph :
  mp_rel q c → parts_of u' = parts_of (user c) ++ [(q_view q, q_data q)] →
  ph = MULTIPART_DONE ∨ ph = MULTIPART_HEADERS ∨ ph = MULTIPART_EXPECT_BOUNDARY →
  ∀ m e', m = lonejson__multipart_reset_part (self c) → q_phase q ≠ MULTIPART_DONE →
  mp_rel (part_ended ph q)
    (mk_ctx (if decide (ph = MULTIPART_DONE) then mp_set_closed (mp_set_phase ph m)
             else mp_set_phase ph m) u' e').
Proof.
  intros [] Hu Hph m e' -> Hq. simpl.
  rewrite bool_decide_eq_false_2 in m_closed0 by done.
  assert (buffer_wf (lonejson__byte_reset (mp_body (self c)))) as Hw
    by (apply byte_reset_wf; tauto).
  destruct Hph as [-> |[-> | ->]]; split; simpl; try done; try (by rewrite Hu, m_parts0);
    try (by intros [? | ?]); by apply reset_part_alloc.
Qed.

Lemma finish_boundary_ok cl q c :
  mp_rel q c → q_phase q = MULTIPART_BODY_SCAN →
  ∃ c', lonejson__multipart_finish_boundary (Some h) cl c = (LONEJSON_STATUS_OK, c')
        ∧ mp_rel (part_ended (end_phase cl) q) c'.
Proof.
  intros Hr Hp. unfold lonejson__multipart_finish_boundary.
  destruct (call_end_ok c) as (u' & e' & H & Hu). erewrite and_then_ok by exact H.
  assert (parts_of u' = parts_of (user c) ++ [(q_view q, q_data q)]) as Hu'.
  { rewrite Hu. f_equal. f_equal. f_equal; [by destruct Hr|]. destruct Hr. auto. }
  pose proof (ended_rel q c u' (end_phase cl) Hr Hu') as He.
  destruct cl; (eexists; split; [reflexivity|]); eapply He; auto; congruence.
Qed.

(** Within the delimiter line. *)
Lemma scan_step_line cl more q ch z k c1 :
  mp_rel (with_body (q_body q ++ [ch]) (q_data q) q) c1 →
  q_phase q = MULTIPART_BODY_SCAN →
  q_body q = crlf ++ k → k ++ ch :: z = delim_line cl ++ crlf →
  (∃ c' r x, body_scan (Some h) [] (q_body q ++ [ch]) c1 = (LONEJSON_STATUS_OK, c')
    ∧ mp_rel (with_body r x q) c'
    ∧ scanning (q_data q) (delim_line cl) more (with_body r x q) (z ++ more))
  ∨ z = [] ∧ ∃ c', body_scan (Some h) [] (q_body q ++ [ch]) c1 = (LONEJSON_STATUS_OK, c')
    ∧ mp_rel (part_ended (end_phase cl) q) c'.
Proof using Hdl.
  intros Hr Hp Hq Hk. pose proof (m_bline _ _ Hr) as Hb. pose proof (m_cline _ _ Hr) as Hc.
  rewrite Hq, <- app_assoc in Hr |- *.
  assert (delim_line cl = dl ∨ delim_line cl = closing dl) as Hd by (destruct cl; auto).
  assert (eol_ok crlf) as He by (unfold eol_ok; auto).
  destruct (decide (z = [])) as [-> |Hz].
  - right. split; [done|]. rewrite Hk in Hr |- *.
    destruct (scan_to_line crlf (delim_line cl ++ crlf) c1 Hb Hc He) as (-> & Hls & Hlen); [done|].
    assert (∃ n, body_scan (Some h) crlf (delim_line cl ++ crlf) c1 =
      (emit_body (Some h) 0 (zlen crlf + (zlen (delim_line cl) + n)) &>
       lonejson__multipart_finish_boundary (Some h) cl) c1 ∧ n = 2) as (n & -> & ->).
    { exists 2. split; [|done]. destruct dl_head as [b Hdlb].
      destruct (delim_line cl ++ crlf) as [|x w] eqn:E; [by destruct cl; unfold delim_line, closing in E; rewrite Hdlb in E|].
      cbn [body_scan]. rewrite Hb, Hc. fold (line_start crlf). rewrite Hls, <- E, Hlen.
      destruct cl; simpl delim_line.
      - rewrite complete_app. done.
      - rewrite complete_closing, complete_app. done. }
    destruct (emit_body_ok 0 (zlen crlf + (zlen (delim_line cl) + 2)) _ _ Hr) as (c2 & H2 & Hr2);
      [done|pose proof (zlen_nonneg (delim_line cl)); change (zlen crlf) with 2; lia|].
    erewrite and_then_ok by exact H2.
    destruct (finish_boundary_ok cl _ _ Hr2) as (c3 & H3 & Hr3); [done|].
    exists c3. split; [done|]. simpl in Hr3. rewrite app_nil_r in Hr3. exact Hr3.
  - left.
    destruct (line_prefix_hits (delim_line cl) (k ++ [ch]) z) as (H1 & H2 & H3);
      [done|by rewrite <- app_assoc|by destruct k|done|].
    rewrite scan_hold by (done || by destruct k).
    exists c1, (crlf ++ k ++ [ch]), (q_data q). split_and!; [done|done|].
    apply (scanning_line _ _ _ _ _ (k ++ [ch]) z); try done. by rewrite <- app_assoc.
Qed.

(** One byte of a scanned body. *)
Lemma scan_step cl body more q ch rest c :
  mp_rel q c → q_phase q = MULTIPART_BODY_SCAN → ¬ occurs dl body →
  scanning body (delim_line cl) more q (ch :: rest) →
  (∃ c' r x, lonejson__multipart_feed_body_scan_char (Some h) ch c = (LONEJSON_STATUS_OK, c')
    ∧ mp_rel (with_body r x q) c' ∧ scanning body (delim_line cl) more (with_body r x q) rest)
  ∨ rest = more ∧ q_data q = body ∧
    ∃ c', lonejson__multipart_feed_body_scan_char (Some h) ch c = (LONEJSON_STATUS_OK, c')
    ∧ mp_rel (part_ended (end_phase cl) q) c'.
Proof using Hdl.
  intros Hr Hp Hocc Hs.
  destruct (feed_scan q ch c Hr Hp) as (c1 & -> & Hr1).
  { eapply scanning_length; [|exact Hs]. destruct cl; auto. }
  destruct Hs as [e k y Hq He Hk Hek Hlast Heq Hy Hrest|k z Hx Hq Hk Hz Hrest].
  - destruct y as [|ch' y]; [done|]. simpl in Hrest. injection Hrest as <- ->. left.
    by eapply scan_step_body.
  - destruct z as [|ch' z]; [done|]. simpl in Hrest. injection Hrest as <- ->.
    subst body. destruct (scan_step_line cl more q ch z k c1 Hr1 Hp Hq Hk) as [H|[-> H]]; [by left|].
    right. by split.
Qed.

(** *** Positions in a message *)

Context (Hmax : 0 ≤ max_header_count o).

(** The line [l] that is being read, what follows it, and what it is. *)
Inductive line_at (total : list (lonejson_multipart_part * bytes)) (q : mpos) (l more : bytes) :
    Prop :=
| la_blank ps :
    q_phase q = MULTIPART_EXPECT_BOUNDARY → l = [] → more = encode_parts dl ps →
    Forall (part_ok o dl) ps → q_parts q ++ map see_part ps = total →
    line_at total q l more
| la_delim p ps :
    q_phase q = MULTIPART_EXPECT_BOUNDARY → l = dl →
    more = encode_headers (p_headers p) ++ crlf ++ p_body p ++ crlf ++ encode_parts dl ps →
    part_ok o dl p → Forall (part_ok o dl) ps →
    q_parts q ++ see_part p :: map see_part ps = total →
    line_at total q l more
| la_closing :
    q_phase q = MULTIPART_EXPECT_BOUNDARY → l = closing dl → more = [] → q_parts q = total →
    line_at total q l more
| la_header p x hs ps :
    q_phase q = MULTIPART_HEADERS → l = header_line x →
    more = encode_headers hs ++ crlf ++ p_body p ++ crlf ++ encode_parts dl ps →
    Forall (header_ok (p_body p)) (x :: hs) →
    Forall (λ x, zlen (header_line x) ≤ max_header_line_bytes o) (x :: hs) →
    zlen (mpp_headers (q_view q)) + zlen (x :: hs) ≤ max_header_count o →
    fold_left see_header (x :: hs) (q_view q) = (see_part p).1 →
    part_ok o dl p → Forall (part_ok o dl) ps →
    q_parts q ++ see_part p :: map see_part ps = total →
    line_at total q l more
| la_end p ps :
    q_phase q = MULTIPART_HEADERS → l = [] →
    more = p_body p ++ crlf ++ encode_parts dl ps → q_view q = (see_part p).1 →
    part_ok o dl p → Forall (part_ok o dl) ps →
    q_parts q ++ see_part p :: map see_part ps = total →
    line_at total q l more.

Inductive at_pos (total : list (lonejson_multipart_part * bytes)) (rest : bytes) (c : state) :
    Prop :=
| at_line q l more :
    mp_rel q c → q_body q = [] → no_break (q_cur q) → pending q rest = l ++ crlf ++ more →
    line_at total q l more → at_pos total rest c
| at_length q body ps :
    mp_rel q c → q_phase q = MULTIPART_BODY_LENGTH → q_cur q = [] → q_cr q = false →
    q_body q = [] → body ≠ [] → q_rem q = zlen body → zlen body ≤ INT64_MAX →
    rest = body ++ crlf ++ encode_parts dl ps → Forall (part_ok o dl) ps →
    q_parts q ++ (q_view q, q_data q ++ body) :: map see_part ps = total →
    at_pos total rest c
| at_scan q body ps more :
    mp_rel q c → q_phase q = MULTIPART_BODY_SCAN → q_cur q = [] → q_cr q = false →
    ¬ occurs dl body →
    encode_parts dl ps = delim_line (bool_decide (ps = [])) ++ crlf ++ more →
    scanning body (delim_line (bool_decide (ps = []))) more q rest →
    Forall (part_ok o dl) ps →
    q_parts q ++ (q_view q, body) :: map see_part ps = total →
    at_pos total rest c
| at_done q :
    mp_rel q c → q_phase q = MULTIPART_DONE → rest = [] → q_parts q = total →
    at_pos total rest c.

(** The first line of the parts, and of the headers of a part. *)
Lemma parts_line total q ps :
  q_phase q = MULTIPART_EXPECT_BOUNDARY → Forall (part_ok o dl) ps →
  q_parts q ++ map see_part ps = total →
  ∃ l more, encode_parts dl ps = l ++ crlf ++ more ∧ line_at total q l more.
Proof.
  intros Hq Hps Ht. destruct ps as [|p ps].
  - exists (closing dl), []. split; [done|]. apply la_closing; [done..|].
    simpl in Ht. by rewrite app_nil_r in Ht.
  - exists dl. eexists. split; [reflexivity|]. inversion Hps. by eapply la_delim.
Qed.

Lemma headers_line total q p hs ps :
  q_phase q = MULTIPART_HEADERS → Forall (header_ok (p_body p)) hs →
  Forall (λ x, zlen (header_line x) ≤ max_header_line_bytes o) hs →
  zlen (mpp_headers (q_view q)) + zlen hs ≤ max_header_count o →
  fold_left see_header hs (q_view q) = (see_part p).1 →
  part_ok o dl p → Forall (part_ok o dl) ps →
  q_parts q ++ see_part p :: map see_part ps = total →
  ∃ l more, encode_headers hs ++ crlf ++ p_body p ++ crlf ++ encode_parts dl ps
            = l ++ crlf ++ more ∧ line_at total q l more.
Proof.
  intros Hq Hhs Hls Hn Hv Hp Hps Ht. destruct hs as [|x hs].
  - exists []. eexists. split; [reflexivity|]. by eapply la_end.
  - exists (header_line x). eexists. split.
    + change (encode_headers (x :: hs)) with ((header_line x ++ crlf) ++ encode_headers hs).
      rewrite <- !app_assoc. reflexivity.
    + by eapply la_header.
Qed.

Lemma line_no_break total q l more :
  line_at total q l more → no_break l ∧ zlen l ≤ max_header_line_bytes o < SIZE_MAX.
Proof using Hdl.
  destruct (d_line _ _ Hdl) as [Hl Hm]. pose proof dl_no_break as Hn.
  pose proof (zlen_nonneg dl). unfold closing in Hl. rewrite zlen_app in Hl.
  change (zlen (c_str "--")) with 2 in Hl.
  intros [ps _ -> _|p ps _ -> _|_ -> _|p x hs ps _ -> _ Hx Hlen|p ps _ -> _];
    change (zlen (@nil Z)) with 0; try (split; [by constructor|lia]).
  - split; [done|lia].
  - split; [|unfold closing; rewrite zlen_app; change (zlen (c_str "--")) with 2; lia].
    apply Forall_app. split; [done|]. repeat constructor; by intros [? | ?].
  - inversion Hx. inversion Hlen. split; [|lia]. apply text_no_break.
    by eapply header_value_ok.
Qed.

Lemma closing_neq : closing dl ≠ dl.
Proof.
  intros H. apply (f_equal length) in H. unfold closing in H. rewrite length_app in H.
  simpl in H. lia.
Qed.

Lemma closing_text : is_text (closing dl).
Proof using Hdl. apply Forall_app. split; [apply Hdl|by apply text_const]. Qed.

(** The position at the first line of [text]. *)
Lemma line_pos total q l more text c :
  mp_rel q c → q_cur q = [] → q_cr q = false → q_body q = [] → text = l ++ crlf ++ more →
  line_at total q l more → at_pos total text c.
Proof.
  intros Hr Hc Hcr Hb Ht Hl. eapply at_line; [exact Hr|done|rewrite Hc; constructor| |exact Hl].
  unfold pending. by rewrite Hc, Hcr.
Qed.

Lemma goto_headers q c :
  mp_rel q c → q_phase q ≠ MULTIPART_DONE →
  mp_rel (with_phase MULTIPART_HEADERS q)
    (mk_ctx (mp_set_phase MULTIPART_HEADERS (self c)) (user c) (error c)).
Proof.
  intros [] Hq. split; simpl; try done; [|by intros [? | ?]].
  by rewrite m_closed0, bool_decide_eq_false_2.
Qed.

Lemma goto_done q c :
  mp_rel q c →
  mp_rel (with_phase MULTIPART_DONE q)
    (mk_ctx (mp_set_closed (mp_set_phase MULTIPART_DONE (self c))) (user c) (error c)).
Proof. intros []. split; simpl; try done. by intros [? | ?]. Qed.

(** A line is processed: what its phase asks for. *)
Lemma expect_done total q l more c :
  line_at total q l more → q_phase q = MULTIPART_EXPECT_BOUNDARY → q_body q = [] →
  mp_rel (with_line l false q) c →
  ∃ c2, (mp_finish_line (Some h) &> ok) c = (LONEJSON_STATUS_OK, c2) ∧ at_pos total more c2.
Proof using Hdl.
  intros Hl Hq Hb Hr. pose proof (m_phase _ _ Hr) as Hph. simpl in Hph. rewrite Hq in Hph.
  destruct (m_line _ _ Hr) as [Hline _]. simpl in Hline.
  assert (buffer_c_string (mp_boundary_line (self c)) = dl) as Hbl.
  { unfold buffer_c_string. rewrite (m_bline _ _ Hr). apply c_string_text, Hdl. }
  assert (buffer_c_string (mp_closing_boundary_line (self c)) = closing dl) as Hcl.
  { unfold buffer_c_string. rewrite (m_cline _ _ Hr). apply c_string_text, closing_text. }
  assert ((zlen dl =? 0) = false ∧ (zlen (closing dl) =? 0) = false) as [Hz1 Hz2].
  { unfold closing. rewrite zlen_app. change (zlen (c_str "--")) with 2.
    destruct dl_head as [b ->]. rewrite !zlen_cons. pose proof (zlen_nonneg b). lia. }
  destruct Hl as [ps _ -> -> Hps Ht|p ps _ -> -> Hp Hps Ht|_ -> -> Ht|p x hs ps Hq'|p ps Hq'];
    [| | |congruence|congruence].
  - destruct (finish_line_rel (with_line [] false q) c c Hr) as (c2 & H2 & Hr2).
    { unfold lonejson__multipart_process_line. by rewrite Hph, Hline. }
    exists c2. split; [done|].
    destruct (parts_line total (with_line [] false q) ps) as (l & more & Heq & Hl); [done..|].
    by eapply line_pos; [exact Hr2|..].
  - pose proof (goto_headers _ _ (reset_rel _ _ Hr)) as Hr1. simpl in Hr1.
    destruct (finish_line_rel _ c _ (Hr1 ltac:(congruence))) as (c2 & H2 & Hr2).
    { unfold lonejson__multipart_process_line. rewrite Hph, Hline, Hz1, Hbl, c_string_text,
        bool_decide_eq_true_2 by (apply Hdl || done). reflexivity. }
    exists c2. split; [done|]. pose proof Hp as (Hp1 & Hp2 & Hp3 & Hp4).
    edestruct (headers_line total (mk_mpos MULTIPART_HEADERS [] false [] no_headers 0 (q_parts q) (q_data q)) p
      (p_headers p) ps) as (l & more & Heq & Hl); [done|done|done|change (zlen (mpp_headers _)) with 0; lia|done|done|done|done|].
    by eapply line_pos; [exact Hr2|..].
  - pose proof (goto_done _ _ Hr) as Hr1.
    destruct (finish_line_rel _ c _ Hr1) as (c2 & H2 & Hr2).
    { unfold lonejson__multipart_process_line. rewrite Hph, Hline, Hz2, Hbl, Hcl, c_string_text,
        bool_decide_eq_false_2, bool_decide_eq_true_2
        by (apply closing_text || done || apply closing_neq). reflexivity. }
    exists c2. split; [done|]. by eapply at_done; [exact Hr2|..].
Qed.

(** The headers change the part only. *)
Lemma part_changed_rel q c c' v :
  mp_rel q c → part_changed c c' v →
  mp_rel (mk_mpos (q_phase q) (q_cur q) (q_cr q) (q_body q) v (q_rem q) (q_parts q) (q_data q)) c'.
Proof.
  intros [] (m & -> & ? & ? & Hb & Hc & Hl & Hbo & Hph & Hcl & Hcr & Hv & Hr).
  split; simpl; try congruence; try done.
  all: by rewrite ?Hl, ?Hbo.
Qed.

Lemma see_header_headers v x : zlen (mpp_headers (see_header v x)) = zlen (mpp_headers v) + 1.
Proof. by destruct x; simpl; rewrite zlen_app. Qed.

(** What [Content-Length] comes to. *)
Lemma see_length body hs v :
  Forall (header_ok body) hs →
  mpp_content_length (fold_left see_header hs v) =
  if existsb (λ x, match x with H_length _ => true | _ => false end) hs
  then zlen body else mpp_content_length v.
Proof.
  intros Hhs. revert v. induction Hhs as [|x hs Hx Hhs IH]; intros v; [done|].
  cbn [fold_left existsb]. rewrite IH. destruct (existsb _ hs); [by rewrite orb_true_r|].
  destruct x; simpl in *; tauto.
Qed.

Lemma part_length p :
  part_ok o dl p → mpp_content_length (see_part p).1 = if has_length p then zlen (p_body p) else -1.
Proof. intros (Hh & _). unfold see_part. simpl. rewrite (see_length (p_body p)) by done. done. Qed.

(** The blank line that ends the headers. *)
Lemma end_of_headers_ok total q p ps c :
  mp_rel q c → q_phase q = MULTIPART_HEADERS → q_body q = [] →
  q_view q = (see_part p).1 → part_ok o dl p → Forall (part_ok o dl) ps →
  q_parts q ++ see_part p :: map see_part ps = total → q_cr q = false →
  ∃ c1 q1, end_of_headers (Some h) c = (LONEJSON_STATUS_OK, c1) ∧ mp_rel q1 c1
    ∧ q_cr q1 = false ∧ q_body q1 = []
    ∧ (∀ c2, mp_rel (with_line [] false q1) c2 →
         at_pos total (p_body p ++ crlf ++ encode_parts dl ps) c2).
Proof using Hdl.
  intros Hr Hq Hb Hv Hp Hps Ht Hcr. pose proof (part_length p Hp) as Hlen.
  pose proof Hp as (_ & _ & _ & Hmaxl & Hocc). unfold end_of_headers.
  destruct (call_begin_ok c) as (u1 & e1 & H1 & Hu1 & Hu2).
  erewrite and_then_ok by exact H1. erewrite and_then_ok by reflexivity. cbn [self user error].
  set (m1 := mp_on_part part_set_in_part (self c)).
  assert (content_length (mp_part m1) = mpp_content_length (see_part p).1) as ->.
  { rewrite <- Hv, <- (m_view _ _ Hr). done. }
  rewrite Hlen. pose proof (zlen_nonneg (p_body p)) as Hz.
  assert (mp_rel (mk_mpos MULTIPART_HEADERS (q_cur q) false [] (q_view q) (q_rem q)
                    (q_parts q) []) (mk_ctx m1 u1 e1)) as Hr1.
  { destruct Hr. split; simpl; try congruence; try done.
    by rewrite m_closed0, Hq. }
  destruct (has_length p) eqn:Ehas.
  - replace (0 <=? zlen (p_body p)) with true by lia. erewrite and_then_ok by reflexivity.
    cbn [self user error]. set (m2 := mp_on_part (part_set_remaining (zlen (p_body p))) m1).
    assert (mp_rel (mk_mpos MULTIPART_HEADERS (q_cur q) false [] (q_view q) (zlen (p_body p))
                      (q_parts q) []) (mk_ctx m2 u1 e1)) as Hr2 by (by destruct Hr1).
    destruct (zlen (p_body p) =? 0) eqn:E0.
    + assert (p_body p = []) as Hbody.
      { destruct (p_body p); [done|]. rewrite zlen_cons in E0. pose proof (zlen_nonneg l). lia. }
      destruct (call_end_ok (mk_ctx m2 u1 e1)) as (u3 & e3 & -> & Hu3).
      eexists. exists (part_ended MULTIPART_EXPECT_BOUNDARY
        (mk_mpos MULTIPART_HEADERS (q_cur q) false [] (q_view q) (zlen (p_body p)) (q_parts q) [])).
      split; [reflexivity|]. split_and!; [|done|done|].
      * apply (ended_rel _ _ _ MULTIPART_EXPECT_BOUNDARY Hr2); [|auto|done|done].
        cbn [user]. rewrite Hu3. f_equal. f_equal. f_equal; [apply (m_view _ _ Hr2)|done].
      * intros c2 Hr3. rewrite Hbody.
        eapply (at_line _ _ _ _ [] (encode_parts dl ps)); [exact Hr3|done|by constructor|done|].
        eapply la_blank; [done|done|done|exact Hps|]. rewrite <- Ht. simpl.
        rewrite <- app_assoc. simpl. f_equal. f_equal. by rewrite Hv, <- Hbody.
    + eexists. exists (mk_mpos MULTIPART_BODY_LENGTH (q_cur q) false [] (q_view q)
        (zlen (p_body p)) (q_parts q) []). split; [reflexivity|]. split_and!; [|done|done|].
      * apply (phase_rel _ MULTIPART_BODY_LENGTH _ Hr2); auto.
      * intros c2 Hr3. eapply (at_length _ _ _ _ (p_body p)); [exact Hr3|..]; try done.
        { by intros Hn; rewrite Hn in E0. }
        by rewrite <- Ht, Hv.
  - change (0 <=? -1) with false. cbn match.
    eexists. exists (mk_mpos MULTIPART_BODY_SCAN (q_cur q) false [] (q_view q) (q_rem q)
      (q_parts q) []). split; [reflexivity|]. split_and!; [|done|done|].
    + apply (phase_rel _ MULTIPART_BODY_SCAN _ Hr1); auto.
    + intros c2 Hr3.
      assert (∃ more, encode_parts dl ps = delim_line (bool_decide (ps = [])) ++ crlf ++ more)
        as [more Hmore].
      { destruct ps as [|p2 ps]; [by exists []|]. eexists. simpl. reflexivity. }
      eapply (at_scan _ _ _ _ (p_body p)); [exact Hr3|done|done|done|by apply Hocc|exact Hmore| |done|].
      * apply (scanning_body _ _ _ _ _ [] [] (p_body p ++ crlf)); try done; simpl.
        { by left. } { exists dl. split; [done|]. destruct dl_head as [b ->]. done. }
        { intros s Hs. by destruct s. } { by destruct (p_body p). }
        { rewrite Hmore. by rewrite <- !app_assoc. }
      * rewrite <- Ht, Hv. done.
Qed.

Lemma headers_done total q l more c :
  line_at total q l more → q_phase q = MULTIPART_HEADERS → q_body q = [] →
  mp_rel (with_line l false q) c →
  ∃ c2, (mp_finish_line (Some h) &> ok) c = (LONEJSON_STATUS_OK, c2) ∧ at_pos total more c2.
Proof using Hdl.
  intros Hl Hq Hb Hr. pose proof (m_phase _ _ Hr) as Hph. simpl in Hph. rewrite Hq in Hph.
  destruct (m_line _ _ Hr) as [Hline _]. simpl in Hline.
  destruct Hl as [ps Hq'|p ps Hq'|Hq'|p x hs ps _ -> -> Hhs Hlens Hn Hv Hp Hps Ht
    |p ps _ -> -> Hv Hp Hps Ht]; [congruence..| |].
  - destruct (proj1 (Forall_cons _ _ _) Hhs) as [Hx Hhs'].
    destruct (proj1 (Forall_cons _ _ _) Hlens) as [Hxl Hlens'].
    rewrite zlen_cons in Hn. pose proof (zlen_nonneg hs).
    destruct (process_header_ok (p_body p) x c (q_view q)) as (c1 & H1 & Hc1).
    { done. } { apply Hp. } { apply (m_view _ _ Hr). } { apply (m_alloc _ _ Hr). }
    { apply (m_options _ _ Hr). } { destruct (d_line _ _ Hdl). lia. } { lia. }
    pose proof (part_changed_rel _ _ _ _ Hr Hc1) as Hr1.
    destruct (header_value_ok _ _ Hx) as (_ & Htext & _).
    destruct (finish_line_rel _ c c1 Hr1) as (c2 & H2 & Hr2).
    { unfold lonejson__multipart_process_line. rewrite Hph, Hline, c_string_text by done.
      replace (zlen (header_line x) =? 0) with false; [done|].
      unfold header_line. rewrite !zlen_app. pose proof (zlen_nonneg (header_name x)).
      pose proof (zlen_nonneg (header_value x)). change (zlen (c_str ": ")) with 2. lia. }
    exists c2. split; [done|].
    destruct (headers_line total (mk_mpos (q_phase q) [] false [] (see_header (q_view q) x)
      (q_rem q) (q_parts q) (q_data q)) p hs ps) as (l & more & Heq & Hl);
      [done|done|done|simpl; rewrite see_header_headers; lia|done|done|done|done|].
    simpl in Hr2. rewrite Hb in Hr2. by eapply line_pos; [exact Hr2|..].
  - destruct (end_of_headers_ok total (with_line [] false q) p ps c)
      as (c1 & q1 & H1 & Hr1 & Hcr & Hb1 & Hpos); try done.
    destruct (finish_line_rel _ c c1 Hr1) as (c2 & H2 & Hr2).
    { unfold lonejson__multipart_process_line. by rewrite Hph, Hline. }
    exists c2. split; [done|]. apply Hpos. by rewrite Hcr in Hr2.
Qed.

(** *** Pushing *)

(** A byte outside the bodies. *)
Lemma line_byte total q l more ch rest c :
  mp_rel q c → q_body q = [] → no_break (q_cur q) →
  pending q (ch :: rest) = l ++ crlf ++ more → line_at total q l more →
  ∃ c', lonejson__multipart_feed_line_char (Some h) ch c = (LONEJSON_STATUS_OK, c')
        ∧ at_pos total rest c'.
Proof using Hdl.
  intros Hr Hb Hcur Hp Hl. destruct (line_no_break _ _ _ _ Hl) as [Hnl Hlen].
  destruct (feed_line_ok q ch rest l more c Hr Hcur Hnl Hlen Hp)
    as [(cur & cr & c' & -> & Hr' & Hcur' & Hp')|(-> & c1 & Hr1 & ->)].
  - exists c'. split; [done|]. eapply (at_line _ _ _ (with_line cur cr q)); [exact Hr'|exact Hb|exact Hcur'|exact Hp'|].
    destruct Hl; [eapply la_blank|eapply la_delim|eapply la_closing|eapply la_header
      |eapply la_end]; done.
  - assert (q_phase q = MULTIPART_EXPECT_BOUNDARY ∨ q_phase q = MULTIPART_HEADERS) as [Hq|Hq]
      by (destruct Hl; auto).
    + by eapply expect_done.
    + by eapply headers_done.
Qed.

(** A chunk [d1] of a body with a length, of which [d2] is left. *)
Lemma length_chunk total q d1 d2 ps c :
  mp_rel q c → q_phase q = MULTIPART_BODY_LENGTH → q_cur q = [] → q_cr q = false →
  q_body q = [] → q_rem q = zlen (d1 ++ d2) → zlen (d1 ++ d2) ≤ INT64_MAX →
  Forall (part_ok o dl) ps →
  q_parts q ++ (q_view q, q_data q ++ d1 ++ d2) :: map see_part ps = total →
  ∃ c', push_length (Some h) d1 c = (LONEJSON_STATUS_OK, c')
        ∧ at_pos total (d2 ++ crlf ++ encode_parts dl ps) c'.
Proof.
  intros Hr Hq Hcur Hcr Hb Hrem Hmaxb Hps Ht. unfold push_length.
  destruct (call_data_ok d1 c) as (u1 & e1 & H1 & Hu1 & Hu2).
  erewrite and_then_ok by exact H1. erewrite and_then_ok by reflexivity. cbn [self user error].
  set (m1 := mp_on_part _ (self c)).
  assert (mp_rel (mk_mpos MULTIPART_BODY_LENGTH [] false [] (q_view q) (zlen d2) (q_parts q)
                    (q_data q ++ d1)) (mk_ctx m1 u1 e1)) as Hr1.
  { destruct Hr. rewrite Hcur in *. rewrite Hb in *. split; simpl; try congruence; try done.
    - by rewrite m_closed0, Hq.
    - rewrite m_rem0, Hrem, zlen_app. lia.
    - intros _. rewrite Hu2, m_data0 by auto. done. }
  rewrite (m_rem _ _ Hr1 : remaining (mp_part m1) = zlen d2).
  destruct (zlen d2 =? 0) eqn:E.
  - assert (d2 = []) as ->.
    { destruct d2; [done|]. rewrite zlen_cons in E. pose proof (zlen_nonneg d2). lia. }
    destruct (call_end_ok (mk_ctx m1 u1 e1)) as (u3 & e3 & H3 & Hu3).
    erewrite and_then_ok by exact H3. eexists. split; [reflexivity|].
    assert (parts_of u3 = parts_of u1 ++ [(q_view q, q_data q ++ d1)]) as Hu3'.
    { cbn [user self] in Hu3. rewrite Hu3. f_equal. f_equal. f_equal; [apply (m_view _ _ Hr1)|].
      apply (m_data _ _ Hr1). by left. }
    pose proof (ended_rel _ _ u3 MULTIPART_EXPECT_BOUNDARY Hr1 Hu3'
      (or_intror (or_intror eq_refl)) _ e3 eq_refl ltac:(done)) as Hr3.
    eapply (at_line _ _ _ _ [] (encode_parts dl ps)); [exact Hr3|done|by constructor|done|].
    eapply la_blank; [done|done|done|exact Hps|]. rewrite <- Ht. simpl.
    by rewrite <- app_assoc, app_nil_r.
  - eexists. split; [reflexivity|]. rewrite zlen_app in Hmaxb. pose proof (zlen_nonneg d1).
    eapply (at_length _ _ _ _ d2); [exact Hr1|done..| |done|lia|done|done|].
    + intros ->. done.
    + simpl. by rewrite <- Ht, <- app_assoc.
Qed.

Lemma push_loop_ok total fuel p rest c :
  (length p ≤ fuel)%nat → at_pos total (p ++ rest) c →
  ∃ c', push_loop (Some h) fuel p c = Done (LONEJSON_STATUS_OK, c') ∧ at_pos total rest c'.
Proof using Hdl.
  revert p c. induction fuel as [|fuel IH]; intros p c Hf Hpos.
  { destruct p; [by exists c|simpl in Hf; lia]. }
  destruct p as [|ch p]; [by exists c|]. simpl in Hf. cbn [push_loop].
  unfold push_turn.
  inversion Hpos as [q l more Hr Hb Hcur Hp Hl|q body ps Hr Hq Hcur Hcr Hb Hbody Hrem Hmaxb Hrest
    Hps Ht|q body ps more Hr Hq Hcur Hcr Hocc Henc Hs Hps Ht|q Hr Hq Hrest Ht]; [| | |done].
  - assert (q_phase q = MULTIPART_EXPECT_BOUNDARY ∨ q_phase q = MULTIPART_HEADERS) as Hq
      by (destruct Hl; auto).
    destruct (line_byte _ _ _ _ _ (p ++ rest) c Hr Hb Hcur Hp Hl) as (c1 & H1 & Hpos1).
    rewrite (m_phase _ _ Hr).
    destruct Hq as [-> | ->]; rewrite H1, decide_True by done; apply IH; done || lia.
  - rewrite (m_phase _ _ Hr), Hq, (m_rem _ _ Hr), Hrem.
    pose proof (zlen_nonneg body). rewrite u64_small by (unfold is_u64; lia).
    set (k := if zlen body <? zlen (ch :: p) then zlen body else zlen (ch :: p)).
    pose proof (zlen_nonneg p). pose proof (zlen_cons ch p).
    assert (0 < zlen body).
    { destruct body as [|b body]; [done|]. rewrite zlen_cons. pose proof (zlen_nonneg body). lia. }
    assert (0 < k ∧ k ≤ zlen body ∧ k ≤ zlen (ch :: p)) as (Hk0 & Hk1 & Hk2).
    { unfold k. destruct (_ <? _) eqn:E; lia. }
    set (n := Z.to_nat k).
    assert (take n (ch :: p) = take n body) as Htk.
    { apply (f_equal (take n)) in Hrest. unfold zlen, n in *.
      rewrite !take_app_le in Hrest by lia. done. }
    assert (drop n (ch :: p) ++ rest = drop n body ++ crlf ++ encode_parts dl ps) as Hdk.
    { apply (f_equal (drop n)) in Hrest. unfold zlen, n in *.
      rewrite !drop_app_le in Hrest by lia. done. }
    destruct (length_chunk total q (take n body) (drop n body) ps c) as (c1 & Hf1 & Hpos1);
      rewrite ?take_drop; try done.
    cbn zeta. fold k n. rewrite Htk, Hf1, decide_True by done. apply IH.
    { rewrite length_drop. unfold n, zlen in *. simpl. lia. }
    by rewrite Hdk.
  - rewrite (m_phase _ _ Hr), Hq.
    destruct (scan_step _ body more q ch (p ++ rest) c Hr Hq Hocc Hs)
      as [(c1 & r & x & Hf1 & Hr1 & Hs1)|(Hmore & Hx & c1 & Hf1 & Hr1)];
      rewrite Hf1, decide_True by done; apply IH; try lia.
    + by eapply at_scan; [exact Hr1|..].
    + destruct ps as [|p2 ps].
      * rewrite bool_decide_eq_true_2 in * by done. eapply at_done; [exact Hr1|done| |].
        { rewrite Hmore. simpl in Henc. apply app_inv_head in Henc. by injection Henc. }
        rewrite <- Ht. simpl. by rewrite Hx.
      * rewrite bool_decide_eq_false_2 in * by done. simpl in Henc.
        apply app_inv_head in Henc.
        injection Henc as Henc. subst more. rewrite Hmore.
        destruct (proj1 (Forall_cons _ _ _) Hps) as [Hp2 Hps2]. pose proof Hp2 as (Hp21 & Hp22 & Hp23 & _).
        destruct (headers_line total (part_ended MULTIPART_HEADERS q) p2 (p_headers p2) ps)
          as (l2 & more2 & Heq & Hl); [done|done|done|change (zlen (mpp_headers _)) with 0; lia
          |done|done|done| |].
        { rewrite <- Ht. simpl. rewrite <- app_assoc. simpl. by rewrite Hx. }
        eapply line_pos; [exact Hr1|done|done|done|exact Heq|exact Hl].
Qed.

(** At the end of the message the parser is done. *)
Lemma pos_end total c :
  at_pos total [] c →
  parts_of (user c) = total ∧ mp_phase (self c) = MULTIPART_DONE ∧ mp_closed (self c) = true.
Proof.
  intros [q l more Hr Hb Hcur Hp Hl|q body ps Hr Hq Hcur Hcr Hb Hbody Hrem Hmaxb Hrest
    Hps Ht|q body ps more Hr Hq Hcur Hcr Hocc Henc Hs Hps Ht|q Hr Hq Hrest Ht].
  - exfalso. unfold pending in Hp. rewrite app_nil_r in Hp. destruct (q_cr q).
    + assert (∃ l2, q_cur q = l ++ 13 :: l2) as [l2 Hl2].
      { destruct more as [|x more _] using rev_ind.
        - change (l ++ crlf ++ []) with (l ++ ([13] ++ [10])) in Hp. rewrite app_assoc in Hp.
          by apply app_inj_tail in Hp as [_ ?].
        - rewrite !app_assoc in Hp. apply app_inj_tail in Hp as [-> _].
          exists (10 :: more). by rewrite <- !app_assoc. }
      rewrite Hl2 in Hcur. apply Forall_app in Hcur as [_ Hcur]. inversion Hcur as [|? ? Hx].
      apply Hx. by left.
    + rewrite app_nil_r in Hp. rewrite Hp in Hcur. apply Forall_app in Hcur as [_ Hcur].
      inversion Hcur as [|? ? Hx]. apply Hx. by left.
  - by destruct body.
  - exfalso. destruct Hs as [e k y _ _ _ _ _ _ Hy Hrest|k z _ _ _ Hz Hrest];
      [by destruct y|by destruct z].
  - destruct Hr. rewrite Hq in m_phase0, m_closed0. rewrite m_parts0. split_and!; done.
Qed.

(** *** Opening *)

(** The parser before the first byte. *)
Definition start_pos (evs : list (lonejson_multipart_part * bytes)) : mpos :=
  mk_mpos MULTIPART_EXPECT_BOUNDARY [] false [] no_headers 0 evs [].

End refinement.

(** A [Content-Type] with the boundary [b], a token. *)
Definition form_data (b : bytes) : bytes := c_str "multipart/form-data; boundary=" ++ b.

Definition boundary_ok (o : lonejson_multipart_options) (b : bytes) : Prop :=
  b ≠ [] ∧ Forall (λ c, token_char c = true ∧ c ≠ 34) b ∧ zlen b ≤ max_boundary_bytes o
  ∧ max_boundary_bytes o + 6 < SIZE_MAX.

Lemma parse_boundary_form b out o a e :
  boundary_ok o b → buffer_wf out → contents out = [] → never_fails a →
  ∃ out' a', lonejson__multipart_parse_boundary (form_data b) out o a e =
             (LONEJSON_STATUS_OK, out', a', e)
             ∧ contents out' = b ∧ never_fails a'.
Proof.
  intros (Hb & Htok & Hlen & Hm) Hw Ho Ha. unfold lonejson__multipart_parse_boundary.
  assert (drop_while token_char b = [] ∧ take_while token_char b = b) as [Hd Ht].
  { clear Hb Hlen. induction Htok as [|x b [Hx _] _ [IH1 IH2]]; [done|]. cbn [drop_while take_while].
    by rewrite Hx, IH1, IH2. }
  assert (boundary_param (form_data b) = Param_none (c_str "; boundary=" ++ b)) as H1 by reflexivity.
  assert (boundary_param (c_str "; boundary=" ++ b) = Param (c_str "boundary") b []) as H2.
  { destruct b as [|x b]; [done|]. inversion Htok as [|? ? [Hx Hx34] _].
    assert (drop_while is_blank (x :: b) = x :: b) as Hbl.
    { cbn [drop_while]. unfold token_char in Hx. by destruct (is_blank x), (x =? ";"%ch). }
    unfold boundary_param.
    assert (drop_while name_char (drop_while (λ c, (c =? ";"%ch) || is_blank c)
      (c_str "; boundary=" ++ x :: b)) = "="%ch :: x :: b) as -> by reflexivity.
    assert (trim_right (take_while name_char (drop_while (λ c, (c =? ";"%ch) || is_blank c)
      (c_str "; boundary=" ++ x :: b))) = c_str "boundary") as -> by reflexivity.
    cbn zeta. change (negb ("="%ch =? "="%ch)) with false. cbn match. rewrite Hbl.
    replace (x =? 34) with false by lia. by rewrite Ht, Hd. }
  assert (∃ f1 f2 r, form_data b = f1 :: f2 :: r) as (f1 & f2 & r & Hf)
    by (do 3 eexists; reflexivity).
  rewrite Hf in H1 |- *. cbn [parse_boundary_loop]. rewrite H1.
  assert (∃ c1 p1, c_str "; boundary=" ++ b = c1 :: p1) as (c1 & p1 & Hc1)
    by (do 2 eexists; reflexivity).
  rewrite Hc1 in H2 |- *. rewrite H2.
  change (lonejson__ascii_ieq (c_str "boundary") (c_str "boundary")) with true. cbn match.
  replace (zlen b =? 0) with false.
  2: { destruct b; [done|]. rewrite zlen_cons. pose proof (zlen_nonneg b). lia. }
  replace (max_boundary_bytes o <? zlen b) with false by lia. pose proof (zlen_nonneg b).
  destruct (byte_append_ok out b (max_boundary_bytes o) a e)
    as (out' & a' & -> & Hc' & _ & Ha' & _); [done|done|lia|unfold blen; rewrite Ho; change (zlen (@nil Z)) with 0; lia|].
  exists out', a'. split; [done|]. by rewrite Hc', Ho.
Qed.

Lemma boundaries_ok b m o e :
  boundary_ok o b → never_fails (mp_allocator m) → mp_boundary m = buffer_empty →
  mp_boundary_line m = buffer_empty → mp_closing_boundary_line m = buffer_empty →
  ∃ bb bl cl a, multipart_boundaries (form_data b) o m e =
      (LONEJSON_STATUS_OK, mp_set_allocator a (mp_set_boundaries bb bl cl m), e)
    ∧ contents bl = c_str "--" ++ b ∧ contents cl = closing (c_str "--" ++ b) ∧ never_fails a.
Proof.
  intros Hb Ha H1 H2 H3. unfold multipart_boundaries. rewrite H1, H2, H3.
  destruct (parse_boundary_form b buffer_empty o (mp_allocator m) e)
    as (bb & a1 & -> & Hbb & Ha1); [done..|].
  destruct Hb as (Hne & _ & Hlen & Hm). pose proof (zlen_nonneg b).
  rewrite decide_False by tauto.
  rewrite !u64_small by (unfold is_u64; lia).
  destruct (byte_append_ok buffer_empty (c_str "--") (max_boundary_bytes o + 4) a1 e)
    as (bl1 & a2 & -> & Hbl1 & Hw1 & Ha2 & _); [done|done|lia|change (zlen (c_str "--")) with 2;
      unfold blen; simpl; change (zlen (@nil Z)) with 0; lia|].
  rewrite decide_False by tauto.
  destruct (byte_append_ok bl1 (contents bb) (max_boundary_bytes o + 4) a2 e)
    as (bl2 & a3 & -> & Hbl2 & Hw2 & Ha3 & _); [done|done|lia|unfold blen; rewrite Hbl1, Hbb;
      change (zlen (contents buffer_empty ++ c_str "--")) with 2; lia|].
  rewrite decide_False by tauto. rewrite Hbl2, Hbl1, Hbb.
  change (contents buffer_empty ++ c_str "--") with (c_str "--").
  destruct (byte_append_ok buffer_empty (c_str "--" ++ b) (max_boundary_bytes o + 6) a3 e)
    as (cl1 & a4 & -> & Hcl1 & Hw3 & Ha4 & _); [done|done|lia|rewrite zlen_app;
      change (zlen (c_str "--")) with 2; unfold blen; simpl; change (zlen (@nil Z)) with 0; lia|].
  rewrite decide_False by tauto.
  destruct (byte_append_ok cl1 (c_str "--") (max_boundary_bytes o + 6) a4 e)
    as (cl2 & a5 & -> & Hcl2 & _ & Ha5 & _); [done|done|lia|unfold blen; rewrite Hcl1, !zlen_app;
      change (zlen (c_str "--")) with 2; simpl; change (zlen (@nil Z)) with 0; lia|].
  exists bb, bl2, cl2, a5. rewrite Hbl2, Hbl1, Hbb, Hcl2, Hcl1. by split_and!.
Qed.

(** A caller's use of the parser: pushes until one fails, then the finish. *)
Fixpoint multipart_run {U} (handler : option (lonejson_multipart_handler U))
    (mp : option lonejson_multipart) (chunks : list bytes) (user : U) (error : error_ptr) :
    run (lonejson_status * option lonejson_multipart * U * error_ptr) :=
  match chunks with
  | [] =>
      let '(st, mp, error) := lonejson_multipart_finish mp error in Done (st, mp, user, error)
  | d :: chunks =>
      '(st, mp, user, error) ← lonejson_multipart_push handler mp (Some d) (zlen d) user error;
      if decide (st = LONEJSON_STATUS_OK) then multipart_run handler mp chunks user error
      else Done (st, mp, user, error)
  end.

Section runs.
Context {U : Type} (h : lonejson_multipart_handler U) `{!MultipartListener h}.
Context (o : lonejson_multipart_options) (dl : bytes) (Hdl : delimiter_ok o dl).

Lemma pos_error total rest m u e e' :
  at_pos h o dl total rest (mk_ctx m u e) → at_pos h o dl total rest (mk_ctx m u e').
Proof.
  assert (∀ q, mp_rel h o dl q (mk_ctx m u e) → mp_rel h o dl q (mk_ctx m u e')) as H
    by (by intros q []).
  intros []; [eapply at_line|eapply at_length|eapply at_scan|eapply at_done]; eauto.
Qed.

Lemma pos_closed total rest m u e :
  at_pos h o dl total rest (mk_ctx m u e) → rest ≠ [] → mp_closed m = false.
Proof.
  intros Hpos Hrest. assert (∀ q, mp_rel h o dl q (mk_ctx m u e) → q_phase q ≠ MULTIPART_DONE →
    mp_closed m = false) as H.
  { intros q [] Hq. simpl in *. rewrite m_closed0. by apply bool_decide_eq_false_2. }
  destruct Hpos; [|by eapply H; [done|congruence]..|done].
  eapply H; [done|]. intros Hq. destruct H4; congruence.
Qed.

(** Empty chunks may follow the end. *)
Lemma multipart_run_ok total chunks m u e :
  (∀ d, d ∈ chunks → d ≠ []) → at_pos h o dl total (mjoin chunks) (mk_ctx m u e) →
  ∃ m' u' e', multipart_run (Some h) (Some m) chunks u e = Done (LONEJSON_STATUS_OK, Some m', u', e')
              ∧ parts_of u' = total ∧ mp_closed m' = true.
Proof using Hdl.
  revert m u e. induction chunks as [|d chunks IH]; intros m u e Hne Hpos.
  - destruct (pos_end _ _ _ _ _ Hpos) as (Hp & Hph & Hc). simpl in *.
    unfold lonejson_multipart_finish. rewrite Hc. simpl. eexists _, u, e. by split_and!.
  - cbn [mjoin list_join] in Hpos. cbn [multipart_run]. unfold lonejson_multipart_push.
    assert (d ≠ []) as Hd by (apply Hne; by left).
    rewrite (pos_closed _ _ _ _ _ Hpos) by (by destruct d). simpl. rewrite take_zlen.
    destruct (push_loop_ok h o dl Hdl total (push_fuel d) d (mjoin chunks)
      (mk_ctx m u (lonejson__clear_error e))) as ([m1 u1 e1] & H1 & Hpos1).
    { unfold push_fuel. lia. } { by eapply pos_error. }
    rewrite H1. simpl. apply IH; [|done]. intros d' Hd'. apply Hne. by right.
Qed.
End runs.

(** C3 (roundtrip): a multipart message is read back.  For every list of parts
    (their names quoted, their bodies delimited by the boundary or by a
    [Content-Length]) the encoded message, cut into any chunks, is accepted, and
    the handler sees exactly the parts: name, content type, length, headers and
    body bytes. *)
Theorem multipart_roundtrip {U} (h : lonejson_multipart_handler U) `{!MultipartListener h}
    sizeof b options a e0 ps chunks u e
    (o := multipart_resolve_options options) (dl := c_str "--" ++ b) :
  boundary_ok o b → delimiter_ok o dl → 0 ≤ max_header_count o → never_fails a →
  Forall (part_ok o dl) ps → mjoin chunks = encode_parts dl ps → (∀ d, d ∈ chunks → d ≠ []) →
  ∃ m a1 e1 m' u' e',
    lonejson_multipart_open sizeof (Some (form_data b)) options (Some a) e0 = (Some m, a1, e1)
    ∧ multipart_run (Some h) (Some m) chunks u e = Done (LONEJSON_STATUS_OK, Some m', u', e')
    ∧ parts_of u' = parts_of u ++ map see_part ps ∧ mp_closed m' = true.
Proof.
  intros Hb Hdl Hmax Ha Hps Hch Hne. unfold lonejson_multipart_open. fold o.
  destruct (buffer_alloc_ok a sizeof Ha) as (a1 & -> & Ha1). cbn [negb].
  destruct (boundaries_ok b (multipart_zero o a1) o e0) as (bb & bl & cl & a2 & -> & Hbl & Hcl & Ha2);
    [done..|]. rewrite decide_False by tauto.
  set (m := mp_set_allocator _ _). 
  assert (mp_rel h o dl (start_pos (parts_of u)) (mk_ctx m u e)) as Hr.
  { split; simpl; try done. by intros [? | ?]. }
  destruct (parts_line o dl (parts_of u ++ map see_part ps) (start_pos (parts_of u)) ps)
    as (l & more & Heq & Hl); [done..|].
  edestruct (multipart_run_ok h o dl Hdl (parts_of u ++ map see_part ps) chunks m u e)
    as (m' & u' & e' & H1 & H2 & H3); [done| |].
  { rewrite Hch. eapply at_line; [exact Hr|done|by constructor|exact Heq|exact Hl]. }
  do 6 eexists. split; [reflexivity|]. by split_and!.
Qed.

(** ** A message that is not delimited *)

(** Once the delimiter was followed by a CR that no LF follows, the bytes held
    back count as the start of a delimiter line for ever. *)
Lemma stuck_scan {U} (handler : option (lonejson_multipart_handler U)) dl x w
    (c : ctx_of lonejson_multipart U) :
  dl ≠ [] → x ≠ 10 →
  contents (mp_boundary_line (self c)) = dl →
  contents (mp_closing_boundary_line (self c)) = closing dl →
  body_scan handler [] (dl ++ 13 :: x :: w) c = (LONEJSON_STATUS_OK, c).
Proof.
  intros Hdl Hx Hb Hc.
  destruct (dl ++ 13 :: x :: w) as [|y ys] eqn:E; [by destruct dl|].
  cbn [body_scan]. rewrite Hb, Hc, <- E. cbn [last].
  rewrite (complete_closing dl), complete_app, prefix_app.
  rewrite bool_decide_eq_false_2 by (change (c_str "--") with [45; 45]; simpl; congruence).
  unfold line_ending. change (13 =? 10) with false. change (13 =? 13) with true. cbn match.
  replace (x =? 10) with false by lia. by rewrite orb_true_r.
Qed.

(** The stalled parser. *)
Record stuck (o : lonejson_multipart_options) (dl : bytes) (x : Z) (w : bytes)
    (m : lonejson_multipart) : Prop := {
  s_phase : mp_phase m = MULTIPART_BODY_SCAN;
  s_closed : mp_closed m = false;
  s_bline : contents (mp_boundary_line m) = dl;
  s_cline : contents (mp_closing_boundary_line m) = closing dl;
  s_body : contents (mp_body m) = dl ++ 13 :: x :: w ∧ buffer_wf (mp_body m);
  s_alloc : never_fails (mp_allocator m);
  s_options : mp_options m = o
}.

Lemma stuck_byte {U} (handler : option (lonejson_multipart_handler U)) o dl x w m ch u e :
  dl ≠ [] → x ≠ 10 → stuck o dl x w m → max_part_buffered_bytes o < SIZE_MAX →
  blen (mp_body m) + 1 ≤ max_part_buffered_bytes o →
  ∃ m', lonejson__multipart_feed_body_scan_char handler ch (mk_ctx m u e) =
        (LONEJSON_STATUS_OK, mk_ctx m' u e)
        ∧ stuck o dl x (w ++ [ch]) m' ∧ blen (mp_body m') = blen (mp_body m) + 1.
Proof.
  intros Hdl Hx [] Hmax Hlen. destruct s_body0 as [Hb Hw].
  pose proof (zlen_nonneg (contents (mp_body m))). unfold lonejson__multipart_feed_body_scan_char.
  destruct (mp_append_ok mp_body mp_set_body ch max_part_buffered_bytes (mk_ctx m u e))
    as (b & a & H1 & Hb1 & Hw1 & Ha); simpl; try done;
    [rewrite s_options0; unfold blen in *; lia|by rewrite s_options0|].
  erewrite and_then_ok by exact H1. simpl in Hb1. rewrite Hb in Hb1.
  rewrite <- app_assoc in Hb1. simpl in Hb1.
  unfold lonejson__multipart_process_body_buffer. simpl. rewrite Hb1.
  rewrite (stuck_scan handler dl x (w ++ [ch])); [|done..].
  eexists. split; [reflexivity|]. split; [by split|].
  unfold blen. simpl. rewrite Hb1, Hb, !zlen_app, !zlen_cons, zlen_app. 
  change (zlen [ch]) with 1. lia.
Qed.

Lemma stuck_loop {U} (handler : option (lonejson_multipart_handler U)) o dl x w m p fuel u e :
  dl ≠ [] → x ≠ 10 → stuck o dl x w m → max_part_buffered_bytes o < SIZE_MAX →
  blen (mp_body m) + zlen p ≤ max_part_buffered_bytes o → (length p ≤ fuel)%nat →
  ∃ m', push_loop handler fuel p (mk_ctx m u e) = Done (LONEJSON_STATUS_OK, mk_ctx m' u e)
        ∧ stuck o dl x (w ++ p) m' ∧ blen (mp_body m') = blen (mp_body m) + zlen p.
Proof.
  intros Hdl Hx. revert w m fuel. induction p as [|ch p IH]; intros w m fuel Hs Hmax Hlen Hf.
  - exists m. rewrite app_nil_r. split_and!; [by destruct fuel|done|change (zlen (@nil Z)) with 0; lia].
  - rewrite zlen_cons in *. pose proof (zlen_nonneg p).
    destruct fuel as [|fuel]; [simpl in Hf; lia|].
    destruct (stuck_byte handler o dl x w m ch u e Hdl Hx Hs Hmax) as (m1 & H1 & Hs1 & Hl1); [lia|].
    cbn [push_loop self]. unfold push_turn. rewrite (s_phase _ _ _ _ _ Hs), H1, decide_True by done.
    destruct (IH (w ++ [ch]) m1 fuel Hs1 Hmax) as (m' & H2 & Hs2 & Hl2);
      [lia|simpl in Hf; lia|].
    exists m'. rewrite <- app_assoc in Hs2. split_and!; [done|done|lia].
Qed.

(** A body line that starts with the delimiter followed by a bare
    CR stalls the parser.  From then on every byte is held back, a later
    delimiter included: a push delivers nothing and ends no part, until the
    buffer limit makes the next byte fail with [OVERFLOW]. *)
Theorem multipart_bare_cr_stalls {U} (handler : option (lonejson_multipart_handler U))
    dl x w m p ch u e :
  dl ≠ [] → x ≠ 10 → mp_phase m = MULTIPART_BODY_SCAN → mp_closed m = false →
  contents (mp_boundary_line m) = dl → contents (mp_closing_boundary_line m) = closing dl →
  contents (mp_body m) = dl ++ 13 :: x :: w → buffer_wf (mp_body m) →
  never_fails (mp_allocator m) → max_part_buffered_bytes (mp_options m) < SIZE_MAX →
  blen (mp_body m) + zlen p = max_part_buffered_bytes (mp_options m) →
  ∃ m' e' m2 u2 e2,
    lonejson_multipart_push handler (Some m) (Some p) (zlen p) u e =
      Done (LONEJSON_STATUS_OK, Some m', u, lonejson__clear_error e)
    ∧ contents (mp_body m') = contents (mp_body m) ++ p ∧ mp_phase m' = MULTIPART_BODY_SCAN
    ∧ lonejson_multipart_push handler (Some m') (Some [ch]) 1 u e' =
      Done (LONEJSON_STATUS_OVERFLOW, m2, u2, e2).
Proof.
  intros Hdl Hx Hp Hcl Hb Hc Hbody Hw Ha Hmax Hlen.
  assert (stuck (mp_options m) dl x w m) as Hs by (by split).
  destruct (stuck_loop handler _ dl x w m p (push_fuel p) u (lonejson__clear_error e)
    Hdl Hx Hs Hmax) as (m' & H1 & [] & Hl); [lia|unfold push_fuel; lia|].
  destruct s_body0 as [Hbody' Hw'].
  set (e1 := lonejson__clear_error e).
  destruct (byte_append_overflows (mp_body m') [ch] (max_part_buffered_bytes (mp_options m'))
    (mp_allocator m') (lonejson__clear_error e1)) as (e2 & Happ); [done| |].
  { rewrite s_options0, Hl. change (zlen [ch]) with 1. lia. }
  eexists m', e1, _, _, _. unfold lonejson_multipart_push. simpl.
  rewrite Hcl, take_zlen, H1, s_closed0. simpl. split_and!; [done| |done|].
  - by rewrite Hbody', Hbody, <- app_assoc.
  - change (take (Z.to_nat 1) [ch]) with [ch].
    cbn [push_fuel length Nat.mul Nat.add push_loop self]. unfold push_turn.
    rewrite s_phase0. unfold lonejson__multipart_feed_body_scan_char, mp_append,
      lonejson__byte_append_char, and_then. cbn [self error]. rewrite Happ. reflexivity.
Qed.

(** *** Witnesses *)

Definition occursb (w s : bytes) : bool :=
  existsb (λ k, bool_decide (take (length w) (drop k s) = w)) (seq 0 (S (length s))).

Lemma occursb_spec w s : occurs w s → occursb w s = true.
Proof.
  intros (x & y & ->). unfold occursb. apply existsb_exists. exists (length x). split.
  - apply in_seq. rewrite length_app. lia.
  - apply bool_decide_eq_true_2. by rewrite drop_app_length, take_app_length.
Qed.

Definition demo_parts : list part :=
  [mk_part [H_name (c_str "f" ++ [34] ++ c_str "x"); H_type (c_str "text/plain")]
     (c_str "a--" ++ [13; 10] ++ c_str "--b");
   mk_part [H_other (c_str "X-Id") (c_str "7"); H_length (c_str "5")] (c_str "--BND")].

Definition demo_boundary : bytes := c_str "BND".
Definition demo_chunks : list bytes :=
  [take 30 (encode_parts (c_str "--BND") demo_parts);
   drop 30 (encode_parts (c_str "--BND") demo_parts)].

Lemma multipart_roundtrip_witness :
  ∃ m a1 e1 m' u' e',
    lonejson_multipart_open 1000 (Some (form_data demo_boundary)) None (Some fresh_allocator) None
    = (Some m, a1, e1)
    ∧ multipart_run (Some part_recorder) (Some m) demo_chunks ([], []) None
      = Done (LONEJSON_STATUS_OK, Some m', u', e')
    ∧ parts_of u' = parts_of ([], []) ++ map see_part demo_parts ∧ mp_closed m' = true.
Proof.
  apply (multipart_roundtrip part_recorder).
  - split_and!; [discriminate| |done|done]. repeat constructor; discriminate.
  - split; [by exists demo_boundary|by apply text_const|split; [discriminate|reflexivity]
      |split; [discriminate|reflexivity]].
  - discriminate.
  - done.
  - apply Forall_cons_2; [|apply Forall_cons_2; [|apply Forall_nil_2]]; split_and!;
      try (repeat constructor; discriminate); try discriminate.
    + apply Forall_cons_2; [by apply text_const|]. apply Forall_cons_2; [|apply Forall_nil_2].
      split; [by apply text_const|]. split; intros c [= <-]; reflexivity.
    + intros _ Hocc. by apply occursb_spec in Hocc.
    + apply Forall_cons_2; [|apply Forall_cons_2; [|apply Forall_nil_2]].
      * split_and!; [by apply text_const|repeat constructor; discriminate|reflexivity
          |by apply text_const|split; intros c [= <-]; reflexivity].
      * split_and!; [discriminate|repeat constructor|reflexivity].
  - reflexivity.
  - intros d Hd. repeat (apply elem_of_cons in Hd as [->|Hd]; [discriminate|]).
    by apply elem_of_nil in Hd.
Defined.

Definition stalled_parser : lonejson_multipart :=
  mk_multipart (mk_multipart_options 200 1024 64 20) fresh_allocator buffer_empty
    (mk_buffer false (c_str "--B") 64) (mk_buffer false (c_str "--B--") 64) buffer_empty
    (mk_buffer false (c_str "--B" ++ [13; 65]) 64) true 0 0 part_zero false false
    MULTIPART_BODY_SCAN.

Lemma multipart_bare_cr_stalls_witness (p := [13; 10] ++ c_str "--B--" ++ [13; 10]) :
  ∃ m' e' m2 u2 e2,
    lonejson_multipart_push (Some part_recorder) (Some stalled_parser)
      (Some (p ++ c_str "......")) (zlen (p ++ c_str "......")) ([], []) None =
      Done (LONEJSON_STATUS_OK, Some m', ([], []), None)
    ∧ contents (mp_body m') = contents (mp_body stalled_parser) ++ p ++ c_str "......"
    ∧ mp_phase m' = MULTIPART_BODY_SCAN
    ∧ lonejson_multipart_push (Some part_recorder) (Some m') (Some [46]) 1 ([], []) e' =
      Done (LONEJSON_STATUS_OVERFLOW, m2, u2, e2).
Proof.
  apply (multipart_bare_cr_stalls (Some part_recorder) (c_str "--B") 65 [] stalled_parser);
    done || discriminate || (split; [reflexivity|discriminate]).
Defined.

(** ** Behaviours outside the round trip *)

Definition run_recorder (b : string) (body : bytes) :
    option (lonejson_status * list bytes) :=
  match lonejson_multipart_open 1000 (Some (form_data (c_str b))) None
          (Some fresh_allocator) None with
  | (Some m, _, _) =>
      match multipart_run (Some part_recorder) (Some m) [body] ([], []) None with
      | Done (st, _, u, _) => Some (st, map snd u.1)
      | _ => None
      end
  | _ => None
  end.

(** A delimiter in the middle of a line ends the part: the scanner takes the
    first byte it holds back for the start of a line. *)
Lemma midline_delimiter :
  run_recorder "B" (c_str "--B" ++ [13; 10; 13; 10] ++ c_str "text --B" ++ [13; 10; 13; 10]
                    ++ c_str "rest" ++ [13; 10] ++ c_str "--B--" ++ [13; 10])
  = Some (LONEJSON_STATUS_OK, [c_str "text "; c_str "rest"]).
Proof. vm_compute. reflexivity. Qed.

(** A closing delimiter that is the last thing in the stream is not seen. *)
Lemma closing_without_newline :
  run_recorder "B" (c_str "--B" ++ [13; 10; 13; 10] ++ c_str "x" ++ [13; 10] ++ c_str "--B--")
  = Some (LONEJSON_STATUS_INVALID_JSON, []).
Proof. vm_compute. reflexivity. Qed.

(** With bare CR line ends the first body byte is lost. *)
Lemma bare_cr_loses_byte :
  run_recorder "B" (c_str "--B" ++ [13] ++ c_str "Content-Length: 3" ++ [13; 13] ++ c_str "abc"
                    ++ [13] ++ c_str "--B--" ++ [13; 10])
  ≠ Some (LONEJSON_STATUS_OK, [c_str "abc"]).
Proof. vm_compute. discriminate. Qed.
