(* ===== verification/MultipartSafety.v ===== *)
(** * Multipart parser: termination

    The push loop of [Multipart.v] has a result: with the count of the body in
    progress in the range of its type, which every operation preserves for every
    handler and every outcome, the loop ends within its fuel. *)

From stdpp Require Import base numbers list strings.
From Stdlib Require Import ZArith Lia.
From S2P Require Import Prelude Runtime ByteBuffer Multipart.

Section termination.
Context {U : Type} (handler : option (lonejson_multipart_handler U)).

Abbreviation state := (ctx_of lonejson_multipart U).

(** [content_length] and [remaining] are [lonejson_int64]s, the second one not
    negative. *)
Definition counts_ok (c : state) : Prop :=
  0 ≤ remaining (mp_part (self c)) ≤ INT64_MAX
  ∧ content_length (mp_part (self c)) ≤ INT64_MAX.

Abbreviation keeps m := (triple counts_ok m counts_ok counts_ok).

(** A step that leaves the counts alone. *)
Lemma keeps_frame (m : step lonejson_multipart U) :
  (∀ c, remaining (mp_part (self (snd (m c)))) = remaining (mp_part (self c))
        ∧ content_length (mp_part (self (snd (m c)))) = content_length (mp_part (self c))) →
  keeps m.
Proof.
  intros Hm c Hc. destruct (Hm c) as [H1 H2]. unfold counts_ok in *.
  destruct (m c) as [st c']. simpl in *. rewrite H1, H2. by case_decide.
Qed.

Lemma keeps_modify f :
  (∀ m u e, counts_ok (mk_ctx m u e) → counts_ok (mk_ctx (f m) u e)) → keeps (modify f).
Proof. intros Hf. apply triple_modify. intros [m u e] Hc. by apply Hf. Qed.

Lemma keeps_call f msg : keeps (call f msg).
Proof.
  apply keeps_frame. intros c. unfold call. destruct f as [f|]; [|done].
  destruct (f _ _) as [[st u] e]. case_decide; [|done].
  by destruct (callback_error_fails msg (mk_ctx (self c) u e)) as (_ & -> & _).
Qed.

Lemma keeps_fail code msg : keeps (fail_with code msg).
Proof. apply keeps_frame. intros c. unfold fail_with. by destruct c as [m u [e|]]. Qed.

Lemma keeps_return : keeps return_error_code.
Proof. by apply keeps_frame. Qed.

Lemma reset_counts m u e : counts_ok (mk_ctx (lonejson__multipart_reset_part m) u e).
Proof. split; [split|]; done. Qed.

Lemma keeps_append get set ch limit :
  (∀ b m, mp_part (set b m) = mp_part m) → keeps (mp_append get set ch limit).
Proof.
  intros Hset. apply keeps_frame. intros c. unfold mp_append.
  destruct (lonejson__byte_append_char _ _ _ _ _) as [[[st b] a] e]. simpl. by rewrite Hset.
Qed.

(** A step's conditional and its reading of the state. *)
Lemma keeps_read (m : state → step lonejson_multipart U) :
  (∀ c0, keeps (m c0)) → keeps (λ c, m c c).
Proof. intros Hm c Hc. by apply (Hm c). Qed.

Create HintDb keeps discriminated.
#[local] Hint Resolve triple_ok triple_and_then keeps_call keeps_fail keeps_return : keeps.

Lemma dup_counts range (c : state) :
  mp_part (self (snd (mp_dup_range range c))) = mp_part (self c).
Proof. unfold mp_dup_range. by destruct (lonejson__dup_range _ _ _) as [[out a] e]. Qed.

Lemma keeps_add_header name value : keeps (lonejson__multipart_add_header name value).
Proof.
  intros c. unfold lonejson__multipart_add_header.
  destruct (_ <=? _); [apply keeps_fail|]. revert c. eapply triple_and_then.
  - apply keeps_frame. intros c. unfold reserve_header. destruct (_ =? _); [|done].
    destruct (lonejson__buffer_realloc _ _ _ _) as [[] a]; [done|].
    unfold fail_with. by destruct (error c).
  - apply keeps_frame. intros c. pose proof (dup_counts name c) as H1.
    destruct (mp_dup_range name c) as [[[n size]|] c1]; simpl in *; [|by rewrite H1].
    pose proof (dup_counts value c1) as H2.
    destruct (mp_dup_range value c1) as [[[v size2]|] c2]; simpl in *; by rewrite H2, H1.
Qed.

Lemma keeps_replace get set range :
  (∀ s p, remaining (set s p) = remaining p ∧ content_length (set s p) = content_length p) →
  keeps (replace_string get set range).
Proof.
  intros Hset. apply keeps_frame. intros c. unfold replace_string.
  set (c0 := mk_ctx _ _ _). pose proof (dup_counts range c0) as H1.
  destruct (mp_dup_range range c0) as [[[v size]|] c1]; simpl in *;
    rewrite (proj1 (Hset _ _)), (proj2 (Hset _ _)), H1; done.
Qed.

Lemma unescape_counts p b (c : state) :
  mp_part (self (snd (unescape_loop p b c))) = mp_part (self c).
Proof.
  enough (∀ n p b c, (length p ≤ n)%nat →
    mp_part (self (snd (unescape_loop p b c))) = mp_part (self c)) as H by (by eapply H).
  clear p b c. induction n as [|n IH]; intros p b c Hn; [by destruct p; [|simpl in Hn; lia]|].
  destruct p as [|ch p]; [done|]. simpl in Hn. cbn [unescape_loop].
  destruct (ch =? 34); [done|].
  destruct (ch =? 92); [destruct p as [|ch2 p]|];
    destruct (lonejson__byte_append_char _ _ _ _ _) as [[[st b'] a'] e'];
    (case_decide; [done|]); (rewrite IH by (simpl in *; lia)); done.
Qed.

Lemma keeps_free_local b : keeps (free_local b).
Proof. by apply keeps_frame. Qed.

Lemma keeps_disposition_value name value p b next :
  (∀ q, keeps (next q)) → keeps (disposition_value name value p b next).
Proof.
  intros Hn c. unfold disposition_value. destruct (lonejson__ascii_ieq _ _).
  - intros Hc. pose proof (keeps_replace part_name part_set_name value ltac:(done) c Hc) as H1.
    destruct (replace_string _ _ _ c) as [st c1].
    assert (counts_ok c1) as Hc1 by (by case_decide). clear H1. simpl.
    destruct (str _); [done|]. unfold return_error_code. by case_decide.
  - revert c. eapply triple_and_then; [apply keeps_free_local|apply Hn].
Qed.

Lemma keeps_disposition_loop fuel p : keeps (disposition_loop fuel p).
Proof.
  revert p. induction fuel as [|f fuel IH]; intros p; [by apply keeps_frame|].
  destruct p as [|semi p]; [by apply keeps_frame|]. intros c. cbn [disposition_loop].
  destruct (negb _); [done|]. destruct (drop_while name_char _) as [|eq p2]; [done|].
  destruct (negb _); [apply IH|].
  destruct (drop_while is_blank p2) as [|q quoted]; [by apply keeps_disposition_value|].
  destruct (q =? 34); [|by apply keeps_disposition_value].
  intros Hc. pose proof (unescape_counts quoted buffer_empty c) as H1.
  destruct (unescape_loop quoted buffer_empty c) as [[[st b] p3] c1]. simpl in H1.
  assert (counts_ok c1) as Hc1 by (unfold counts_ok in *; by rewrite H1).
  case_decide; [simpl; by rewrite decide_False|].
  destruct p3 as [|q3 p3]; [|by apply keeps_disposition_value].
  eapply triple_at; [|exact Hc1]. eapply triple_and_then; [apply keeps_free_local|apply keeps_fail].
Qed.

Lemma decimal_range value n :
  decimal_loop INT64_MAX value 0 = Dec_ok n → 0 ≤ n ≤ INT64_MAX.
Proof.
  intros H. apply decimal_loop_spec in H as (Hd & -> & Hn); [|lia|lia]. split; [|done].
  by apply decimal_from_ge.
Qed.

Lemma keeps_header_line line : keeps (lonejson__multipart_process_header_line line).
Proof.
  unfold lonejson__multipart_process_header_line.
  destruct (split_at _ line) as [[name rest]|]; [|apply keeps_fail].
  eapply triple_and_then; [apply keeps_add_header|].
  destruct (lonejson__ascii_ieq _ _); [apply keeps_disposition_loop|].
  destruct (lonejson__ascii_ieq _ _); [by apply keeps_replace|].
  destruct (lonejson__ascii_ieq _ _); [|apply triple_ok].
  destruct (trim_right _) as [|d ds]; [apply keeps_fail|].
  destruct (decimal_loop _ _ _) eqn:E; [|apply keeps_fail..].
  apply keeps_modify. intros m u e [H1 H2]. apply decimal_range in E. by split; simpl; [|lia].
Qed.

Lemma keeps_call_begin : keeps (lonejson__multipart_call_begin handler).
Proof. intros c. apply keeps_call. Qed.

Lemma keeps_end_of_headers : keeps (end_of_headers handler).
Proof.
  unfold end_of_headers. eapply triple_and_then; [apply keeps_call_begin|].
  eapply triple_and_then; [apply keeps_modify; by intros m u e []|].
  intros c Hc. pose proof Hc as [_ Hn].
  destruct (0 <=? content_length (mp_part (self c))) eqn:E0;
    [|eapply triple_at; [|exact Hc]; by apply keeps_modify; intros m u e []].
  set (n := content_length (mp_part (self c))) in *. clearbody n. revert c Hc Hn.
  enough (keeps (modify (mp_on_part (part_set_remaining n)) &> λ c,
     if n =? 0 then
       let '(st, c) := lonejson__multipart_call_end handler c in
       (st, mk_ctx (mp_set_phase MULTIPART_EXPECT_BOUNDARY
                      (lonejson__multipart_reset_part (self c))) (user c) (error c))
     else modify (mp_set_phase MULTIPART_BODY_LENGTH) c) ∨ INT64_MAX < n) as [H|H].
  { intros c Hc _. by apply H. } { intros c _ Hn. lia. }
  destruct (decide (INT64_MAX < n)) as [|Hn]; [by right|left].
  eapply triple_and_then.
  - apply keeps_modify. intros m u e [H1 H2]. split; simpl; [lia|done].
  - intros c Hc. destruct (n =? 0).
    + destruct (lonejson__multipart_call_end handler c) as [st c'].
      case_decide; apply (reset_counts (self c') (user c') (error c')).
    + apply (keeps_modify (mp_set_phase MULTIPART_BODY_LENGTH)); [|done]. by intros m u e [].
Qed.

Lemma keeps_finish_line : keeps (mp_finish_line handler).
Proof.
  assert (keeps (lonejson__multipart_process_line handler)) as H.
  { intros c Hc. unfold lonejson__multipart_process_line.
    destruct (mp_phase (self c)); try done; destruct (_ =? 0); try done.
    - destruct (bool_decide _).
      { apply (keeps_modify (λ m, mp_set_phase MULTIPART_HEADERS
          (lonejson__multipart_reset_part m))); [|done].
        intros; split; [split|]; done. }
      destruct (bool_decide _); [|by apply keeps_fail].
      apply (keeps_modify (λ m, mp_set_closed (mp_set_phase MULTIPART_DONE m))); [|done].
      by intros m u e [].
    - by apply keeps_end_of_headers.
    - by apply keeps_header_line. }
  intros c Hc. specialize (H c Hc). unfold mp_finish_line.
  by destruct (lonejson__multipart_process_line handler c) as [st c'].
Qed.

Lemma keeps_feed_line ch : keeps (lonejson__multipart_feed_line_char handler ch).
Proof.
  assert (∀ v, keeps (modify (mp_set_saw_cr v))) as Hcr
    by (intros v; apply keeps_modify; by intros m u e []).
  intros c Hc. unfold lonejson__multipart_feed_line_char. destruct (mp_saw_cr (self c)).
  - eapply triple_at; [|exact Hc]. eapply triple_and_then; [apply Hcr|].
    eapply triple_and_then; [apply keeps_finish_line|].
    destruct (ch =? 10); [apply triple_ok|]. destruct (ch =? 13); [apply Hcr|].
    by apply keeps_append.
  - destruct (ch =? 13); [by apply Hcr|]. destruct (ch =? 10); [by apply keeps_finish_line|].
    by apply keeps_append.
Qed.

Lemma keeps_call_data d : keeps (lonejson__multipart_call_data handler d).
Proof. unfold lonejson__multipart_call_data. destruct (_ =? 0); [apply triple_ok|apply keeps_call]. Qed.

Lemma keeps_call_end : keeps (lonejson__multipart_call_end handler).
Proof. intros c. apply keeps_call. Qed.

Lemma keeps_emit_body n k : keeps (emit_body handler n k).
Proof.
  intros c. unfold emit_body. revert c.
  intros c. eapply triple_and_then; [apply keeps_call_data|].
  apply keeps_modify. by intros m u e [].
Qed.

Lemma keeps_emit_keep n : keeps (emit_keep handler n).
Proof. unfold emit_keep. destruct (0 <? n); [apply keeps_emit_body|apply triple_ok]. Qed.

Lemma keeps_finish_boundary cl : keeps (lonejson__multipart_finish_boundary handler cl).
Proof.
  unfold lonejson__multipart_finish_boundary. eapply triple_and_then; [apply keeps_call_end|].
  eapply triple_and_then; [apply keeps_modify; intros; apply reset_counts|].
  destruct cl; apply keeps_modify; by intros m u e [].
Qed.

Lemma keeps_body_scan before at_pos : keeps (body_scan handler before at_pos).
Proof.
  revert before. induction at_pos as [|ch rest IH]; intros before c; cbn [body_scan].
  - apply keeps_emit_keep.
  - destruct (match last before with None => true | Some p => p =? 10 end); [|apply IH].
    destruct (lonejson__multipart_boundary_line_complete _ _).
    { eapply triple_and_then; [apply keeps_emit_body|apply keeps_finish_boundary]. }
    destruct (lonejson__multipart_boundary_line_complete _ _).
    { eapply triple_and_then; [apply keeps_emit_body|apply keeps_finish_boundary]. }
    destruct (_ || _); [apply keeps_emit_keep|apply IH].
Qed.

Lemma keeps_feed_scan ch : keeps (lonejson__multipart_feed_body_scan_char handler ch).
Proof.
  unfold lonejson__multipart_feed_body_scan_char. eapply triple_and_then; [by apply keeps_append|].
  intros c. apply keeps_body_scan.
Qed.

(** A chunk no longer than the count. *)
Lemma keeps_push_length d (c : state) :
  counts_ok c → zlen d ≤ remaining (mp_part (self c)) →
  let '(st, c') := push_length handler d c in
  counts_ok c' ∧ (st = LONEJSON_STATUS_OK → d = [] → remaining (mp_part (self c)) = 0 →
                  mp_phase (self c') = MULTIPART_EXPECT_BOUNDARY).
Proof.
  intros Hc Hd. unfold push_length, and_then at 1.
  assert (∀ c0 : state, mp_part (self (snd (lonejson__multipart_call_data handler d c0))) =
    mp_part (self c0)) as Hpart.
  { intros c0. unfold lonejson__multipart_call_data. destruct (_ =? 0); [done|].
    unfold call. destruct (_ <$> _); [|done]. destruct (c1 _ _) as [[st u] e].
    case_decide; [|done]. by destruct (callback_error_fails
      "multipart part_data callback failed" (mk_ctx (self c0) u e)) as (_ & -> & _). }
  specialize (Hpart c). pose proof (keeps_call_data d c Hc) as H1.
  destruct (lonejson__multipart_call_data handler d c) as [st1 c1]. simpl in Hpart.
  case_decide as Hst; [|done]. unfold and_then at 1. cbn [modify]. rewrite decide_True by done.
  cbn [self mp_on_part mp_set_part mp_part part_set_remaining remaining]. rewrite Hpart.
  pose proof (zlen_nonneg d).
  assert (counts_ok (mk_ctx (mp_on_part (λ p, part_set_remaining (remaining p - zlen d) p) (self c1))
    (user c1) (error c1))) as Hc1.
  { destruct H1 as [H1 H2], Hc as [H3 H4]. split; simpl; [rewrite Hpart; lia|done]. }
  destruct (_ =? 0) eqn:E.
  - unfold and_then. pose proof (keeps_call_end _ Hc1) as H2.
    destruct (lonejson__multipart_call_end _ _) as [st2 c2].
    case_decide; [|done]. split; [exact (reset_counts (self c2) (user c2) (error c2))|done].
  - split; [done|]. intros _ -> Hrem. change (zlen (@nil Z)) with 0 in E. lia.
Qed.

(** The turns the loop takes at most. *)
Definition turns (p : bytes) (c : state) : nat :=
  2 * length p + (if bool_decide (mp_phase (self c) = MULTIPART_BODY_LENGTH) then 1 else 0).

(** A turn keeps the counts and brings the loop nearer to its end. *)
Lemma turn_progress ch rest (c : state) :
  counts_ok c →
  let '(turn, rest2) := push_turn handler ch rest (self c) in
  counts_ok (turn c).2
  ∧ ((turn c).1 = LONEJSON_STATUS_OK → (turns rest2 (turn c).2 < turns (ch :: rest) c)%nat).
Proof.
  intros Hc. unfold push_turn.
  assert (∀ m : step lonejson_multipart U, keeps m → mp_phase (self c) ≠ MULTIPART_BODY_LENGTH →
    counts_ok (m c).2
    ∧ ((m c).1 = LONEJSON_STATUS_OK → (turns rest (m c).2 < turns (ch :: rest) c)%nat)) as Hbyte.
  { intros m Hm Hph. pose proof (Hm c Hc) as Hk. destruct (m c) as [st c']. simpl.
    split; [by case_decide|]. intros _. unfold turns. simpl. repeat case_bool_decide; done || lia. }
  destruct (mp_phase (self c)) eqn:Eph; try (apply Hbyte; [|done]);
    auto using keeps_feed_line, keeps_feed_scan.
  pose proof Hc as [[Hr1 Hr2] _]. rewrite u64_small by (unfold is_u64; lia). cbn zeta.
  set (k := if _ <? _ then _ else _). pose proof (zlen_nonneg rest). pose proof (zlen_cons ch rest).
  assert (0 ≤ k ≤ remaining (mp_part (self c)) ∧ k ≤ zlen (ch :: rest)
    ∧ (k = 0 → remaining (mp_part (self c)) = 0)) as (Hk1 & Hk2 & Hk3).
  { unfold k. destruct (_ <? _) eqn:E; lia. }
  pose proof (keeps_push_length (take (Z.to_nat k) (ch :: rest)) c Hc) as Hpl.
  destruct (push_length _ _ _) as [st c']. simpl.
  destruct Hpl as [Hc' Hphase]; [unfold zlen; rewrite length_take; lia|].
  split; [done|]. intros ->. unfold turns.
  rewrite Eph, (bool_decide_eq_true_2 (MULTIPART_BODY_LENGTH = _)) by done.
  rewrite length_drop. simpl. destruct (decide (k = 0)) as [Hk0|Hk0];
    [rewrite Hk0, Hphase by (rewrite ?Hk0; auto); simpl; lia|case_bool_decide; lia].
Qed.

Lemma push_loop_done f p (c : state) :
  counts_ok c → (turns p c ≤ f)%nat →
  ∃ st c', push_loop handler f p c = Done (st, c') ∧ counts_ok c'
           ∧ ∀ f', (turns p c ≤ f')%nat → push_loop handler f' p c = Done (st, c').
Proof.
  revert p c. induction f as [|f IH]; intros p c Hc Hf.
  { destruct p; [|unfold turns in Hf; simpl in Hf; lia].
    eexists _, _. split_and!; [done|done|by intros []]. }
  destruct p as [|ch rest]; [eexists _, _; split_and!; [done|done|by intros []]|].
  pose proof (turn_progress ch rest c Hc) as Ht.
  assert (∀ f', (turns (ch :: rest) c ≤ f')%nat → ∃ f2, f' = S f2) as Hpos.
  { intros [|f2]; [unfold turns; simpl; lia|eauto]. }
  cbn [push_loop]. destruct (push_turn handler ch rest (self c)) as [turn rest2] eqn:Et.
  destruct Ht as [Hc1 Hlt], (turn c) as [st c1] eqn:E1. simpl in Hc1, Hlt.
  case_decide as Hst.
  - destruct (IH rest2 c1 Hc1) as (st' & c' & -> & Hc' & Hall); [specialize (Hlt Hst); lia|].
    exists st', c'. split_and!; [done..|]. intros f' Hf'. destruct (Hpos f' Hf') as [f2 ->].
    cbn [push_loop]. rewrite Et, E1, decide_True by done. apply Hall. specialize (Hlt Hst). lia.
  - exists st, c1. split_and!; [done..|]. intros f' Hf'. destruct (Hpos f' Hf') as [f2 ->].
    cbn [push_loop]. by rewrite Et, E1, decide_False.
Qed.
End termination.

(** C34 (termination): the loop of [lonejson_multipart_push] ends.  Whatever the
    input, the handler and the outcome, it returns within the [push_fuel] turns
    that [lonejson_multipart_push] gives it (a count of zero ends its body
    instead of spinning), more fuel gives the same result, and the counts it
    relies on stay in range for the next push.  A loop cut off before its end
    has no result. *)
Theorem push_loop_terminates {U} (handler : option (lonejson_multipart_handler U))
    p (c : ctx_of lonejson_multipart U) :
  counts_ok c →
  ∃ st c', push_loop handler (push_fuel p) p c = Done (st, c') ∧ counts_ok c'
           ∧ ∀ fuel, (push_fuel p ≤ fuel)%nat → push_loop handler fuel p c = Done (st, c').
Proof.
  intros Hc. assert (turns p c ≤ push_fuel p)%nat as Ht.
  { unfold turns, push_fuel. case_bool_decide; lia. }
  destruct (push_loop_done handler (push_fuel p) p c Hc Ht) as (st & c' & H & Hc' & Hall).
  exists st, c'. split_and!; [done..|]. intros fuel Hf. apply Hall. lia.
Qed.

Lemma push_loop_terminates_witness
    (c := mk_ctx (mp_set_part (part_set_remaining 3 part_zero)
            (mp_set_phase MULTIPART_BODY_LENGTH
               (multipart_zero lonejson_default_multipart_options fresh_allocator))) tt None) :
  ∃ st c', push_loop None (push_fuel (c_str "abcd")) (c_str "abcd") c = Done (st, c')
           ∧ counts_ok c'
           ∧ ∀ fuel, (push_fuel (c_str "abcd") ≤ fuel)%nat →
                     push_loop None fuel (c_str "abcd") c = Done (st, c').
Proof. apply (push_loop_terminates None (c_str "abcd") c). repeat split; discriminate. Defined.
