(* ===== verification/Unicode.v ===== *)
(** * Unicode: [\u] escapes, surrogate pairs and UTF-8

    Models [lonejson__hex_value] and [lonejson__decode_unicode_quad]
    ([src/impl/22_parser_engine.h]), [lonejson__scratch_reserve] and
    [lonejson__scratch_append_bytes] ([src/impl/20_parser.h]) and
    [lonejson__utf8_append] ([src/impl/20_parser_map.h]), which every string
    decoder of the library shares.  The specification side is a strict UTF-8
    decoder written from RFC 3629: no overlong forms, no surrogates, nothing
    above U+10FFFF. *)

From stdpp Require Import base numbers list strings.
From Stdlib Require Import ZArith Lia.
From S2P Require Import Prelude.

(** ** Hexadecimal digits *)

Definition lonejson__hex_value (ch : Z) : Z :=
  if ("0"%ch <=? ch) && (ch <=? "9"%ch) then ch - "0"%ch
  else if ("a"%ch <=? ch) && (ch <=? "f"%ch) then 10 + (ch - "a"%ch)
  else if ("A"%ch <=? ch) && (ch <=? "F"%ch) then 10 + (ch - "A"%ch)
  else -1.

(** [cp = (cp << 4u) | (lonejson_uint32)hv] *)
Definition push_hex (cp hv : Z) : Z := Z.lor (u32 (Z.shiftl cp 4)) hv.

(** [src] holds at least four bytes; [None] is a result of 0. *)
Definition lonejson__decode_unicode_quad (src : bytes) : option Z :=
  match src with
  | s0 :: s1 :: s2 :: s3 :: _ =>
      let hv := lonejson__hex_value s0 in
      if hv <? 0 then None else
      let cp := push_hex 0 hv in
      let hv := lonejson__hex_value s1 in
      if hv <? 0 then None else
      let cp := push_hex cp hv in
      let hv := lonejson__hex_value s2 in
      if hv <? 0 then None else
      let cp := push_hex cp hv in
      let hv := lonejson__hex_value s3 in
      if hv <? 0 then None else
      Some (push_hex cp hv)
  | _ => None
  end.

(** The pair test and the combination written in each string decoder:
    [cp = 0x10000u + (((cp - 0xD800u) << 10u) | (low - 0xDC00u))]. *)
Definition is_high_surrogate (cp : Z) : bool := (0xD800 <=? cp) && (cp <=? 0xDBFF).
Definition is_low_surrogate (cp : Z) : bool := (0xDC00 <=? cp) && (cp <=? 0xDFFF).
Definition combine_surrogates (high low : Z) : Z :=
  u32 (0x10000 + Z.lor (u32 (Z.shiftl (high - 0xD800) 10)) (low - 0xDC00)).

(** ** The scratch buffer

    [data] holds the [len] bytes written; [cap] is the size of the storage. *)

Record lonejson_scratch := mk_scratch { scratch_data : bytes; scratch_cap : Z }.

Definition scratch_len (scratch : lonejson_scratch) : Z := zlen (scratch_data scratch).

Definition lonejson__scratch_reserve (scratch : lonejson_scratch) (need : Z) : bool :=
  u64 (need + 1) <=? scratch_cap scratch.

Definition lonejson__scratch_append_bytes (scratch : lonejson_scratch) (src : bytes) :
    option lonejson_scratch :=
  if negb (lonejson__scratch_reserve scratch (u64 (scratch_len scratch + zlen src + 1)))
  then None
  else Some (mk_scratch (scratch_data scratch ++ src) (scratch_cap scratch)).

(** The bytes stored for [cp]; [char] stores keep the low eight bits. *)
Definition utf8_bytes (cp : Z) : option bytes :=
  if cp <=? 0x7F then Some [u8 cp]
  else if cp <=? 0x7FF then
    Some [u8 (Z.lor 0xC0 (Z.shiftr cp 6)); u8 (Z.lor 0x80 (Z.land cp 0x3F))]
  else if cp <=? 0xFFFF then
    Some [u8 (Z.lor 0xE0 (Z.shiftr cp 12)); u8 (Z.lor 0x80 (Z.land (Z.shiftr cp 6) 0x3F));
          u8 (Z.lor 0x80 (Z.land cp 0x3F))]
  else if cp <=? 0x10FFFF then
    Some [u8 (Z.lor 0xF0 (Z.shiftr cp 18)); u8 (Z.lor 0x80 (Z.land (Z.shiftr cp 12) 0x3F));
          u8 (Z.lor 0x80 (Z.land (Z.shiftr cp 6) 0x3F)); u8 (Z.lor 0x80 (Z.land cp 0x3F))]
  else None.

Definition lonejson__utf8_append (scratch : lonejson_scratch) (cp : Z) :
    option lonejson_scratch :=
  match utf8_bytes cp with
  | None => None
  | Some dst =>
      if negb (lonejson__scratch_reserve scratch (u64 (scratch_len scratch + zlen dst + 1)))
      then None
      else Some (mk_scratch (scratch_data scratch ++ dst) (scratch_cap scratch))
  end.

(** ** Specification: RFC 3629 *)

Definition is_scalar (cp : Z) : Prop := 0 ≤ cp ≤ 0x10FFFF ∧ ¬ (0xD800 ≤ cp ≤ 0xDFFF).

Definition is_cont (b : Z) : bool := (0x80 <=? b) && (b <=? 0xBF).

(** The shortest-form and surrogate tests on a decoded value. *)
Definition utf8_check (lo cp : Z) (rest : bytes) : option (Z * bytes) :=
  if (lo <=? cp) && (cp <=? 0x10FFFF) && negb ((0xD800 <=? cp) && (cp <=? 0xDFFF))
  then Some (cp, rest) else None.

(** The first scalar value of a UTF-8 text, and what follows it. *)
Definition utf8_decode (l : bytes) : option (Z * bytes) :=
  match l with
  | [] => None
  | b0 :: l1 =>
      if (0 <=? b0) && (b0 <? 0x80) then Some (b0, l1)
      else match l1 with
      | [] => None
      | b1 :: l2 =>
          if negb (is_cont b1) then None
          else if (0xC0 <=? b0) && (b0 <? 0xE0) then
            utf8_check 0x80 ((b0 - 0xC0) * 64 + (b1 - 0x80)) l2
          else match l2 with
          | [] => None
          | b2 :: l3 =>
              if negb (is_cont b2) then None
              else if (0xE0 <=? b0) && (b0 <? 0xF0) then
                utf8_check 0x800 (((b0 - 0xE0) * 64 + (b1 - 0x80)) * 64 + (b2 - 0x80)) l3
              else match l3 with
              | [] => None
              | b3 :: l4 =>
                  if negb (is_cont b3) then None
                  else if (0xF0 <=? b0) && (b0 <? 0xF8) then
                    utf8_check 0x10000
                      ((((b0 - 0xF0) * 64 + (b1 - 0x80)) * 64 + (b2 - 0x80)) * 64 + (b3 - 0x80)) l4
                  else None
              end
          end
      end
  end.

(** The value of four hexadecimal digits. *)
Definition hex_quad (a b c d : Z) : Z :=
  ((lonejson__hex_value a * 16 + lonejson__hex_value b) * 16 + lonejson__hex_value c) * 16
  + lonejson__hex_value d.

Definition is_hex (c : Z) : bool := 0 <=? lonejson__hex_value c.

(** The two halves of the UTF-16 form of a scalar value above U+FFFF. *)
Definition high_of (cp : Z) : Z := 0xD800 + (cp - 0x10000) / 1024.
Definition low_of (cp : Z) : Z := 0xDC00 + (cp - 0x10000) mod 1024.

(** ** Lemmas *)

Lemma hex_value_range ch : -1 ≤ lonejson__hex_value ch ≤ 15.
Proof. unfold lonejson__hex_value. repeat case_if; lia. Qed.

Lemma u32_small z : 0 ≤ z < 4294967296 → u32 z = z.
Proof. unfold u32. apply Z.mod_small. Qed.

Lemma push_hex_add cp hv : 0 ≤ cp < 268435456 → 0 ≤ hv < 16 → push_hex cp hv = cp * 16 + hv.
Proof.
  intros. unfold push_hex. rewrite Z.shiftl_mul_pow2 by lia. rewrite u32_small by lia.
  rewrite <- Z.shiftl_mul_pow2 by lia. apply lor_shiftl_add; lia.
Qed.

Lemma hex_quad_range a b c d :
  is_hex a = true → is_hex b = true → is_hex c = true → is_hex d = true →
  0 ≤ hex_quad a b c d ≤ 0xFFFF.
Proof.
  unfold is_hex, hex_quad. pose proof (hex_value_range a). pose proof (hex_value_range b).
  pose proof (hex_value_range c). pose proof (hex_value_range d). lia.
Qed.

(** The digit loop computes the positional value. *)
Lemma push_hex_quad a b c d :
  is_hex a = true → is_hex b = true → is_hex c = true → is_hex d = true →
  push_hex (push_hex (push_hex (push_hex 0 (lonejson__hex_value a)) (lonejson__hex_value b))
    (lonejson__hex_value c)) (lonejson__hex_value d) = hex_quad a b c d.
Proof.
  unfold is_hex, hex_quad. pose proof (hex_value_range a). pose proof (hex_value_range b).
  pose proof (hex_value_range c). pose proof (hex_value_range d). intros.
  rewrite (push_hex_add 0) by lia. rewrite (push_hex_add (_ + _)) by lia.
  rewrite (push_hex_add (_ + _)) by lia. rewrite (push_hex_add (_ + _)) by lia. lia.
Qed.

Lemma combine_surrogates_add high low :
  is_high_surrogate high = true → is_low_surrogate low = true →
  combine_surrogates high low = 0x10000 + (high - 0xD800) * 1024 + (low - 0xDC00).
Proof.
  unfold is_high_surrogate, is_low_surrogate, combine_surrogates. intros.
  rewrite (u32_small (Z.shiftl _ _)) by (rewrite Z.shiftl_mul_pow2; lia).
  rewrite lor_shiftl_add by lia. rewrite u32_small; lia.
Qed.

Lemma combine_surrogates_scalar high low :
  is_high_surrogate high = true → is_low_surrogate low = true →
  is_scalar (combine_surrogates high low).
Proof.
  intros H1 H2. rewrite combine_surrogates_add by done.
  unfold is_high_surrogate, is_low_surrogate, is_scalar in *. lia.
Qed.

(** A lead or continuation byte is a sum. *)
Lemma lor_80 x : 0 ≤ x < 64 → Z.lor 0x80 x = 0x80 + x.
Proof. intros. change 0x80 with (Z.shiftl 2 6) at 1. rewrite lor_shiftl_add; lia. Qed.
Lemma lor_c0 x : 0 ≤ x < 32 → Z.lor 0xC0 x = 0xC0 + x.
Proof. intros. change 0xC0 with (Z.shiftl 6 5) at 1. rewrite lor_shiftl_add; lia. Qed.
Lemma lor_e0 x : 0 ≤ x < 16 → Z.lor 0xE0 x = 0xE0 + x.
Proof. intros. change 0xE0 with (Z.shiftl 14 4) at 1. rewrite lor_shiftl_add; lia. Qed.
Lemma lor_f0 x : 0 ≤ x < 8 → Z.lor 0xF0 x = 0xF0 + x.
Proof. intros. change 0xF0 with (Z.shiftl 30 3) at 1. rewrite lor_shiftl_add; lia. Qed.
Lemma land_3f x : Z.land x 0x3F = x mod 64.
Proof. by apply (land_ones_mod x 6). Qed.

(** The stored bytes as arithmetic. *)
Lemma utf8_bytes_arith cp :
  0 ≤ cp ≤ 0x10FFFF →
  utf8_bytes cp = Some
    (if cp <=? 0x7F then [cp]
     else if cp <=? 0x7FF then [0xC0 + cp / 64; 0x80 + cp mod 64]
     else if cp <=? 0xFFFF then
       [0xE0 + cp / 4096; 0x80 + (cp / 64) mod 64; 0x80 + cp mod 64]
     else [0xF0 + cp / 262144; 0x80 + (cp / 4096) mod 64; 0x80 + (cp / 64) mod 64;
           0x80 + cp mod 64]).
Proof.
  intros Hcp. unfold utf8_bytes. rewrite !land_3f, !shiftr_div by lia.
  change (2 ^ 6) with 64. change (2 ^ 12) with 4096. change (2 ^ 18) with 262144.
  pose proof (Z.mod_pos_bound cp 64 ltac:(lia)).
  pose proof (Z.mod_pos_bound (cp / 64) 64 ltac:(lia)).
  pose proof (Z.mod_pos_bound (cp / 4096) 64 ltac:(lia)).
  repeat case_if; rewrite ?lor_80 by lia; [| | | |lia].
  - rewrite u8_small by (unfold is_byte; lia). done.
  - rewrite lor_c0 by (Z.div_mod_to_equations; lia).
    rewrite !u8_small by (unfold is_byte; Z.div_mod_to_equations; lia). done.
  - rewrite lor_e0 by (Z.div_mod_to_equations; lia).
    rewrite !u8_small by (unfold is_byte; Z.div_mod_to_equations; lia). done.
  - rewrite lor_f0 by (Z.div_mod_to_equations; lia).
    rewrite !u8_small by (unfold is_byte; Z.div_mod_to_equations; lia). done.
Qed.

Lemma utf8_bytes_length cp l : utf8_bytes cp = Some l → 1 ≤ zlen l ≤ 4.
Proof. unfold utf8_bytes. intros H. repeat case_if; simplify_eq; unfold zlen; simpl; lia. Qed.

Lemma utf8_decode_encode cp l rest :
  is_scalar cp → utf8_bytes cp = Some l → utf8_decode (l ++ rest) = Some (cp, rest).
Proof.
  intros [Hcp Hs]. rewrite utf8_bytes_arith by done. intros [= <-].
  pose proof (Z.mod_pos_bound cp 64 ltac:(lia)).
  pose proof (Z.mod_pos_bound (cp / 64) 64 ltac:(lia)).
  pose proof (Z.mod_pos_bound (cp / 4096) 64 ltac:(lia)).
  assert (∀ x y : Z, x = y → (0xD800 <=? x) && (x <=? 0xDFFF) = (0xD800 <=? y) && (y <=? 0xDFFF))
    by (by intros ?? ->).
  repeat case_if; cbn [app utf8_decode]; unfold is_cont, utf8_check;
    repeat match goal with
    | |- context [if ?b then _ else _] =>
        first [ replace b with true by (symmetry; Z.div_mod_to_equations; lia)
              | replace b with false by (symmetry; Z.div_mod_to_equations; lia) ]
    end; f_equal; f_equal; Z.div_mod_to_equations; lia.
Qed.

(** A code point above U+10FFFF is refused, and so is a scratch buffer without
    two bytes of slack; nothing else is. *)
Lemma utf8_append_Some scratch cp bs :
  utf8_bytes cp = Some bs →
  scratch_len scratch + zlen bs + 2 ≤ scratch_cap scratch → scratch_cap scratch ≤ SIZE_MAX →
  lonejson__utf8_append scratch cp
  = Some (mk_scratch (scratch_data scratch ++ bs) (scratch_cap scratch)).
Proof.
  intros Hb Hc Hm. unfold lonejson__utf8_append. rewrite Hb.
  unfold lonejson__scratch_reserve, scratch_len in *.
  pose proof (zlen_nonneg (scratch_data scratch)). pose proof (zlen_nonneg bs).
  rewrite (u64_small (_ + zlen bs + 1)), u64_small by zlia.
  replace (_ <=? _) with true by lia. done.
Qed.

(** The digits a JSON writer uses for a 16-bit unit. *)
Definition hex_digit (d : Z) : Z := if d <? 10 then "0"%ch + d else "a"%ch + (d - 10).
Definition hex4 (n : Z) : bytes :=
  [hex_digit (n / 4096 mod 16); hex_digit (n / 256 mod 16); hex_digit (n / 16 mod 16);
   hex_digit (n mod 16)].

Lemma hex_value_digit d : 0 ≤ d < 16 → lonejson__hex_value (hex_digit d) = d.
Proof.
  intros. unfold hex_digit. case_if; unfold lonejson__hex_value.
  - replace (_ && _) with true by lia. lia.
  - replace (_ && _) with false by lia. replace (_ && _) with true by lia. lia.
Qed.

Lemma is_hex_ltb c : (lonejson__hex_value c <? 0) = negb (is_hex c).
Proof. unfold is_hex. lia. Qed.

(** Four digits decode to their value, whatever follows; anything else is refused. *)
Lemma decode_unicode_quad_spec a b c d rest :
  lonejson__decode_unicode_quad (a :: b :: c :: d :: rest)
  = if is_hex a && is_hex b && is_hex c && is_hex d then Some (hex_quad a b c d) else None.
Proof.
  cbn [lonejson__decode_unicode_quad]. rewrite !is_hex_ltb.
  destruct (is_hex a) eqn:Ha, (is_hex b) eqn:Hb, (is_hex c) eqn:Hc, (is_hex d) eqn:Hd;
    cbn [negb andb]; try done.
  f_equal. by apply push_hex_quad.
Qed.

Lemma decode_hex4 n rest :
  0 ≤ n ≤ 0xFFFF → lonejson__decode_unicode_quad (hex4 n ++ rest) = Some n.
Proof.
  intros Hn. unfold hex4. cbn [app]. rewrite decode_unicode_quad_spec.
  pose proof (Z.mod_pos_bound (n / 4096) 16 ltac:(lia)).
  pose proof (Z.mod_pos_bound (n / 256) 16 ltac:(lia)).
  pose proof (Z.mod_pos_bound (n / 16) 16 ltac:(lia)).
  pose proof (Z.mod_pos_bound n 16 ltac:(lia)).
  unfold is_hex, hex_quad. rewrite !hex_value_digit by lia.
  replace (_ && _) with true by lia. f_equal. Z.div_mod_to_equations. lia.
Qed.

(** Both halves of a supplementary code point are surrogates and combine to it. *)
Lemma combine_halves cp :
  0x10000 ≤ cp ≤ 0x10FFFF →
  is_high_surrogate (high_of cp) = true ∧ is_low_surrogate (low_of cp) = true
  ∧ combine_surrogates (high_of cp) (low_of cp) = cp.
Proof.
  intros Hcp.
  assert (is_high_surrogate (high_of cp) = true) as H1.
  { unfold is_high_surrogate, high_of. Z.div_mod_to_equations; lia. }
  assert (is_low_surrogate (low_of cp) = true) as H2.
  { unfold is_low_surrogate, low_of. Z.div_mod_to_equations; lia. }
  split_and!; [done..|]. rewrite combine_surrogates_add by done.
  unfold high_of, low_of. Z.div_mod_to_equations; lia.
Qed.

(** ** Properties *)

(** C31: a [\u] escape survives.  For every Unicode scalar value, the four-digit
    escape (below U+10000) or the surrogate pair of two four-digit escapes is
    decoded to that value by [lonejson__decode_unicode_quad] and the pair
    arithmetic, and [lonejson__utf8_append] then adds bytes that a strict RFC
    3629 decoder reads back as the same value, provided the scratch buffer has
    the two bytes of slack the reservation asks for. *)
Theorem unicode_escape_roundtrip cp scratch rest :
  is_scalar cp → scratch_len scratch + 6 ≤ scratch_cap scratch ≤ SIZE_MAX →
  (if cp <=? 0xFFFF
   then lonejson__decode_unicode_quad (hex4 cp ++ rest) = Some cp
        ∧ is_high_surrogate cp = false ∧ is_low_surrogate cp = false
   else ∃ high low,
        lonejson__decode_unicode_quad (hex4 high ++ rest) = Some high
        ∧ lonejson__decode_unicode_quad (hex4 low ++ rest) = Some low
        ∧ is_high_surrogate high = true ∧ is_low_surrogate low = true
        ∧ combine_surrogates high low = cp)
  ∧ ∃ out : list Z, lonejson__utf8_append scratch cp
           = Some (mk_scratch (scratch_data scratch ++ out) (scratch_cap scratch))
         ∧ utf8_decode (out ++ rest) = Some (cp, rest).
Proof.
  intros Hs Hcap. pose proof Hs as [Hcp Hns]. split.
  - case_if.
    + rewrite decode_hex4 by lia. unfold is_high_surrogate, is_low_surrogate.
      split_and!; [done|lia..].
    + destruct (combine_halves cp) as (H1 & H2 & H3); [lia|].
      exists (high_of cp), (low_of cp). unfold is_high_surrogate, is_low_surrogate in *.
      rewrite !decode_hex4 by lia. split_and!; done || lia.
  - pose proof (utf8_bytes_arith cp Hcp) as Hb.
    match type of Hb with _ = Some ?o => exists o end. pose proof (utf8_bytes_length _ _ Hb). split.
    + apply utf8_append_Some; [done|lia..].
    + by apply utf8_decode_encode.
Qed.

Lemma unicode_escape_roundtrip_witness :
  is_scalar 0x1F600
  ∧ ∃ out : list Z, lonejson__utf8_append (mk_scratch [] 6) 0x1F600
           = Some (mk_scratch ([] ++ out) 6) ∧ utf8_decode (out ++ [65]) = Some (0x1F600, [65]).
Proof.
  split; [unfold is_scalar; lia|].
  refine (proj2 (unicode_escape_roundtrip 0x1F600 (mk_scratch [] 6) [65] _ _));
    [unfold is_scalar; lia | unfold scratch_len; simpl; split; vm_compute; discriminate].
Defined.
