(* ===== verification/Number.v ===== *)
(** * Number: JSON number tokens

    Models the character classes [lonejson__is_json_space] and
    [lonejson__is_digit] ([src/impl/20_parser.h]), the validator
    [lonejson__is_valid_json_number] ([src/impl/22_parser_engine.h]) and the
    integer conversions [lonejson__parse_i64_token] and
    [lonejson__parse_u64_token] ([src/impl/21_parser_values.h]).  The
    specification is the number grammar of RFC 8259 and unbounded decimal
    arithmetic. *)

From stdpp Require Import base numbers list strings.
From Stdlib Require Import ZArith Lia Bool.
From S2P Require Import Prelude.

(** ** Character classes *)

Definition lonejson__is_json_space (ch : Z) : bool :=
  (ch =? 32) || (ch =? 9) || (ch =? 10) || (ch =? 13).

Definition lonejson__is_digit (ch : Z) : bool := ("0"%ch <=? ch) && (ch <=? "9"%ch).

(** ** The validator

    [value + i] is the list of the bytes left, so that [i == len] is the empty
    list and the two digit loops are [drop_while]. *)

(** [i++; if (i == len || !is_digit(value[i])) return 0; while (...) i++;] after
    the caller's [i++]: [None] is the early return. *)
Definition number_digits (value : bytes) : option bytes :=
  match value with
  | [] => None
  | d :: _ =>
      if negb (lonejson__is_digit d) then None else Some (drop_while lonejson__is_digit value)
  end.

(** From [if (i < len && (value[i] == 'e' || value[i] == 'E'))] on. *)
Definition number_exponent (value : bytes) : bool :=
  match value with
  | [] => true
  | c :: v =>
      if (c =? "e"%ch) || (c =? "E"%ch) then
        let v := match v with
                 | s :: v' => if (s =? "+"%ch) || (s =? "-"%ch) then v' else v
                 | [] => v
                 end in
        match number_digits v with
        | None => false
        | Some v => bool_decide (v = [])
        end
      else false
  end.

(** From [if (i < len && value[i] == '.')] on. *)
Definition number_fraction (value : bytes) : bool :=
  match value with
  | c :: v =>
      if c =? "."%ch then
        match number_digits v with
        | None => false
        | Some v => number_exponent v
        end
      else number_exponent value
  | [] => number_exponent value
  end.

Definition number_integer (value : bytes) : bool :=
  match value with
  | [] => false
  | c :: v =>
      if c =? "0"%ch then
        match v with
        | d :: _ => if lonejson__is_digit d then false else number_fraction v
        | [] => number_fraction v
        end
      else if negb (lonejson__is_digit c) then false
      else number_fraction (drop_while lonejson__is_digit value)
  end.

Definition lonejson__is_valid_json_number (value : bytes) : bool :=
  match value with
  | [] => false
  | c :: v => if c =? "-"%ch then number_integer v else number_integer value
  end.

(** ** Integer conversions

    [value] is a C string; [None] is a result of 0. *)

(** [*p == '0' && p[1] != '\0'] *)
Definition leading_zero (p : bytes) : bool :=
  match p with
  | c :: _ :: _ => c =? "0"%ch
  | _ => false
  end.

Definition lonejson__parse_i64_token (value : bytes) : option Z :=
  match c_string value with
  | [] => None
  | c :: p' =>
      let negative := c =? "-"%ch in
      let p := if negative then p' else c :: p' in
      if negative && bool_decide (p = []) then None
      else if leading_zero p then None
      else
        let max_u64 := UINT64_MAX in
        let limit := if negative then u64 (Z.shiftr max_u64 1 + 1) else Z.shiftr max_u64 1 in
        match decimal_loop limit p 0 with
        | Dec_ok acc =>
            if negative then
              if acc =? u64 (Z.shiftr max_u64 1 + 1) then Some (- (acc - 1) - 1)
              else Some (- acc)
            else Some acc
        | _ => None
        end
  end.

Definition lonejson__parse_u64_token (value : bytes) : option Z :=
  match c_string value with
  | [] => None
  | (c :: _) as p =>
      if c =? "-"%ch then None
      else if leading_zero p then None
      else match decimal_loop UINT64_MAX p 0 with
           | Dec_ok acc => Some acc
           | _ => None
           end
  end.

(** ** Printing *)

(** [do ... while (value != 0u)]: the decimal digits, most significant first.
    Twenty digits are enough for 64 bits.  (The writer and the serializer have copies
    of this loop.) *)
Fixpoint format_digits (fuel : nat) (value : Z) (digits : bytes) : bytes :=
  match fuel with
  | O => digits
  | S fuel =>
      let digits := "0"%ch + value mod 10 :: digits in
      let value := value / 10 in
      if value =? 0 then digits else format_digits fuel value digits
  end.

(** ** Specification: RFC 8259, section 6 *)

Definition json_digits (t : bytes) : Prop := t ≠ [] ∧ all_digits t.

Inductive json_int : bytes → Prop :=
| int_zero : json_int ["0"%ch]
| int_nonzero d ds : "1"%ch ≤ d ≤ "9"%ch → all_digits ds → json_int (d :: ds).

Inductive json_frac : bytes → Prop :=
| frac_none : json_frac []
| frac_some ds : json_digits ds → json_frac ("."%ch :: ds).

Inductive json_sign : bytes → Prop :=
| sign_none : json_sign []
| sign_some c : c = "+"%ch ∨ c = "-"%ch → json_sign [c].

Inductive json_exp : bytes → Prop :=
| exp_none : json_exp []
| exp_some e s ds :
    e = "e"%ch ∨ e = "E"%ch → json_sign s → json_digits ds → json_exp (e :: s ++ ds).

Inductive json_minus : bytes → Prop :=
| minus_none : json_minus []
| minus_some : json_minus ["-"%ch].

(** [number = [ minus ] int [ frac ] [ exp ]] *)
Definition json_number (t : bytes) : Prop :=
  ∃ m i f e, t = m ++ i ++ f ++ e ∧ json_minus m ∧ json_int i ∧ json_frac f ∧ json_exp e.

(** ** Lemmas *)

Lemma all_digits_take_while v : all_digits (take_while lonejson__is_digit v).
Proof. apply take_while_Forall. Qed.

(** The digit loop stops where the digits do. *)
Lemma drop_digits ds rest :
  all_digits ds → (∀ c r, rest = c :: r → lonejson__is_digit c = false) →
  drop_while lonejson__is_digit (ds ++ rest) = rest.
Proof.
  intros Hd Hr. rewrite drop_while_app by done. destruct rest as [|c r]; [done|].
  simpl. by rewrite (Hr c r).
Qed.

Lemma number_digits_Some v v' :
  number_digits v = Some v' → ∃ ds, v = ds ++ v' ∧ json_digits ds.
Proof.
  unfold number_digits. destruct v as [|d v]; [done|]. case_if; [done|].
  remember (d :: v) as w eqn:Hw. intros [= <-].
  exists (take_while lonejson__is_digit w). split; [by rewrite take_drop_while|].
  split; [|apply all_digits_take_while]. subst w. simpl. by destruct (lonejson__is_digit d).
Qed.

Lemma number_digits_app ds rest :
  json_digits ds → (∀ c r, rest = c :: r → lonejson__is_digit c = false) →
  number_digits (ds ++ rest) = Some rest.
Proof.
  intros [Hne Hd] Hr. destruct ds as [|d ds]; [done|]. unfold number_digits. cbn [app].
  pose proof Hd as Hd'. apply Forall_cons in Hd' as [H1 _].
  change (lonejson__is_digit d = true) in H1. rewrite H1. cbn [negb].
  f_equal. by apply (drop_digits (d :: ds)).
Qed.

Lemma number_exponent_spec v : number_exponent v = true ↔ json_exp v.
Proof.
  split.
  - destruct v as [|c v]; [constructor|]. cbn [number_exponent]. case_if; [|done].
    intros H. set (v0 := match v with [] => v | _ => _ end) in H.
    destruct (number_digits v0) as [v'|] eqn:E; [|done].
    apply bool_decide_eq_true in H. subst v'.
    apply number_digits_Some in E as (ds & Hds & Hj). rewrite app_nil_r in Hds.
    assert (∃ s, v = s ++ v0 ∧ json_sign s) as (s & Hs & Hsign).
    { subst v0. destruct v as [|x v]; [exists []; split; [done|constructor]|].
      case_if; [exists [x]|exists []]; (split; [done|constructor]); lia. }
    rewrite Hs, Hds. constructor; [lia|done..].
  - destruct 1 as [|e s ds He Hs Hds]; [done|]. cbn [number_exponent].
    replace ((e =? 101) || (e =? 69)) with true by lia.
    assert (number_digits ds = Some []) as Hn.
    { rewrite <- (app_nil_r ds). by apply number_digits_app. }
    destruct Hs as [|c Hc]; cbn [app].
    + destruct ds as [|d ds]; [by destruct Hds|]. destruct Hds as [_ Hd].
      apply Forall_cons in Hd as [Hd _]. unfold is_digit in Hd.
      replace ((d =? 43) || (d =? 45)) with false by lia. by rewrite Hn.
    + replace ((c =? 43) || (c =? 45)) with true by lia. by rewrite Hn.
Qed.

Lemma json_exp_head v c r : json_exp v → v = c :: r → lonejson__is_digit c = false ∧ c ≠ "."%ch.
Proof. intros [|e s ds He _ _]; [done|]. intros [= <- _]. unfold lonejson__is_digit. lia. Qed.

Lemma number_fraction_spec v :
  number_fraction v = true ↔ ∃ f e, v = f ++ e ∧ json_frac f ∧ json_exp e.
Proof.
  split.
  - destruct v as [|c v]; cbn [number_fraction].
    + intros _. exists [], []. split_and!; [done|constructor..].
    + case_if.
      * destruct (number_digits v) as [v'|] eqn:E; [|done]. rewrite number_exponent_spec.
        apply number_digits_Some in E as (ds & -> & Hj). intros He.
        exists (46 :: ds), v'. assert (c = 46) as -> by lia.
        split_and!; [done|by constructor|done].
      * rewrite number_exponent_spec. intros. exists [], (c :: v). split_and!; [done|constructor|done].
  - intros (f & e & -> & Hf & He). destruct Hf as [|ds Hds]; cbn [app].
    + destruct e as [|c e]; [done|]. cbn [number_fraction].
      destruct (json_exp_head _ c e He eq_refl) as [_ Hc].
      replace (c =? 46) with false by lia. by apply number_exponent_spec.
    + cbn [number_fraction]. rewrite Z.eqb_refl. rewrite number_digits_app; [|done|].
      * by apply number_exponent_spec.
      * intros c r ->. by apply (json_exp_head _ c r He).
Qed.

Lemma json_tail_head f e c r :
  json_frac f → json_exp e → f ++ e = c :: r → lonejson__is_digit c = false.
Proof.
  intros [|ds _] He; cbn [app]; [by apply json_exp_head|]. by intros [= <- _].
Qed.

Lemma number_integer_spec v :
  number_integer v = true ↔
  ∃ i f e, v = i ++ f ++ e ∧ json_int i ∧ json_frac f ∧ json_exp e.
Proof.
  split.
  - destruct v as [|c v]; [done|]. cbn [number_integer]. case_if.
    + intros H. assert (number_fraction v = true) as Hf.
      { destruct v as [|d v]; [done|]. by case_if. }
      apply number_fraction_spec in Hf as (f & e & -> & ? & ?).
      exists [48], f, e. assert (c = 48) as -> by lia. split_and!; [done|constructor|done..].
    + case_if; [done|]. rewrite number_fraction_spec. intros (f & e & Hv & ? & ?).
      exists (take_while lonejson__is_digit (c :: v)), f, e.
      rewrite <- Hv, take_drop_while. split_and!; [done| |done..].
      unfold lonejson__is_digit in *. cbn [take_while]. case_if; [|lia].
      constructor; [lia|apply take_while_Forall].
  - intros (i & f & e & -> & Hi & Hf & He). pose proof (json_tail_head f e) as Hh.
    destruct Hi as [|d ds Hd Hds]; cbn [app number_integer].
    + rewrite Z.eqb_refl. assert (number_fraction (f ++ e) = true) as Hfe
        by (apply number_fraction_spec; eauto).
      destruct (f ++ e) as [|c r] eqn:E; [done|]. by rewrite (Hh c r).
    + replace (d =? 48) with false by lia. unfold lonejson__is_digit at 1.
      replace (negb _) with false by lia. change (d :: ds ++ f ++ e) with ((d :: ds) ++ f ++ e).
      rewrite drop_digits; [apply number_fraction_spec; eauto| |eauto].
      constructor; [unfold is_digit; lia|done].
Qed.

Lemma is_valid_json_number_spec t : lonejson__is_valid_json_number t = true ↔ json_number t.
Proof.
  unfold json_number. split.
  - destruct t as [|c v]; [done|]. cbn [lonejson__is_valid_json_number].
    case_if; rewrite number_integer_spec; intros (i & f & e & H & ? & ? & ?).
    + assert (c = 45) as -> by lia. subst v. exists [45], i, f, e. split_and!; [done|constructor|done..].
    + exists [], i, f, e. split_and!; [done|constructor|done..].
  - intros (m & i & f & e & -> & Hm & Hi & Hf & He).
    assert (number_integer (i ++ f ++ e) = true) as H
      by (apply number_integer_spec; exists i, f, e; eauto).
    destruct Hm; [|done]. cbn [app].
    destruct Hi as [|d ds Hd Hds]; [done|]. cbn [app lonejson__is_valid_json_number].
    replace (d =? 45) with false by lia. done.
Qed.

(** ** Integers *)

Lemma c_string_id t : Forall (λ b, b ≠ 0) t → c_string t = t.
Proof.
  intros H. unfold c_string. rewrite <- (app_nil_r t) at 1.
  rewrite take_while_app; [by rewrite app_nil_r|]. eapply Forall_impl; [exact H|].
  simpl. intros; lia.
Qed.

Lemma json_int_digits t : json_int t → json_digits t.
Proof.
  intros [|d ds Hd Hds]; (split; [done|]).
  - by repeat constructor.
  - constructor; [unfold is_digit; lia|done].
Qed.

Lemma json_int_number t : json_int t → json_number t.
Proof.
  intros H. exists [], t, [], []. rewrite !app_nil_r. split_and!; [done|constructor|done|constructor..].
Qed.

Lemma json_int_minus t : json_int t → json_number ("-"%ch :: t).
Proof.
  intros H. exists ["-"%ch], t, [], []. rewrite !app_nil_r. split_and!; [done|constructor|done|constructor..].
Qed.

Lemma json_int_nonzero t : json_int t → Forall (λ b, b ≠ 0) t.
Proof.
  intros H%json_int_digits. eapply Forall_impl; [apply H|]. unfold is_digit. simpl. intros; lia.
Qed.

(** The digits of [value], without superfluous zeros, in front of [digits]. *)
Lemma format_digits_spec fuel value digits :
  0 ≤ value < 10 ^ Z.of_nat (S fuel) →
  ∃ front, format_digits (S fuel) value digits = front ++ digits ∧ json_int front
    ∧ decimal_from 0 front = value ∧ (length front ≤ S fuel)%nat ∧ (value ≠ 0 → hd 0 front ≠ "0"%ch).
Proof.
  revert value digits. induction fuel as [|fuel IH]; intros value digits H.
  - exists ["0"%ch + value mod 10]. cbn [format_digits]. change (10 ^ Z.of_nat 1) with 10 in H.
    rewrite Z.div_small, Z.mod_small by lia. cbn [Z.eqb]. unfold decimal_from. cbn [fold_left hd].
    split_and!; [done| |lia|simpl; lia|lia].
    destruct (decide (value = 0)) as [->|]; [constructor|constructor; [lia|constructor]].
  - remember (S fuel) as n eqn:En. cbn [format_digits]. subst n.
    pose proof (Z.mod_pos_bound value 10 ltac:(lia)) as Hm.
    pose proof (Z.div_mod value 10 ltac:(lia)) as Hd.
    destruct (value / 10 =? 0) eqn:E.
    + exists ["0"%ch + value mod 10]. unfold decimal_from. cbn [fold_left hd].
      split_and!; [done| |lia|simpl; lia|lia].
      destruct (decide (value mod 10 = 0)) as [->|]; [constructor|constructor; [lia|constructor]].
    + destruct (IH (value / 10) ("0"%ch + value mod 10 :: digits)) as (front & -> & Hint & Hval & Hlen & Hhd).
      { split; [lia|]. apply Z.div_lt_upper_bound; [lia|]. rewrite Nat2Z.inj_succ, Z.pow_succ_r in H by lia. lia. }
      exists (front ++ ["0"%ch + value mod 10]). specialize (Hhd ltac:(lia)).
      split_and!.
      * by rewrite <- app_assoc.
      * destruct Hint as [|d ds Hd1 Hds]; [by simpl in Hhd|]. apply int_nonzero; [done|].
        apply Forall_app. split; [done|]. repeat constructor. unfold is_digit. lia.
      * unfold decimal_from in *. rewrite fold_left_app, Hval. cbn [fold_left]. lia.
      * rewrite length_app. simpl. lia.
      * intros _. destruct Hint; done.
Qed.

Lemma json_int_iff t : json_int t ↔ json_digits t ∧ leading_zero t = false.
Proof.
  split.
  - intros H. split; [by apply json_int_digits|]. destruct H as [|d ds Hd Hds]; [done|].
    destruct ds; simpl; lia.
  - intros [[Hne Hd] Hz]. destruct t as [|d [|d' t]]; [done|..]; apply Forall_cons in Hd as [H1 H2];
      unfold is_digit in H1; simpl in Hz.
    + destruct (decide (d = 48)) as [->|]; [constructor|constructor; [lia|done]].
    + constructor; [lia|done].
Qed.

(** The shared shape of the two conversions. *)
Lemma unsigned_token limit t n :
  9 ≤ limit ≤ UINT64_MAX → t ≠ [] →
  leading_zero t = false ∧ decimal_loop limit t 0 = Dec_ok n ↔
  json_int t ∧ n = decimal_from 0 t ∧ 0 ≤ n ≤ limit.
Proof.
  intros Hl Hne. rewrite json_int_iff. unfold json_digits.
  rewrite decimal_loop_spec by lia. split.
  - intros (? & Hd & -> & ?). pose proof (decimal_from_ge 0 t ltac:(lia) Hd). split_and!; done || lia.
  - intros (((? & ?) & ?) & -> & ?). split_and!; done || lia.
Qed.

Lemma parse_i64_token_iff value n :
  Forall (λ b, b ≠ 0) value →
  lonejson__parse_i64_token value = Some n ↔
  ∃ negative digits,
    value = (if negative : bool then ["-"%ch] else []) ++ digits
    ∧ json_int digits
    ∧ n = (if negative then - decimal_from 0 digits else decimal_from 0 digits)
    ∧ - 2 ^ 63 ≤ n < 2 ^ 63.
Proof.
  intros Hz. unfold lonejson__parse_i64_token. rewrite c_string_id by done.
  change (u64 (Z.shiftr UINT64_MAX 1 + 1)) with 9223372036854775808.
  change (Z.shiftr UINT64_MAX 1) with INT64_MAX.
  destruct value as [|c p].
  { split; [done|]. intros ([] & ds & H & Hi & _); [done|]. simpl in H. subst. inversion Hi. }
  destruct (c =? 45) eqn:Ec; cbn [andb].
  - assert (c = 45) as -> by lia. case_bool_decide as Hp.
    { subst p. split; [done|]. intros ([] & ds & H & Hi & _); simpl in H; simplify_eq;
        inversion Hi; simplify_eq; lia. }
    trans (leading_zero p = false ∧ decimal_loop 9223372036854775808 p 0 = Dec_ok (- n)).
    { destruct (leading_zero p); [by split; [|intros [? _]]|].
      destruct (decimal_loop _ p 0) as [m| |]; [|by split; [|intros [_ ?]]..].
      replace (if m =? _ then _ else _) with (Some (- m)) by (case_if; f_equal; lia).
      split; [intros [= <-]|intros [_ [= ->]]]; [split; [done|]|]; f_equal; lia. }
    rewrite unsigned_token by done. split.
    + intros (Hi & Hn & Hr). exists true, p. split_and!; done || lia.
    + intros ([] & ds & H & Hi & Hn & Hr); simpl in H; simplify_eq.
      * pose proof (decimal_from_ge 0 _ ltac:(lia) (proj2 (json_int_digits _ Hi))).
        split_and!; done || lia.
      * inversion Hi; simplify_eq; lia.
  - trans (leading_zero (c :: p) = false ∧ decimal_loop INT64_MAX (c :: p) 0 = Dec_ok n).
    { destruct (leading_zero (c :: p)); [by split; [|intros [? _]]|].
      destruct (decimal_loop _ (c :: p) 0) as [m| |]; [|by split; [|intros [_ ?]]..].
      split; [by intros [= <-]|by intros [_ [= <-]]]. }
    rewrite unsigned_token by done. split.
    + intros (Hi & Hn & Hr). exists false, (c :: p). split_and!; done || lia.
    + intros ([] & ds & H & Hi & Hn & Hr); simpl in H; [simplify_eq; lia|]. subst ds.
      pose proof (proj2 (json_int_digits _ Hi)) as Hd.
      pose proof (decimal_from_ge 0 _ ltac:(lia) Hd). split_and!; done || lia.
Qed.

Lemma parse_u64_token_iff value n :
  Forall (λ b, b ≠ 0) value →
  lonejson__parse_u64_token value = Some n ↔
  json_int value ∧ n = decimal_from 0 value ∧ 0 ≤ n < 2 ^ 64.
Proof.
  intros Hz. unfold lonejson__parse_u64_token. rewrite c_string_id by done.
  destruct value as [|c p]; [split; [done|]; intros [Hi _]; inversion Hi|].
  destruct (c =? 45) eqn:Ec.
  { split; [done|]. intros [Hi _]. inversion Hi; simplify_eq; lia. }
  trans (leading_zero (c :: p) = false ∧ decimal_loop UINT64_MAX (c :: p) 0 = Dec_ok n).
  { destruct (leading_zero (c :: p)); [by split; [|intros [? _]]|].
    destruct (decimal_loop _ (c :: p) 0) as [m| |]; [|by split; [|intros [_ ?]]..].
    split; [by intros [= <-]|by intros [_ [= <-]]]. }
  rewrite unsigned_token by done. split; intros (Hi & Hn & Hr); (split_and!; [done|done|lia..]).
Qed.

(** ** Properties *)

(** C30: the number validator accepts exactly the number tokens of RFC 8259: an
    optional minus sign, an integer part without superfluous leading zeros, an
    optional fraction and an optional exponent, each with at least one digit, and
    nothing after them. *)
Theorem valid_number_iff_grammar value :
  lonejson__is_valid_json_number value = true ↔ json_number value.
Proof. apply is_valid_json_number_spec. Qed.

(** C33: the signed 64-bit conversion is exact.  On a C string it returns [n] if
    and only if the string is a JSON integer (an optional minus sign and an
    integer part in RFC 8259 form, no fraction, no exponent) whose value, computed
    without bounds, is [n], and [n] fits in [-2^63 .. 2^63-1]; every other string
    is refused, and no intermediate product wraps. *)
Theorem parse_i64_token_exact value n :
  Forall (λ b, b ≠ 0) value →
  lonejson__parse_i64_token value = Some n ↔
  ∃ negative digits,
    value = (if negative : bool then ["-"%ch] else []) ++ digits
    ∧ json_int digits
    ∧ n = (if negative then - decimal_from 0 digits else decimal_from 0 digits)
    ∧ - 2 ^ 63 ≤ n < 2 ^ 63.
Proof. apply parse_i64_token_iff. Qed.

Lemma parse_i64_token_exact_witness :
  Forall (λ b, b ≠ 0) (c_str "-9223372036854775808")
  ∧ lonejson__parse_i64_token (c_str "-9223372036854775808") = Some (-9223372036854775808).
Proof.
  assert (Forall (λ b, b ≠ 0) (c_str "-9223372036854775808")) as H.
  { apply (bool_decide_unpack _). vm_compute. exact I. }
  split; [exact H|].
  apply (parse_i64_token_exact _ (-9223372036854775808) H).
  exists true, (c_str "9223372036854775808").
  split; [reflexivity|]. split; [|split; [reflexivity|lia]].
  apply int_nonzero; [split; vm_compute; discriminate|]. apply (bool_decide_unpack _). vm_compute. exact I.
Defined.

(** The unsigned 64-bit conversion is exact: on a C string it returns [n] if
    and only if the string is an RFC 8259 integer part without a sign whose
    unbounded value is [n] and [n <= 2^64-1]. *)
Theorem parse_u64_token_exact value n :
  Forall (λ b, b ≠ 0) value →
  lonejson__parse_u64_token value = Some n ↔
  json_int value ∧ n = decimal_from 0 value ∧ 0 ≤ n < 2 ^ 64.
Proof. apply parse_u64_token_iff. Qed.

Lemma parse_u64_token_exact_witness :
  Forall (λ b, b ≠ 0) (c_str "18446744073709551616")
  ∧ lonejson__parse_u64_token (c_str "18446744073709551616") ≠ Some 18446744073709551616.
Proof.
  assert (Forall (λ b, b ≠ 0) (c_str "18446744073709551616")) as H.
  { apply (bool_decide_unpack _). vm_compute. exact I. }
  split; [exact H|]. intros Hs.
  apply (parse_u64_token_exact _ 18446744073709551616 H) in Hs as (_ & _ & Hr). lia.
Defined.
