(* ===== verification/F64.v ===== *)
(** * F64: doubles as decimal text and back

    Models [lonejson__format_f64_text] ([src/impl/24_serializer.h]), the two readers
    of a number token, [lonejson__parse_f64_fast] and [lonejson__assign_f64]
    ([src/impl/21_parser_values.h]), and [lonejson__is_finite_f64]
    ([src/impl/20_parser.h]).  A double is an IEEE binary64 datum of the Standard
    Library's [SpecFloat], with its operations rounded to nearest even; no
    expression is contracted.  [snprintf] with the format %.17g and [strtod] are
    taken to be correctly rounded, as those of the GNU library are. *)

From stdpp Require Import base numbers list strings.
From Stdlib Require Import ZArith Lia Bool SpecFloat.
From S2P Require Import Prelude Number.

(** ** Doubles *)

Abbreviation f64 := spec_float (only parsing).

Definition f64_add : f64 → f64 → f64 := SFadd 53 1024.
Definition f64_mul : f64 → f64 → f64 := SFmul 53 1024.
Definition f64_zero : f64 := S754_zero false.
(** [(double)n] *)
Definition f64_of_Z (n : Z) : f64 := binary_normalize 53 1024 n 0 false.
(** The double nearest to [n / d], for positive [n] and [d]: a literal. *)
Definition f64_ratio (n d : Z) : f64 :=
  let '(q, e, l) := SFdiv_core_binary 53 1024 n 0 d 0 in binary_round_aux 53 1024 false q e l.
(** The literals [1e<k>] and [1e-<k>]. *)
Definition f64_power10 (negative : bool) (k : Z) : f64 :=
  if negative then f64_ratio 1 (10 ^ k) else f64_of_Z (10 ^ k).

Definition DBL_MAX : f64 := SFmax_float 53 1024.

(** The cast to [lonejson_uint64], of a value in range. *)
Definition f64_trunc (x : f64) : Z :=
  match x with
  | S754_finite s m e =>
      let n := Z.pos m * 2 ^ Z.max e 0 / 2 ^ Z.max (- e) 0 in if s then - n else n
  | _ => 0
  end.

Definition lonejson__is_finite_f64 (value : f64) : bool :=
  SFeqb value value && SFleb value DBL_MAX && SFleb (SFopp DBL_MAX) value.

(** ** [snprintf(buf, capacity, "%.17g", value)] *)

(** The largest [x] with [10^x <= n / d]. *)
Fixpoint exponent_up (fuel : nat) (n d x : Z) : Z :=
  match fuel with
  | O => x
  | S fuel => if n <? 10 * d then x else exponent_up fuel n (10 * d) (x + 1)
  end.
Fixpoint exponent_down (fuel : nat) (n d x : Z) : Z :=
  match fuel with
  | O => x
  | S fuel => if d <=? n then x else exponent_down fuel (10 * n) d (x - 1)
  end.
Definition decimal_exponent (n d : Z) : Z :=
  if d <=? n then exponent_up 400 n d 0 else exponent_down 400 n d 0.

(** [n / d] rounded to an integer, ties to even. *)
Definition round_half_even (n d : Z) : Z :=
  let q := n / d in
  match 2 * (n mod d) ?= d with
  | Lt => q
  | Eq => if Z.even q then q else q + 1
  | Gt => q + 1
  end.

(** [(m, x)]: seventeen digits [m] and the exponent of the first, [n / d] being
    about [m * 10^(x - 16)]. *)
Definition decimal17 (n d : Z) : Z * Z :=
  let x := decimal_exponent n d in
  let k := 16 - x in
  let m := round_half_even (n * 10 ^ Z.max k 0) (d * 10 ^ Z.max (- k) 0) in
  if m =? 10 ^ 17 then (10 ^ 16, x + 1) else (m, x).

(** The last [k] decimal digits of [n]. *)
Fixpoint digits_width (k : nat) (n : Z) : bytes :=
  match k with
  | O => []
  | S k => digits_width k (n / 10) ++ ["0"%ch + n mod 10]
  end.

Definition strip_zeros (l : bytes) : bytes := rev (drop_while (λ b, b =? "0"%ch) (rev l)).

(** The fraction without its trailing zeros, and without its point if nothing is
    left. *)
Definition fraction_text (l : bytes) : bytes :=
  match strip_zeros l with
  | [] => []
  | f => "."%ch :: f
  end.

Definition exponent_text (x : Z) : bytes :=
  "e"%ch :: (if x <? 0 then "-"%ch else "+"%ch) ::
  digits_width (if Z.abs x <? 100 then 2 else 3) (Z.abs x).

(** The conversion of a positive [n / d]. *)
Definition general_text (n d : Z) : bytes :=
  let '(m, x) := decimal17 n d in
  if (-4 <=? x) && (x <? 17) then
    let p := 10 ^ (16 - x) in
    format_digits 20 (m / p) [] ++ fraction_text (digits_width (Z.to_nat (16 - x)) (m mod p))
  else
    ("0"%ch + m / 10 ^ 16) :: fraction_text (digits_width 16 (m mod 10 ^ 16)) ++ exponent_text x.

(** A finite magnitude [m * 2^e] as a fraction. *)
Definition f64_num (m : positive) (e : Z) : Z := Z.pos m * 2 ^ Z.max e 0.
Definition f64_den (e : Z) : Z := 2 ^ Z.max (- e) 0.

Definition printf_17g (x : f64) : bytes :=
  match x with
  | S754_zero s => (if s then ["-"%ch] else []) ++ ["0"%ch]
  | S754_infinity s => (if s then ["-"%ch] else []) ++ c_str "inf"
  | S754_nan => c_str "nan"
  | S754_finite s m e => (if s then ["-"%ch] else []) ++ general_text (f64_num m e) (f64_den e)
  end.

(** The result, and the characters in the buffer. *)
Definition snprintf_17g (capacity : Z) (x : f64) : Z * bytes :=
  let text := printf_17g x in (zlen text, take (Z.to_nat (capacity - 1)) text).

(** ** The formatter *)

(** [for (divisor = 1000u; fraction != 0u; divisor /= 10u)] *)
Fixpoint fraction_loop (fuel : nat) (fraction divisor : Z) : bytes :=
  match fuel with
  | O => []
  | S fuel =>
      if fraction =? 0 then []
      else "0"%ch + fraction / divisor :: fraction_loop fuel (fraction mod divisor) (divisor / 10)
  end.

(** The body of [if ((double)units == scaled)]. *)
Definition exact_text (value : f64) (units : Z) : bytes :=
  let whole := units / 16 in
  let fraction := u32 (units mod 16 * 625) in
  (if SFltb value f64_zero then ["-"%ch] else [])
    ++ format_digits 20 whole []
    ++ (if negb (fraction =? 0) then "."%ch :: fraction_loop 5 fraction 1000 else []).

Definition lonejson__format_f64_text (capacity : Z) (value : f64) : Z * bytes :=
  let magnitude := if SFltb value f64_zero then SFopp value else value in
  if SFleb (f64_ratio 1 16) magnitude && SFltb magnitude (f64_power10 false 12)
     && (32 <=? capacity) then
    let scaled := f64_mul magnitude (f64_of_Z 16) in
    let units := f64_trunc scaled in
    if SFeqb (f64_of_Z units) scaled then (zlen (exact_text value units), exact_text value units)
    else snprintf_17g capacity value
  else snprintf_17g capacity value.

(** ** The readers

    The token [value] has [len] characters and is followed by its NUL, as every
    caller passes it; [None] is a result of 0.  [p] is what is left of it. *)

(** [int_part = int_part * 10.0 + digit], over the digits in front. *)
Fixpoint decimal_digits (acc : f64) (p : bytes) : f64 * bytes :=
  match p with
  | c :: p' =>
      if lonejson__is_digit c
      then decimal_digits (f64_add (f64_mul acc (f64_of_Z 10)) (f64_of_Z (c - "0"%ch))) p'
      else (acc, p)
  | [] => (acc, [])
  end.

(** The loop over the fraction: its value, the number of digits, the rest. *)
Fixpoint fraction_digits (acc : f64) (frac_digits : Z) (p : bytes) : option (f64 * Z * bytes) :=
  match p with
  | c :: p' =>
      if lonejson__is_digit c then
        let acc := f64_add (f64_mul acc (f64_of_Z 10)) (f64_of_Z (c - "0"%ch)) in
        let frac_digits := frac_digits + 1 in
        if (17 <=? frac_digits) && (match p' with d :: _ => lonejson__is_digit d | [] => false end)
        then None
        else fraction_digits acc frac_digits p'
      else Some (acc, frac_digits, p)
  | [] => Some (acc, frac_digits, [])
  end.

(** [if (p < endp && *p == '.') { ... }] *)
Definition f64_fraction (p : bytes) : option (f64 * bytes) :=
  match p with
  | c :: p' =>
      if c =? "."%ch then
        match p' with
        | d :: _ =>
            if lonejson__is_digit d then
              '(acc, n, rest) ← fraction_digits f64_zero 0 p';
              Some (f64_mul acc (f64_power10 true n), rest)
            else None
        | [] => None
        end
      else Some (f64_zero, p)
  | [] => Some (f64_zero, [])
  end.

Fixpoint exponent_digits (acc : Z) (p : bytes) : option (Z * bytes) :=
  match p with
  | c :: p' =>
      if lonejson__is_digit c then
        if 10000 <? acc then None else exponent_digits (acc * 10 + (c - "0"%ch)) p'
      else Some (acc, p)
  | [] => Some (acc, [])
  end.

(** [if (p < endp && ( *p == 'e' || *p == 'E')) { ... }]: the exponent, whether it is
    negative, and the rest. *)
Definition f64_exponent (p : bytes) : option (Z * bool * bytes) :=
  match p with
  | c :: p' =>
      if (c =? "e"%ch) || (c =? "E"%ch) then
        match p' with
        | [] => None
        | s :: p'' =>
            let signed := (s =? "+"%ch) || (s =? "-"%ch) in
            let negative := s =? "-"%ch in
            match (if signed then p'' else p') with
            | (d :: _) as p =>
                if lonejson__is_digit d then
                  '(exponent, rest) ← exponent_digits 0 p;
                  Some (exponent, negative, rest)
                else None
            | [] => None
            end
        end
      else Some (0, false, p)
  | [] => Some (0, false, [])
  end.

(** The powers [10^(2^i)] selected by the bits of [exponent]: the scaled value and
    the exponent that is left. *)
Fixpoint scale_powers (negative : bool) (powers : list Z) (exponent : Z) (scale : f64) : f64 * Z :=
  match powers with
  | [] => (scale, exponent)
  | k :: powers =>
      if exponent =? 0 then (scale, exponent)
      else
        let scale := if Z.odd exponent then f64_mul scale (f64_power10 negative k) else scale in
        scale_powers negative powers (Z.shiftr exponent 1) scale
  end.

(** [if (exponent != 0u) { ... }] *)
Definition f64_scale (negative : bool) (exponent : Z) (scale : f64) : option f64 :=
  if exponent =? 0 then Some scale
  else
    let '(scale, exponent) :=
      if exponent <? 33 then (f64_mul scale (f64_power10 negative exponent), 0)
      else scale_powers negative [1; 2; 4; 8; 16; 32; 64; 128; 256] exponent scale in
    if negb (exponent =? 0) then None
    else if negb (lonejson__is_finite_f64 scale) then None
    else Some scale.

(** The number after the sign. *)
Definition f64_unsigned (p : bytes) : option f64 :=
  match p with
  | [] => None
  | c :: p' =>
      if negb (lonejson__is_digit c) then None
      else if (c =? "0"%ch)
              && (match p' with
                  | d :: _ => negb (d =? "."%ch) && negb (d =? "e"%ch) && negb (d =? "E"%ch)
                  | [] => false
                  end) then None
      else
        let '(int_part, p) := decimal_digits f64_zero p in
        '(frac_part, p) ← f64_fraction p;
        '(exponent, exponent_negative, p) ← f64_exponent p;
        match p with
        | _ :: _ => None
        | [] => f64_scale exponent_negative exponent (f64_add int_part frac_part)
        end
  end.

Definition lonejson__parse_f64_fast (value : bytes) : option f64 :=
  match value with
  | [] => None
  | c :: p => if c =? "-"%ch then SFopp <$> f64_unsigned p else f64_unsigned value
  end.

(** *** [strtod] on a JSON number *)

(** The digits in front of [p] and the rest. *)
Definition number_digit_run (p : bytes) : bytes * bytes :=
  (take_while lonejson__is_digit p, drop_while lonejson__is_digit p).

(** The exact value of an unsigned number, as numerator and power of ten. *)
Definition unsigned_value (p : bytes) : Z * Z :=
  let '(whole, p) := number_digit_run p in
  let '(frac, p) :=
    match p with
    | c :: p' => if c =? "."%ch then number_digit_run p' else ([], p)
    | [] => ([], p)
    end in
  let exponent :=
    match p with
    | _ :: s :: p' =>
        if s =? "-"%ch then - decimal_from 0 p'
        else if s =? "+"%ch then decimal_from 0 p' else decimal_from 0 (s :: p')
    | _ => 0
    end in
  (decimal_from 0 (whole ++ frac), exponent - zlen frac).

(** That of a JSON number, with its sign. *)
Definition number_value (t : bytes) : bool * Z * Z :=
  match t with
  | c :: p =>
      if c =? "-"%ch then let '(n, k) := unsigned_value p in (true, n, k)
      else let '(n, k) := unsigned_value t in (false, n, k)
  | [] => (false, 0, 0)
  end.

(** The nearest double, and [errno == ERANGE]: the value overflows, or is tiny
    and not exact. *)
Definition strtod (t : bytes) : f64 * bool :=
  let '(negative, n, k) := number_value t in
  let x :=
    if n =? 0 then f64_zero else f64_ratio (n * 10 ^ Z.max k 0) (10 ^ Z.max (- k) 0) in
  let exact :=
    match x with
    | S754_finite _ m e =>
        Z.pos m * 2 ^ Z.max e 0 * 10 ^ Z.max (- k) 0
        =? n * 10 ^ Z.max k 0 * 2 ^ Z.max (- e) 0
    | S754_zero _ => n =? 0
    | _ => false
    end in
  let tiny := negb (n =? 0) && (n * 10 ^ Z.max k 0 * 2 ^ 1022 <? 10 ^ Z.max (- k) 0) in
  let erange := match x with S754_infinity _ => true | _ => tiny && negb exact end in
  ((if negative then SFopp x else x), erange).

(** The value stored, [None] for [TYPE_MISMATCH]. *)
Definition lonejson__assign_f64 (value : bytes) : option f64 :=
  match lonejson__parse_f64_fast value with
  | Some x => Some x
  | None =>
      if negb (lonejson__is_valid_json_number value) then None
      else let '(x, erange) := strtod value in if erange then None else Some x
  end.
