(* ===== verification/F64Lemmas.v ===== *)
(** * F64Lemmas: exact operations on doubles, and decimal digits

    When a rounded operation is exact, its result is the double of the exact
    value: the facts about [SpecFloat] the theorems of [F64Props] rest on; and the
    facts about the decimal conversion of a fraction. *)

From stdpp Require Import base numbers list strings.
From Stdlib Require Import ZArith Lia Bool SpecFloat.
From S2P Require Import Prelude Number F64.

(** ** Powers of two and digits *)

Lemma pow2_pos k : 0 ≤ k → 0 < 2 ^ k.
Proof. intros. by apply Z.pow_pos_nonneg. Qed.

Lemma digits2_log2 p : Z.pos (digits2_pos p) = Z.log2 (Z.pos p) + 1.
Proof.
  induction p as [p IH|p IH|]; cbn [digits2_pos]; rewrite ?Pos2Z.inj_succ; [| |done].
  - rewrite Pos2Z.inj_xI, Z.log2_succ_double by lia. lia.
  - rewrite Pos2Z.inj_xO, Z.log2_double by lia. lia.
Qed.

Lemma log2_shift a k : 0 < a → 0 ≤ k → Z.log2 (a * 2 ^ k) = Z.log2 a + k.
Proof. intros. rewrite Z.log2_mul_pow2 by lia. lia. Qed.

(** ** Shifts of [SpecFloat] *)

Lemma iter_pos_nat {A} (f : A → A) n x : iter_pos f n x = Nat.iter (Pos.to_nat n) f x.
Proof.
  revert x. induction n as [n IH|n IH|]; intros x; cbn [iter_pos]; [| |done].
  - rewrite !IH, <- Nat.iter_add, <- Nat.iter_succ_r. f_equal. lia.
  - rewrite !IH, <- Nat.iter_add. f_equal. lia.
Qed.

Lemma shr_exact n a :
  0 < a →
  Nat.iter n shr_1 (Build_shr_record (a * 2 ^ Z.of_nat n) false false) = Build_shr_record a false false.
Proof.
  intros Ha. induction n as [|n IH]; [by rewrite Z.mul_1_r|].
  rewrite Nat.iter_succ_r. rewrite Nat2Z.inj_succ, Z.pow_succ_r by lia.
  replace (a * (2 * 2 ^ Z.of_nat n)) with (2 * (a * 2 ^ Z.of_nat n)) by ring.
  pose proof (pow2_pos (Z.of_nat n) ltac:(lia)).
  assert (0 < a * 2 ^ Z.of_nat n) by (by apply Z.mul_pos_pos).
  destruct (a * 2 ^ Z.of_nat n) as [|p|] eqn:E; [lia| |lia].
  cbn [shr_1 Z.mul orb]. exact IH.
Qed.

Lemma pos_iter_xO m n : Z.pos (Pos.iter xO m n) = Z.pos m * 2 ^ Z.pos n.
Proof.
  induction n as [|n IH] using Pos.peano_ind; [simpl; lia|].
  rewrite Pos.iter_succ, Pos2Z.inj_succ, Z.pow_succ_r by lia.
  rewrite Pos2Z.inj_xO, IH. ring.
Qed.

(** ** Exact rounding *)

(** [m * 2^e] is a datum of binary64. *)
Definition datum (m : positive) (e : Z) : Prop := bounded 53 1024 m e = true.

Lemma datum_iff m e :
  datum m e ↔ Z.max (Z.log2 (Z.pos m) + 1 + e - 53) (-1074) = e ∧ e ≤ 971.
Proof.
  unfold datum, bounded, canonical_mantissa, fexp, emin. rewrite andb_true_iff, Z.eqb_eq, Z.leb_le.
  rewrite digits2_log2. change (3 - 1024 - 53) with (-1074). change (1024 - 53) with 971.
  split; intros [H1 H2]; split; lia.
Qed.

(** A number with 53 digits and a sufficient exponent. *)
Lemma datum_normal m e : Z.log2 (Z.pos m) = 52 → -1074 ≤ e ≤ 971 → datum m e.
Proof. intros H1 H2. apply datum_iff. lia. Qed.

Lemma shr_fexp_exact a k e :
  0 < a → 0 ≤ k → fexp 53 1024 (Z.log2 a + 1 + e) = e →
  shr_fexp 53 1024 (a * 2 ^ k) (e - k) loc_Exact = (Build_shr_record a false false, e).
Proof.
  intros Ha Hk He. unfold shr_fexp. cbn [shr_record_of_loc].
  assert (Zdigits2 (a * 2 ^ k) = Z.log2 a + 1 + k) as ->.
  { pose proof (pow2_pos k Hk). assert (0 < a * 2 ^ k) as Hp by (by apply Z.mul_pos_pos).
    replace (Z.log2 a + 1 + k) with (Z.log2 (a * 2 ^ k) + 1) by (rewrite log2_shift by lia; lia).
    destruct (a * 2 ^ k) as [|p|]; [lia| |lia]. cbn [Zdigits2]. apply digits2_log2. }
  replace (Z.log2 a + 1 + k + (e - k)) with (Z.log2 a + 1 + e) by lia. rewrite He.
  replace (e - (e - k)) with k by lia. destruct k as [|k|k]; [|  |lia].
  - cbn [shr]. rewrite Z.mul_1_r. f_equal. lia.
  - cbn [shr]. rewrite iter_pos_nat. rewrite <- (shr_exact (Pos.to_nat k) a) by done.
    rewrite positive_nat_Z. f_equal. lia.
Qed.

Lemma round_aux_exact s m e k :
  datum m e → 0 ≤ k →
  binary_round_aux 53 1024 s (Z.pos m * 2 ^ k) (e - k) loc_Exact = S754_finite s m e.
Proof.
  intros Hd Hk. pose proof (proj1 (datum_iff m e) Hd) as [H1 H2].
  assert (fexp 53 1024 (Z.log2 (Z.pos m) + 1 + e) = e) as He by (unfold fexp, emin; lia).
  unfold binary_round_aux. rewrite shr_fexp_exact by (done || lia).
  cbn [shr_m loc_of_shr_record round_nearest_even].
  pose proof (shr_fexp_exact (Z.pos m) 0 e ltac:(lia) ltac:(lia) He) as H0.
  rewrite Z.mul_1_r, Z.sub_0_r in H0. rewrite H0. cbn [shr_m].
  by rewrite (proj2 (Z.leb_le e (1024 - 53))) by lia.
Qed.

(** [M * 2^E = m * 2^e]: rounding it gives [m * 2^e]. *)
Lemma round_exact s M E m e :
  datum m e → Z.pos M * 2 ^ Z.max (E - e) 0 = Z.pos m * 2 ^ Z.max (e - E) 0 →
  binary_round 53 1024 s M E = S754_finite s m e.
Proof.
  intros Hd Heq. pose proof (proj1 (datum_iff m e) Hd) as [H1 H2].
  assert (Z.log2 (Z.pos M) + E = Z.log2 (Z.pos m) + e) as Hl.
  { apply (f_equal Z.log2) in Heq. rewrite !log2_shift in Heq by lia. lia. }
  unfold binary_round. rewrite digits2_log2.
  assert (fexp 53 1024 (Z.log2 (Z.pos M) + 1 + E) = e) as -> by (unfold fexp, emin; lia).
  unfold shl_align. destruct (e - E) as [|p|p] eqn:Ee.
  - replace (E - e) with 0 in Heq by lia. cbn in Heq. rewrite !Z.mul_1_r in Heq.
    injection Heq as ->. replace E with (e - 0) by lia.
    rewrite <- (round_aux_exact s m e 0) by done. by rewrite Z.mul_1_r.
  - replace (Z.max (E - e) 0) with 0 in Heq by lia. rewrite Z.mul_1_r in Heq. rewrite Heq.
    replace (Z.max (Z.pos p) 0) with (Z.pos p) by lia.
    replace E with (e - Z.pos p) by lia. by apply round_aux_exact.
  - replace (Z.max (Z.neg p) 0) with 0 in Heq by lia. rewrite Z.mul_1_r in Heq.
    replace (Z.max (E - e) 0) with (Z.pos p) in Heq by lia. rewrite pos_iter_xO, Heq.
    rewrite <- (round_aux_exact s m e 0) by done. rewrite Z.mul_1_r. f_equal. lia.
Qed.

(** *** Sixteenths

    [q16 a] is the double [a / 16], for [a] below [2^53]: the integers and the
    fractions the formatter treats itself. *)

Definition q16 (a : Z) : f64 :=
  if a =? 0 then f64_zero
  else S754_finite false (Z.to_pos (a * 2 ^ (52 - Z.log2 a))) (Z.log2 a - 56).

Section q16.
Context (a : Z) (Ha : 0 < a < 2 ^ 53).

Lemma q16_log2 : 0 ≤ Z.log2 a ≤ 52.
Proof using Ha.
  split; [apply Z.log2_nonneg|]. apply Z.lt_succ_r. apply Z.log2_lt_pow2; simpl; lia.
Qed.

Lemma q16_mantissa : Z.pos (Z.to_pos (a * 2 ^ (52 - Z.log2 a))) = a * 2 ^ (52 - Z.log2 a).
Proof using Ha.
  pose proof q16_log2. apply Z2Pos.id. apply Z.mul_pos_pos; [lia|]. apply pow2_pos. lia.
Qed.

Lemma q16_finite : q16 a = S754_finite false (Z.to_pos (a * 2 ^ (52 - Z.log2 a))) (Z.log2 a - 56).
Proof using Ha. unfold q16. by rewrite (proj2 (Z.eqb_neq a 0)) by lia. Qed.

Lemma q16_datum : datum (Z.to_pos (a * 2 ^ (52 - Z.log2 a))) (Z.log2 a - 56).
Proof using Ha.
  pose proof q16_log2. apply datum_normal; [|lia]. rewrite q16_mantissa, log2_shift by lia. lia.
Qed.

(** Rounding any form of [a / 16]. *)
Lemma q16_round M E :
  Z.pos M * 2 ^ Z.max (E + 4) 0 = a * 2 ^ Z.max (- (E + 4)) 0 → binary_round 53 1024 false M E = q16 a.
Proof using Ha.
  intros H. pose proof q16_log2 as Hl. rewrite q16_finite. apply round_exact; [apply q16_datum|].
  rewrite q16_mantissa. set (l := Z.log2 a) in *.
  (* multiply both sides up to the same power *)
  pose proof (pow2_pos (Z.max (E + 4) 0) ltac:(lia)). pose proof (pow2_pos (Z.max (- (E + 4)) 0) ltac:(lia)).
  destruct (Z.le_ge_cases (E + 4) 0) as [Hc|Hc].
  - replace (Z.max (E + 4) 0) with 0 in H by lia. rewrite Z.mul_1_r in H. rewrite H.
    rewrite <- !Z.mul_assoc, <- !Z.pow_add_r by lia. f_equal. f_equal. lia.
  - replace (Z.max (- (E + 4)) 0) with 0 in H by lia. rewrite Z.mul_1_r in H. rewrite <- H.
    rewrite <- !Z.mul_assoc, <- !Z.pow_add_r by lia. f_equal. f_equal. lia.
Qed.
End q16.

Lemma f64_of_Z_q16 n : 0 ≤ n < 2 ^ 49 → f64_of_Z n = q16 (16 * n).
Proof.
  intros Hn. destruct n as [|p|p]; [done| |lia]. unfold f64_of_Z, binary_normalize.
  apply q16_round; [lia|]. change (2 ^ Z.max (0 + 4) 0) with 16. change (2 ^ Z.max (- (0 + 4)) 0) with 1. lia.
Qed.

Lemma q16_times_ten a : 0 ≤ a → 10 * a < 2 ^ 53 → f64_mul (q16 a) (f64_of_Z 10) = q16 (10 * a).
Proof.
  intros H0 H. destruct (decide (a = 0)) as [->|Hne]; [done|].
  rewrite (q16_finite (10 * a)), (q16_finite a) by lia.
  pose proof (q16_log2 a ltac:(lia)) as Hl. pose proof (q16_log2 (10 * a) ltac:(lia)) as Hl'.
  assert (Z.log2 a + 3 ≤ Z.log2 (10 * a)) as Hle.
  { transitivity (Z.log2 (a * 2 ^ 3)); [rewrite log2_shift; lia|apply Z.log2_le_mono; lia]. }
  change (f64_of_Z 10) with (S754_finite false (Pos.mul 5 (Z.to_pos (2 ^ 50))) (-49)).
  unfold f64_mul, SFmul. cbn [xorb].
  replace (Z.log2 a - 56 + -49)
    with (Z.log2 (10 * a) - 56 - (Z.log2 (10 * a) - Z.log2 a + 49)) by lia.
  rewrite <- (round_aux_exact false _ _ (Z.log2 (10 * a) - Z.log2 a + 49))
    by (first [apply q16_datum; lia|lia]).
  f_equal. rewrite Pos2Z.inj_mul, !q16_mantissa by lia.
  change (Z.pos (5 * Z.to_pos (2 ^ 50))) with (10 * 2 ^ 49).
  transitivity (10 * a * 2 ^ (101 - Z.log2 a)).
  - replace (101 - Z.log2 a) with (52 - Z.log2 a + 49) by lia. rewrite Z.pow_add_r by lia. ring.
  - rewrite <- (Z.mul_assoc (10 * a)), <- Z.pow_add_r by lia. do 2 f_equal. lia.
Qed.

Lemma shl_align_value m e z : z ≤ e → Z.pos (fst (shl_align m e z)) = Z.pos m * 2 ^ (e - z).
Proof.
  intros H. unfold shl_align. destruct (z - e) as [|p|p] eqn:E; [|lia|].
  - replace (e - z) with 0 by lia. simpl. lia.
  - cbn [fst]. rewrite pos_iter_xO. do 2 f_equal. lia.
Qed.

Lemma q16_add a b : 0 ≤ a → 0 ≤ b → a + b < 2 ^ 53 → f64_add (q16 a) (q16 b) = q16 (a + b).
Proof.
  intros Ha Hb H. unfold f64_add.
  destruct (decide (a = 0)) as [->|Hna]; [destruct (decide (b = 0)) as [->|Hnb]; [done|]|].
  { rewrite Z.add_0_l, (q16_finite b) by lia. done. }
  destruct (decide (b = 0)) as [->|Hnb]; [rewrite Z.add_0_r, (q16_finite a) by lia; done|].
  rewrite (q16_finite a), (q16_finite b) by lia. cbn [SFadd cond_Zopp].
  pose proof (q16_log2 a ltac:(lia)) as Hla. pose proof (q16_log2 b ltac:(lia)) as Hlb.
  set (la := Z.log2 a) in *. set (lb := Z.log2 b) in *. set (z := Z.min (la - 56) (lb - 56)).
  pose proof (shl_align_value (Z.to_pos (a * 2 ^ (52 - la))) (la - 56) z ltac:(lia)) as H1.
  pose proof (shl_align_value (Z.to_pos (b * 2 ^ (52 - lb))) (lb - 56) z ltac:(lia)) as H2.
  rewrite q16_mantissa in H1 by lia. rewrite q16_mantissa in H2 by lia. fold la in H1. fold lb in H2.
  rewrite <- !Z.mul_assoc, <- !Z.pow_add_r in H1 by lia. rewrite <- !Z.mul_assoc, <- !Z.pow_add_r in H2 by lia.
  replace (52 - la + (la - 56 - z)) with (- (z + 4)) in H1 by lia.
  replace (52 - lb + (lb - 56 - z)) with (- (z + 4)) in H2 by lia.
  rewrite H1, H2, <- Z.mul_add_distr_r.
  pose proof (pow2_pos (- (z + 4)) ltac:(lia)).
  assert (0 < (a + b) * 2 ^ (- (z + 4))) as Hp by (apply Z.mul_pos_pos; lia).
  destruct ((a + b) * 2 ^ (- (z + 4))) as [|M|] eqn:E; [lia| |lia]. cbn [binary_normalize].
  apply q16_round; [lia|]. rewrite <- E. replace (Z.max (z + 4) 0) with 0 by lia.
  replace (Z.max (- (z + 4)) 0) with (- (z + 4)) by lia. by rewrite Z.mul_1_r.
Qed.

(** ** The decimal conversion *)

Lemma pow10_pos k : 0 ≤ k → 0 < 10 ^ k.
Proof. intros. by apply Z.pow_pos_nonneg. Qed.

(** [10^x <= n / d < 10^(x + 1)], with both sides brought to integers. *)
Definition magnitude_at (n d x : Z) : Prop :=
  ∀ k, 0 ≤ k → 0 ≤ x + k → d * 10 ^ (x + k) ≤ n * 10 ^ k < d * 10 ^ (x + k + 1).

Lemma exponent_up_spec fuel n d x :
  0 < d → 0 ≤ x → d ≤ n < d * 10 ^ (Z.of_nat fuel + 1) →
  ∃ y, exponent_up fuel n d x = x + y ∧ 0 ≤ y ≤ Z.of_nat fuel ∧ d * 10 ^ y ≤ n < d * 10 ^ (y + 1).
Proof.
  revert d x. induction fuel as [|fuel IH]; intros d x Hd Hx [H1 H2]; cbn [exponent_up].
  - exists 0. split_and!; [lia..|]. done.
  - destruct (Z.ltb_spec n (10 * d)) as [Hlt|Hge]; [exists 0; split_and!; lia|].
    destruct (IH (10 * d) (x + 1)) as (y & -> & Hy & H3 & H4); [lia..| |].
    { rewrite Nat2Z.inj_succ in H2. replace (Z.succ (Z.of_nat fuel) + 1) with (1 + (Z.of_nat fuel + 1)) in H2 by lia.
      rewrite Z.pow_add_r in H2 by lia. lia. }
    exists (y + 1). split_and!; [lia..| |].
    + rewrite Z.pow_add_r by lia. lia.
    + replace (y + 1 + 1) with (1 + (y + 1)) by lia. rewrite Z.pow_add_r by lia. lia.
Qed.

Lemma exponent_down_spec fuel n d x :
  0 < n < 10 * d → d ≤ n * 10 ^ Z.of_nat fuel →
  ∃ y, exponent_down fuel n d x = x - y ∧ 0 ≤ y ≤ Z.of_nat fuel ∧ d ≤ n * 10 ^ y < 10 * d.
Proof.
  revert n x. induction fuel as [|fuel IH]; intros n x Hn Hd; cbn [exponent_down].
  - exists 0. change (10 ^ Z.of_nat 0) with 1 in Hd. change (10 ^ 0) with 1. lia.
  - destruct (Z.leb_spec d n) as [Hle|Hgt]; [exists 0; change (10 ^ 0) with 1; lia|].
    rewrite Nat2Z.inj_succ, Z.pow_succ_r in Hd by lia.
    destruct (IH (10 * n) (x - 1)) as (y & -> & Hy & H3); [lia..|].
    exists (y + 1). split_and!; [lia..| |]; rewrite Z.pow_add_r by lia; lia.
Qed.

Lemma decimal_exponent_spec n d :
  0 < n → 0 < d → n < d * 10 ^ 400 → d ≤ n * 10 ^ 400 →
  magnitude_at n d (decimal_exponent n d) ∧ Z.abs (decimal_exponent n d) ≤ 400.
Proof.
  intros Hn Hd H1 H2. unfold decimal_exponent. destruct (Z.leb_spec d n) as [Hle|Hgt].
  - destruct (exponent_up_spec 400 n d 0) as (y & -> & Hy & H3 & H4); [lia..| |].
    { change (Z.of_nat 400 + 1) with (400 + 1). rewrite Z.pow_add_r by lia. lia. }
    split; [|lia]. intros k Hk _. pose proof (pow10_pos k Hk).
    replace (0 + y + k + 1) with (y + 1 + k) by lia. replace (0 + y + k) with (y + k) by lia.
    rewrite (Z.pow_add_r 10 y k), (Z.pow_add_r 10 (y + 1) k) by lia. nia.
  - destruct (exponent_down_spec 400 n d 0) as (y & -> & Hy & H3 & H4); [lia..|].
    split; [|lia]. intros k Hk Hyk. pose proof (pow10_pos (0 - y + k) Hyk).
    assert (10 ^ k = 10 ^ y * 10 ^ (0 - y + k)) as -> by (rewrite <- Z.pow_add_r by lia; f_equal; lia).
    assert (10 ^ (0 - y + k + 1) = 10 * 10 ^ (0 - y + k)) as -> by (rewrite Z.pow_add_r by lia; lia).
    nia.
Qed.

Lemma round_half_even_exact a d : 0 < d → round_half_even (a * d) d = a.
Proof.
  intros Hd. unfold round_half_even. rewrite Z.mod_mul, Z.div_mul by lia.
  change (2 * 0) with 0. by rewrite (proj2 (Z.compare_lt_iff 0 d)).
Qed.

(** The rounded integer is at most half a unit away. *)
Lemma round_half_even_error n d : 0 < d → 2 * Z.abs (round_half_even n d * d - n) ≤ d.
Proof.
  intros Hd. unfold round_half_even. pose proof (Z.div_mod n d ltac:(lia)). pose proof (Z.mod_pos_bound n d Hd).
  set (q := n / d) in *. destruct (Z.compare_spec (2 * (n mod d)) d) as [Hc|Hc|Hc].
  - destruct (Z.even q); nia.
  - nia.
  - nia.
Qed.

(** Seventeen digits: between [10^16] and [10^17], and half a unit of the last
    digit away at most. *)
Lemma decimal17_spec n d m x :
  0 < n → 0 < d → n < d * 10 ^ 400 → d ≤ n * 10 ^ 400 → decimal17 n d = (m, x) →
  10 ^ 16 ≤ m < 10 ^ 17 ∧ Z.abs x ≤ 401
  ∧ (∀ k, 0 ≤ k → 17 - x ≤ k → 2 * 10 ^ 16 * Z.abs (d * m * 10 ^ (k - 16 + x) - n * 10 ^ k) ≤ n * 10 ^ k).
Proof.
  intros Hn Hd H1 H2. unfold decimal17.
  destruct (decimal_exponent_spec n d Hn Hd H1 H2) as [Hx Hb]. set (y := decimal_exponent n d) in *.
  set (N := n * 10 ^ Z.max (16 - y) 0). set (D := d * 10 ^ Z.max (- (16 - y)) 0).
  assert (0 < D) as HD by (apply Z.mul_pos_pos; [done|apply pow10_pos; lia]).
  assert (D * 10 ^ 16 ≤ N < D * 10 ^ 17) as HN.
  { specialize (Hx (Z.max (16 - y) 0) ltac:(lia) ltac:(lia)). unfold N, D.
    rewrite <- !Z.mul_assoc, <- !Z.pow_add_r by lia.
    replace (Z.max (- (16 - y)) 0 + 16) with (y + Z.max (16 - y) 0) by lia.
    replace (Z.max (- (16 - y)) 0 + 17) with (y + Z.max (16 - y) 0 + 1) by lia. done. }
  pose proof (round_half_even_error N D HD) as He. set (r := round_half_even N D) in *.
  assert (∀ k, 0 ≤ k → 16 - y ≤ k →
            2 * 10 ^ 16 * Z.abs (d * r * 10 ^ (k - 16 + y) - n * 10 ^ k) ≤ n * 10 ^ k) as Herr.
  { intros k Hk Hyk. set (j := k - Z.max (16 - y) 0).
    assert (n * 10 ^ k = N * 10 ^ j) as ->.
    { unfold N, j. rewrite <- Z.mul_assoc, <- Z.pow_add_r by lia. do 2 f_equal. lia. }
    assert (d * r * 10 ^ (k - 16 + y) = r * D * 10 ^ j) as ->.
    { unfold D, j. transitivity (d * r * 10 ^ (Z.max (- (16 - y)) 0 + (k - Z.max (16 - y) 0))).
      - do 2 f_equal. lia.
      - rewrite Z.pow_add_r by lia. ring. }
    rewrite <- Z.mul_sub_distr_r, Z.abs_mul. pose proof (pow10_pos j ltac:(lia)).
    rewrite (Z.abs_eq (10 ^ j)), Z.mul_assoc by lia. apply Z.mul_le_mono_nonneg_r; lia. }
  assert (10 ^ 16 ≤ r ≤ 10 ^ 17) as Hr.
  { split; apply Z.nlt_ge; intros Hlt.
    - pose proof (Z.mul_le_mono_nonneg_r r (10 ^ 16 - 1) D ltac:(lia) ltac:(lia)). lia.
    - pose proof (Z.mul_le_mono_nonneg_r (10 ^ 17 + 1) r D ltac:(lia) ltac:(lia)). lia. }
  destruct (Z.eqb_spec r (10 ^ 17)) as [E|E]; intros [= <- <-]; (split_and!; [lia..|]).
  - intros k Hk Hyk. specialize (Herr k Hk ltac:(lia)). rewrite E in Herr.
    replace (d * 10 ^ 16 * 10 ^ (k - 16 + (y + 1))) with (d * 10 ^ 17 * 10 ^ (k - 16 + y)); [done|].
    replace (k - 16 + (y + 1)) with (1 + (k - 16 + y)) by lia. rewrite (Z.pow_add_r 10 1) by lia.
    change (10 ^ 17) with (10 ^ 16 * 10). change (10 ^ 1) with 10. ring.
  - intros k Hk Hyk. apply Herr; lia.
Qed.

(** ** Decimal digits *)

Lemma decimal_from_app acc l1 l2 : decimal_from acc (l1 ++ l2) = decimal_from (decimal_from acc l1) l2.
Proof. unfold decimal_from. by rewrite fold_left_app. Qed.

Lemma decimal_from_snoc acc l d : decimal_from acc (l ++ [d]) = decimal_from acc l * 10 + (d - "0"%ch).
Proof. by rewrite decimal_from_app. Qed.

Lemma decimal_from_shift acc l : decimal_from acc l = acc * 10 ^ zlen l + decimal_from 0 l.
Proof.
  induction l as [|d l IH] using rev_ind; [unfold decimal_from, zlen; simpl; lia|].
  rewrite !decimal_from_snoc, IH, zlen_app.
  change (zlen [d]) with 1. rewrite Z.pow_add_r by (unfold zlen; lia). ring.
Qed.

Lemma decimal_from_bound l : all_digits l → 0 ≤ decimal_from 0 l < 10 ^ zlen l.
Proof.
  induction l as [|d l IH] using rev_ind; [intros _; unfold decimal_from, zlen; simpl; lia|].
  intros [Hl Hd]%Forall_app. specialize (IH Hl). apply Forall_inv in Hd. unfold is_digit in Hd.
  rewrite decimal_from_snoc, zlen_app, Z.pow_add_r by (unfold zlen; lia).
  change (zlen [d]) with 1. lia.
Qed.

Lemma decimal_from_zeros j : decimal_from 0 (replicate j "0"%ch) = 0.
Proof. induction j as [|j IH]; [done|]. unfold decimal_from in *. exact IH. Qed.

Lemma digits_width_length k n : zlen (digits_width k n) = Z.of_nat k.
Proof.
  revert n. induction k as [|k IH]; intros n; [done|]. cbn [digits_width]. rewrite zlen_app, IH.
  change (zlen ["0"%ch + n mod 10]) with 1. lia.
Qed.

Lemma digits_width_digits k n : all_digits (digits_width k n).
Proof.
  revert n. induction k as [|k IH]; intros n; cbn [digits_width]; [constructor|].
  apply Forall_app. split; [apply IH|]. repeat constructor. unfold is_digit.
  pose proof (Z.mod_pos_bound n 10 ltac:(lia)). lia.
Qed.

Lemma digits_width_value k n : 0 ≤ n < 10 ^ Z.of_nat k → decimal_from 0 (digits_width k n) = n.
Proof.
  revert n. induction k as [|k IH]; intros n Hn.
  - change (10 ^ Z.of_nat 0) with 1 in Hn. unfold decimal_from. simpl. lia.
  - rewrite Nat2Z.inj_succ, Z.pow_succ_r in Hn by lia. cbn [digits_width].
    rewrite decimal_from_snoc, IH.
    + pose proof (Z.div_mod n 10 ltac:(lia)). lia.
    + split; [apply Z.div_pos; lia|]. apply Z.div_lt_upper_bound; lia.
Qed.

(** Multiplying by a power of ten appends zeros. *)
Lemma digits_width_zeros k j n :
  digits_width (k + j) (n * 10 ^ Z.of_nat j) = digits_width k n ++ replicate j "0"%ch.
Proof.
  induction j as [|j IH]; [by rewrite Nat.add_0_r, Z.mul_1_r, app_nil_r|].
  rewrite Nat.add_succ_r. cbn [digits_width]. rewrite Nat2Z.inj_succ, Z.pow_succ_r by lia.
  replace (n * (10 * 10 ^ Z.of_nat j)) with (n * 10 ^ Z.of_nat j * 10) by ring.
  rewrite Z.div_mul, Z.mod_mul, IH by lia. rewrite replicate_S_end, app_assoc. done.
Qed.

Lemma drop_while_zeros j l :
  drop_while (λ b, b =? "0"%ch) (replicate j "0"%ch ++ l) = drop_while (λ b, b =? "0"%ch) l.
Proof. induction j as [|j IH]; [done|]. exact IH. Qed.

Lemma strip_zeros_app l j : strip_zeros (l ++ replicate j "0"%ch) = strip_zeros l.
Proof.
  unfold strip_zeros. f_equal. rewrite rev_app_distr.
  replace (rev (replicate j "0"%ch)) with (replicate j "0"%ch); [apply drop_while_zeros|].
  induction j as [|j IH]; [done|]. cbn [replicate rev]. rewrite <- IH. apply replicate_cons_app.
Qed.

Lemma strip_zeros_split l : ∃ j, l = strip_zeros l ++ replicate j "0"%ch.
Proof.
  induction l as [|b l [j IH]] using rev_ind; [by exists 0%nat|].
  destruct (Z.eqb_spec b "0"%ch) as [->|Hb].
  - exists (S j). change ["0"%ch] with (replicate 1 "0"%ch). rewrite strip_zeros_app.
    rewrite IH at 1. by rewrite <- app_assoc, <- replicate_add, Nat.add_1_r.
  - exists 0%nat. unfold strip_zeros. rewrite rev_unit. cbn [drop_while].
    rewrite (proj2 (Z.eqb_neq b 48)) by done. cbn [rev replicate]. by rewrite rev_involutive, app_nil_r.
Qed.

(** The printed integers. *)
Lemma int_value_lower d ds : "1"%ch ≤ d → all_digits ds → 10 ^ zlen ds ≤ decimal_from 0 (d :: ds).
Proof.
  intros Hd Hds. change (decimal_from 0 (d :: ds)) with (decimal_from (0 * 10 + (d - "0"%ch)) ds).
  rewrite decimal_from_shift. pose proof (decimal_from_bound ds Hds).
  pose proof (pow10_pos (zlen ds) (zlen_nonneg ds)). nia.
Qed.

Lemma format_digits_number n :
  0 ≤ n < 10 ^ 20 →
  json_int (format_digits 20 n []) ∧ decimal_from 0 (format_digits 20 n []) = n
  ∧ (∀ k, 0 < k → n < 10 ^ k → zlen (format_digits 20 n []) ≤ k).
Proof.
  intros Hn. destruct (format_digits_spec 19 n []) as (front & -> & Hi & Hv & _); [done|].
  rewrite app_nil_r. split_and!; [done..|]. intros k Hk Hlt.
  destruct Hi as [|d ds Hd Hds]; [change (zlen [_]) with 1; lia|].
  pose proof (int_value_lower d ds ltac:(lia) Hds) as Hlow. rewrite Hv in Hlow. rewrite zlen_cons.
  assert (10 ^ zlen ds < 10 ^ k) as H by lia.
  apply Z.pow_lt_mono_r_iff in H; lia.
Qed.
