(* ===== verification/F64Props.v ===== *)
(** * F64Props: what the double formatter and the fast reader promise

    The formatter's shortcut for small binary fractions never changes the text;
    every text is a JSON number that fits its buffers; the double is the one
    nearest to its text; and the fast reader accepts nothing but numbers and
    reads the shortcut's texts back exactly. *)

From stdpp Require Import base numbers list strings.
From Stdlib Require Import ZArith Lia Bool SpecFloat.
From S2P Require Import Prelude Number F64 F64Lemmas.

(** ** The text of a magnitude *)

Lemma fraction_text_frac l : all_digits l → json_frac (fraction_text l).
Proof.
  intros Hl. unfold fraction_text. destruct (strip_zeros_split l) as [j E].
  destruct (strip_zeros l) as [|d f]; [constructor|]. rewrite E in Hl. apply Forall_app in Hl as [Hl _].
  by constructor.
Qed.

Lemma fraction_text_length l : zlen (fraction_text l) ≤ zlen l + 1.
Proof.
  unfold fraction_text. destruct (strip_zeros_split l) as [j E].
  destruct (strip_zeros l) as [|d f] eqn:Ef; [pose proof (zlen_nonneg l); change (zlen []) with 0; lia|].
  rewrite E, zlen_app, zlen_cons. pose proof (zlen_nonneg (replicate j "0"%ch)). lia.
Qed.

Definition exponent_width (x : Z) : nat := if Z.abs x <? 100 then 2 else 3.

Lemma exponent_text_exp x : json_exp (exponent_text x).
Proof.
  unfold exponent_text. fold (exponent_width x).
  apply (exp_some "e"%ch [if x <? 0 then "-"%ch else "+"%ch]); [by left| |].
  - constructor. destruct (x <? 0); auto.
  - split; [|apply digits_width_digits]. intros E. apply (f_equal zlen) in E.
    rewrite digits_width_length in E. unfold exponent_width in E. destruct (_ <? 100); done.
Qed.

(** The parts of the text: integer, fraction digits, exponent. *)
Inductive text_parts (m x : Z) : bytes → bytes → bytes → Prop :=
| parts_plain w fd :
    json_int w → all_digits fd → -4 ≤ x < 17 → zlen fd = 16 - x → zlen w ≤ Z.max 1 (x + 1) →
    decimal_from 0 (w ++ fd) = m → text_parts m x w fd []
| parts_exponent w fd :
    json_int w → all_digits fd → zlen fd = 16 → zlen w ≤ 1 →
    decimal_from 0 (w ++ fd) = m → text_parts m x w fd (exponent_text x).

Lemma general_text_parts n d :
  let '(m, x) := decimal17 n d in
  10 ^ 16 ≤ m < 10 ^ 17 →
  ∃ w fd ex, general_text n d = w ++ fraction_text fd ++ ex ∧ text_parts m x w fd ex.
Proof.
  unfold general_text. destruct (decimal17 n d) as [m x]. intros Hm.
  destruct ((-4 <=? x) && (x <? 17)) eqn:E.
  - assert (0 ≤ 16 - x) as Hk by lia. pose proof (pow10_pos (16 - x) Hk) as Hp.
    pose proof (Z.mod_pos_bound m (10 ^ (16 - x)) Hp) as Hmod.
    assert (m / 10 ^ (16 - x) ≤ m) as Hle by (apply Z.div_le_upper_bound; nia).
    destruct (format_digits_number (m / 10 ^ (16 - x))) as (Hi & Hv & Hl).
    { split; [apply Z.div_pos; lia|]. change (10 ^ 20) with (10 ^ 17 * 1000). lia. }
    eexists _, _, []. split; [by rewrite app_nil_r|]. constructor; [done|apply digits_width_digits|lia| | |].
    + rewrite digits_width_length. lia.
    + apply Hl; [lia|]. destruct (Z.max_spec 1 (x + 1)) as [[H ->]|[H ->]].
      * apply Z.div_lt_upper_bound; [done|]. rewrite <- Z.pow_add_r by lia.
        replace (16 - x + (x + 1)) with 17 by lia. lia.
      * apply Z.div_lt_upper_bound; [done|].
        assert (10 ^ 16 ≤ 10 ^ (16 - x)) by (apply Z.pow_le_mono_r; lia).
        change (10 ^ 17) with (10 ^ 16 * 10) in Hm. change (10 ^ 1) with 10. lia.
    + rewrite decimal_from_app, decimal_from_shift, digits_width_length, digits_width_value, Hv.
      * rewrite Z2Nat.id by lia. pose proof (Z.div_mod m (10 ^ (16 - x)) ltac:(lia)). lia.
      * by rewrite Z2Nat.id by lia.
  - exists ["0"%ch + m / 10 ^ 16], (digits_width 16 (m mod 10 ^ 16)), (exponent_text x).
    split; [done|]. pose proof (Z.div_mod m (10 ^ 16) ltac:(lia)). pose proof (Z.mod_pos_bound m (10 ^ 16) ltac:(lia)).
    constructor; [|apply digits_width_digits|done|done|].
    + apply int_nonzero; [lia|constructor].
    + rewrite decimal_from_app, decimal_from_shift, digits_width_length, digits_width_value by done.
      unfold decimal_from. cbn [fold_left]. lia.
Qed.

Lemma text_parts_number m x w fd ex :
  text_parts m x w fd ex → Z.abs x < 1000 →
  json_number (w ++ fraction_text fd ++ ex) ∧ zlen (w ++ fraction_text fd ++ ex) ≤ 23.
Proof.
  intros [w' fd' Hi Hd Hx Hfd Hw _|w' fd' Hi Hd Hfd Hw _] Hb; rewrite !zlen_app;
    pose proof (fraction_text_length fd').
  - split; [|change (zlen []) with 0; lia].
    exists [], w', (fraction_text fd'), []. split_and!; [done|constructor|done|by apply fraction_text_frac|constructor].
  - split.
    + exists [], w', (fraction_text fd'), (exponent_text x).
      split_and!; [done|constructor|done|by apply fraction_text_frac|apply exponent_text_exp].
    + unfold exponent_text. rewrite !zlen_cons, digits_width_length. destruct (_ <? 100); lia.
Qed.

(** ** Magnitudes of doubles *)

Lemma datum_bounds m e : datum m e → 0 < Z.pos m < 2 ^ 53 ∧ -1074 ≤ e ≤ 971.
Proof.
  intros [H1 H2]%datum_iff. split; [split; [lia|]|lia].
  apply Z.log2_lt_pow2; [lia|]. lia.
Qed.

Lemma f64_fraction_range m e :
  datum m e →
  0 < f64_num m e ∧ 0 < f64_den e ∧ f64_num m e < f64_den e * 10 ^ 400
  ∧ f64_den e ≤ f64_num m e * 10 ^ 400.
Proof.
  intros [[H0 Hm] He]%datum_bounds. unfold f64_num, f64_den.
  pose proof (pow2_pos (Z.max e 0) ltac:(lia)). pose proof (pow2_pos (Z.max (- e) 0) ltac:(lia)).
  assert (2 ^ Z.max e 0 ≤ 2 ^ 971) by (apply Z.pow_le_mono_r; lia).
  assert (2 ^ Z.max (- e) 0 ≤ 2 ^ 1074) by (apply Z.pow_le_mono_r; lia).
  assert (2 ^ 53 * 2 ^ 971 < 10 ^ 400) by (by vm_compute).
  assert (2 ^ 1074 ≤ 10 ^ 400) by (by vm_compute).
  assert (1 ≤ Z.pos m * 2 ^ Z.max e 0) as Hn by nia.
  assert (Z.pos m * 2 ^ Z.max e 0 < 2 ^ 53 * 2 ^ 971) .
  { apply Z.le_lt_trans with (Z.pos m * 2 ^ 971); [apply Z.mul_le_mono_nonneg_l; lia|].
    apply Z.mul_lt_mono_pos_r; lia. }
  split_and!; [lia|done| |]; generalize dependent (10 ^ 400); generalize dependent (2 ^ 53 * 2 ^ 971);
    generalize dependent (2 ^ 1074); intros; nia.
Qed.

Lemma general_text_datum m e :
  datum m e →
  ∃ v x w fd ex,
    decimal17 (f64_num m e) (f64_den e) = (v, x) ∧ 10 ^ 16 ≤ v < 10 ^ 17 ∧ Z.abs x ≤ 401
    ∧ general_text (f64_num m e) (f64_den e) = w ++ fraction_text fd ++ ex ∧ text_parts v x w fd ex.
Proof.
  intros (H1 & H2 & H3 & H4)%f64_fraction_range.
  pose proof (general_text_parts (f64_num m e) (f64_den e)) as Hp.
  destruct (decimal17 (f64_num m e) (f64_den e)) as [v x] eqn:E.
  destruct (decimal17_spec _ _ v x H1 H2 H3 H4 E) as (Hv & Hx & _).
  destruct (Hp Hv) as (w & fd & ex & ? & ?). by exists v, x, w, fd, ex.
Qed.

(** The finite doubles. *)
Definition f64_finite (x : f64) : Prop :=
  match x with
  | S754_finite _ m e => datum m e
  | S754_zero _ => True
  | _ => False
  end.

Lemma printf_number x : f64_finite x → json_number (printf_17g x) ∧ zlen (printf_17g x) ≤ 24.
Proof.
  destruct x as [s| | |s m e]; intros Hx; try done.
  { by destruct s; (split; [apply is_valid_json_number_spec|]; vm_compute). }
  destruct (general_text_datum m e Hx) as (v & x & w & fd & ex & _ & _ & Hb & Ht & Hparts).
  destruct (text_parts_number v x w fd ex Hparts ltac:(lia)) as [Hn Hl].
  cbn [printf_17g]. rewrite Ht. destruct s; cbn [app]; [|split; [done|lia]].
  rewrite zlen_cons. split; [|lia].
  destruct Hparts; [exists ["-"%ch], w, (fraction_text fd), []
                   |exists ["-"%ch], w, (fraction_text fd), (exponent_text x)];
    split_and!; auto using fraction_text_frac, exponent_text_exp; constructor.
Qed.

(** ** The shortcut: sixteenths below [10^12] *)

Lemma sixteenths_exponent U q :
  1 ≤ U < 16 * 10 ^ 12 → 0 < q →
  let x := decimal_exponent (U * q) (16 * q) in
  -2 ≤ x ≤ 11 ∧ 10 ^ 16 ≤ U * 625 * 10 ^ (12 - x) < 10 ^ 17.
Proof.
  intros HU Hq x.
  destruct (decimal_exponent_spec (U * q) (16 * q)) as [Hx _]; [nia|lia| | |fold x in Hx].
  { assert (10 ^ 12 < 10 ^ 400) by (by vm_compute). generalize dependent (10 ^ 400). intros. nia. }
  { assert (16 ≤ 10 ^ 400) by (by vm_compute). assert (q ≤ U * q) by nia. generalize dependent (10 ^ 400). intros. nia. }
  assert (x ≤ 11) as Hhi.
  { destruct (Z.le_gt_cases x 11) as [|Hc]; [done|]. exfalso. specialize (Hx 0 ltac:(lia) ltac:(lia)).
    rewrite Z.add_0_r in Hx. assert (10 ^ 12 ≤ 10 ^ x) by (apply Z.pow_le_mono_r; lia).
    generalize dependent (10 ^ x). intros. nia. }
  assert (-2 ≤ x) as Hlo.
  { destruct (Z.le_gt_cases (-2) x) as [|Hc]; [done|]. exfalso.
    specialize (Hx (- x) ltac:(lia) ltac:(lia)). assert (10 ^ 3 ≤ 10 ^ (- x)) by (apply Z.pow_le_mono_r; lia).
    replace (x + - x) with 0 in Hx by lia. change (10 ^ (0 + 1)) with 10 in Hx.
    assert (q ≤ U * q) by nia. generalize dependent (10 ^ (- x)). change (10 ^ 3) with 1000. intros. nia. }
  split; [lia|]. specialize (Hx (16 - x) ltac:(lia) ltac:(lia)).
  replace (x + (16 - x)) with 16 in Hx by lia. replace (16 - x) with (4 + (12 - x)) in Hx by lia.
  rewrite Z.pow_add_r in Hx by lia. pose proof (pow10_pos (12 - x) ltac:(lia)).
  generalize dependent (10 ^ (12 - x)). intros P Hx HP. change (10 ^ (16 + 1)) with (10 ^ 17) in Hx.
  change (10 ^ 4) with 10000 in Hx. change (10 ^ 17) with (10 * 10 ^ 16) in *.
  generalize dependent (10 ^ 16). intros. nia.
Qed.

Lemma sixteenths_decimal U q :
  1 ≤ U < 16 * 10 ^ 12 → 0 < q →
  ∃ x, decimal17 (U * q) (16 * q) = (U * 625 * 10 ^ (12 - x), x) ∧ -2 ≤ x ≤ 11.
Proof.
  intros HU Hq. destruct (sixteenths_exponent U q HU Hq) as [Hx Hm].
  exists (decimal_exponent (U * q) (16 * q)). split; [|done]. unfold decimal17.
  set (x := decimal_exponent (U * q) (16 * q)) in *.
  replace (Z.max (16 - x) 0) with (4 + (12 - x)) by lia. replace (Z.max (- (16 - x)) 0) with 0 by lia.
  rewrite Z.pow_add_r by lia.
  replace (U * q * (10 ^ 4 * 10 ^ (12 - x))) with (U * 625 * 10 ^ (12 - x) * (16 * q))
    by (change (10 ^ 4) with 10000; ring).
  replace (16 * q * 10 ^ 0) with (16 * q) by (change (10 ^ 0) with 1; lia).
  rewrite round_half_even_exact by lia. by rewrite (proj2 (Z.eqb_neq _ (10 ^ 17))) by lia.
Qed.

(** The digits of [f] ten-thousandths, for a multiple [f] of 625. *)
Lemma fraction_loop_digits r :
  0 ≤ r < 16 →
  fraction_text (digits_width 4 (r * 625))
  = (if negb (r * 625 =? 0) then "."%ch :: fraction_loop 5 (r * 625) 1000 else []).
Proof.
  intros Hr. assert (∃ n, r = Z.of_nat n ∧ (n < 16)%nat) as (n & -> & Hn) by (exists (Z.to_nat r); lia).
  do 16 (destruct n as [|n]; [by vm_compute|]). lia.
Qed.

Lemma sixteenths_text U q :
  1 ≤ U < 16 * 10 ^ 12 → 0 < q →
  general_text (U * q) (16 * q)
  = format_digits 20 (U / 16) []
    ++ (if negb (U mod 16 * 625 =? 0) then "."%ch :: fraction_loop 5 (U mod 16 * 625) 1000 else []).
Proof.
  intros HU Hq. destruct (sixteenths_decimal U q HU Hq) as (x & Hd & Hx).
  unfold general_text. rewrite Hd. replace ((-4 <=? x) && (x <? 17)) with true by lia.
  replace (16 - x) with (4 + (12 - x)) by lia. rewrite Z.pow_add_r by lia.
  pose proof (pow10_pos (12 - x) ltac:(lia)) as Hp.
  rewrite Z.div_mul_cancel_r, Z.mul_mod_distr_r by lia.
  change (10 ^ 4) with (16 * 625). rewrite Z.div_mul_cancel_r, Z.mul_mod_distr_r by lia.
  f_equal. rewrite <- fraction_loop_digits by (apply Z.mod_pos_bound; lia).
  replace (Z.to_nat (4 + (12 - x))) with (4 + Z.to_nat (12 - x))%nat by lia.
  rewrite <- (Z2Nat.id (12 - x)) at 2 by lia. rewrite digits_width_zeros.
  unfold fraction_text. by rewrite strip_zeros_app.
Qed.

Lemma finite_compare m1 e1 m2 e2 :
  SFcompare (S754_finite false m1 e1) (S754_finite false m2 e2) =
  Some (match e1 ?= e2 with Lt => Lt | Gt => Gt | Eq => Z.pos m1 ?= Z.pos m2 end).
Proof. reflexivity. Qed.

(** Where the shortcut applies, and the scaled value there. *)
Lemma fast_range m e :
  datum m e →
  SFleb (f64_ratio 1 16) (S754_finite false m e) && SFltb (S754_finite false m e) (f64_power10 false 12) = true →
  Z.log2 (Z.pos m) = 52 ∧ -56 ≤ e ≤ -13 ∧ (e = -13 → Z.pos m < 8192000000000000).
Proof.
  change (f64_ratio 1 16) with (S754_finite false 4503599627370496 (-56)).
  change (f64_power10 false 12) with (S754_finite false 8192000000000000 (-13)).
  intros Hd [H1 H2]%andb_true_iff. pose proof (datum_bounds m e Hd) as [[H0 Hm] _].
  assert (-56 ≤ e) as He1.
  { unfold SFleb in H1. rewrite finite_compare in H1. destruct (Z.compare_spec (-56) e); [lia|lia|done]. }
  unfold SFltb in H2. rewrite finite_compare in H2.
  assert (e ≤ -13 ∧ (e = -13 → Z.pos m < 8192000000000000)) as [He2 He3].
  { destruct (Z.compare_spec e (-13)); [|split; lia|done]. split; [lia|].
    intros _. destruct (Z.compare_spec (Z.pos m) 8192000000000000); [done|lia|done]. }
  apply datum_iff in Hd as [Hd _]. split_and!; [lia|lia|lia|done].
Qed.

Lemma fast_scaled m e :
  Z.log2 (Z.pos m) = 52 → -56 ≤ e ≤ -13 →
  f64_mul (S754_finite false m e) (f64_of_Z 16) = S754_finite false m (e + 4).
Proof.
  intros Hl He. change (f64_of_Z 16) with (S754_finite false (Z.to_pos (2 ^ 52)) (-48)).
  unfold f64_mul. cbn [SFmul xorb]. replace (e + -48) with (e + 4 - 52) by lia.
  rewrite Pos2Z.inj_mul. change (Z.pos (Z.to_pos (2 ^ 52))) with (2 ^ 52).
  apply round_aux_exact; [apply datum_normal; lia|lia].
Qed.

(** The value is [U] sixteenths exactly when the test succeeds. *)
Definition sixteenths (m : positive) (e U : Z) : Prop :=
  Z.pos m = U * 2 ^ (- (e + 4)) ∧ e + 4 ≤ 0.

Lemma fast_units m e :
  Z.log2 (Z.pos m) = 52 → -56 ≤ e ≤ -13 → (e = -13 → Z.pos m < 8192000000000000) →
  let U := f64_trunc (S754_finite false m (e + 4)) in
  1 ≤ U < 16 * 10 ^ 12
  ∧ (SFeqb (f64_of_Z U) (S754_finite false m (e + 4)) = true → sixteenths m e U).
Proof.
  intros Hl He Hm U. unfold f64_trunc in U. pose proof (pow2_pos (- (e + 4)) ltac:(lia)) as Hp.
  assert (U = Z.pos m / 2 ^ (- (e + 4))) as EU.
  { unfold U. replace (Z.max (e + 4) 0) with 0 by lia. replace (Z.max (- (e + 4)) 0) with (- (e + 4)) by lia.
    by rewrite Z.mul_1_r. }
  clearbody U. pose proof (Z.log2_spec (Z.pos m) ltac:(lia)) as [Hlo Hhi]. rewrite Hl in Hlo, Hhi.
  assert (1 ≤ U < 16 * 10 ^ 12) as HU.
  { rewrite EU. split.
    - apply Z.div_le_lower_bound; [done|]. rewrite Z.mul_1_r. transitivity (2 ^ 52); [|done].
      apply Z.pow_le_mono_r; lia.
    - apply Z.div_lt_upper_bound; [done|]. destruct (decide (e = -13)) as [->|].
      + change (2 ^ (- (-13 + 4))) with 512. specialize (Hm eq_refl). lia.
      + assert (2 ^ 10 ≤ 2 ^ (- (e + 4))) by (apply Z.pow_le_mono_r; lia).
        change (2 ^ Z.succ 52) with 9007199254740992 in Hhi. lia. }
  split; [done|]. intros Heq. split; [|lia].
  rewrite f64_of_Z_q16, q16_finite in Heq by lia. unfold SFeqb in Heq. rewrite finite_compare in Heq.
  pose proof (q16_mantissa (16 * U) ltac:(lia)) as Hmant.
  destruct (Z.compare_spec (Z.log2 (16 * U) - 56) (e + 4)) as [He'| |]; try done.
  destruct (Z.compare_spec (Z.pos (Z.to_pos (16 * U * 2 ^ (52 - Z.log2 (16 * U))))) (Z.pos m)) as [Hm'| |]; try done.
  rewrite Hmant in Hm'. rewrite <- Hm'. replace (52 - Z.log2 (16 * U)) with (- (e + 4) - 4) by lia.
  assert (2 ^ (- (e + 4)) = 2 ^ (- (e + 4) - 4) * 2 ^ 4) as ->; [|ring].
  rewrite <- Z.pow_add_r; [f_equal; lia| |lia].
  pose proof (q16_log2 (16 * U) ltac:(lia)). lia.
Qed.

(** The text where the test succeeds. *)
Lemma exact_text_printf s m e U :
  sixteenths m e U → 1 ≤ U < 16 * 10 ^ 12 →
  exact_text (S754_finite s m e) U = printf_17g (S754_finite s m e).
Proof.
  intros [Hm He] HU. unfold exact_text. cbn [printf_17g].
  assert (SFltb (S754_finite s m e) f64_zero = s) as -> by (by destruct s).
  f_equal. pose proof (pow2_pos (- (e + 4)) ltac:(lia)).
  pose proof (Z.mod_pos_bound U 16 ltac:(lia)).
  assert (u32 (U mod 16 * 625) = U mod 16 * 625) as -> by (unfold u32; apply Z.mod_small; lia).
  rewrite <- (sixteenths_text U (2 ^ (- (e + 4)))) by done. f_equal.
  - unfold f64_num. replace (Z.max e 0) with 0 by lia. by rewrite Z.mul_1_r.
  - unfold f64_den. change 16 with (2 ^ 4). rewrite <- Z.pow_add_r by lia. f_equal. lia.
Qed.

Lemma magnitude_finite s m e :
  (if SFltb (S754_finite s m e) f64_zero then SFopp (S754_finite s m e) else S754_finite s m e)
  = S754_finite false m e.
Proof. by destruct s. Qed.

Lemma snprintf_fits x : zlen (printf_17g x) ≤ 24 → snprintf_17g 64 x = (zlen (printf_17g x), printf_17g x).
Proof.
  intros H. unfold snprintf_17g. f_equal. apply take_ge. unfold zlen in H. change (Z.to_nat (64 - 1)) with 63%nat. lia.
Qed.

Lemma printf_short x : valid_binary 53 1024 x = true → zlen (printf_17g x) ≤ 24.
Proof.
  destruct x as [s|s| |s m e]; intros Hx; [by destruct s; vm_compute..|by vm_compute|].
  by apply (printf_number (S754_finite s m e)).
Qed.

Lemma format_f64_printf x :
  valid_binary 53 1024 x = true →
  lonejson__format_f64_text 64 x = (zlen (printf_17g x), printf_17g x).
Proof.
  intros Hx. pose proof (snprintf_fits x (printf_short x Hx)) as Hs. unfold lonejson__format_f64_text.
  destruct x as [s|s| |s m e]; [by destruct s|by destruct s|done|].
  rewrite magnitude_finite. change (32 <=? 64) with true. rewrite andb_true_r.
  destruct (SFleb _ _ && SFltb _ _) eqn:Erange; [|done].
  destruct (fast_range m e Hx Erange) as (Hl & He & Hm). rewrite fast_scaled by done.
  destruct (fast_units m e Hl He Hm) as [HU Hexact].
  destruct (SFeqb _ _) eqn:E; [|done]. rewrite exact_text_printf; [done|by apply Hexact|done].
Qed.

(** C20: the shortcut of the formatter is sound: for every double, the text and its
    length are those of [snprintf(buf, 64, "%.17g", value)], whole. *)
Theorem format_f64_is_printf x :
  valid_binary 53 1024 x = true →
  lonejson__format_f64_text 64 x = (zlen (printf_17g x), printf_17g x).
Proof. apply format_f64_printf. Qed.

(** Every finite double is written as a JSON number (RFC 8259) of at most 24
    characters. *)
Theorem format_f64_number x :
  f64_finite x →
  json_number (snd (lonejson__format_f64_text 64 x)) ∧ fst (lonejson__format_f64_text 64 x) ≤ 24.
Proof.
  intros Hx. destruct (printf_number x Hx). rewrite format_f64_printf; [done|].
  by destruct x.
Qed.

(** ** The value of the text *)

(** The number a text denotes, in units of [10^-450]; a finite double, in units of
    [2^-1074]; and how far apart they are, in units of [10^-450 * 2^-1074]. *)
Definition decimal_scaled (t : bytes) : Z :=
  let '(negative, n, k) := number_value t in (if negative then - n else n) * 10 ^ (k + 450).
Definition f64_scaled (x : f64) : Z :=
  match x with
  | S754_finite s m e => (if s then -1 else 1) * (Z.pos m * 2 ^ (e + 1074))
  | _ => 0
  end.
Definition distance (t : bytes) (x : f64) : Z :=
  Z.abs (decimal_scaled t * 2 ^ 1074 - f64_scaled x * 10 ^ 450).

Lemma digit_run_app ds rest :
  all_digits ds → match rest with c :: _ => lonejson__is_digit c = false | [] => True end →
  number_digit_run (ds ++ rest) = (ds, rest).
Proof.
  intros Hd Hr. unfold number_digit_run. rewrite take_while_app, drop_while_app by exact Hd.
  destruct rest as [|c rest]; [by rewrite app_nil_r|]. cbn [take_while drop_while]. by rewrite Hr, app_nil_r.
Qed.

Lemma exponent_text_value x :
  Z.abs x < 1000 → ∃ s p, exponent_text x = "e"%ch :: s :: p ∧
    (if s =? "-"%ch then - decimal_from 0 p
     else if s =? "+"%ch then decimal_from 0 p else decimal_from 0 (s :: p)) = x.
Proof.
  intros Hx. unfold exponent_text. eexists _, _. split; [done|].
  rewrite digits_width_value.
  - destruct (Z.ltb_spec x 0); cbn; lia.
  - split; [lia|]. destruct (Z.ltb_spec (Z.abs x) 100); simpl; lia.
Qed.

(** Stripping the zeros does not change the value. *)
Lemma strip_value w fd x :
  0 ≤ x - zlen fd + 450 →
  decimal_from 0 (w ++ strip_zeros fd) * 10 ^ (x - zlen (strip_zeros fd) + 450)
  = decimal_from 0 (w ++ fd) * 10 ^ (x - zlen fd + 450).
Proof.
  intros H. destruct (strip_zeros_split fd) as [j E]. set (f := strip_zeros fd) in *.
  assert (zlen fd = zlen f + Z.of_nat j) as Hl.
  { rewrite E, zlen_app. unfold zlen at 2. by rewrite length_replicate. }
  rewrite E at 1. rewrite app_assoc, (decimal_from_app _ (w ++ f)), (decimal_from_shift _ (replicate _ _)).
  rewrite decimal_from_zeros, Z.add_0_r. unfold zlen at 2. rewrite length_replicate.
  rewrite <- Z.mul_assoc, <- Z.pow_add_r by lia. do 2 f_equal. lia.
Qed.

Lemma unsigned_value_parts v x w fd ex :
  text_parts v x w fd ex → Z.abs x ≤ 401 →
  let '(n, k) := unsigned_value (w ++ fraction_text fd ++ ex) in
  n * 10 ^ (k + 450) = v * 10 ^ (x - 16 + 450).
Proof.
  intros Hp Hx.
  assert (∀ y, match ex with _ :: _ => ∃ p, ex = "e"%ch :: p | [] => True end →
    match ex with
    | _ :: s :: p' =>
        if s =? "-"%ch then - decimal_from 0 p'
        else if s =? "+"%ch then decimal_from 0 p' else decimal_from 0 (s :: p')
    | _ => 0
    end = y → json_int w → all_digits fd →
    unsigned_value (w ++ fraction_text fd ++ ex)
    = (decimal_from 0 (w ++ strip_zeros fd), y - zlen (strip_zeros fd))) as Hvalue.
  { intros y Hex Hy Hw Hfd. unfold unsigned_value. destruct (strip_zeros_split fd) as [j E].
    assert (all_digits (strip_zeros fd)) as Hs by (rewrite E in Hfd; by apply Forall_app in Hfd as [Hfd _]).
    rewrite digit_run_app; [|by apply json_int_digits|].
    - unfold fraction_text. destruct (strip_zeros fd) as [|d f] eqn:Ef; cbn [app].
      + destruct ex as [|c ex']; [by rewrite <- Hy|]. destruct Hex as [p [= -> ->]]. by rewrite <- Hy.
      + change (46 =? 46) with true. cbv beta iota. change (d :: f ++ ex) with ((d :: f) ++ ex). rewrite digit_run_app; [by rewrite <- Hy|done|].
        destruct ex; [done|]. by destruct Hex as [p [= -> ->]].
    - unfold fraction_text. destruct (strip_zeros fd); [|done]. cbn [app].
      destruct ex; [done|]. by destruct Hex as [p [= -> ->]]. }
  destruct Hp as [w fd Hw Hfd Hx' Hl _ <-|w fd Hw Hfd Hl _ <-].
  - rewrite (Hvalue 0) by done. rewrite strip_value by lia. do 2 f_equal. lia.
  - destruct (exponent_text_value x ltac:(lia)) as (s & p & E & Hy).
    rewrite E in *. rewrite (Hvalue x); eauto.
    rewrite strip_value by lia. do 2 f_equal. lia.
Qed.

(** Distinct doubles differ by more than their relative precision. *)
Lemma datum_gap m1 e1 m2 e2 :
  datum m1 e1 → datum m2 e2 →
  let X := Z.pos m1 * 2 ^ (e1 + 1074) in let Y := Z.pos m2 * 2 ^ (e2 + 1074) in
  X ≠ Y → X ≤ 2 ^ 53 * Z.abs (X - Y).
Proof.
  intros H1 H2 X Y Hne.
  pose proof (datum_bounds m1 e1 H1) as [[Hm1 Hm1'] He1]. pose proof (datum_bounds m2 e2 H2) as [[Hm2 Hm2'] He2].
  apply datum_iff in H1 as [H1 _]. apply datum_iff in H2 as [H2 _].
  destruct (Z.le_gt_cases e1 e2) as [Hle|Hgt].
  - assert (Y = Z.pos m2 * 2 ^ (e2 - e1) * 2 ^ (e1 + 1074)) as EY.
    { unfold Y. rewrite <- Z.mul_assoc, <- Z.pow_add_r by lia. do 2 f_equal. lia. }
    set (P := 2 ^ (e1 + 1074)) in *. assert (0 < P) by (apply pow2_pos; lia).
    unfold X in *. rewrite EY in *. generalize dependent (2 ^ (e2 - e1)). intros Q Hne EY.
    rewrite <- Z.mul_sub_distr_r, Z.abs_mul, (Z.abs_eq P) by lia.
    assert (Z.pos m1 - Z.pos m2 * Q ≠ 0) by (intros E; apply Hne; nia). nia.
  - (* the other exponent is smaller: the first number is normal *)
    assert (X = Z.pos m1 * 2 ^ (e1 - e2) * 2 ^ (e2 + 1074)) as EX.
    { unfold X. rewrite <- Z.mul_assoc, <- Z.pow_add_r by lia. do 2 f_equal. lia. }
    assert (2 ^ 52 ≤ Z.pos m1) as Hn.
    { pose proof (Z.log2_spec (Z.pos m1) ltac:(lia)) as [Hlo _].
      replace (Z.log2 (Z.pos m1)) with 52 in Hlo by lia. done. }
    set (P := 2 ^ (e2 + 1074)) in *. assert (0 < P) by (apply pow2_pos; lia).
    assert (2 ≤ 2 ^ (e1 - e2)) as Hq by (change 2 with (2 ^ 1) at 1; apply Z.pow_le_mono_r; lia).
    unfold Y in *. rewrite EX in *. generalize dependent (2 ^ (e1 - e2)). intros Q Hne EX Hq.
    rewrite <- Z.mul_sub_distr_r, Z.abs_mul, (Z.abs_eq P) by lia.
    change (2 ^ 53) with (2 * 2 ^ 52) in *. set (B := 2 ^ 52) in *. clearbody B.
    assert (2 * B ≤ Z.pos m1 * Q) by nia. set (t := Z.pos m1 * Q) in *. clearbody t.
    rewrite Z.abs_eq by lia. assert (t ≤ 2 * B * (t - Z.pos m2)) by nia. nia.
Qed.

Lemma f64_gap x y :
  f64_finite x → f64_finite y → f64_scaled y ≠ f64_scaled x →
  Z.abs (f64_scaled x) ≤ 2 ^ 53 * Z.abs (f64_scaled y - f64_scaled x).
Proof.
  intros Hx Hy. destruct x as [sx|sx| |sx m1 e1]; try done; [cbn [f64_scaled]; lia|].
  pose proof (datum_bounds m1 e1 Hx) as [[Hm _] He]. pose proof (pow2_pos (e1 + 1074) ltac:(lia)).
  destruct y as [sy|sy| |sy m2 e2]; try done; cbn [f64_scaled].
  { intros _. set (X := Z.pos m1 * _). assert (0 < X) by (by apply Z.mul_pos_pos). destruct sx; lia. }
  pose proof (datum_gap m1 e1 m2 e2 Hx Hy) as Hg. cbv zeta in Hg.
  pose proof (datum_bounds m2 e2 Hy) as [[Hm2 _] He2]. pose proof (pow2_pos (e2 + 1074) ltac:(lia)).
  set (X := Z.pos m1 * _) in *. set (Y := Z.pos m2 * _) in *.
  assert (0 < X) by (by apply Z.mul_pos_pos). assert (0 < Y) by (by apply Z.mul_pos_pos).
  clearbody X Y. destruct sx, sy; intros Hne; try lia; specialize (Hg ltac:(lia)); lia.
Qed.

(** The decimal in the text of a finite double. *)
Lemma printf_scaled s m e :
  datum m e →
  ∃ v x, decimal17 (f64_num m e) (f64_den e) = (v, x) ∧ Z.abs x ≤ 401
         ∧ decimal_scaled (printf_17g (S754_finite s m e))
           = (if s then -1 else 1) * (v * 10 ^ (x - 16 + 450)).
Proof.
  intros Hx. destruct (general_text_datum m e Hx) as (v & x & w & fd & ex & Hd & _ & Hb & Ht & Hparts).
  exists v, x. split_and!; [done..|]. pose proof (unsigned_value_parts v x w fd ex Hparts Hb) as Hv.
  unfold decimal_scaled, number_value. cbn [printf_17g]. rewrite Ht.
  destruct (unsigned_value (w ++ fraction_text fd ++ ex)) as [n k] eqn:Eu. destruct s; cbn [app].
  - rewrite Eu, <- Hv. change (45 =? 45) with true. cbv iota. ring.
  - assert (json_int w) as Hw by (by destruct Hparts). destruct w as [|c w']; [by inversion Hw|].
    cbn [app] in *. rewrite Eu. assert ((c =? 45) = false) as -> by (inversion Hw; lia). rewrite Hv. ring.
Qed.

(** The text of a finite double is within half a unit of its last digit. *)
Lemma printf_error x :
  f64_finite x →
  2 * 10 ^ 16 * distance (printf_17g x) x ≤ Z.abs (f64_scaled x) * 10 ^ 450.
Proof.
  intros Hx. destruct x as [s|s| |s m e]; try done; [destruct s; by vm_compute|].
  destruct (printf_scaled s m e Hx) as (v & x & Hd & Hb & Hs).
  pose proof (f64_fraction_range m e Hx) as (H1 & H2 & H3 & H4).
  destruct (decimal17_spec _ _ v x H1 H2 H3 H4 Hd) as (_ & _ & Herr).
  specialize (Herr 450 ltac:(lia) ltac:(lia)).
  pose proof (datum_bounds m e Hx) as [[Hm _] He].
  unfold distance. rewrite Hs. cbn [f64_scaled].
  (* the fraction, in units of 2^-1074 *)
  assert (f64_num m e * 2 ^ 1074 = Z.pos m * 2 ^ (e + 1074) * f64_den e) as Hfrac.
  { unfold f64_num, f64_den. rewrite <- !Z.mul_assoc, <- !Z.pow_add_r by lia. do 2 f_equal. lia. }
  replace (450 - 16 + x) with (x - 16 + 450) in Herr by lia.
  set (X := Z.pos m * 2 ^ (e + 1074)) in *.
  assert (0 < X) by (apply Z.mul_pos_pos; [lia|apply pow2_pos; lia]). clearbody X.
  set (T := v * 10 ^ (x - 16 + 450)) in *.
  assert (2 * 10 ^ 16 * Z.abs (T * 2 ^ 1074 - X * 10 ^ 450) ≤ X * 10 ^ 450) as Hmain.
  { apply (Z.mul_le_mono_pos_r _ _ (f64_den e)); [done|].
    assert (2 * 10 ^ 16 * Z.abs (f64_den e * v * 10 ^ (x - 16 + 450) - f64_num m e * 10 ^ 450) * 2 ^ 1074
            ≤ f64_num m e * 10 ^ 450 * 2 ^ 1074) as Hscaled by (apply Z.mul_le_mono_nonneg_r; [by vm_compute|done]).
    replace (f64_num m e * 10 ^ 450 * 2 ^ 1074) with (X * f64_den e * 10 ^ 450) in Hscaled
      by (rewrite <- Hfrac; ring).
    rewrite <- (Z.abs_eq (2 ^ 1074)) in Hscaled at 1 by (by vm_compute).
    rewrite <- Z.mul_assoc, <- Z.abs_mul, Z.mul_sub_distr_r in Hscaled.
    replace (f64_num m e * 10 ^ 450 * 2 ^ 1074) with (X * f64_den e * 10 ^ 450) in Hscaled
      by (rewrite <- Hfrac; ring).
    replace (f64_den e * v * 10 ^ (x - 16 + 450) * 2 ^ 1074) with (f64_den e * (T * 2 ^ 1074)) in Hscaled
      by (unfold T; ring).
    rewrite <- (Z.abs_eq (f64_den e)) at 1 by lia. rewrite <- Z.mul_assoc, <- Z.abs_mul.
    replace ((T * 2 ^ 1074 - X * 10 ^ 450) * f64_den e)
      with (f64_den e * (T * 2 ^ 1074) - X * f64_den e * 10 ^ 450) by ring.
    replace (X * 10 ^ 450 * f64_den e) with (X * f64_den e * 10 ^ 450) by ring. done. }
  rewrite <- (Z.mul_assoc _ X). replace (Z.abs ((if s then -1 else 1) * X)) with X by (destruct s; lia).
  etrans; [|exact Hmain]. apply Z.mul_le_mono_nonneg_l; [lia|].
  destruct s; rewrite <- ?Z.mul_assoc; [|by rewrite !Z.mul_1_l].
  rewrite <- (Z.abs_opp (T * 2 ^ 1074 - _)). apply Z.eq_le_incl. f_equal. ring.
Qed.

(** C21: no other double is as near to the text as the one it was made from: a
    correctly rounded reader gives it back. *)
Theorem format_f64_nearest x y :
  f64_finite x → f64_finite y → f64_scaled y ≠ f64_scaled x →
  distance (snd (lonejson__format_f64_text 64 x)) x < distance (snd (lonejson__format_f64_text 64 x)) y.
Proof.
  intros Hx Hy Hne. rewrite format_f64_printf by (by destruct x). cbn [snd].
  pose proof (printf_error x Hx) as He. pose proof (f64_gap x y Hx Hy Hne) as Hg. unfold distance in *.
  set (T := decimal_scaled (printf_17g x) * 2 ^ 1074) in *. set (P := 10 ^ 450) in *.
  assert (0 < P) by (by vm_compute). clearbody T P.
  set (X := f64_scaled x) in *. set (Y := f64_scaled y) in *. clearbody X Y.
  assert (Z.abs X * P ≤ 2 ^ 53 * Z.abs (Y * P - X * P)) as Hgp.
  { rewrite <- Z.mul_sub_distr_r, Z.abs_mul, (Z.abs_eq P) by lia. nia. }
  assert (0 < Z.abs (Y * P - X * P)) by (rewrite <- Z.mul_sub_distr_r, Z.abs_mul; nia).
  generalize dependent (X * P). generalize dependent (Y * P). generalize dependent (Z.abs X * P). intros. lia.
Qed.

(** ** The fast reader *)

(** What the loops over digits consumed. *)
Definition stops (rest : bytes) : Prop :=
  match rest with c :: _ => lonejson__is_digit c = false | [] => True end.

#[local] Ltac nothing := exists []; split_and!; [done|constructor|done].
#[local] Ltac one_more c ds := exists (c :: ds); split_and!; [done|by constructor|done].

Lemma decimal_digits_split acc p v rest :
  decimal_digits acc p = (v, rest) → ∃ ds, p = ds ++ rest ∧ all_digits ds ∧ stops rest.
Proof.
  revert acc. induction p as [|c p IH]; intros acc; cbn [decimal_digits]; [intros [= _ <-]; nothing|].
  destruct (lonejson__is_digit c) eqn:Ec; [|intros [= _ <-]; nothing].
  intros (ds & -> & Hd & Hs)%IH. one_more c ds.
Qed.

Lemma fraction_digits_split acc n p v n' rest :
  fraction_digits acc n p = Some (v, n', rest) → ∃ ds, p = ds ++ rest ∧ all_digits ds ∧ stops rest.
Proof.
  revert acc n. induction p as [|c p IH]; intros acc n; cbn [fraction_digits]; [intros [= _ _ <-]; nothing|].
  destruct (lonejson__is_digit c) eqn:Ec; [|intros [= _ _ <-]; nothing].
  destruct (_ && _); [done|]. intros (ds & -> & Hd & Hs)%IH. one_more c ds.
Qed.

Lemma exponent_digits_split acc p v rest :
  exponent_digits acc p = Some (v, rest) → ∃ ds, p = ds ++ rest ∧ all_digits ds ∧ stops rest.
Proof.
  revert acc. induction p as [|c p IH]; intros acc; cbn [exponent_digits]; [intros [= _ <-]; nothing|].
  destruct (lonejson__is_digit c) eqn:Ec; [|intros [= _ <-]; nothing].
  destruct (_ <? _); [done|]. intros (ds & -> & Hd & Hs)%IH. one_more c ds.
Qed.

(** Digits in front of a stop, of a text that begins with a digit. *)
Lemma digits_nonempty d p ds rest :
  d :: p = ds ++ rest → lonejson__is_digit d = true → all_digits ds → stops rest → json_digits ds.
Proof.
  intros E Hd Hds Hs. split; [|done]. intros ->. destruct rest as [|c r]; [done|].
  injection E as <- <-. cbn in Hs. congruence.
Qed.

Lemma f64_fraction_split p v rest :
  stops p → f64_fraction p = Some (v, rest) → ∃ f, p = f ++ rest ∧ json_frac f ∧ stops rest.
Proof.
  intros Hp. unfold f64_fraction. destruct p as [|c p]; [intros [= _ <-]; nothing|].
  destruct (Z.eqb_spec c "."%ch) as [->|]; [|intros [= _ <-]; nothing].
  destruct p as [|d p]; [done|]. destruct (lonejson__is_digit d) eqn:Ed; [|done].
  destruct (fraction_digits _ _ _) as [[[v' n] r]|] eqn:E; [|done]. intros [= _ <-].
  apply fraction_digits_split in E as (ds & Hds & Hd & Hs). exists ("."%ch :: ds).
  split_and!; [by rewrite Hds|constructor; by eapply digits_nonempty|done].
Qed.

Lemma f64_exponent_split p v s rest :
  f64_exponent p = Some (v, s, rest) → ∃ e, p = e ++ rest ∧ json_exp e.
Proof.
  unfold f64_exponent. destruct p as [|c p]; [intros [= _ _ <-]; exists []; split; [done|constructor]|].
  destruct ((c =? "e"%ch) || (c =? "E"%ch)) eqn:Ec; [|intros [= _ _ <-]; exists []; split; [done|constructor]].
  destruct p as [|c' p]; [done|].
  assert (∃ sg q, c' :: p = sg ++ q ∧ json_sign sg
          ∧ (if (c' =? "+"%ch) || (c' =? "-"%ch) then p else c' :: p) = q) as (sg & q & -> & Hsg & ->).
  { destruct ((c' =? "+"%ch) || (c' =? "-"%ch)) eqn:Es; [exists [c'], p|exists [], (c' :: p)];
      split_and!; try done; constructor. lia. }
  destruct q as [|d q]; [done|]. destruct (lonejson__is_digit d) eqn:Ed; [|done].
  destruct (exponent_digits _ _) as [[v' r]|] eqn:E; [|done]. intros [= _ _ <-].
  apply exponent_digits_split in E as (ds & Hds & Hd & Hs). exists (c :: sg ++ ds).
  split; [rewrite Hds; cbn [app]; by rewrite <- app_assoc|].
  constructor; [lia|done|by eapply digits_nonempty].
Qed.

Lemma f64_unsigned_number p x :
  f64_unsigned p = Some x → ∃ i f e, p = i ++ f ++ e ∧ json_int i ∧ json_frac f ∧ json_exp e.
Proof.
  unfold f64_unsigned. destruct p as [|c p]; [done|].
  destruct (lonejson__is_digit c) eqn:Ec; [|done]. cbn [negb].
  destruct ((c =? "0"%ch) && _) eqn:Ez; [done|].
  destruct (decimal_digits f64_zero (c :: p)) as [v r1] eqn:E1.
  destruct (f64_fraction r1) as [[v2 r2]|] eqn:E2; [|done]. cbn [mbind option_bind].
  destruct (f64_exponent r2) as [[[v3 s3] r3]|] eqn:E3; [|done].
  cbn [mbind option_bind]. destruct r3; [|done]. intros _.
  apply decimal_digits_split in E1 as (ds & Hp & Hd & Hs).
  apply f64_fraction_split in E2 as (f & -> & Hf & Hs2); [|done].
  apply f64_exponent_split in E3 as (e & -> & He). rewrite app_nil_r in *.
  exists ds, f, e. split_and!; [done| |done..].
  pose proof (digits_nonempty c p ds _ Hp Ec Hd Hs) as [Hne _]. destruct ds as [|d ds]; [done|].
  injection Hp as <- Hp. apply Forall_cons in Hd as [_ Hds].
  destruct (decide (c = "0"%ch)) as [->|]; [|constructor; [unfold is_digit in *; unfold lonejson__is_digit in Ec; lia|done]].
  destruct ds as [|d ds]; [constructor|]. exfalso. apply Forall_inv in Hds.
  rewrite Hp in Ez. cbn [app] in Ez. unfold is_digit in Hds. lia.
Qed.

(** C29: the fast reader accepts nothing but JSON numbers: what it lets through, the
    validating path would accept too. *)
Theorem parse_f64_fast_sound t x : lonejson__parse_f64_fast t = Some x → json_number t.
Proof.
  unfold lonejson__parse_f64_fast. destruct t as [|c p]; [done|]. destruct (Z.eqb_spec c "-"%ch) as [->|].
  - destruct (f64_unsigned p) as [y|] eqn:E; [|done]. intros _.
    apply f64_unsigned_number in E as (i & f & e & -> & ?). exists ["-"%ch], i, f, e.
    split; [done|]. split; [constructor|done].
  - intros (i & f & e & -> & ?)%f64_unsigned_number. exists [], i, f, e.
    split; [done|]. split; [constructor|done].
Qed.

(** *** What the shortcut writes is read back exactly *)

Lemma decimal_digits_q16 a ds rest :
  0 ≤ a → all_digits ds → stops rest → decimal_from a ds < 2 ^ 49 →
  decimal_digits (q16 (16 * a)) (ds ++ rest) = (q16 (16 * decimal_from a ds), rest).
Proof.
  revert a. induction ds as [|d ds IH]; intros a Ha Hd Hs Hlt; cbn [app].
  - destruct rest as [|c r]; [done|]. cbn [decimal_digits]. by rewrite Hs.
  - apply Forall_cons in Hd as [Hd Hds]. cbn [decimal_digits].
    change (lonejson__is_digit d) with (is_digit d). rewrite Hd. unfold is_digit in Hd.
    change (decimal_from a (d :: ds)) with (decimal_from (a * 10 + (d - 48)) ds) in *.
    pose proof (decimal_from_ge (a * 10 + (d - 48)) ds ltac:(lia) Hds).
    rewrite q16_times_ten, (f64_of_Z_q16 (d - 48)), q16_add by lia.
    rewrite <- IH by (done || lia). do 2 f_equal. lia.
Qed.

(** The digits of [r] sixteenths behind the point. *)
Lemma fraction_q16 r :
  0 ≤ r < 16 →
  f64_fraction (if negb (r * 625 =? 0) then "."%ch :: fraction_loop 5 (r * 625) 1000 else [])
  = Some (q16 r, []).
Proof.
  intros Hr. assert (∃ n, r = Z.of_nat n ∧ (n < 16)%nat) as (n & -> & Hn) by (exists (Z.to_nat r); lia).
  do 16 (destruct n as [|n]; [by vm_compute|]). lia.
Qed.

Lemma unsigned_sixteenths U q :
  1 ≤ U < 16 * 10 ^ 12 → 0 < q → f64_unsigned (general_text (U * q) (16 * q)) = Some (q16 U).
Proof.
  intros HU Hq. rewrite sixteenths_text by done.
  pose proof (Z.mod_pos_bound U 16 ltac:(lia)) as Hr. pose proof (Z.div_mod U 16 ltac:(lia)) as Hdiv.
  assert (0 ≤ U / 16 < 10 ^ 12) as HW by (split; [apply Z.div_pos; lia|apply Z.div_lt_upper_bound; lia]).
  destruct (format_digits_number (U / 16)) as (Hi & Hv & _); [lia|].
  pose proof (fraction_q16 (U mod 16) Hr) as Hf.
  set (f := if negb (U mod 16 * 625 =? 0) then _ else _) in *.
  assert (stops f) as Hs by (unfold f; by destruct (negb _)).
  pose proof (decimal_digits_q16 0 _ f ltac:(lia) (proj2 (json_int_digits _ Hi)) Hs) as Hint.
  rewrite Hv in Hint. specialize (Hint ltac:(lia)). change (q16 (16 * 0)) with f64_zero in Hint.
  assert (∃ c w, format_digits 20 (U / 16) [] = c :: w ∧ lonejson__is_digit c = true
          ∧ (c = "0"%ch → w = [])) as (c & w & Ew & Hc & Hz).
  { destruct Hi as [|d ds Hd Hds]; [by eexists _, _|]. exists d, ds.
    unfold lonejson__is_digit. split_and!; [done|lia|lia]. }
  rewrite Ew in *. cbn [app] in *. unfold f64_unsigned. rewrite Hc. cbn [negb].
  destruct ((c =? "0"%ch) && _) eqn:Ez.
  - exfalso. apply andb_true_iff in Ez as [Ez Ez']. rewrite (Hz ltac:(lia)) in Ez'. cbn [app] in Ez'.
    unfold f in Ez'. by destruct (negb _).
  - rewrite Hint, Hf. cbn [mbind option_bind f64_exponent f64_scale Z.eqb].
    rewrite q16_add by lia. do 2 f_equal. lia.
Qed.

Lemma q16_num U :
  0 < U < 2 ^ 49 →
  let m := Z.to_pos (U * 2 ^ (52 - Z.log2 U)) in let e := Z.log2 U - 56 in
  f64_num m e = U * 2 ^ (52 - Z.log2 U) ∧ f64_den e = 16 * 2 ^ (52 - Z.log2 U).
Proof.
  intros HU m e. pose proof (q16_mantissa U ltac:(lia)) as Hm. pose proof (q16_log2 U ltac:(lia)).
  unfold f64_num, f64_den, m, e. rewrite Hm. replace (Z.max (Z.log2 U - 56) 0) with 0 by lia.
  split; [by rewrite Z.mul_1_r|]. change 16 with (2 ^ 4). rewrite <- Z.pow_add_r by lia. f_equal. lia.
Qed.

(** C27: integers and sixteenths below [10^12], of either sign, are read back by the
    fast reader as the very double that was written. *)
Theorem format_parse_sixteenths (negative : bool) U :
  0 ≤ U < 16 * 10 ^ 12 →
  let x := if negative then SFopp (q16 U) else q16 U in
  lonejson__parse_f64_fast (snd (lonejson__format_f64_text 64 x)) = Some x.
Proof.
  intros HU x. destruct (decide (U = 0)) as [->|Hne]; [by destruct negative|].
  assert (lonejson__format_f64_text 64 x = (zlen (printf_17g x), printf_17g x)) as ->.
  { apply format_f64_printf. unfold x. rewrite q16_finite by lia.
    pose proof (q16_datum U ltac:(lia)). by destruct negative. }
  unfold x. rewrite q16_finite by lia. destruct (q16_num U ltac:(lia)) as [Hn Hd].
  pose proof (unsigned_sixteenths U (2 ^ (52 - Z.log2 U)) ltac:(lia)) as Hu.
  specialize (Hu ltac:(apply pow2_pos; pose proof (q16_log2 U ltac:(lia)); lia)).
  rewrite <- Hn, <- Hd, (q16_finite U) in Hu by lia.
  destruct negative; cbn [SFopp negb printf_17g app snd].
  - unfold lonejson__parse_f64_fast. change (45 =? 45) with true. cbv iota. by rewrite Hu.
  - unfold lonejson__parse_f64_fast. destruct (general_text _ _) as [|c p] eqn:Ec; [done|].
    destruct (Z.eqb_spec c "-"%ch) as [->|]; [done|]. exact Hu.
Qed.

(** ** Witnesses and counterexamples *)

Lemma format_f64_is_printf_witness :
  valid_binary 53 1024 (f64_ratio 3 10) = true
  ∧ lonejson__format_f64_text 64 (f64_ratio 3 10) = (19, c_str "0.29999999999999999").
Proof.
  split; [reflexivity|].
  exact (eq_trans (format_f64_is_printf (f64_ratio 3 10) eq_refl) ltac:(vm_compute; reflexivity)).
Defined.

Lemma format_f64_number_witness :
  json_number (snd (lonejson__format_f64_text 64 (SFopp DBL_MAX)))
  ∧ fst (lonejson__format_f64_text 64 (SFopp DBL_MAX)) ≤ 24.
Proof. exact (format_f64_number (SFopp DBL_MAX) eq_refl). Defined.

(** The neighbours of 0.3. *)
Lemma format_f64_nearest_witness :
  let x := S754_finite false 5404319552844595 (-54) in
  let y := S754_finite false 5404319552844596 (-54) in
  x = f64_ratio 3 10 ∧ distance (c_str "0.29999999999999999") x < distance (c_str "0.29999999999999999") y.
Proof.
  split; [reflexivity|].
  exact (format_f64_nearest (S754_finite false 5404319552844595 (-54))
           (S754_finite false 5404319552844596 (-54)) eq_refl eq_refl ltac:(vm_compute; discriminate)).
Defined.

Lemma parse_f64_fast_sound_witness : json_number (c_str "-12.5e+3").
Proof.
  exact (parse_f64_fast_sound (c_str "-12.5e+3") (SFopp (f64_of_Z 12500)) ltac:(vm_compute; reflexivity)).
Defined.

Lemma format_parse_sixteenths_witness :
  snd (lonejson__format_f64_text 64 (SFopp (q16 1999999))) = c_str "-124999.9375"
  ∧ lonejson__parse_f64_fast (c_str "-124999.9375") = Some (SFopp (q16 1999999)).
Proof.
  split; [vm_compute; reflexivity|].
  exact (format_parse_sixteenths true 1999999 ltac:(split; [discriminate|reflexivity])).
Defined.

(** Beyond the sixteenths the fast reader rounds at every step: what was written
    for 0.3 is read as its upper neighbour, while [strtod] would give 0.3 back. *)
Example parse_fast_not_nearest :
  let text := snd (lonejson__format_f64_text 64 (f64_ratio 3 10)) in
  lonejson__assign_f64 text = Some (S754_finite false 5404319552844596 (-54))
  ∧ strtod text = (S754_finite false 5404319552844595 (-54), false).
Proof. split; vm_compute; reflexivity. Qed.

(** An integer of 400 digits is read as infinity: without an exponent the result
    is not checked.  With one, the same number is refused. *)
Example parse_fast_infinite :
  lonejson__assign_f64 ("1"%ch :: replicate 400 "0"%ch) = Some (S754_infinity false)
  ∧ lonejson__assign_f64 (c_str "1e400") = None.
Proof. split; vm_compute; reflexivity. Qed.
