(* ===== verification/JsonGrammar.v ===== *)
(** * JsonGrammar: what a JSON text is

    The specification the JSON walkers of [src/impl/12_json_value_parse.h] and
    [src/impl/13_json_value_visit.h] are proved against: JSON values as trees,
    the texts that denote them (RFC 8259, any white space allowed), the compact
    and the indented rendering of a value, and a reference parser on complete
    inputs.  The reference parser is sound and complete for the grammar
    ([ref_document_iff]), so that each walker needs only be compared with it. *)

From stdpp Require Import base numbers list strings.
From Stdlib Require Import ZArith Lia Bool.
From S2P Require Import Prelude Unicode Number.

(** ** Values

    Strings keep their escapes, and numbers their token, because the transcoder
    copies both. *)

Inductive str_item :=
| Plain (b : Z)                  (** an unescaped byte *)
| Esc (c : Z)                    (** a two-byte escape *)
| Uni (h0 h1 h2 h3 : Z).         (** a [\u] escape and its four digits *)

#[warnings="-register-all"]
Inductive json :=
| JNull
| JBool (b : bool)
| JNum (token : bytes)
| JStr (items : list str_item)
| JArr (elements : list json)
| JObj (members : list (list str_item * json)).

(** Induction that reaches the values inside arrays and objects. *)
Section json_ind.
Context (P : json → Prop)
  (Hnull : P JNull) (Hbool : ∀ b, P (JBool b)) (Hnum : ∀ t, P (JNum t)) (Hstr : ∀ l, P (JStr l))
  (Harr : ∀ vs, Forall P vs → P (JArr vs))
  (Hobj : ∀ ms, Forall (λ m, P (snd m)) ms → P (JObj ms)).

Fixpoint json_rect_nested (v : json) : P v :=
  match v with
  | JNull => Hnull
  | JBool b => Hbool b
  | JNum t => Hnum t
  | JStr l => Hstr l
  | JArr vs =>
      Harr vs ((fix go vs : Forall P vs :=
                             match vs with
                             | [] => Forall_nil_2 P
                             | v :: vs => @Forall_cons_2 _ P v vs (json_rect_nested v) (go vs)
                             end) vs)
  | JObj ms =>
      Hobj ms ((fix go ms : Forall (λ m, P (snd m)) ms :=
                             match ms with
                             | [] => Forall_nil_2 (λ m, P (snd m))
                             | m :: ms => @Forall_cons_2 _ (λ m, P (snd m)) m ms (json_rect_nested (snd m)) (go ms)
                             end) ms)
  end.
End json_ind.

(** ** Strings *)

Definition is_simple_escape (c : Z) : bool :=
  existsb (Z.eqb c) (34 :: c_str "\/bfnrt").

(** A byte that a string may hold unescaped. *)
Definition is_plain (b : Z) : bool := negb ((b =? 34) || (b =? 92) || (b <? 32)).

Definition item_ok (i : str_item) : Prop :=
  match i with
  | Plain b => is_plain b = true
  | Esc c => is_simple_escape c = true
  | Uni a b c d => is_hex a && is_hex b && is_hex c && is_hex d = true
  end.

Definition item_bytes (i : str_item) : bytes :=
  match i with
  | Plain b => [b]
  | Esc c => [92; c]
  | Uni a b c d => [92; 117; a; b; c; d]
  end.

Definition items_bytes (l : list str_item) : bytes := flat_map item_bytes l.

Definition quoted (l : list str_item) : bytes := 34 :: items_bytes l ++ [34].

#[global] Arguments quoted : simpl never.

(** ** Texts *)

Definition is_ws (w : bytes) : Prop := Forall (λ c, lonejson__is_json_space c = true) w.

Inductive json_text : json → bytes → Prop :=
| text_null : json_text JNull (c_str "null")
| text_true : json_text (JBool true) (c_str "true")
| text_false : json_text (JBool false) (c_str "false")
| text_num t : json_number t → json_text (JNum t) t
| text_str l : Forall item_ok l → json_text (JStr l) (quoted l)
| text_arr_nil w : is_ws w → json_text (JArr []) ("["%ch :: w ++ ["]"%ch])
| text_arr vs t : json_elements vs t → json_text (JArr vs) ("["%ch :: t ++ ["]"%ch])
| text_obj_nil w : is_ws w → json_text (JObj []) ("{"%ch :: w ++ ["}"%ch])
| text_obj ms t : json_members ms t → json_text (JObj ms) ("{"%ch :: t ++ ["}"%ch])

(** One or more elements separated by commas. *)
with json_elements : list json → bytes → Prop :=
| elements_one w1 v t w2 :
    is_ws w1 → json_text v t → is_ws w2 → json_elements [v] (w1 ++ t ++ w2)
| elements_more w1 v t w2 vs ts :
    is_ws w1 → json_text v t → is_ws w2 → json_elements vs ts →
    json_elements (v :: vs) (w1 ++ t ++ w2 ++ ","%ch :: ts)

with json_members : list (list str_item * json) → bytes → Prop :=
| members_one w1 k w2 w3 v t w4 :
    is_ws w1 → Forall item_ok k → is_ws w2 → is_ws w3 → json_text v t → is_ws w4 →
    json_members [(k, v)] (w1 ++ quoted k ++ w2 ++ ":"%ch :: w3 ++ t ++ w4)
| members_more w1 k w2 w3 v t w4 ms ts :
    is_ws w1 → Forall item_ok k → is_ws w2 → is_ws w3 → json_text v t → is_ws w4 →
    json_members ms ts →
    json_members ((k, v) :: ms)
      (w1 ++ quoted k ++ w2 ++ ":"%ch :: w3 ++ t ++ w4 ++ ","%ch :: ts).

Scheme json_text_mut := Induction for json_text Sort Prop
with json_elements_mut := Induction for json_elements Sort Prop
with json_members_mut := Induction for json_members Sort Prop.
Combined Scheme json_mutind from json_text_mut, json_elements_mut, json_members_mut.

(** A document is one value with white space around it. *)
Definition json_document (v : json) (s : bytes) : Prop :=
  ∃ w1 t w2, s = w1 ++ t ++ w2 ∧ is_ws w1 ∧ json_text v t ∧ is_ws w2.

(** ** Rendering *)

Definition indent (d : Z) : bytes := 10 :: replicate (Z.to_nat (2 * d)) 32.

Section render.
Context (pretty : bool).

Definition line_break (d : Z) : bytes := if pretty then indent d else [].
Definition colon : bytes := if pretty then [58; 32] else [58].

Fixpoint render (d : Z) (v : json) : bytes :=
  match v with
  | JNull => c_str "null"
  | JBool true => c_str "true"
  | JBool false => c_str "false"
  | JNum t => t
  | JStr l => quoted l
  | JArr vs =>
      "["%ch ::
      (fix go first vs :=
         match vs with
         | [] => (if first : bool then [] else line_break d) ++ ["]"%ch]
         | v :: vs =>
             (if first : bool then [] else [","%ch]) ++ line_break (d + 1)
             ++ render (d + 1) v ++ go false vs
         end) true vs
  | JObj ms =>
      "{"%ch ::
      (fix go first ms :=
         match ms with
         | [] => (if first : bool then [] else line_break d) ++ ["}"%ch]
         | (k, v) :: ms =>
             (if first : bool then [] else [","%ch]) ++ line_break (d + 1)
             ++ quoted k ++ colon ++ render (d + 1) v ++ go false ms
         end) true ms
  end.

(** The part of an array or object after its opening bracket, or after one of
    its elements. *)
Fixpoint render_elements (d : Z) (first : bool) (vs : list json) : bytes :=
  match vs with
  | [] => (if first then [] else line_break d) ++ ["]"%ch]
  | v :: vs =>
      (if first then [] else [","%ch]) ++ line_break (d + 1)
      ++ render (d + 1) v ++ render_elements d false vs
  end.

Fixpoint render_members (d : Z) (first : bool) (ms : list (list str_item * json)) : bytes :=
  match ms with
  | [] => (if first then [] else line_break d) ++ ["}"%ch]
  | (k, v) :: ms =>
      (if first then [] else [","%ch]) ++ line_break (d + 1)
      ++ quoted k ++ colon ++ render (d + 1) v ++ render_members d false ms
  end.

Lemma render_arr d vs : render d (JArr vs) = "["%ch :: render_elements d true vs.
Proof.
  cbn [render]. f_equal. generalize true. induction vs as [|v vs IH]; intros first; [done|].
  cbn [render_elements]. by rewrite IH.
Qed.

Lemma render_obj d ms : render d (JObj ms) = "{"%ch :: render_members d true ms.
Proof.
  cbn [render]. f_equal. generalize true. induction ms as [|[k v] ms IH]; intros first; [done|].
  cbn [render_members]. by rewrite IH.
Qed.

Lemma render_elements_cons d first v vs :
  render_elements d first (v :: vs)
  = (if first then [] else [","%ch]) ++ line_break (d + 1)
    ++ render (d + 1) v ++ render_elements d false vs.
Proof. done. Qed.

Lemma render_members_cons d first k v ms :
  render_members d first ((k, v) :: ms)
  = (if first then [] else [","%ch]) ++ line_break (d + 1)
    ++ quoted k ++ colon ++ render (d + 1) v ++ render_members d false ms.
Proof. done. Qed.
End render.
#[global] Arguments render : simpl never.
#[global] Arguments render_elements : simpl never.
#[global] Arguments render_members : simpl never.

(** ** The reference parser *)

(** The items of a string up to its closing quote, and what follows it. *)
Fixpoint scan_string (s : bytes) : option (list str_item * bytes) :=
  match s with
  | [] => None
  | b :: s1 =>
      if b =? 34 then Some ([], s1)
      else if b <? 32 then None
      else if b =? 92 then
        match s1 with
        | [] => None
        | e :: s2 =>
            if e =? 117 then
              match s2 with
              | h0 :: h1 :: h2 :: h3 :: s3 =>
                  if is_hex h0 && is_hex h1 && is_hex h2 && is_hex h3 then
                    '(l, r) ← scan_string s3; Some (Uni h0 h1 h2 h3 :: l, r)
                  else None
              | _ => None
              end
            else if is_simple_escape e then '(l, r) ← scan_string s2; Some (Esc e :: l, r)
            else None
        end
      else '(l, r) ← scan_string s1; Some (Plain b :: l, r)
  end.

(** [s] starts with [n] hexadecimal digits. *)
Definition hex_digits_of (n : nat) (s : bytes) : Prop :=
  (n ≤ length s)%nat ∧ Forall (λ c, is_hex c = true) (take n s).

#[export] Instance hex_digits_of_dec n s : Decision (hex_digits_of n s).
Proof. unfold hex_digits_of. apply _. Defined.

Lemma hex_digits_of_cons n b s :
  hex_digits_of (S n) (b :: s) ↔ is_hex b = true ∧ hex_digits_of n s.
Proof. unfold hex_digits_of. simpl. rewrite Forall_cons. intuition lia. Qed.

Definition skip_ws (s : bytes) : bytes := drop_while lonejson__is_json_space s.
#[global] Arguments skip_ws : simpl never.

(** The bytes a number token is made of. *)
Definition is_number_char (c : Z) : bool :=
  lonejson__is_digit c || (c =? "+"%ch) || (c =? "-"%ch) || (c =? "."%ch)
  || (c =? "e"%ch) || (c =? "E"%ch).

Definition scan_number (s : bytes) : option (json * bytes) :=
  let t := take_while is_number_char s in
  if lonejson__is_valid_json_number t then Some (JNum t, drop_while is_number_char s) else None.

(** [p] at the front of [s]. *)
Fixpoint strip (p s : bytes) : option bytes :=
  match p, s with
  | [], _ => Some s
  | a :: p, b :: s => if b =? a then strip p s else None
  | _, [] => None
  end.

Definition starts_number (c : Z) : bool := (c =? "-"%ch) || lonejson__is_digit c.

Fixpoint ref_value (n : nat) (s : bytes) : option (json * bytes) :=
  match n with
  | O => None
  | S n =>
      match skip_ws s with
      | [] => None
      | c :: s1 =>
          if c =? 34 then '(l, r) ← scan_string s1; Some (JStr l, r)
          else if c =? "{"%ch then '(ms, r) ← ref_members n true s1; Some (JObj ms, r)
          else if c =? "["%ch then '(vs, r) ← ref_elements n true s1; Some (JArr vs, r)
          else if c =? "t"%ch then r ← strip (c_str "rue") s1; Some (JBool true, r)
          else if c =? "f"%ch then r ← strip (c_str "alse") s1; Some (JBool false, r)
          else if c =? "n"%ch then r ← strip (c_str "ull") s1; Some (JNull, r)
          else if starts_number c then scan_number (c :: s1)
          else None
      end
  end

(** The elements up to and with the closing bracket. *)
with ref_elements (n : nat) (first : bool) (s : bytes) : option (list json * bytes) :=
  match n with
  | O => None
  | S n =>
      match skip_ws s with
      | [] => None
      | c :: s1 =>
          if c =? "]"%ch then Some ([], s1)
          else
            s2 ← (if first then Some (c :: s1) else if c =? ","%ch then Some s1 else None);
            '(v, s3) ← ref_value n s2;
            '(vs, s4) ← ref_elements n false s3;
            Some (v :: vs, s4)
      end
  end

with ref_members (n : nat) (first : bool) (s : bytes) :
    option (list (list str_item * json) * bytes) :=
  match n with
  | O => None
  | S n =>
      match skip_ws s with
      | [] => None
      | c :: s1 =>
          if c =? "}"%ch then Some ([], s1)
          else
            s2 ← (if first then Some (c :: s1) else if c =? ","%ch then Some s1 else None);
            match skip_ws s2 with
            | [] => None
            | q :: s3 =>
                if negb (q =? 34) then None
                else
                  '(k, s4) ← scan_string s3;
                  match skip_ws s4 with
                  | [] => None
                  | d :: s5 =>
                      if negb (d =? ":"%ch) then None
                      else
                        '(v, s6) ← ref_value n s5;
                        '(ms, s7) ← ref_members n false s6;
                        Some ((k, v) :: ms, s7)
                  end
            end
      end
  end.

(** Each level of a value costs two steps and at least one byte. *)
Definition ref_fuel (s : bytes) : nat := 2 * length s + 2.

Definition ref_document (s : bytes) : option json :=
  '(v, r) ← ref_value (ref_fuel s) s;
  match skip_ws r with
  | [] => Some v
  | _ :: _ => None
  end.

(** ** White space, strings, numbers *)

Lemma skip_ws_app w s : is_ws w → skip_ws (w ++ s) = skip_ws s.
Proof. apply drop_while_app. Qed.

Lemma skip_ws_split s : ∃ w, is_ws w ∧ s = w ++ skip_ws s.
Proof.
  exists (take_while lonejson__is_json_space s). split; [apply take_while_Forall|].
  symmetry. apply take_drop_while.
Qed.

Lemma skip_ws_cons c s : lonejson__is_json_space c = false → skip_ws (c :: s) = c :: s.
Proof. unfold skip_ws. simpl. by intros ->. Qed.

Lemma skip_ws_nil s : skip_ws s = [] ↔ is_ws s.
Proof.
  split.
  - intros H. destruct (skip_ws_split s) as (w & Hw & ->). by rewrite H, app_nil_r.
  - intros H. rewrite <- (app_nil_r s). by rewrite skip_ws_app.
Qed.

Lemma skip_ws_length s : (length (skip_ws s) ≤ length s)%nat.
Proof. apply drop_while_length. Qed.

Lemma simple_escape_not_u c : is_simple_escape c = true → c ≠ 117.
Proof. intros H ->. by vm_compute in H. Qed.

Lemma items_bytes_cons i l : items_bytes (i :: l) = item_bytes i ++ items_bytes l.
Proof. done. Qed.

Lemma scan_string_complete l r :
  Forall item_ok l → scan_string (items_bytes l ++ 34 :: r) = Some (l, r).
Proof.
  induction 1 as [|i l Hi Hl IH]; [done|]. rewrite items_bytes_cons.
  destruct i as [b|c|a b c d]; cbn [item_bytes app item_ok] in *; cbn [scan_string].
  - unfold is_plain in Hi. replace (b =? 34) with false by lia.
    replace (b <? 32) with false by lia. replace (b =? 92) with false by lia. by rewrite IH.
  - change (92 =? 34) with false. change (92 <? 32) with false. change (92 =? 92) with true.
    cbv iota. replace (c =? 117) with false by (apply simple_escape_not_u in Hi; lia).
    by rewrite Hi, IH.
  - change (92 =? 34) with false. change (92 <? 32) with false. change (92 =? 92) with true.
    change (117 =? 117) with true. cbv iota. by rewrite Hi, IH.
Qed.

Lemma scan_string_sound s l r :
  scan_string s = Some (l, r) → Forall item_ok l ∧ s = items_bytes l ++ 34 :: r.
Proof.
  revert l r. induction (Nat.lt_wf_0_projected (@length Z) s) as [s _ IH]. intros l r.
  assert (∀ s' x l' r', (length s' < length s)%nat →
    ('(l, r) ← scan_string s'; Some (x :: l, r)) = Some (l', r') →
    ∃ l0, l' = x :: l0 ∧ Forall item_ok l0 ∧ s' = items_bytes l0 ++ 34 :: r') as Hrec.
  { intros s' x l' r' Hlen H. destruct (scan_string s') as [[l0 r0]|] eqn:E; [|done].
    simpl in H. simplify_eq. exists l0. by destruct (IH _ Hlen _ _ E). }
  destruct s as [|b s1]; [done|]. cbn [scan_string].
  case_if; [intros [= <- <-]; split; [done|]; simpl; f_equal; lia|].
  case_if; [done|]. case_if.
  - destruct s1 as [|e s2]; [done|]. case_if.
    + destruct s2 as [|h0 [|h1 [|h2 [|h3 s3]]]]; [done..|]. case_if; [|done].
      intros H. apply Hrec in H as (l0 & -> & Hl & ->); [|simpl; lia].
      split; [by constructor|]. simpl. by repeat f_equal; lia.
    + case_if; [|done]. intros H. apply Hrec in H as (l0 & -> & Hl & ->); [|simpl; lia].
      split; [by constructor|]. simpl. by repeat f_equal; lia.
  - intros H. apply Hrec in H as (l0 & -> & Hl & ->); [|simpl; lia].
    split; [|done]. constructor; [|done]. unfold item_ok, is_plain. lia.
Qed.

#[global] Arguments scan_string : simpl never.

(** The equation of the scanner. *)
Lemma scan_string_cons b s1 :
  scan_string (b :: s1) =
  if b =? 34 then Some ([], s1)
  else if b <? 32 then None
  else if b =? 92 then
    match s1 with
    | [] => None
    | e :: s2 =>
        if e =? 117 then
          match s2 with
          | h0 :: h1 :: h2 :: h3 :: s3 =>
              if is_hex h0 && is_hex h1 && is_hex h2 && is_hex h3 then
                '(l, r) ← scan_string s3; Some (Uni h0 h1 h2 h3 :: l, r)
              else None
          | _ => None
          end
        else if is_simple_escape e then '(l, r) ← scan_string s2; Some (Esc e :: l, r)
        else None
    end
  else '(l, r) ← scan_string s1; Some (Plain b :: l, r).
Proof. done. Qed.

(** A run of unescaped bytes is scanned byte by byte. *)
Lemma scan_string_plain span s :
  Forall (λ b, is_plain b = true) span →
  scan_string (span ++ s) = '(l, r) ← scan_string s; Some (map Plain span ++ l, r).
Proof.
  induction 1 as [|b span Hb _ IH].
  - cbn [app map]. by destruct (scan_string s) as [[l r]|].
  - cbn [app]. rewrite scan_string_cons. unfold is_plain in Hb.
    replace (b =? 34) with false by lia. replace (b <? 32) with false by lia.
    replace (b =? 92) with false by lia. rewrite IH.
    by destruct (scan_string s) as [[l r]|].
Qed.

Lemma items_bytes_plain span l : items_bytes (map Plain span ++ l) = span ++ items_bytes l.
Proof. induction span as [|b span IH]; [done|]. simpl. by f_equal. Qed.

Lemma strip_iff p s r : strip p s = Some r ↔ s = p ++ r.
Proof.
  revert s. induction p as [|a p IH]; intros s.
  - destruct s; simpl; split; congruence.
  - destruct s as [|b s]; simpl; [done|]. case_if.
    + rewrite IH. split; [intros ->; f_equal; lia|by intros [= _ ->]].
    + split; [done|intros [= -> _]; lia].
Qed.

Lemma digits_number_char ds : all_digits ds → Forall (λ c, is_number_char c = true) ds.
Proof.
  intros H. eapply Forall_impl; [exact H|]. intros c Hc. unfold is_number_char.
  change (lonejson__is_digit c = true) in Hc. by rewrite Hc.
Qed.

Lemma json_number_chars t : json_number t → Forall (λ c, is_number_char c = true) t.
Proof.
  intros (m & i & f & e & -> & Hm & Hi & Hf & He).
  apply Forall_app_2; [|apply Forall_app_2; [|apply Forall_app_2]].
  - by destruct Hm; repeat constructor.
  - apply digits_number_char. by apply json_int_digits.
  - destruct Hf as [|ds [_ Hds]]; constructor; [done|]. by apply digits_number_char.
  - destruct He as [|x s ds Hx Hs [_ Hds]]; [done|]. constructor; [destruct Hx as [->| ->]; done|].
    apply Forall_app_2; [|by apply digits_number_char].
    destruct Hs as [|c Hc]; constructor; [|done]. by destruct Hc as [->| ->].
Qed.

Lemma json_number_head t : json_number t → ∃ c t', t = c :: t' ∧ starts_number c = true.
Proof.
  intros (m & i & f & e & -> & Hm & Hi & _ & _). unfold starts_number, lonejson__is_digit.
  destruct Hm; [|simpl; eauto]. destruct Hi as [|d ds Hd _]; simpl; [eauto|].
  exists d, (ds ++ f ++ e). split; [done|lia].
Qed.

(** What may follow a value: anything that does not continue a number. *)
Definition value_stops (r : bytes) : Prop :=
  match r with
  | [] => True
  | c :: _ => is_number_char c = false
  end.

Lemma scan_number_complete t r :
  json_number t → value_stops r → scan_number (t ++ r) = Some (JNum t, r).
Proof.
  intros Ht Hr. unfold scan_number. pose proof (json_number_chars t Ht) as Hc.
  rewrite take_while_app, drop_while_app by done.
  assert (take_while is_number_char r = [] ∧ drop_while is_number_char r = r) as [-> ->].
  { destruct r as [|c r]; [done|]. simpl in *. by rewrite Hr. }
  rewrite app_nil_r. apply is_valid_json_number_spec in Ht. by rewrite Ht.
Qed.

Lemma scan_number_sound s v r :
  scan_number s = Some (v, r) → ∃ t, v = JNum t ∧ json_number t ∧ s = t ++ r.
Proof.
  unfold scan_number. case_if; [|done]. intros [= <- <-].
  exists (take_while is_number_char s). rewrite take_drop_while.
  by rewrite <- is_valid_json_number_spec.
Qed.

Lemma starts_number_char c : starts_number c = true → is_number_char c = true.
Proof. unfold starts_number, is_number_char. destruct (lonejson__is_digit c); [done|]. simpl. lia. Qed.

Lemma scan_number_cons c s :
  starts_number c = true →
  scan_number (c :: s)
  = if lonejson__is_valid_json_number (c :: take_while is_number_char s)
    then Some (JNum (c :: take_while is_number_char s), drop_while is_number_char s) else None.
Proof.
  intros Hc. unfold scan_number. cbn [take_while drop_while]. by rewrite starts_number_char.
Qed.

(** ** The reference parser is sound *)

Ltac bind_in H :=
  match type of H with
  | (_ ← ?m; _) = Some _ =>
      let E := fresh "E" in
      destruct m as [?|] eqn:E; [|by simpl in H];
      repeat match goal with p : (_ * _)%type |- _ => destruct p end; simpl in H
  end.

(** What the loop over elements accepts after the opening bracket ([first]) or
    after an element. *)
Definition elements_text (first : bool) (vs : list json) (s r : bytes) : Prop :=
  match vs with
  | [] => ∃ w, is_ws w ∧ s = w ++ "]"%ch :: r
  | _ :: _ => ∃ w t, is_ws w ∧ json_elements vs t
              ∧ s = w ++ (if first then t else ","%ch :: t) ++ "]"%ch :: r
  end.

Definition members_text (first : bool) (ms : list (list str_item * json)) (s r : bytes) : Prop :=
  match ms with
  | [] => ∃ w, is_ws w ∧ s = w ++ "}"%ch :: r
  | _ :: _ => ∃ w t, is_ws w ∧ json_members ms t
              ∧ s = w ++ (if first then t else ","%ch :: t) ++ "}"%ch :: r
  end.

(** One more element in front of the rest of the list. *)
Lemma elements_text_cons v t w1 vs s3 r :
  is_ws w1 → json_text v t → elements_text false vs s3 r →
  ∃ t', json_elements (v :: vs) t' ∧ w1 ++ t ++ s3 = t' ++ "]"%ch :: r.
Proof.
  intros Hw1 Ht. destruct vs as [|v' vs]; cbn [elements_text].
  - intros (w & Hw & ->). exists (w1 ++ t ++ w). split; [by constructor|].
    by rewrite <- !app_assoc.
  - intros (w & ts & Hw & Hts & ->). exists (w1 ++ t ++ w ++ 44 :: ts).
    split; [by constructor|]. by rewrite <- !app_assoc.
Qed.

Lemma members_text_cons k v t w1 w2 w3 ms s3 r :
  is_ws w1 → Forall item_ok k → is_ws w2 → is_ws w3 → json_text v t → members_text false ms s3 r →
  ∃ t', json_members ((k, v) :: ms) t'
        ∧ w1 ++ quoted k ++ w2 ++ ":"%ch :: w3 ++ t ++ s3 = t' ++ "}"%ch :: r.
Proof.
  intros Hw1 Hk Hw2 Hw3 Ht. destruct ms as [|m' ms]; cbn [members_text].
  - intros (w & Hw & ->). exists (w1 ++ quoted k ++ w2 ++ 58 :: w3 ++ t ++ w).
    split; [by constructor|]. by rewrite <- !app_assoc; cbn [app]; rewrite <- !app_assoc.
  - intros (w & ts & Hw & Hts & ->). exists (w1 ++ quoted k ++ w2 ++ 58 :: w3 ++ t ++ w ++ 44 :: ts).
    split; [by constructor|]. by rewrite <- !app_assoc; cbn [app]; rewrite <- !app_assoc.
Qed.

Lemma first_or_comma first c s1 s2 :
  (if first : bool then Some (c :: s1) else if c =? ","%ch then Some s1 else None) = Some s2 →
  c :: s1 = (if first then s2 else ","%ch :: s2).
Proof. destruct first; [by intros [= <-]|]. case_if; [|done]. intros [= <-]. f_equal. lia. Qed.

Lemma is_ws_app w1 w2 : is_ws w1 → is_ws w2 → is_ws (w1 ++ w2).
Proof. apply Forall_app_2. Qed.

(** The closed text of an array or object. *)
Lemma arr_text vs s r :
  elements_text true vs s r → ∃ t, json_text (JArr vs) t ∧ "["%ch :: s = t ++ r.
Proof.
  destruct vs as [|v vs]; cbn [elements_text].
  - intros (w & Hw & ->). exists ("["%ch :: w ++ ["]"%ch]). split; [by constructor|].
    simpl. by rewrite <- app_assoc.
  - intros (w & t & Hw & Ht & ->). exists ("["%ch :: (w ++ t) ++ ["]"%ch]). split.
    + constructor. inversion Ht; subst; rewrite app_assoc; constructor; auto using is_ws_app.
    + simpl. by rewrite <- !app_assoc.
Qed.

Lemma obj_text ms s r :
  members_text true ms s r → ∃ t, json_text (JObj ms) t ∧ "{"%ch :: s = t ++ r.
Proof.
  destruct ms as [|m ms]; cbn [members_text].
  - intros (w & Hw & ->). exists ("{"%ch :: w ++ ["}"%ch]). split; [by constructor|].
    simpl. by rewrite <- app_assoc.
  - intros (w & t & Hw & Ht & ->). exists ("{"%ch :: (w ++ t) ++ ["}"%ch]). split.
    + constructor. inversion Ht; subst; rewrite app_assoc; constructor; auto using is_ws_app.
    + simpl. by rewrite <- !app_assoc.
Qed.

Lemma ref_sound n :
  (∀ s v r, ref_value n s = Some (v, r) → ∃ w t, is_ws w ∧ json_text v t ∧ s = w ++ t ++ r)
  ∧ (∀ first s vs r, ref_elements n first s = Some (vs, r) → elements_text first vs s r)
  ∧ (∀ first s ms r, ref_members n first s = Some (ms, r) → members_text first ms s r).
Proof.
  induction n as [|n (IHv & IHe & IHm)]; [done|]. split_and!.
  - intros s v r H. cbn [ref_value] in H. destruct (skip_ws_split s) as (w & Hw & Hs).
    destruct (skip_ws s) as [|c s1]; [done|].
    assert (∀ t, json_text v t → c :: s1 = t ++ r →
      ∃ w t, is_ws w ∧ json_text v t ∧ s = w ++ t ++ r) as Hdone.
    { intros t Ht Hc. exists w, t. by rewrite Hs, Hc. }
    repeat case_if; try done; try bind_in H; simplify_eq.
    + assert (c = 34) as -> by lia. apply scan_string_sound in E as [Hl ->].
      eapply Hdone; [by constructor|]. simpl. by rewrite <- app_assoc.
    + assert (c = 123) as -> by lia. apply IHm, obj_text in E as (t & Ht & E). eauto.
    + assert (c = 91) as -> by lia. apply IHe, arr_text in E as (t & Ht & E). eauto.
    + assert (c = 116) as -> by lia. apply strip_iff in E as ->. by eapply Hdone; [constructor|].
    + assert (c = 102) as -> by lia. apply strip_iff in E as ->. by eapply Hdone; [constructor|].
    + assert (c = 110) as -> by lia. apply strip_iff in E as ->. by eapply Hdone; [constructor|].
    + apply scan_number_sound in H as (t & -> & Ht & Hc). by eapply Hdone; [constructor|].
  - intros first s vs r H. cbn [ref_elements] in H. destruct (skip_ws_split s) as (w & Hw & Hs).
    destruct (skip_ws s) as [|c s1]; [done|]. case_if.
    { injection H as <- <-. exists w. rewrite Hs. split; [done|]. repeat f_equal. lia. }
    do 3 bind_in H. injection H as <- <-. apply first_or_comma in E. apply IHe in E1.
    apply IHv in E0 as (w1 & t & Hw1 & Ht & ->).
    destruct (elements_text_cons _ _ _ _ _ _ Hw1 Ht E1) as (t' & Ht' & E').
    exists w, t'. rewrite Hs, E, E'. by destruct first.
  - intros first s ms r H. cbn [ref_members] in H. destruct (skip_ws_split s) as (w & Hw & Hs).
    destruct (skip_ws s) as [|c s1]; [done|]. case_if.
    { injection H as <- <-. exists w. rewrite Hs. split; [done|]. repeat f_equal. lia. }
    bind_in H. apply first_or_comma in E. destruct (skip_ws_split l) as (w1 & Hw1 & Hl).
    destruct (skip_ws l) as [|q s3]; [done|]. case_if; [done|]. bind_in H.
    apply scan_string_sound in E0 as [Hk ->].
    destruct (skip_ws_split l1) as (w2 & Hw2 & Hl1).
    destruct (skip_ws l1) as [|d s5]; [done|]. case_if; [done|]. do 2 bind_in H.
    injection H as <- <-. apply IHv in E0 as (w3 & t & Hw3 & Ht & ->). apply IHm in E1.
    destruct (members_text_cons _ _ _ _ _ _ _ _ _ Hw1 Hk Hw2 Hw3 Ht E1) as (t' & Ht' & E').
    exists w, t'. rewrite Hs, E. assert (q = 34 ∧ d = 58) as [-> ->] by lia.
    assert (l = t' ++ 125 :: l4) as E2.
    { rewrite <- E', Hl, Hl1. unfold quoted. cbn [app]. by rewrite <- !app_assoc. }
    split_and!; [done..|]. rewrite E2. by destruct first.
Qed.

(** A value consumes input. *)
Lemma json_text_nonempty v t : json_text v t → t ≠ [].
Proof.
  destruct 1 as [| | |t Hn| | | | |]; try done. intros ->.
  apply is_valid_json_number_spec in Hn. done.
Qed.

Lemma ref_value_shorter n s v r : ref_value n s = Some (v, r) → (length r < length s)%nat.
Proof.
  intros H. apply ref_sound in H as (w & t & _ & Ht & ->). apply json_text_nonempty in Ht.
  rewrite !length_app. destruct t; [done|]. simpl. lia.
Qed.

Lemma scan_string_shorter s l r : scan_string s = Some (l, r) → (length r < length s)%nat.
Proof. intros H. apply scan_string_sound in H as [_ ->]. rewrite length_app. simpl. lia. Qed.

(** ** The reference parser is complete *)

Lemma text_head v t :
  json_text v t →
  ∃ c t', t = c :: t' ∧ lonejson__is_json_space c = false
          ∧ c ≠ "]"%ch ∧ c ≠ "}"%ch ∧ c ≠ ","%ch.
Proof.
  intros [| | |t' Hn| | | | |]; try by (eexists _, _; split; [reflexivity|vm_compute; split_and!; done]).
  destruct (json_number_head t' Hn) as (c & u & -> & Hc).
  unfold starts_number, lonejson__is_digit, lonejson__is_json_space in *.
  exists c, u. split_and!; [done|lia..].
Qed.

Lemma skip_ws_text w v t r : is_ws w → json_text v t → skip_ws (w ++ t ++ r) = t ++ r.
Proof.
  intros Hw Ht. rewrite skip_ws_app by done.
  destruct (text_head _ _ Ht) as (c & t' & -> & Hc & _). by apply skip_ws_cons.
Qed.

Lemma value_stops_ws w r :
  is_ws w → value_stops r → value_stops (w ++ r).
Proof.
  intros [|c w' Hc _]; [done|]. intros _. simpl. unfold lonejson__is_json_space in Hc.
  unfold is_number_char, lonejson__is_digit. lia.
Qed.

Lemma ref_value_ws n w s : is_ws w → ref_value n (w ++ s) = ref_value n s.
Proof. intros Hw. destruct n; [done|]. cbn [ref_value]. by rewrite skip_ws_app. Qed.

(** Fuel for a text: two steps per byte are enough. *)
Definition value_complete (v : json) (t : bytes) : Prop :=
  ∀ n w r, (2 * length t ≤ n)%nat → is_ws w → value_stops r →
    ref_value n (w ++ t ++ r) = Some (v, r).

Definition elements_complete (vs : list json) (t : bytes) : Prop :=
  ∀ n first w r, (2 * length t + 3 ≤ n)%nat → is_ws w →
    ref_elements n first (w ++ (if first then t else ","%ch :: t) ++ "]"%ch :: r) = Some (vs, r).

Definition members_complete (ms : list (list str_item * json)) (t : bytes) : Prop :=
  ∀ n first w r, (2 * length t + 3 ≤ n)%nat → is_ws w →
    ref_members n first (w ++ (if first then t else ","%ch :: t) ++ "}"%ch :: r) = Some (ms, r).

(** The end of an array or object. *)
Lemma ref_elements_end n first w r :
  (1 ≤ n)%nat → is_ws w → ref_elements n first (w ++ "]"%ch :: r) = Some ([], r).
Proof. intros Hn Hw. destruct n; [lia|]. cbn [ref_elements]. by rewrite skip_ws_app. Qed.

Lemma ref_members_end n first w r :
  (1 ≤ n)%nat → is_ws w → ref_members n first (w ++ "}"%ch :: r) = Some ([], r).
Proof. intros Hn Hw. destruct n; [lia|]. cbn [ref_members]. by rewrite skip_ws_app. Qed.

Lemma elements_step v t w1 rest vs r n first w :
  value_complete v t → json_text v t → is_ws w1 → is_ws w → value_stops rest →
  (2 * length t ≤ n)%nat →
  ref_elements n false rest = Some (vs, r) →
  ref_elements (S n) first (w ++ (if first then w1 ++ t ++ rest else ","%ch :: w1 ++ t ++ rest))
  = Some (v :: vs, r).
Proof.
  intros Hv Ht Hw1 Hw Hr Hn Hrest. cbn [ref_elements]. rewrite skip_ws_app by done.
  destruct first.
  - rewrite (skip_ws_text w1 v) by done. pose proof (Hv n [] rest Hn (Forall_nil_2 _) Hr) as Hv'.
    destruct (text_head _ _ Ht) as (c & t' & -> & Hc & H1 & _). cbn [app] in *.
    replace (c =? 93) with false by lia. simpl. by rewrite Hv'; simpl; rewrite Hrest.
  - rewrite skip_ws_cons by done. change (44 =? 93) with false. change (44 =? 44) with true.
    simpl. rewrite Hv by done. simpl. by rewrite Hrest.
Qed.

Lemma some_bind {A B} (x : A) (f : A → option B) : (Some x ≫= f) = f x.
Proof. done. Qed.

Lemma members_step k w2 w3 v t w1 rest ms r n first w :
  value_complete v t → Forall item_ok k → is_ws w1 → is_ws w2 → is_ws w3 → is_ws w →
  value_stops rest → (2 * length t ≤ n)%nat →
  ref_members n false rest = Some (ms, r) →
  ref_members (S n) first
    (w ++ (if first then w1 ++ quoted k ++ w2 ++ ":"%ch :: w3 ++ t ++ rest
           else ","%ch :: w1 ++ quoted k ++ w2 ++ ":"%ch :: w3 ++ t ++ rest))
  = Some ((k, v) :: ms, r).
Proof.
  intros Hv Hk Hw1 Hw2 Hw3 Hw Hr Hn Hrest. cbn [ref_members]. rewrite skip_ws_app by done.
  assert (∀ s, skip_ws (w1 ++ quoted k ++ s) = 34 :: items_bytes k ++ 34 :: s) as Hq.
  { intros s. rewrite skip_ws_app by done. unfold quoted. cbn [app].
    rewrite skip_ws_cons by done. by rewrite <- app_assoc. }
  assert (∀ s, skip_ws (w2 ++ 58 :: s) = 58 :: s) as Hc.
  { intros s. by rewrite skip_ws_app. }
  destruct first.
  - rewrite Hq. change (34 =? 125) with false. cbv iota. simpl mbind.
    rewrite scan_string_complete by done. simpl. rewrite Hc. change (negb (58 =? 58)) with false.
    cbv iota. rewrite Hv by done. simpl. by rewrite Hrest.
  - rewrite skip_ws_cons by done. change (44 =? 125) with false. change (44 =? 44) with true.
    cbv iota. rewrite some_bind, Hq. change (negb (34 =? 34)) with false. cbv iota.
    rewrite scan_string_complete by done. simpl. rewrite Hc. change (negb (58 =? 58)) with false.
    cbv iota. rewrite Hv by done. simpl. by rewrite Hrest.
Qed.

Lemma ref_complete :
  (∀ v t, json_text v t → value_complete v t)
  ∧ (∀ vs t, json_elements vs t → elements_complete vs t)
  ∧ (∀ ms t, json_members ms t → members_complete ms t).
Proof.
  apply json_mutind.
  - intros [|n] w r Hn Hw Hr; [vm_compute in Hn; lia|]. rewrite ref_value_ws by done.
    by change (c_str "null") with [110; 117; 108; 108].
  - intros [|n] w r Hn Hw Hr; [vm_compute in Hn; lia|]. rewrite ref_value_ws by done.
    by change (c_str "true") with [116; 114; 117; 101].
  - intros [|n] w r Hn Hw Hr; [vm_compute in Hn; lia|]. rewrite ref_value_ws by done.
    by change (c_str "false") with [102; 97; 108; 115; 101].
  - intros t Ht n w r Hn Hw Hr. destruct (json_number_head t Ht) as (c & t' & Et & Hc).
    destruct n; [subst; simpl in Hn; lia|]. rewrite ref_value_ws by done. cbn [ref_value].
    pose proof (scan_number_complete t r Ht Hr) as Hscan. subst t. cbn [app] in *.
    unfold starts_number, lonejson__is_digit in *.
    rewrite skip_ws_cons by (unfold lonejson__is_json_space; lia).
    repeat match goal with |- context [if c =? ?k then _ else _] =>
      replace (c =? k) with false by lia end.
    rewrite Hscan. by replace (_ || _) with true by lia.
  - intros l Hl n w r Hn Hw Hr. destruct n; [simpl in Hn; lia|]. rewrite ref_value_ws by done.
    cbn [ref_value]. unfold quoted. cbn [app]. rewrite skip_ws_cons by done. rewrite Z.eqb_refl.
    rewrite <- app_assoc. cbn [app]. by rewrite scan_string_complete.
  - intros w' Hw' n w r Hn Hw Hr. destruct n; [simpl in Hn; lia|]. rewrite ref_value_ws by done.
    cbn [ref_value app]. rewrite skip_ws_cons by done. simpl. rewrite <- app_assoc. cbn [app].
    rewrite ref_elements_end by (done || simpl in *; lia). done.
  - intros vs t Ht IH n w r Hn Hw Hr. destruct n; [simpl in Hn; lia|]. rewrite ref_value_ws by done.
    cbn [ref_value app]. rewrite skip_ws_cons by done. simpl. rewrite <- app_assoc. cbn [app].
    simpl in Hn. rewrite length_app in Hn. simpl in Hn.
    pose proof (IH n true [] r ltac:(lia) (Forall_nil_2 _)) as H. cbn [app] in H. by rewrite H.
  - intros w' Hw' n w r Hn Hw Hr. destruct n; [simpl in Hn; lia|]. rewrite ref_value_ws by done.
    cbn [ref_value app]. rewrite skip_ws_cons by done. simpl. rewrite <- app_assoc. cbn [app].
    rewrite ref_members_end by (done || simpl in *; lia). done.
  - intros ms t Ht IH n w r Hn Hw Hr. destruct n; [simpl in Hn; lia|]. rewrite ref_value_ws by done.
    cbn [ref_value app]. rewrite skip_ws_cons by done. simpl. rewrite <- app_assoc. cbn [app].
    simpl in Hn. rewrite length_app in Hn. simpl in Hn.
    pose proof (IH n true [] r ltac:(lia) (Forall_nil_2 _)) as H. cbn [app] in H. by rewrite H.
  - intros w1 v t w2 Hw1 Ht IHt Hw2 n first w r Hn Hw.
    destruct n as [|n]; [lia|]. rewrite !length_app in Hn.
    pose proof (elements_step v t w1 (w2 ++ 93 :: r) [] r n first w IHt Ht Hw1 Hw) as H.
    rewrite ref_elements_end in H by (done || lia).
    destruct first; cbn [app]; rewrite <- ?app_assoc; apply H; try done; try lia;
      by apply value_stops_ws.
  - intros w1 v t w2 vs ts Hw1 Ht IHt Hw2 Hts IHts n first w r Hn Hw.
    destruct n as [|n]; [lia|]. rewrite !length_app in Hn. simpl in Hn.
    pose proof (elements_step v t w1 (w2 ++ 44 :: ts ++ 93 :: r) vs r n first w IHt Ht Hw1 Hw) as H.
    pose proof (IHts n false w2 r ltac:(lia) Hw2) as HI. cbn [app] in HI. rewrite HI in H.
    destruct first; cbn [app]; repeat (rewrite <- app_assoc; cbn [app]); apply H; try done; try lia;
      by apply value_stops_ws.
  - intros w1 k w2 w3 v t w4 Hw1 Hk Hw2 Hw3 Ht IHt Hw4 n first w r Hn Hw.
    destruct n as [|n]; [lia|]. rewrite !length_app in Hn. simpl in Hn. rewrite !length_app in Hn.
    pose proof (members_step k w2 w3 v t w1 (w4 ++ 125 :: r) [] r n first w IHt Hk Hw1 Hw2 Hw3 Hw)
      as H.
    rewrite ref_members_end in H by (done || lia).
    destruct first; cbn [app]; repeat (rewrite <- app_assoc; cbn [app]); apply H; try done; try lia;
      by apply value_stops_ws.
  - intros w1 k w2 w3 v t w4 ms ts Hw1 Hk Hw2 Hw3 Ht IHt Hw4 Hts IHts n first w r Hn Hw.
    destruct n as [|n]; [lia|]. rewrite !length_app in Hn. simpl in Hn. rewrite !length_app in Hn.
    simpl in Hn.
    pose proof (members_step k w2 w3 v t w1 (w4 ++ 44 :: ts ++ 125 :: r) ms r n first w
      IHt Hk Hw1 Hw2 Hw3 Hw) as H.
    pose proof (IHts n false w4 r ltac:(lia) Hw4) as HI. cbn [app] in HI. rewrite HI in H.
    destruct first; cbn [app]; repeat (rewrite <- app_assoc; cbn [app]); apply H; try done; try lia;
      by apply value_stops_ws.
Qed.

(** The reference parser decides whether an input is a JSON document, and of
    which value; fuel beyond [ref_fuel] changes nothing. *)
Definition document_of (p : option (json * bytes)) : option json :=
  '(v, r) ← p;
  match skip_ws r with
  | [] => Some v
  | _ :: _ => None
  end.

Lemma ref_document_at n s v :
  (ref_fuel s ≤ n)%nat → document_of (ref_value n s) = Some v ↔ json_document v s.
Proof.
  intros Hn. unfold document_of, json_document. split.
  - intros H. bind_in H. destruct (skip_ws l) eqn:El; [|done]. simplify_eq.
    apply skip_ws_nil in El. apply ref_sound in E as (w & t & Hw & Ht & ->).
    by exists w, t, l.
  - intros (w1 & t & w2 & -> & Hw1 & Ht & Hw2). unfold ref_fuel in Hn. rewrite !length_app in Hn.
    rewrite (proj1 ref_complete v t Ht); [|lia|done|].
    + simpl. apply skip_ws_nil in Hw2. by rewrite Hw2.
    + rewrite <- (app_nil_r w2). by apply value_stops_ws.
Qed.

Lemma ref_document_iff s v : ref_document s = Some v ↔ json_document v s.
Proof. by apply (ref_document_at (ref_fuel s)). Qed.

Lemma document_of_ref n s :
  (ref_fuel s ≤ n)%nat → document_of (ref_value n s) = ref_document s.
Proof.
  intros Hn. destruct (document_of _) as [v|] eqn:E.
  - apply ref_document_at in E; [|done]. symmetry. by apply ref_document_iff.
  - destruct (ref_document s) as [v|] eqn:E'; [|done]. apply ref_document_iff in E'.
    apply (ref_document_at n) in E'; [congruence|done].
Qed.

(** No text is a document of two values. *)
Lemma json_document_unique s v v' : json_document v s → json_document v' s → v = v'.
Proof. rewrite <- !ref_document_iff. congruence. Qed.

(** ** Renderings are texts *)

Lemma indent_ws d : is_ws (indent d).
Proof.
  unfold indent. constructor; [done|]. by apply Forall_replicate.
Qed.

Lemma line_break_ws pretty d : is_ws (line_break pretty d).
Proof. unfold line_break. destruct pretty; [apply indent_ws|apply Forall_nil_2]. Qed.

Lemma ws_nil : is_ws [].
Proof. apply Forall_nil_2. Qed.
#[local] Hint Resolve line_break_ws ws_nil : core.

Section render_text.
Context (pretty : bool).

Definition renders_elements (vs : list json) : Prop :=
  ∀ d first, ∃ u, json_elements vs u
    ∧ render_elements pretty d first vs = (if first then u else ","%ch :: u) ++ ["]"%ch].

Definition renders_members (ms : list (list str_item * json)) : Prop :=
  ∀ d first, ∃ u, json_members ms u
    ∧ render_members pretty d first ms = (if first then u else ","%ch :: u) ++ ["}"%ch].

Lemma colon_split : ∃ w, is_ws w ∧ colon pretty = ":"%ch :: w.
Proof. unfold colon. destruct pretty; [exists [32]|exists []]; (split; [|done]); repeat constructor. Qed.

(** Rendering a value that some text denotes gives a text that denotes it. *)
Lemma render_is_text_mut :
  (∀ v t, json_text v t → ∀ d, json_text v (render pretty d v))
  ∧ (∀ vs t, json_elements vs t → renders_elements vs)
  ∧ (∀ ms t, json_members ms t → renders_members ms).
Proof.
  apply json_mutind; intros.
  - constructor.
  - constructor.
  - constructor.
  - by constructor.
  - by constructor.
  - rewrite render_arr. by apply (text_arr_nil []).
  - rewrite render_arr. destruct (H d true) as (u & Hu & ->). by constructor.
  - rewrite render_obj. by apply (text_obj_nil []).
  - rewrite render_obj. destruct (H d true) as (u & Hu & ->). by constructor.
  - intros d first.
    exists (line_break pretty (d + 1) ++ render pretty (d + 1) v ++ line_break pretty d).
    split; [by constructor|]. unfold render_elements.
    destruct first; cbn [app]; by rewrite <- !app_assoc.
  - intros d first. destruct (H0 d false) as (u & Hu & Hr).
    exists (line_break pretty (d + 1) ++ render pretty (d + 1) v ++ [] ++ ","%ch :: u).
    split; [by constructor|]. rewrite render_elements_cons, Hr.
    destruct first; cbn [app]; by rewrite <- !app_assoc.
  - intros d first. destruct colon_split as (w & Hw & Hc).
    exists (line_break pretty (d + 1) ++ quoted k ++ [] ++ ":"%ch :: w ++ render pretty (d + 1) v
            ++ line_break pretty d).
    split; [by constructor|]. unfold render_members. rewrite Hc.
    destruct first; cbn [app]; repeat (rewrite <- ?app_assoc; cbn [app]); done.
  - intros d first. destruct (H0 d false) as (u & Hu & Hr). destruct colon_split as (w & Hw & Hc).
    exists (line_break pretty (d + 1) ++ quoted k ++ [] ++ ":"%ch :: w ++ render pretty (d + 1) v
            ++ [] ++ ","%ch :: u).
    split; [by constructor|]. rewrite render_members_cons, Hr, Hc.
    destruct first; cbn [app]; repeat (rewrite <- ?app_assoc; cbn [app]); done.
Qed.
End render_text.

Lemma render_is_text pretty d v t : json_text v t → json_text v (render pretty d v).
Proof. intros. by eapply render_is_text_mut. Qed.

Lemma render_document pretty d v s : json_document v s → json_document v (render pretty d v).
Proof.
  intros (w1 & t & w2 & -> & _ & Ht & _). exists [], (render pretty d v), [].
  rewrite app_nil_r. split_and!; [done|apply ws_nil| |apply ws_nil]. by eapply render_is_text.
Qed.

(** A rendering is made of the bytes of the text and of ASCII. *)
Lemma is_bytes_app (l1 l2 : bytes) : is_bytes (l1 ++ l2) ↔ is_bytes l1 ∧ is_bytes l2.
Proof. apply Forall_app. Qed.

Lemma line_break_bytes pretty d : is_bytes (line_break pretty d).
Proof.
  unfold line_break, indent. destruct pretty; [|constructor]. constructor; [done|].
  by apply Forall_replicate.
Qed.

Lemma colon_bytes pretty : is_bytes (colon pretty).
Proof. destruct pretty; repeat constructor; done. Qed.

Lemma single_byte b : is_byte b → is_bytes [b].
Proof. intros. by apply Forall_cons_2; [|apply Forall_nil_2]. Qed.

Lemma render_bytes_mut pretty :
  (∀ v t, json_text v t → is_bytes t → ∀ d, is_bytes (render pretty d v))
  ∧ (∀ vs t, json_elements vs t → is_bytes t → ∀ d f, is_bytes (render_elements pretty d f vs))
  ∧ (∀ ms t, json_members ms t → is_bytes t → ∀ d f, is_bytes (render_members pretty d f ms)).
Proof.
  assert (∀ (f : bool) l, is_bytes l → is_bytes (if f then [] else l)) as Hif.
  { intros [] l Hl; [constructor|done]. }
  pose proof line_break_bytes as Hlb. pose proof colon_bytes as Hcb.
  apply json_mutind; try done.
  - intros w Hw Ht d. rewrite render_arr. by repeat constructor.
  - intros vs t Ht IH [_ Hb]%Forall_cons d. rewrite render_arr. constructor; [done|].
    apply is_bytes_app in Hb as [Hb _]. by apply IH.
  - intros w Hw Ht d. rewrite render_obj. by repeat constructor.
  - intros ms t Ht IH [_ Hb]%Forall_cons d. rewrite render_obj. constructor; [done|].
    apply is_bytes_app in Hb as [Hb _]. by apply IH.
  - intros w1 v t w2 Hw1 Ht IH Hw2 Hb d f. rewrite !is_bytes_app in Hb. destruct Hb as (_ & Hb & _).
    rewrite render_elements_cons, !is_bytes_app. split_and!;
      [by apply Hif, single_byte|done|by apply IH|].
    unfold render_elements. rewrite is_bytes_app. split; [done|by apply single_byte].
  - intros w1 v t w2 vs ts Hw1 Ht IH Hw2 Hts IHs Hb d f. rewrite !is_bytes_app in Hb.
    destruct Hb as (_ & Hb & _ & [_ Hbs]%Forall_cons).
    rewrite render_elements_cons, !is_bytes_app. split_and!;
      [by apply Hif, single_byte|done|by apply IH|by apply IHs].
  - intros w1 k w2 w3 v t w4 Hw1 Hk Hw2 Hw3 Ht IH Hw4 Hb d f. rewrite !is_bytes_app in Hb.
    destruct Hb as (_ & Hq & _ & Hb). apply Forall_cons in Hb as [_ Hb].
    rewrite !is_bytes_app in Hb. destruct Hb as (_ & Hb & _).
    rewrite render_members_cons, !is_bytes_app. split_and!;
      [by apply Hif, single_byte|done|done|done|by apply IH|].
    unfold render_members. rewrite is_bytes_app. split; [done|by apply single_byte].
  - intros w1 k w2 w3 v t w4 ms ts Hw1 Hk Hw2 Hw3 Ht IH Hw4 Hts IHs Hb d f.
    rewrite !is_bytes_app in Hb. destruct Hb as (_ & Hq & _ & Hb). apply Forall_cons in Hb as [_ Hb].
    rewrite !is_bytes_app in Hb. destruct Hb as (_ & Hb & _ & [_ Hbs]%Forall_cons).
    rewrite render_members_cons, !is_bytes_app. split_and!;
      [by apply Hif, single_byte|done|done|done|by apply IH|by apply IHs].
Qed.

Lemma render_bytes pretty d v s : json_document v s → is_bytes s → is_bytes (render pretty d v).
Proof.
  intros (w1 & t & w2 & -> & _ & Ht & _) Hb. rewrite !is_bytes_app in Hb.
  by eapply render_bytes_mut; [done|apply Hb].
Qed.

Lemma render_nonempty pretty d v s : json_document v s → render pretty d v ≠ [].
Proof.
  intros (w1 & t & w2 & _ & _ & Ht & _). by eapply json_text_nonempty, render_is_text.
Qed.

(** The compact rendering is no longer than the text. *)
Lemma render_compact_length_mut :
  (∀ v t, json_text v t → ∀ d, (length (render false d v) ≤ length t)%nat)
  ∧ (∀ vs t, json_elements vs t → ∀ d f,
       (length (render_elements false d f vs) ≤ length t + (if f then 1 else 2))%nat)
  ∧ (∀ ms t, json_members ms t → ∀ d f,
       (length (render_members false d f ms) ≤ length t + (if f then 1 else 2))%nat).
Proof.
  apply json_mutind; try done.
  - intros w _ d. rewrite render_arr, !length_cons, length_app. cbv [render_elements app length]. lia.
  - intros vs t _ IH d. rewrite render_arr. cbn [length]. specialize (IH d true). cbv iota in IH.
    rewrite length_app. cbn [length]. lia.
  - intros w _ d. rewrite render_obj, !length_cons, length_app. cbv [render_members app length]. lia.
  - intros ms t _ IH d. rewrite render_obj. cbn [length]. specialize (IH d true). cbv iota in IH.
    rewrite length_app. cbn [length]. lia.
  - intros w1 v t w2 _ _ IH _ d f. rewrite render_elements_cons, !length_app. specialize (IH (d + 1)).
    change (length (render_elements false d false [])) with 1%nat. destruct f; cbn; lia.
  - intros w1 v t w2 vs ts _ _ IH _ _ IHs d f. rewrite render_elements_cons, !length_app.
    specialize (IH (d + 1)). specialize (IHs d false). cbn in IHs. destruct f; cbn; lia.
  - intros w1 k w2 w3 v t w4 _ _ _ _ _ IH _ d f. rewrite render_members_cons, !length_app.
    cbn [length]. rewrite !length_app. specialize (IH (d + 1)).
    change (length (render_members false d false [])) with 1%nat. destruct f; cbn; lia.
  - intros w1 k w2 w3 v t w4 ms ts _ _ _ _ _ IH _ _ IHs d f.
    rewrite render_members_cons, !length_app. cbn [length]. rewrite !length_app. cbn [length].
    specialize (IH (d + 1)). specialize (IHs d false). cbn in IHs. destruct f; cbn; lia.
Qed.

Lemma render_compact_length d v s :
  json_document v s → zlen (render false d v) ≤ zlen s.
Proof.
  intros (w1 & t & w2 & -> & _ & Ht & _). rewrite !zlen_app.
  pose proof (proj1 render_compact_length_mut v t Ht d). unfold zlen in *. lia.
Qed.
