(* ===== verification/JsonCursor.v ===== *)
(** * JsonCursor: reading a JSON value byte by byte

    Models [src/impl/11_json_value_io.h] and the cursor and [lonejson__json_io]
    structures of [src/impl/10_source_runtime.h]: opening a cursor over a
    [lonejson_json_value] (a buffer, a caller's reader, a stream, a descriptor or
    a path), one-byte reads with push-back, refills, the byte and offset counters,
    and the emission helpers.  The second half gives the abstraction the walkers
    are proved with: [io_rest io s], the bytes [s] that [io] has still to deliver. *)

From stdpp Require Import base numbers list strings.
From Stdlib Require Import ZArith Lia Bool.
From S2P Require Import Prelude Runtime Source Number JsonGrammar.

(** ** JSON value handles *)

Inductive lonejson_json_value_kind :=
| LONEJSON_JSON_VALUE_NULL
| LONEJSON_JSON_VALUE_BUFFER
| LONEJSON_JSON_VALUE_READER
| LONEJSON_JSON_VALUE_FILE
| LONEJSON_JSON_VALUE_FD
| LONEJSON_JSON_VALUE_PATH.

#[global] Instance lonejson_json_value_kind_eq_dec : EqDecision lonejson_json_value_kind.
Proof. solve_decision. Defined.

(** [jv_json] is the memory behind [json], [jv_json_size] its
    [lonejson__owned_size]; a reader comes with its [reader_user].  The
    parse-time fields are not part of this model. *)
Record lonejson_json_value (R : Type) := mk_json_value {
  jv_kind : lonejson_json_value_kind;
  jv_json : option bytes;
  jv_json_size : Z;
  jv_len : Z;
  jv_reader : option (lonejson_reader_fn R * R);
  jv_fp : option c_file;
  jv_fd : option c_file;
  jv_path : option bytes;
  jv_allocator : lonejson_allocator
}.
Arguments mk_json_value {R} _ _ _ _ _ _ _ _ _.
Arguments jv_kind {R} _.
Arguments jv_json {R} _.
Arguments jv_json_size {R} _.
Arguments jv_len {R} _.
Arguments jv_reader {R} _.
Arguments jv_fp {R} _.
Arguments jv_fd {R} _.
Arguments jv_path {R} _.
Arguments jv_allocator {R} _.

(** ** The cursor

    [cur_buffer] holds the [buffer_len] bytes of the buffer; [cur_fd] is the
    descriptor of [cursor->value]. *)
Record lonejson__json_cursor (R : Type) := mk_cursor {
  cur_fd : option c_file;
  cur_buffer : option bytes;
  cur_buffer_off : Z;
  cur_read_buffer : bytes;
  cur_read_buffer_capacity : Z;
  cur_read_buffer_len : Z;
  cur_read_buffer_off : Z;
  cur_stream_offset : Z;
  cur_pushback_offset : Z;
  cur_count_pushback : bool;
  cur_has_pushback : bool;
  cur_pushback : Z;
  cur_reader : option (lonejson_reader_fn R * R);
  cur_fp : option c_file;
  cur_close_fp : bool;
  cur_use_fd : bool
}.
Arguments mk_cursor {R} _ _ _ _ _ _ _ _ _ _ _ _ _ _ _ _.
Arguments cur_fd {R} _.
Arguments cur_buffer {R} _.
Arguments cur_buffer_off {R} _.
Arguments cur_read_buffer {R} _.
Arguments cur_read_buffer_capacity {R} _.
Arguments cur_read_buffer_len {R} _.
Arguments cur_read_buffer_off {R} _.
Arguments cur_stream_offset {R} _.
Arguments cur_pushback_offset {R} _.
Arguments cur_count_pushback {R} _.
Arguments cur_has_pushback {R} _.
Arguments cur_pushback {R} _.
Arguments cur_reader {R} _.
Arguments cur_fp {R} _.
Arguments cur_close_fp {R} _.
Arguments cur_use_fd {R} _.

(** [memset(cursor, 0, sizeof( *cursor))], with the built-in read buffer. *)
Definition cursor_zero {R} : lonejson__json_cursor R :=
  mk_cursor None None 0 [] 4096 0 0 0 0 false false 0 None None false false.

(** A cursor over [buffer], a reader, a stream or a descriptor. *)
Definition cursor_over_buffer {R} (buffer : bytes) : lonejson__json_cursor R :=
  mk_cursor None (Some buffer) 0 [] 4096 0 0 0 0 false false 0 None None false false.
Definition cursor_over_reader {R} (reader : lonejson_reader_fn R * R) : lonejson__json_cursor R :=
  mk_cursor None None 0 [] 4096 0 0 0 0 false false 0 (Some reader) None false false.
Definition cursor_over_file {R} (f : c_file) (close : bool) : lonejson__json_cursor R :=
  mk_cursor None None 0 [] 4096 0 0 0 0 false false 0 None (Some f) close false.
Definition cursor_over_fd {R} (f : option c_file) : lonejson__json_cursor R :=
  mk_cursor f None 0 [] 4096 0 0 0 0 false false 0 None None false true.

(** [cursor->buffer_off += n] *)
Definition buffer_advance {R} (c : lonejson__json_cursor R) (n : Z) : lonejson__json_cursor R :=
  mk_cursor (cur_fd c) (cur_buffer c) (cur_buffer_off c + n) (cur_read_buffer c)
    (cur_read_buffer_capacity c) (cur_read_buffer_len c) (cur_read_buffer_off c)
    (cur_stream_offset c) (cur_pushback_offset c) (cur_count_pushback c) (cur_has_pushback c)
    (cur_pushback c) (cur_reader c) (cur_fp c) (cur_close_fp c) (cur_use_fd c).
(** [cursor->read_buffer_off += n] *)
Definition read_buffer_advance {R} (c : lonejson__json_cursor R) (n : Z) :
    lonejson__json_cursor R :=
  mk_cursor (cur_fd c) (cur_buffer c) (cur_buffer_off c) (cur_read_buffer c)
    (cur_read_buffer_capacity c) (cur_read_buffer_len c) (cur_read_buffer_off c + n)
    (cur_stream_offset c) (cur_pushback_offset c) (cur_count_pushback c) (cur_has_pushback c)
    (cur_pushback c) (cur_reader c) (cur_fp c) (cur_close_fp c) (cur_use_fd c).
(** The buffer filled with [data], [len] bytes of which are valid. *)
Definition fill_read_buffer {R} (c : lonejson__json_cursor R) (data : bytes) (len : Z) :
    lonejson__json_cursor R :=
  mk_cursor (cur_fd c) (cur_buffer c) (cur_buffer_off c) data
    (cur_read_buffer_capacity c) len 0
    (cur_stream_offset c) (cur_pushback_offset c) (cur_count_pushback c) (cur_has_pushback c)
    (cur_pushback c) (cur_reader c) (cur_fp c) (cur_close_fp c) (cur_use_fd c).
Definition set_stream_offset {R} (c : lonejson__json_cursor R) (n : Z) : lonejson__json_cursor R :=
  mk_cursor (cur_fd c) (cur_buffer c) (cur_buffer_off c) (cur_read_buffer c)
    (cur_read_buffer_capacity c) (cur_read_buffer_len c) (cur_read_buffer_off c)
    n (cur_pushback_offset c) (cur_count_pushback c) (cur_has_pushback c)
    (cur_pushback c) (cur_reader c) (cur_fp c) (cur_close_fp c) (cur_use_fd c).
(** The state of the device behind the cursor after a call. *)
Definition set_device {R} (c : lonejson__json_cursor R) (fd fp : option c_file)
    (reader : option (lonejson_reader_fn R * R)) : lonejson__json_cursor R :=
  mk_cursor fd (cur_buffer c) (cur_buffer_off c) (cur_read_buffer c)
    (cur_read_buffer_capacity c) (cur_read_buffer_len c) (cur_read_buffer_off c)
    (cur_stream_offset c) (cur_pushback_offset c) (cur_count_pushback c) (cur_has_pushback c)
    (cur_pushback c) reader fp (cur_close_fp c) (cur_use_fd c).

(** ** Walker state *)

Record lonejson__value_limits := mk_limits {
  max_depth : Z;
  max_string_bytes : Z;
  max_number_bytes : Z;
  max_key_bytes : Z;
  max_total_bytes : Z
}.

Definition lonejson__default_value_limits : lonejson__value_limits :=
  mk_limits 64 (1024 * 1024) 256 (64 * 1024) 0.

(** [lonejson__json_io] without its callbacks, which are arguments of the
    functions that call them; [io_user] is [sink_user] or [visitor_user]. *)
Record lonejson__json_io (R U : Type) := mk_io {
  io_cursor : lonejson__json_cursor R;
  io_user : U;
  io_error : error_ptr;
  io_pretty : bool;
  io_base_depth : Z;
  io_depth : Z;
  io_total_bytes : Z;
  io_limits : lonejson__value_limits;
  io_allocator : lonejson_allocator;
  io_has_pushback : bool;
  io_pushback_counted : bool;
  io_last_getc_counted : bool;
  io_pushback : Z
}.
Arguments mk_io {R U} _ _ _ _ _ _ _ _ _ _ _ _ _.
Arguments io_cursor {R U} _.
Arguments io_user {R U} _.
Arguments io_error {R U} _.
Arguments io_pretty {R U} _.
Arguments io_base_depth {R U} _.
Arguments io_depth {R U} _.
Arguments io_total_bytes {R U} _.
Arguments io_limits {R U} _.
Arguments io_allocator {R U} _.
Arguments io_has_pushback {R U} _.
Arguments io_pushback_counted {R U} _.
Arguments io_last_getc_counted {R U} _.
Arguments io_pushback {R U} _.

Section io.
Context {R U : Type}.
Implicit Types io : lonejson__json_io R U.

Definition set_cursor io (c : lonejson__json_cursor R) : lonejson__json_io R U :=
  mk_io c (io_user io) (io_error io) (io_pretty io) (io_base_depth io) (io_depth io)
    (io_total_bytes io) (io_limits io) (io_allocator io) (io_has_pushback io)
    (io_pushback_counted io) (io_last_getc_counted io) (io_pushback io).
Definition set_user io (u : U) (e : error_ptr) : lonejson__json_io R U :=
  mk_io (io_cursor io) u e (io_pretty io) (io_base_depth io) (io_depth io)
    (io_total_bytes io) (io_limits io) (io_allocator io) (io_has_pushback io)
    (io_pushback_counted io) (io_last_getc_counted io) (io_pushback io).
Definition set_depth io (d : Z) : lonejson__json_io R U :=
  mk_io (io_cursor io) (io_user io) (io_error io) (io_pretty io) (io_base_depth io) d
    (io_total_bytes io) (io_limits io) (io_allocator io) (io_has_pushback io)
    (io_pushback_counted io) (io_last_getc_counted io) (io_pushback io).
Definition set_total io (n : Z) : lonejson__json_io R U :=
  mk_io (io_cursor io) (io_user io) (io_error io) (io_pretty io) (io_base_depth io) (io_depth io)
    n (io_limits io) (io_allocator io) (io_has_pushback io)
    (io_pushback_counted io) (io_last_getc_counted io) (io_pushback io).
Definition set_allocator io (a : lonejson_allocator) : lonejson__json_io R U :=
  mk_io (io_cursor io) (io_user io) (io_error io) (io_pretty io) (io_base_depth io) (io_depth io)
    (io_total_bytes io) (io_limits io) a (io_has_pushback io)
    (io_pushback_counted io) (io_last_getc_counted io) (io_pushback io).
(** [has_pushback], [pushback_counted], [last_getc_counted], [pushback] *)
Definition set_pushback io (has counted last : bool) (ch : Z) : lonejson__json_io R U :=
  mk_io (io_cursor io) (io_user io) (io_error io) (io_pretty io) (io_base_depth io) (io_depth io)
    (io_total_bytes io) (io_limits io) (io_allocator io) has counted last ch.

(** ** The heap of a walk

    A [lonejson_allocator] value is copied around, but its callbacks and its
    statistics object are shared by the copies.  When the callbacks' [user] holds
    a copy of the walker's own allocator - the value a walk is collected into -
    the walker allocates from the state kept there; otherwise from its own. *)
Class SharedHeap := {
  user_allocator : U → option lonejson_allocator;
  set_user_allocator : U → lonejson_allocator → U
}.

Definition io_heap `{SharedHeap} io : lonejson_allocator :=
  default (io_allocator io) (user_allocator (io_user io)).
Definition set_io_heap `{SharedHeap} io (a : lonejson_allocator) : lonejson__json_io R U :=
  match user_allocator (io_user io) with
  | None => set_allocator io a
  | Some _ => set_user io (set_user_allocator (io_user io) a) (io_error io)
  end.

(** Walkers are functions of the state that may fail to return. *)
Definition io_fn (A : Type) : Type := lonejson__json_io R U → run (A * lonejson__json_io R U).

Definition io_bind {A B} (m : io_fn A) (k : A → io_fn B) : io_fn B := λ io,
  '(a, io) ← m io; k a io.

(** [status = m; if (status != LONEJSON_STATUS_OK && status !=
    LONEJSON_STATUS_TRUNCATED) return status; k] *)
Definition io_seq (m k : io_fn lonejson_status) : io_fn lonejson_status := λ io,
  '(st, io) ← m io; if status_fails st then Done (st, io) else k io.

Definition io_return {A} (a : A) : io_fn A := λ io, Done (a, io).

(** [return lonejson__set_error(io->error, code, 0u, 0u, 0u, message);] *)
Definition io_fail (code : lonejson_status) (message : string) : io_fn lonejson_status := λ io,
  let '(st, e) := lonejson__set_error (io_error io) code 0 0 0 message in
  Done (st, set_user io (io_user io) e).

(** [return io->error ? io->error->code : LONEJSON_STATUS_CALLBACK_FAILED;] *)
Definition io_reader_status : io_fn lonejson_status := λ io,
  Done (error_code_or (io_error io) LONEJSON_STATUS_CALLBACK_FAILED, io).

(** [lonejson__set_error(io->error, ...); return -2;] *)
Definition io_fail_getc (code : lonejson_status) (message : string) : io_fn Z := λ io,
  '(_, io) ← io_fail code message io; Done (-2, io).
End io.
Arguments io_fn R U A : clear implicits.
Arguments SharedHeap U : clear implicits.
Arguments set_user_allocator {U _} _ _.
Arguments user_allocator {U _} _.

(** The usual case: nothing is shared. *)
#[export] Instance private_heap {U} : SharedHeap U | 100 :=
  {| user_allocator := λ _, None; set_user_allocator := λ u _, u |}.
Notation "'let*' x ':=' m 'in' k" := (io_bind m (λ x, k))
  (at level 10, x name, m at level 100, k at level 200).
Notation "m ;;; k" := (io_seq m k) (at level 100, right associativity).

(** ** Emission *)

Section emit.
Context {R U : Type} (sink : lonejson_sink_fn U).
Implicit Types io : lonejson__json_io R U.

Definition lonejson__json_emit (data : bytes) : io_fn R U lonejson_status := λ io,
  let '(st, u, e) := sink (io_user io) data (io_error io) in
  Done (st, set_user io u e).

Definition lonejson__json_emit_cstr (text : bytes) : io_fn R U lonejson_status :=
  lonejson__json_emit (c_string text).

(** The body of [while (spaces > 64u)]; [n] iterations are enough when
    [spaces <= 64 * (n + 1)]. *)
Fixpoint indent_loop (n : nat) (status : lonejson_status) (spaces : Z) :
    io_fn R U (lonejson_status * Z) := λ io,
  match n with
  | O => Done ((status, spaces), io)
  | S n =>
      if 64 <? spaces then
        '(status, io) ← lonejson__json_emit (replicate 64 32) io;
        if status_fails status then Done ((status, 0), io)
        else indent_loop n status (spaces - 64) io
      else Done ((status, spaces), io)
  end.

Definition lonejson__json_emit_indent (depth : Z) : io_fn R U lonejson_status := λ io,
  let prefix := 10 :: replicate 64 32 in
  if SIZE_MAX / 2 <? depth then
    io_fail LONEJSON_STATUS_OVERFLOW "JSON indentation depth is too large" io
  else
    let spaces := u64 (depth * 2) in
    if spaces <=? 64 then lonejson__json_emit (take (Z.to_nat (spaces + 1)) prefix) io
    else
      '(status, io) ← lonejson__json_emit prefix io;
      if status_fails status then Done (status, io)
      else
        let spaces := spaces - 64 in
        '(r, io) ← indent_loop (Z.to_nat (spaces / 64)) status spaces io;
        let '(status, spaces) := r in
        if status_fails status then Done (status, io)
        else if negb (spaces =? 0) then lonejson__json_emit (replicate (Z.to_nat spaces) 32) io
        else Done (status, io).
End emit.

(** ** Opening and closing *)

Section open.
Context {R : Type}.
(** The file system, as in [Source]. *)
Variable fopen : bytes → c_file + Z.

Definition lonejson__json_cursor_open (value : option (lonejson_json_value R)) (error : error_ptr)
    (open_files : Z) : run (lonejson_status * lonejson__json_cursor R * error_ptr * Z) :=
  match value with
  | None => Done (LONEJSON_STATUS_OK, cursor_zero, error, open_files)
  | Some value =>
      match jv_kind value with
      | LONEJSON_JSON_VALUE_NULL =>
          Done (LONEJSON_STATUS_OK, set_device cursor_zero (jv_fd value) None None, error, open_files)
      | LONEJSON_JSON_VALUE_BUFFER =>
          let buffer := take (Z.to_nat (jv_len value)) <$> jv_json value in
          Done (LONEJSON_STATUS_OK,
                mk_cursor (jv_fd value) buffer 0 [] 4096 0 0 0 0 false false 0 None None false false,
                error, open_files)
      | LONEJSON_JSON_VALUE_READER =>
          Done (LONEJSON_STATUS_OK, set_device cursor_zero (jv_fd value) None (jv_reader value),
                error, open_files)
      | LONEJSON_JSON_VALUE_FILE =>
          match jv_fp value with
          | None => Undefined
          | Some f =>
              let '(ok, f) := fseek_start f in
              if negb ok then
                let '(st, e) := lonejson__set_error (set_system_errno error ESPIPE)
                  LONEJSON_STATUS_IO_ERROR 0 0 0 "failed to rewind JSON value FILE*" in
                Done (st, cursor_zero, e, open_files)
              else Done (LONEJSON_STATUS_OK, cursor_over_file (clearerr f) false, error, open_files)
          end
      | LONEJSON_JSON_VALUE_FD =>
          let '(ok, fd, errno) :=
            match jv_fd value with
            | None => (false, None, EBADF)
            | Some f => let '(ok, f) := fseek_start f in (ok, Some f, ESPIPE)
            end in
          if negb ok then
            let '(st, e) := lonejson__set_error (set_system_errno error errno)
              LONEJSON_STATUS_IO_ERROR 0 0 0 "failed to rewind JSON value fd" in
            Done (st, cursor_zero, e, open_files)
          else Done (LONEJSON_STATUS_OK, cursor_over_fd fd, error, open_files)
      | LONEJSON_JSON_VALUE_PATH =>
          match jv_path value with
          | None => Undefined
          | Some path =>
              match fopen path with
              | inr errno =>
                  let '(st, e) := lonejson__set_error (set_system_errno error errno)
                    LONEJSON_STATUS_IO_ERROR 0 0 0 "failed to open JSON value path '%s'" in
                  Done (st, cursor_zero, e, open_files)
              | inl f =>
                  Done (LONEJSON_STATUS_OK, cursor_over_file f true, error, open_files + 1)
              end
          end
      end
  end.

Definition lonejson__json_cursor_close (cursor : lonejson__json_cursor R) (open_files : Z) : Z :=
  if cur_close_fp cursor && bool_decide (is_Some (cur_fp cursor))
  then open_files - 1 else open_files.
End open.

(** ** One-byte reads *)

Abbreviation EOF := (-1) (only parsing).

Section getc.
Context {R U : Type}.
Implicit Types io : lonejson__json_io R U.

Definition lonejson__json_enforce_total_limit : io_fn R U lonejson_status := λ io,
  if negb (max_total_bytes (io_limits io) =? 0)
     && (max_total_bytes (io_limits io) <? io_total_bytes io)
  then io_fail LONEJSON_STATUS_OVERFLOW "JSON value exceeds maximum total byte limit" io
  else Done (LONEJSON_STATUS_OK, io).

Definition lonejson__json_cursor_add_stream_bytes (len : Z) : io_fn R U lonejson_status := λ io,
  let cursor := io_cursor io in
  if UINT64_MAX - len <? cur_stream_offset cursor then
    io_fail LONEJSON_STATUS_OVERFLOW "JSON stream offset exceeds uint64 range" io
  else Done (LONEJSON_STATUS_OK,
             set_cursor io (set_stream_offset cursor (cur_stream_offset cursor + len))).

(** [read_buffer[read_buffer_off++]] *)
Definition take_read_byte : io_fn R U Z := λ io,
  let cursor := io_cursor io in
  Done (nth (Z.to_nat (cur_read_buffer_off cursor)) (cur_read_buffer cursor) 0,
        set_cursor io (read_buffer_advance cursor 1)).

(** The end of the three refills: [len] bytes of [data] have just been read. *)
Definition refilled (data : bytes) (len : Z) : io_fn R U Z := λ io,
  let io := set_cursor io (fill_read_buffer (io_cursor io) data len) in
  '(status, io) ← lonejson__json_cursor_add_stream_bytes len io;
  if decide (status ≠ LONEJSON_STATUS_OK) then Done (-2, io) else take_read_byte io.

Definition with_errno (errno : Z) io : lonejson__json_io R U :=
  set_user io (io_user io) (set_system_errno (io_error io) errno).

Definition lonejson__json_cursor_refill_source_getc : io_fn R U Z := λ io,
  let cursor := io_cursor io in
  let capacity := cur_read_buffer_capacity cursor in
  if cur_use_fd cursor then
    match cur_fd cursor with
    | None =>
        io_fail_getc LONEJSON_STATUS_IO_ERROR "failed to read JSON value fd" (with_errno EBADF io)
    | Some f =>
        match fd_read f capacity with
        | (inr errno, _) =>
            io_fail_getc LONEJSON_STATUS_IO_ERROR "failed to read JSON value fd"
              (with_errno errno io)
        | (inl got, f) =>
            let io := set_cursor io (set_device cursor (Some f) (cur_fp cursor) (cur_reader cursor)) in
            if zlen got =? 0 then Done (EOF, io) else refilled got (zlen got) io
        end
    end
  else
    match cur_fp cursor with
    | None => Undefined
    | Some f =>
        let '(got, errno, f) := fread f capacity in
        let io := set_cursor io (set_device cursor (cur_fd cursor) (Some f) (cur_reader cursor)) in
        if zlen got <=? 0 then
          if ferror f then
            io_fail_getc LONEJSON_STATUS_IO_ERROR "failed to read JSON value stream"
              (with_errno errno io)
          else Done (EOF, io)
        else refilled got (zlen got) io
    end.

Definition lonejson__json_cursor_refill_getc : io_fn R U Z := λ io,
  let cursor := io_cursor io in
  match cur_reader cursor with
  | None => lonejson__json_cursor_refill_source_getc io
  | Some (reader, reader_user) =>
      let '(result, data, reader_user) := reader reader_user (cur_read_buffer_capacity cursor) in
      let io := set_cursor io
                  (set_device cursor (cur_fd cursor) (cur_fp cursor) (Some (reader, reader_user))) in
      if negb (error_code result =? 0) then
        io_fail_getc LONEJSON_STATUS_CALLBACK_FAILED "reader callback failed"
          (with_errno (error_code result) io)
      else if negb (bytes_read result =? 0) then refilled data (bytes_read result) io
      else if eof result then Done (EOF, io)
      else if would_block result then
        io_fail_getc LONEJSON_STATUS_CALLBACK_FAILED "reader would block" io
      else Done (EOF, io)
  end.

(** The part of [lonejson__json_cursor_getc] and of its lookahead variant that
    finds the next byte; [limited] is whether the total limit is enforced. *)
Definition counted (limited : bool) (byte : Z) : io_fn R U Z := λ io,
  let io := set_pushback io (io_has_pushback io) (io_pushback_counted io) true (io_pushback io) in
  let io := set_total io (u64 (io_total_bytes io + 1)) in
  if limited then
    '(status, io) ← lonejson__json_enforce_total_limit io;
    if decide (status ≠ LONEJSON_STATUS_OK) then Done (-2, io) else Done (byte, io)
  else Done (byte, io).

Definition getc_common (limited : bool) : io_fn R U Z := λ io,
  if io_has_pushback io then
    let ch := io_pushback io in
    if io_pushback_counted io then
      counted limited ch (set_pushback io false false (io_last_getc_counted io) ch)
    else Done (ch, set_pushback io false false false ch)
  else
    let cursor := io_cursor io in
    match cur_buffer cursor with
    | Some buffer =>
        if zlen buffer <=? cur_buffer_off cursor then Done (EOF, io)
        else counted limited (nth (Z.to_nat (cur_buffer_off cursor)) buffer 0)
               (set_cursor io (buffer_advance cursor 1))
    | None =>
        if cur_read_buffer_off cursor <? cur_read_buffer_len cursor then
          '(byte, io) ← take_read_byte io; counted limited byte io
        else
          '(ch, io) ← lonejson__json_cursor_refill_getc io;
          if ch <? 0 then Done (ch, io) else counted limited (u8 ch) io
    end.

Definition lonejson__json_cursor_getc : io_fn R U Z := getc_common true.
Definition lonejson__json_cursor_getc_lookahead : io_fn R U Z := getc_common false.

Definition lonejson__json_cursor_ungetc (ch : Z) io : lonejson__json_io R U :=
  let last := io_last_getc_counted io in
  let io := if last && negb (io_total_bytes io =? 0)
            then set_total io (io_total_bytes io - 1) else io in
  set_pushback io true last false ch.

Definition lonejson__json_cursor_next_offset (cursor : option (lonejson__json_cursor R)) : Z :=
  match cursor with
  | None => 0
  | Some cursor =>
      match cur_buffer cursor with
      | Some _ => cur_buffer_off cursor
      | None =>
          let unread := u64 (cur_read_buffer_len cursor - cur_read_buffer_off cursor) in
          if unread <=? cur_stream_offset cursor then cur_stream_offset cursor - unread else 0
      end
  end.

Definition lonejson__json_cursor_last_offset (cursor : option (lonejson__json_cursor R)) : Z :=
  let next := lonejson__json_cursor_next_offset cursor in
  if next =? 0 then 0 else next - 1.

(** The buffered bytes the string loops scan without [getc], and whether they
    are in the read buffer. *)
Definition lonejson__json_cursor_plain_span io : option (bytes * bool) :=
  let cursor := io_cursor io in
  let from_read_buffer :=
    let off := cur_read_buffer_off cursor in
    let len := cur_read_buffer_len cursor in
    if off <? len
    then Some (take (Z.to_nat (len - off)) (drop (Z.to_nat off) (cur_read_buffer cursor)), true)
    else None in
  if io_has_pushback io then None
  else
    match cur_buffer cursor with
    | Some buffer =>
        if cur_buffer_off cursor <? zlen buffer
        then Some (drop (Z.to_nat (cur_buffer_off cursor)) buffer, false)
        else from_read_buffer
    | None => from_read_buffer
    end.

(** [if (uses_read_buffer) read_buffer_off += n; else buffer_off += n;] *)
Definition span_advance (uses_read_buffer : bool) (n : Z) io : lonejson__json_io R U :=
  set_cursor io (if uses_read_buffer then read_buffer_advance (io_cursor io) n
                 else buffer_advance (io_cursor io) n).

(** The bytes the span loops step over. *)
Definition span_byte (b : Z) : bool := negb ((b =? 34) || (b =? 92) || (b <? 32)).

(** [fuel]: one more than the white space in front. *)
Fixpoint lonejson__json_peek_nonspace (fuel : nat) : io_fn R U Z := λ io,
  match fuel with
  | O => Out_of_fuel
  | S fuel =>
      '(ch, io) ← lonejson__json_cursor_getc io;
      if (0 <=? ch) && lonejson__is_json_space ch then lonejson__json_peek_nonspace fuel io
      else if 0 <=? ch then Done (ch, lonejson__json_cursor_ungetc ch io)
      else Done (ch, io)
  end.
End getc.

(** ** What a cursor has still to deliver *)

(** The documented behaviour of a reader over finite input: while bytes are left
    it delivers at least one and at most [capacity] of them, in order; at the end
    it delivers none, with or without the end-of-file flag; it reports no error. *)
Class FaithfulReader {R : Type} (reader : lonejson_reader_fn R) := {
  reader_valid : R → Prop;
  reader_rest : R → bytes;
  reader_delivers : ∀ r capacity,
    reader_valid r → 0 < capacity →
    ∃ result data r',
      reader r capacity = (result, data, r') ∧ reader_valid r'
      ∧ error_code result = 0 ∧ would_block result = false ∧ bytes_read result = zlen data
      ∧ zlen data ≤ capacity ∧ reader_rest r = data ++ reader_rest r'
      ∧ (data = [] → reader_rest r = [])
}.

(** The library's own buffer reader keeps the contract. *)
Definition buffer_reader_fn : lonejson_reader_fn lonejson_buffer_reader :=
  λ r capacity, lonejson_buffer_reader_read r false capacity.

#[export] Instance buffer_reader_faithful : FaithfulReader buffer_reader_fn.
Proof.
  refine {| reader_valid := λ r, ∃ data, br_data r = Some data ∧ br_len r = zlen data
                                         ∧ 0 ≤ br_offset r ≤ br_len r;
            reader_rest := λ r, drop (Z.to_nat (br_offset r)) (default [] (br_data r)) |}.
  intros [d len off] capacity (data & Hd & Hl & Ho) Hcap. simpl in *. subst.
  unfold buffer_reader_fn, lonejson_buffer_reader_read. simpl.
  destruct (zlen data <=? off) eqn:E.
  - eexists _, _, _. split; [done|]. simpl. pose proof (zlen_nonneg (@nil Z)).
    split_and!; [by exists data|done..|unfold zlen; simpl; lia|done|].
    intros _. apply drop_ge. unfold zlen in *. lia.
  - replace (capacity =? 0) with false by lia. set (n := if zlen data - off <? capacity then _ else _).
    assert (1 ≤ n ∧ n ≤ capacity ∧ n ≤ zlen data - off) as Hn.
    { unfold n. case_if; lia. }
    assert (zlen (take (Z.to_nat n) (drop (Z.to_nat off) data)) = n) as Hlen.
    { unfold zlen in *. rewrite length_take, length_drop. lia. }
    eexists _, _, _. split; [done|]. simpl. split_and!; [|done|done|lia|lia| |].
    + exists data. split_and!; done || lia.
    + rewrite Z2Nat.inj_add, <- drop_drop, take_drop by lia. done.
    + intros H. rewrite H in Hlen. unfold zlen in Hlen. simpl in Hlen. lia.
Defined.

Section rest.
Context {R U : Type}.
Implicit Types io : lonejson__json_io R U.
Implicit Types cur : lonejson__json_cursor R.

(** The bytes the reader, stream or descriptor behind the cursor still holds. *)
Definition device_rest cur (d : bytes) : Prop :=
  match cur_reader cur with
  | Some (reader, r) => ∃ F : FaithfulReader reader, reader_valid r ∧ reader_rest r = d
  | None =>
      ∃ f, (if cur_use_fd cur then cur_fd cur else cur_fp cur) = Some f ∧ f_sound f ∧ f_rest f = d
  end.

Definition cursor_rest cur (t : bytes) : Prop :=
  is_bytes t ∧
  match cur_buffer cur with
  | Some buffer =>
      cur_read_buffer_len cur ≤ cur_read_buffer_off cur
      ∧ 0 ≤ cur_buffer_off cur ∧ t = drop (Z.to_nat (cur_buffer_off cur)) buffer
  | None =>
      0 < cur_read_buffer_capacity cur
      ∧ 0 ≤ cur_read_buffer_off cur ≤ cur_read_buffer_len cur
      ∧ cur_read_buffer_len cur = zlen (cur_read_buffer cur)
      ∧ ∃ d, device_rest cur d
             ∧ t = drop (Z.to_nat (cur_read_buffer_off cur)) (cur_read_buffer cur) ++ d
             ∧ 0 ≤ cur_stream_offset cur ∧ cur_stream_offset cur + zlen d ≤ UINT64_MAX
  end.

(** [s] is left to read, and reading it stays within the total byte limit. *)
Definition io_rest io (s : bytes) : Prop :=
  (io_has_pushback io = true → io_pushback_counted io = true ∧ is_byte (io_pushback io))
  ∧ 0 ≤ io_total_bytes io ∧ io_total_bytes io + zlen s ≤ UINT64_MAX
  ∧ (max_total_bytes (io_limits io) = 0
     ∨ io_total_bytes io + zlen s ≤ max_total_bytes (io_limits io))
  ∧ ∃ t, s = (if io_has_pushback io then [io_pushback io] else []) ++ t
         ∧ cursor_rest (io_cursor io) t.

(** Reading changes nothing else. *)
Definition io_same io io' : Prop :=
  io_user io' = io_user io ∧ io_error io' = io_error io ∧ io_pretty io' = io_pretty io
  ∧ io_base_depth io' = io_base_depth io ∧ io_depth io' = io_depth io
  ∧ io_limits io' = io_limits io ∧ io_allocator io' = io_allocator io.

(** A byte was read last, so that it can be put back. *)
Definition just_read io : Prop :=
  io_has_pushback io = false ∧ io_last_getc_counted io = true ∧ 1 ≤ io_total_bytes io.

#[export] Instance io_same_preorder : PreOrder io_same.
Proof.
  split; [by intros io; split_and!|].
  intros io1 io2 io3 (?&?&?&?&?&?&?) (?&?&?&?&?&?&?). split_and!; congruence.
Qed.

Lemma is_bytes_app_inv (l1 l2 : bytes) : is_bytes (l1 ++ l2) → is_bytes l1 ∧ is_bytes l2.
Proof. apply Forall_app. Qed.

(** The end of a refill with at least one byte. *)
Lemma refilled_cons io b data d :
  let cur := io_cursor io in
  cur_buffer cur = None → 0 < cur_read_buffer_capacity cur → device_rest cur d →
  is_bytes (b :: data ++ d) →
  0 ≤ cur_stream_offset cur → cur_stream_offset cur + zlen (b :: data ++ d) ≤ UINT64_MAX →
  ∃ c', refilled (b :: data) (zlen (b :: data)) io = Done (b, set_cursor io c')
        ∧ cur_buffer c' = None ∧ cursor_rest c' (data ++ d).
Proof.
  intros cur Hb Hcap Hd Hbytes Ho Hmax. unfold refilled, lonejson__json_cursor_add_stream_bytes.
  simpl. rewrite zlen_cons, zlen_app in Hmax. pose proof (zlen_nonneg d). rewrite zlen_cons.
  fold cur. replace (UINT64_MAX - (zlen data + 1) <? cur_stream_offset cur) with false by lia.
  rewrite run_bind_done, decide_False by auto. unfold take_read_byte. simpl.
  eexists. split; [done|]. unfold cursor_rest. simpl. rewrite Hb. split; [done|].
  apply Forall_cons in Hbytes as [_ Hbytes]. split; [done|]. pose proof (zlen_nonneg data).
  split_and!; [done|lia|lia|by rewrite zlen_cons|]. exists d. split_and!; [done|done|lia|lia].
Qed.

(** A refill delivers the next byte and leaves the rest. *)
Lemma refill_getc_cons io b d :
  let cur := io_cursor io in
  cur_buffer cur = None → 0 < cur_read_buffer_capacity cur →
  device_rest cur (b :: d) → is_bytes (b :: d) →
  0 ≤ cur_stream_offset cur → cur_stream_offset cur + zlen (b :: d) ≤ UINT64_MAX →
  ∃ c', lonejson__json_cursor_refill_getc io = Done (b, set_cursor io c')
        ∧ cur_buffer c' = None ∧ cursor_rest c' d.
Proof.
  intros cur Hb Hcap Hdev Hbytes Ho Hmax.
  assert (∀ fd fp rd data rest, b :: d = data ++ rest → data ≠ [] →
    device_rest (set_device cur fd fp rd) rest →
    ∃ c', refilled data (zlen data) (set_cursor io (set_device cur fd fp rd))
          = Done (b, set_cursor io c') ∧ cur_buffer c' = None ∧ cursor_rest c' d) as Hfill.
  { intros fd fp rd data rest Hdata Hne Hrest. destruct data as [|b' data]; [done|].
    injection Hdata as <- ->.
    by apply (refilled_cons (set_cursor io (set_device cur fd fp rd)) b data rest). }
  unfold lonejson__json_cursor_refill_getc, device_rest in *. fold cur. fold cur in Hdev.
  destruct (cur_reader cur) as [[reader r]|] eqn:Er.
  - destruct Hdev as (F & Hv & Hr).
    destruct (reader_delivers r (cur_read_buffer_capacity cur) Hv Hcap)
      as (res & data & r' & -> & Hv' & He & Hw & Hl & _ & Hsplit & Hnil).
    rewrite He. simpl. rewrite Hr in *.
    assert (data ≠ []) as Hne by (intros ->; by specialize (Hnil eq_refl)).
    assert (bytes_read res ≠ 0) as Hbr.
    { rewrite Hl. destruct data; [done|]. rewrite zlen_cons. pose proof (zlen_nonneg data). lia. }
    replace (bytes_read res =? 0) with false by lia. cbn [negb]. rewrite Hl.
    apply (Hfill (cur_fd cur) (cur_fp cur) (Some (reader, r')) data (reader_rest r'));
      [done|done|]. exists F. by split.
  - unfold lonejson__json_cursor_refill_source_getc. fold cur.
    destruct (cur_use_fd cur) eqn:Eu.
    + destruct Hdev as (f & -> & Hs & Hr).
      destruct (fd_read_sound f (cur_read_buffer_capacity cur) Hs Hcap)
        as (got & f' & -> & Hs' & Hsplit & _ & Hnil).
      assert (got ≠ []) as Hne by (intros ->; specialize (Hnil eq_refl); congruence).
      replace (zlen got =? 0) with false by (destruct got; [done|rewrite zlen_cons;
        pose proof (zlen_nonneg got); lia]).
      rewrite Hr in Hsplit.
      apply (Hfill (Some f') (cur_fp cur) (cur_reader cur) got (f_rest f')); [done|done|].
      unfold device_rest. simpl. rewrite Er, Eu. exists f'. by split_and!.
    + destruct Hdev as (f & -> & Hs & Hr).
      destruct (fread_sound f (cur_read_buffer_capacity cur) Hs) as (f' & -> & Hs' & Hr').
      set (got := take _ (f_rest f)).
      assert (got ≠ []) as Hne.
      { unfold got. rewrite Hr. replace (Z.to_nat (cur_read_buffer_capacity cur))
          with (S (Z.to_nat (cur_read_buffer_capacity cur - 1))) by lia. done. }
      replace (zlen got <=? 0) with false by (destruct got; [done|rewrite zlen_cons;
        pose proof (zlen_nonneg got); lia]).
      apply (Hfill (cur_fd cur) (Some f') (cur_reader cur) got (f_rest f'));
        [|done|unfold device_rest; simpl; rewrite Er, Eu; exists f'; by split_and!].
      rewrite <- Hr, Hr'. unfold got. by rewrite take_drop.
Qed.

(** At the end of the input a refill reports it, as often as it is asked. *)
Lemma refill_getc_nil io :
  let cur := io_cursor io in
  0 < cur_read_buffer_capacity cur → device_rest cur [] →
  ∃ c', lonejson__json_cursor_refill_getc io = Done (-1, set_cursor io c')
        ∧ device_rest c' [] ∧ c' = set_device cur (cur_fd c') (cur_fp c') (cur_reader c').
Proof.
  intros cur Hcap Hdev. unfold lonejson__json_cursor_refill_getc, device_rest in *.
  fold cur. fold cur in Hdev. destruct (cur_reader cur) as [[reader r]|] eqn:Er.
  - destruct Hdev as (F & Hv & Hr).
    destruct (reader_delivers r (cur_read_buffer_capacity cur) Hv Hcap)
      as (res & data & r' & -> & Hv' & He & Hw & Hl & _ & Hsplit & Hnil).
    rewrite Hr in Hsplit. symmetry in Hsplit. apply app_eq_nil in Hsplit as [-> Hr'].
    rewrite He, Hl, Hw. change (zlen (@nil Z)) with 0. simpl.
    exists (set_device cur (cur_fd cur) (cur_fp cur) (Some (reader, r'))).
    split; [by destruct (eof res)|]. simpl. split; [eauto|done].
  - unfold lonejson__json_cursor_refill_source_getc. fold cur.
    destruct (cur_use_fd cur) eqn:Eu.
    + destruct Hdev as (f & -> & Hs & Hr).
      destruct (fd_read_sound f (cur_read_buffer_capacity cur) Hs Hcap)
        as (got & f' & -> & Hs' & Hsplit & _ & _).
      rewrite Hr in Hsplit. symmetry in Hsplit. apply app_eq_nil in Hsplit as [-> Hr'].
      eexists. split; [done|]. simpl. rewrite Er, Eu. split; [eauto|done].
    + destruct Hdev as (f & -> & Hs & Hr).
      destruct (fread_sound f (cur_read_buffer_capacity cur) Hs) as (f' & -> & Hs' & Hr').
      rewrite Hr in *. rewrite take_nil. rewrite drop_nil in Hr'.
      pose proof Hs' as (_ & Hfe & _). unfold ferror. rewrite Hfe.
      eexists. split; [done|]. simpl. rewrite Er, Eu. split; [eauto|done].
Qed.

(** Counting a byte read within the limit. *)
Lemma counted_ok limited b io s c' :
  io_total_bytes io + zlen (b :: s) ≤ UINT64_MAX → 0 ≤ io_total_bytes io →
  (max_total_bytes (io_limits io) = 0
   ∨ io_total_bytes io + zlen (b :: s) ≤ max_total_bytes (io_limits io)) →
  io_has_pushback io = false → cursor_rest c' s →
  ∃ io', counted limited b (set_cursor io c') = Done (b, io')
         ∧ io_rest io' s ∧ io_same io io' ∧ just_read io'.
Proof.
  intros Hmax Hpos Hlim Hpb Hc. rewrite zlen_cons in Hmax, Hlim. pose proof (zlen_nonneg s).
  unfold counted, lonejson__json_enforce_total_limit. simpl.
  rewrite u64_small by (unfold is_u64; lia).
  replace (negb (max_total_bytes (io_limits io) =? 0)
           && (max_total_bytes (io_limits io) <? io_total_bytes io + 1)) with false by lia.
  eexists. split; [by destruct limited|]. split_and!.
  - unfold io_rest. simpl. rewrite Hpb. split_and!; [done|lia|lia|lia|]. by exists s.
  - by split_and!.
  - unfold just_read. simpl. split_and!; [done|done|lia].
Qed.

Lemma nth_drop_head (l : bytes) n b t : b :: t = drop n l → nth n l 0 = b ∧ t = drop (S n) l.
Proof.
  revert n. induction l as [|x l IH]; intros n H.
  - by rewrite drop_nil in H.
  - destruct n; simpl in *; [by simplify_eq|by apply IH].
Qed.

(** [getc] delivers the next byte. *)
Lemma getc_cons limited io b s :
  io_rest io (b :: s) →
  ∃ io', getc_common limited io = Done (b, io') ∧ io_rest io' s ∧ io_same io io' ∧ just_read io'.
Proof.
  intros (Hpb & Hpos & Hmax & Hlim & t & Hs & Hc). unfold getc_common.
  destruct (io_has_pushback io) eqn:Ehp.
  - destruct (Hpb eq_refl) as [Hcnt Hb]. rewrite Hcnt. injection Hs as -> ->.
    destruct (counted_ok limited (io_pushback io) (set_pushback io false false
      (io_last_getc_counted io) (io_pushback io)) t (io_cursor io)) as (io' & H1 & H2 & H3 & H4);
      [done..|]. by exists io'.
  - cbn [app] in Hs. subst t. destruct Hc as [Hbytes Hc].
    assert (∀ c', cursor_rest c' s → ∃ io', counted limited b (set_cursor io c') = Done (b, io')
      ∧ io_rest io' s ∧ io_same io io' ∧ just_read io') as Hcnt by (intros; by apply counted_ok).
    apply Forall_cons in Hbytes as Hb. destruct Hb as [Hb Hbs].
    destruct (cur_buffer (io_cursor io)) as [buffer|] eqn:Ebuf.
    + destruct Hc as (Hrb & Hoff & Ht). apply nth_drop_head in Ht as Hn. destruct Hn as [Hn Hs].
      replace (zlen buffer <=? cur_buffer_off (io_cursor io)) with false.
      2:{ assert (¬ (length buffer ≤ Z.to_nat (cur_buffer_off (io_cursor io)))%nat) as Hlt.
          { intros Hge. by rewrite drop_ge in Ht by lia. } unfold zlen. lia. }
      rewrite Hn. apply Hcnt. split; [done|]. simpl. rewrite Ebuf.
      split_and!; [done|lia|]. rewrite Hs. f_equal. lia.
    + destruct Hc as (Hcap & Hroff & Hrlen & d & Hdev & Ht & Hso & Hsm).
      destruct (cur_read_buffer_off (io_cursor io) <? cur_read_buffer_len (io_cursor io)) eqn:El.
      * unfold take_read_byte. rewrite run_bind_done.
        destruct (drop (Z.to_nat (cur_read_buffer_off (io_cursor io)))
                    (cur_read_buffer (io_cursor io))) as [|b' r] eqn:Ed.
        { assert (length (cur_read_buffer (io_cursor io))
                  ≤ Z.to_nat (cur_read_buffer_off (io_cursor io)))%nat.
          { rewrite <- (Nat.sub_0_le), <- length_drop, Ed. done. } unfold zlen in *. lia. }
        cbn [app] in Ht. injection Ht as <- ->. symmetry in Ed. apply nth_drop_head in Ed as [-> ->].
        apply Hcnt. split; [done|]. simpl. rewrite Ebuf. split_and!; [done|lia|lia|done|].
        exists d. split_and!; [done| |done|done]. do 2 f_equal. lia.
      * rewrite drop_ge in Ht by (unfold zlen in *; lia). cbn [app] in Ht. subst d.
        destruct (refill_getc_cons io b s) as (c' & -> & Hb' & Hc'); [done..|].
        rewrite run_bind_done. unfold is_byte in Hb. replace (b <? 0) with false by lia.
        rewrite u8_small by done. by apply Hcnt.
Qed.

(** [getc] at the end of the input. *)
Lemma getc_nil limited io :
  io_rest io [] →
  ∃ io', getc_common limited io = Done (-1, io') ∧ io_rest io' [] ∧ io_same io io'.
Proof.
  intros (Hpb & Hpos & Hmax & Hlim & t & Hs & Hc). unfold getc_common.
  destruct (io_has_pushback io) eqn:Ehp; [done|]. cbn [app] in Hs. subst t.
  pose proof Hc as [_ Hc'].
  destruct (cur_buffer (io_cursor io)) as [buffer|] eqn:Ebuf.
  - destruct Hc' as (Hrb & Hoff & Ht).
    replace (zlen buffer <=? cur_buffer_off (io_cursor io)) with true.
    2:{ apply (f_equal length) in Ht. rewrite length_drop in Ht. simpl in Ht. unfold zlen. lia. }
    exists io. split; [done|]. split; [|done]. unfold io_rest. rewrite Ehp.
    split_and!; [done..|]. by exists [].
  - destruct Hc' as (Hcap & Hroff & Hrlen & d & Hdev & Ht & Hso & Hsm).
    symmetry in Ht. apply app_eq_nil in Ht as [Hd ->].
    apply (f_equal length) in Hd. rewrite length_drop in Hd. simpl in Hd.
    replace (cur_read_buffer_off (io_cursor io) <? cur_read_buffer_len (io_cursor io)) with false
      by (unfold zlen in *; lia).
    destruct (refill_getc_nil io Hcap Hdev) as (c' & -> & Hdev' & Hc'). rewrite run_bind_done.
    change (-1 <? 0) with true. cbv iota. eexists. split; [done|]. split; [|by split_and!].
    unfold io_rest. simpl. rewrite Ehp. split_and!; [done..|]. exists []. split; [done|].
    split; [done|]. rewrite Hc'. simpl. rewrite Ebuf. split_and!; [done|lia|lia|done|].
    exists []. rewrite Hc' in Hdev'. split_and!; [done| |done|done].
    rewrite drop_ge; [done|unfold zlen in *; lia].
Qed.

(** Only an [io] without a pushed-back byte has a span. *)
Lemma plain_span_no_pushback io a :
  lonejson__json_cursor_plain_span io = Some a → io_has_pushback io = false.
Proof. unfold lonejson__json_cursor_plain_span. by destruct (io_has_pushback io). Qed.

(** Putting the last byte back. *)
Lemma ungetc_rest io b s :
  io_rest io s → just_read io → is_byte b →
  io_rest (lonejson__json_cursor_ungetc b io) (b :: s)
  ∧ io_same io (lonejson__json_cursor_ungetc b io).
Proof.
  intros (Hpb & Hpos & Hmax & Hlim & t & Hs & Hc) (Hj1 & Hj2 & Hj3) Hb.
  unfold lonejson__json_cursor_ungetc. rewrite Hj2.
  replace (true && negb (io_total_bytes io =? 0)) with true by lia. simpl.
  split; [|by split_and!]. unfold io_rest. simpl. rewrite zlen_cons.
  split_and!; [done|lia|lia|lia|]. exists t. rewrite Hs, Hj1. by split.
Qed.

Lemma io_rest_head io b s : io_rest io (b :: s) → is_byte b.
Proof.
  intros (Hpb & _ & _ & _ & t & Hs & [Ht _]). destruct (io_has_pushback io).
  - injection Hs as -> ->. by apply Hpb.
  - cbn [app] in Hs. subst. by apply Forall_cons in Ht as [? _].
Qed.

(** What [lonejson__json_peek_nonspace] returns. *)
Definition peeked (s : bytes) : Z :=
  match skip_ws s with
  | [] => -1
  | c :: _ => c
  end.

Lemma peek_nonspace_rest fuel io s :
  io_rest io s → (length s < fuel)%nat →
  ∃ io', lonejson__json_peek_nonspace fuel io = Done (peeked s, io')
         ∧ io_rest io' (skip_ws s) ∧ io_same io io'.
Proof.
  revert io s. induction fuel as [|fuel IH]; intros io s Hr Hf; [lia|].
  cbn [lonejson__json_peek_nonspace]. unfold lonejson__json_cursor_getc. destruct s as [|b s].
  - destruct (getc_nil true io Hr) as (io' & -> & Hr' & Hs). rewrite run_bind_done. by exists io'.
  - destruct (getc_cons true io b s Hr) as (io' & -> & Hr' & Hs & Hj). rewrite run_bind_done.
    pose proof (io_rest_head _ _ _ Hr) as Hb. unfold is_byte in Hb.
    replace (0 <=? b) with true by lia. cbn [andb]. unfold peeked, skip_ws. cbn [drop_while].
    destruct (lonejson__is_json_space b) eqn:Esp.
    + destruct (IH io' s Hr') as (io2 & -> & Hr2 & Hs2); [simpl in Hf; lia|].
      exists io2. split; [done|]. split; [done|]. by etrans.
    + destruct (ungetc_rest io' b s Hr' Hj Hb) as [Hr2 Hs2]. eexists. split; [done|].
      split; [done|]. by etrans.
Qed.

(** Buffered bytes are the next ones, and consuming some leaves the others.  A
    span does not count towards [total_bytes]; callers add it themselves. *)
Lemma plain_span_rest io s avail uses :
  io_rest io s → lonejson__json_cursor_plain_span io = Some (avail, uses) →
  ∃ s', s = avail ++ s'
  ∧ ∀ io' a1 a2, avail = a1 ++ a2 → io_limits io' = io_limits io →
      io_cursor io' = io_cursor io → io_has_pushback io' = false →
      0 ≤ io_total_bytes io' →
      io_total_bytes io' + zlen a2 + zlen s' ≤ UINT64_MAX →
      (max_total_bytes (io_limits io) = 0
       ∨ io_total_bytes io' + zlen a2 + zlen s' ≤ max_total_bytes (io_limits io)) →
      io_rest (span_advance uses (zlen a1) io') (a2 ++ s').
Proof.
  intros (Hpb & Hpos & Hmax & Hlim & t & Hs & Hbytes & Hc) Hspan.
  unfold lonejson__json_cursor_plain_span in Hspan. destruct (io_has_pushback io); [done|].
  cbn [app] in Hs. subst t.
  cut (∃ s', s = avail ++ s' ∧ ∀ io' a1 a2, avail = a1 ++ a2 → io_cursor io' = io_cursor io →
         is_bytes (a2 ++ s') →
         cursor_rest (io_cursor (span_advance uses (zlen a1) io')) (a2 ++ s')).
  { intros (s' & Hs & Hcr). exists s'. split; [done|].
    intros io' a1 a2 Ha Hli Hcur Hp Ht Hm Hl.
    unfold io_rest. cbn [span_advance set_cursor io_has_pushback io_total_bytes io_limits].
    rewrite Hp, Hli, zlen_app. split_and!; [done|done|lia|lia|]. exists (a2 ++ s').
    split; [done|]. apply Hcr; [done..|]. rewrite Hs, Ha, <- app_assoc in Hbytes.
    by apply is_bytes_app_inv in Hbytes as [_ ?]. }
  destruct (cur_buffer (io_cursor io)) as [buffer|] eqn:Eb.
  - destruct Hc as (Hrb & Hoff & Ht).
    destruct (cur_buffer_off (io_cursor io) <? zlen buffer) eqn:El.
    2:{ destruct (cur_read_buffer_off (io_cursor io) <? cur_read_buffer_len (io_cursor io)) eqn:E;
        [lia|done]. }
    injection Hspan as <- <-. exists []. rewrite app_nil_r. split; [done|].
    intros io' a1 a2 Ha Hcur Hb2. split; [done|]. cbn. rewrite Hcur. cbn. rewrite Eb.
    pose proof (zlen_nonneg a1). split_and!; [done|lia|]. rewrite app_nil_r. unfold zlen.
    replace (Z.to_nat (cur_buffer_off (io_cursor io) + Z.of_nat (length a1)))
      with (Z.to_nat (cur_buffer_off (io_cursor io)) + length a1)%nat by lia.
    by rewrite <- drop_drop, Ha, drop_app_length.
  - destruct Hc as (Hcap & Hroff & Hrlen & d & Hdev & Ht & Hso & Hsm).
    destruct (cur_read_buffer_off (io_cursor io) <? cur_read_buffer_len (io_cursor io)); [|done].
    rewrite take_ge in Hspan by (rewrite length_drop; unfold zlen in *; lia).
    injection Hspan as <- <-. exists d. split; [done|].
    intros io' a1 a2 Ha Hcur Hb2. split; [done|]. cbn. rewrite Hcur. cbn. rewrite Eb.
    pose proof (zlen_nonneg a1) as Ha1.
    assert (zlen a1 ≤ cur_read_buffer_len (io_cursor io) - cur_read_buffer_off (io_cursor io)).
    { apply (f_equal length) in Ha. rewrite length_drop, length_app in Ha. unfold zlen in *. lia. }
    split_and!; [done|lia|lia|done|]. exists d. split_and!; [done| |done|done].
    f_equal. unfold zlen.
    replace (Z.to_nat (cur_read_buffer_off (io_cursor io) + Z.of_nat (length a1)))
      with (Z.to_nat (cur_read_buffer_off (io_cursor io)) + length a1)%nat by lia.
    by rewrite <- drop_drop, Ha, drop_app_length.
Qed.
End rest.
#[global] Arguments io_same : simpl never.
