(* ===== verification/Walker.v ===== *)
(** * Walker: reasoning about the functions that walk a JSON value

    The recursive walkers ([Transcode], [Visit]) read a cursor and hand what they
    find to callbacks.  [out] says what the callbacks have been given so far, as a
    list; [emits io d io'] then says that a piece of the walk handed over [d], and
    [accepted]/[rejected] are the two ways a walk over a readable source ends. *)

From stdpp Require Import base numbers list strings.
From Stdlib Require Import ZArith Lia Bool.
From S2P Require Import Prelude Runtime Source Number JsonGrammar JsonCursor.

Section outcomes.
Context {R U E : Type} {out : U → list E}.
Implicit Types io : lonejson__json_io R U.

Definition io_ready io (s : bytes) : Prop := io_rest io s ∧ never_fails (io_allocator io).

(** The depth the next level is indented to. *)
Definition io_level io : Z := io_base_depth io + io_depth io.

(** From [io] to [io'] the callbacks were given [d]; nothing else a caller sees
    changed. *)
Definition emits io (d : list E) io' : Prop :=
  out (io_user io') = out (io_user io) ++ d
  ∧ io_error io' = io_error io ∧ io_pretty io' = io_pretty io
  ∧ io_base_depth io' = io_base_depth io ∧ io_depth io' = io_depth io
  ∧ io_limits io' = io_limits io.

Definition accepted (r : run (lonejson_status * lonejson__json_io R U)) io (d : list E) (s' : bytes) : Prop :=
  ∃ io', r = Done (LONEJSON_STATUS_OK, io') ∧ io_ready io' s' ∧ emits io d io'.

Definition rejected (r : run (lonejson_status * lonejson__json_io R U)) : Prop :=
  ∃ io', r = Done (LONEJSON_STATUS_INVALID_JSON, io').

Lemma emits_same io io' : io_same io io' → emits io [] io'.
Proof. intros (?&?&?&?&?&?&?). unfold emits. rewrite app_nil_r. split_and!; congruence. Qed.

Lemma emits_refl io : emits io [] io.
Proof. unfold emits. by rewrite app_nil_r. Qed.

Lemma emits_trans io1 io2 io3 d1 d2 : emits io1 d1 io2 → emits io2 d2 io3 → emits io1 (d1 ++ d2) io3.
Proof.
  intros (?&?&?&?&?&?) (?&?&?&?&?&?). split_and!; [|congruence..]. rewrite app_assoc. congruence.
Qed.

Lemma emits_nil_l io1 io2 io3 d : emits io1 [] io2 → emits io2 d io3 → emits io1 d io3.
Proof. apply emits_trans. Qed.

Lemma accepted_emits io io1 r d1 d2 s' :
  emits io d1 io1 → accepted r io1 d2 s' → accepted r io (d1 ++ d2) s'.
Proof. intros H (io' & ? & ? & ?). exists io'. split_and!; [done..|]. by eapply emits_trans. Qed.

Lemma io_fail_rejected message io : rejected (io_fail LONEJSON_STATUS_INVALID_JSON message io).
Proof. unfold io_fail. destruct (io_error io); simpl; by eexists. Qed.

Lemma rejected_seq (m k : io_fn R U lonejson_status) io : rejected (m io) → rejected ((m;;; k) io).
Proof. intros (io' & H). unfold io_seq. rewrite H. by exists io'. Qed.

(** After an accepted step the next one runs. *)
Lemma accepted_seq (m k : io_fn R U lonejson_status) io d s :
  accepted (m io) io d s →
  ∃ io', (m;;; k) io = k io' ∧ io_ready io' s ∧ emits io d io'.
Proof. intros (io' & H & ? & ?). exists io'. unfold io_seq. by rewrite H. Qed.

Lemma io_ready_same io io' s s' :
  io_ready io s → io_same io io' → io_rest io' s' → io_ready io' s'.
Proof. intros [_ Ha] (?&?&?&?&?&?&Hal) Hr. split; [done|]. by rewrite Hal. Qed.

Lemma getc_cons_bind {A} (k : Z → io_fn R U A) io b s :
  io_ready io (b :: s) →
  ∃ io', io_bind lonejson__json_cursor_getc k io = k b io'
         ∧ io_ready io' s ∧ emits io [] io' ∧ just_read io' ∧ is_byte b.
Proof.
  intros Hr. pose proof Hr as [Hrest _].
  destruct (getc_cons true io b s Hrest) as (io' & H & Hr' & Hs & Hj). exists io'.
  unfold io_bind, lonejson__json_cursor_getc. rewrite H, run_bind_done.
  split_and!; [done|by eapply io_ready_same|by apply emits_same|done|by eapply io_rest_head].
Qed.

Lemma getc_nil_bind {A} (k : Z → io_fn R U A) io :
  io_ready io [] →
  ∃ io', io_bind lonejson__json_cursor_getc k io = k (-1) io'
         ∧ io_ready io' [] ∧ emits io [] io'.
Proof.
  intros Hr. pose proof Hr as [Hrest _].
  destruct (getc_nil true io Hrest) as (io' & H & Hr' & Hs). exists io'.
  unfold io_bind, lonejson__json_cursor_getc. rewrite H, run_bind_done.
  split_and!; [done|by eapply io_ready_same|by apply emits_same].
Qed.

Lemma getc_bracket {A} (k : Z → io_fn R U A) io c s :
  io_ready io (c :: s) →
  ∃ io', io_bind lonejson__json_cursor_getc k io = k c io' ∧ io_ready io' s ∧ emits io [] io'.
Proof.
  intros Hr. destruct (getc_cons_bind k io c s Hr) as (io' & ? & ? & ? & _). eauto.
Qed.

Lemma peek_bind {A} (k : Z → io_fn R U A) fuel io s :
  io_ready io s → (length s < fuel)%nat →
  ∃ io', io_bind (lonejson__json_peek_nonspace fuel) k io = k (peeked s) io'
         ∧ io_ready io' (skip_ws s) ∧ emits io [] io'.
Proof.
  intros Hr Hf. pose proof Hr as [Hrest _].
  destruct (peek_nonspace_rest fuel io s Hrest Hf) as (io' & H & Hr' & Hs). exists io'.
  unfold io_bind. rewrite H, run_bind_done.
  split_and!; [done|by eapply io_ready_same|by apply emits_same].
Qed.

(** Putting back the byte just read. *)
Lemma ungetc_ready io b s :
  io_ready io s → just_read io → is_byte b →
  io_ready (lonejson__json_cursor_ungetc b io) (b :: s)
  ∧ emits io [] (lonejson__json_cursor_ungetc b io).
Proof.
  intros Hr Hj Hb. destruct (ungetc_rest io b s (proj1 Hr) Hj Hb) as [Hr' Hs].
  split; [by eapply io_ready_same|by apply emits_same].
Qed.

Lemma set_user_ready io u s : io_ready io s → io_ready (set_user io u (io_error io)) s.
Proof. done. Qed.

Lemma set_allocator_ready io a s :
  io_ready io s → never_fails a → io_ready (set_allocator io a) s ∧ emits io [] (set_allocator io a).
Proof.
  intros [Hr _] Ha. split; [by split|]. unfold emits. rewrite app_nil_r. by split_and!.
Qed.

Lemma io_level_emits io d io' : emits io d io' → io_level io' = io_level io.
Proof. unfold io_level. intros (_ & _ & _ & -> & -> & _). done. Qed.

Lemma io_pretty_emits io d io' : emits io d io' → io_pretty io' = io_pretty io.
Proof. by intros (_ & _ & -> & _). Qed.

Lemma io_depth_emits io d io' : emits io d io' → io_depth io' = io_depth io.
Proof. by intros (_ & _ & _ & _ & -> & _). Qed.

Lemma skip_ws_head_length s c s1 : skip_ws s = c :: s1 → (S (length s1) ≤ length s)%nat.
Proof. intros H. pose proof (skip_ws_length s). rewrite H in *. simpl in *. lia. Qed.

(** Peeking decides between the end of the input and a byte. *)
Lemma peek_step (k : Z → io_fn R U lonejson_status) fuel io s :
  io_ready io s → (length s < fuel)%nat →
  ∃ io', io_ready io' (skip_ws s) ∧ emits io [] io' ∧
    io_bind (lonejson__json_peek_nonspace fuel) k io
    = match skip_ws s with
      | [] => k (-1) io'
      | c :: _ => k c io'
      end.
Proof.
  intros Hr Hf. destruct (peek_bind k fuel io s Hr Hf) as (io' & H & Hr' & He).
  exists io'. split_and!; [done|done|]. rewrite H. unfold peeked. by destruct (skip_ws s).
Qed.

End outcomes.
Arguments emits {R U E} out _ _ _.
Arguments accepted {R U E} out _ _ _ _.

(** Run the read or the peek the goal starts with.  [o] is the [out] of the walk,
    [Hr] says what is left to read; the new state and its facts get the given
    names. *)
Ltac walk_getc o Hr io' Hr' He Hb :=
  lazymatch goal with
  | |- context [io_bind lonejson__json_cursor_getc ?k ?io] =>
      let H := fresh in
      destruct (getc_cons_bind (out := o) k io _ _ Hr) as (io' & H & Hr' & He & _ & Hb);
      rewrite H; clear H
  end.
Ltac walk_getc_eof o Hr io' Hr' He :=
  lazymatch goal with
  | |- context [io_bind lonejson__json_cursor_getc ?k ?io] =>
      let H := fresh in
      destruct (getc_nil_bind (out := o) k io Hr) as (io' & H & Hr' & He); rewrite H; clear H
  end.
Ltac walk_close o Hr io' Hr' He :=
  lazymatch goal with
  | |- context [io_bind lonejson__json_cursor_getc ?k ?io] =>
      let H := fresh in
      destruct (getc_bracket (out := o) k io _ _ Hr) as (io' & H & Hr' & He);
      rewrite H; clear H
  end.
Ltac walk_peek o Hr io' Hr' He :=
  lazymatch goal with
  | |- context [io_bind (lonejson__json_peek_nonspace ?n) ?k ?io] =>
      destruct (peek_step (out := o) k n io _ Hr ltac:(lia)) as (io' & Hr' & He & ->)
  end.
(** Express a rendering in terms of the later state. *)
Ltac carry He := rewrite <- (io_pretty_emits _ _ _ He), <- (io_level_emits _ _ _ He).
(** Decide the comparisons of a byte with constants. *)
Ltac byte_tests :=
  repeat match goal with
  | |- context [?x =? ?y] =>
      first [ replace (x =? y) with true by lia | replace (x =? y) with false by lia ]
  | |- context [?x <? ?y] =>
      first [ replace (x <? y) with true by lia | replace (x <? y) with false by lia ]
  end; cbn [andb orb negb]; cbv iota.
