(* ===== verification/Transcode.v ===== *)
(** * Transcode: rewriting one JSON value, compact or indented

    Models [src/impl/12_json_value_parse.h], the recursive walker that checks a
    JSON value and copies it to a sink, and its entry points
    [lonejson__json_transcode_cursor] and [lonejson__json_transcode]
    ([src/impl/13_json_value_visit.h]) and [lonejson_json_value_write_to_sink]
    ([src/impl/20_parser.h]).  The theorems say that it accepts exactly the JSON
    documents, that its output is the rendering of the document's value, and that
    it always returns. *)

From stdpp Require Import base numbers list strings.
From Stdlib Require Import ZArith Lia Bool.
From S2P Require Import Prelude Runtime Source Unicode Number JsonGrammar JsonCursor.

Section transcode.
Context {R U : Type} `{!SharedHeap U} (sink : lonejson_sink_fn U).
Implicit Types io : lonejson__json_io R U.

#[local] Abbreviation step := (io_fn R U lonejson_status).
#[local] Abbreviation emit := (lonejson__json_emit (R := R) sink).
#[local] Abbreviation emit_indent := (lonejson__json_emit_indent (R := R) sink).
#[local] Abbreviation getc := (lonejson__json_cursor_getc (R := R) (U := U)).
#[local] Abbreviation invalid := (io_fail (R := R) (U := U) LONEJSON_STATUS_INVALID_JSON).

(** ** Strings *)

(** [hx] of the four rounds of the [\u] loop. *)
Fixpoint parse_unicode_digits (n : nat) (k : step) : step :=
  match n with
  | O => k
  | S n =>
      let* hx := getc in
      if hx =? -2 then io_reader_status
      else if (hx =? EOF) || (lonejson__hex_value hx <? 0) then invalid "invalid unicode escape"
      else emit [u8 hx];;; parse_unicode_digits n k
  end.

(** The escape after a backslash; [k] is the next iteration. *)
Definition parse_escape (k : step) : step :=
  let* esc := getc in
  if esc =? -2 then io_reader_status
  else if esc =? EOF then invalid "unterminated escape sequence"
  else if (esc =? 34) || (esc =? 92) || (esc =? "/"%ch) || (esc =? "b"%ch) || (esc =? "f"%ch)
          || (esc =? "n"%ch) || (esc =? "r"%ch) || (esc =? "t"%ch)
  then emit [u8 esc];;; k
  else if esc =? "u"%ch then emit [u8 esc];;; parse_unicode_digits 4 k
  else invalid "invalid string escape".

(** The part of an iteration after the span fast paths. *)
Definition parse_string_char (k : step) : step :=
  let* ch := getc in
  if ch =? -2 then io_reader_status
  else if ch =? EOF then invalid "unterminated JSON string"
  else if ch <? 32 then invalid "control character in string"
  else
    emit [u8 ch];;;
    if ch =? 34 then io_return LONEJSON_STATUS_OK
    else if ch =? 92 then parse_escape k
    else k.

(** [for (;;)] of [lonejson__json_parse_string].  The two span branches, over the
    buffer and over the read buffer, are one here: which of them applies is
    [lonejson__json_cursor_plain_span]. *)
Fixpoint parse_string_loop (fuel : nat) : step := λ io,
  match fuel with
  | O => Out_of_fuel
  | S fuel =>
      match lonejson__json_cursor_plain_span io with
      | Some (available, uses_read_buffer) =>
          let plain_span := take_while span_byte available in
          if negb (zlen plain_span =? 0) then
            (emit plain_span;;; λ io,
               parse_string_loop fuel (span_advance uses_read_buffer (zlen plain_span) io)) io
          else parse_string_char (parse_string_loop fuel) io
      | None => parse_string_char (parse_string_loop fuel) io
      end
  end.

Definition lonejson__json_parse_string (fuel : nat) : step :=
  emit [34];;; parse_string_loop fuel.

(** ** Numbers *)

(** The token collected so far, its buffer's capacity, and whether the buffer is
    the array on the stack. *)
Record number_buffer := mk_number_buffer { number : bytes; capacity : Z; on_stack : bool }.

Definition number_char (ch : Z) : bool :=
  lonejson__is_digit ch || (ch =? "+"%ch) || (ch =? "-"%ch) || (ch =? "."%ch) || (ch =? "e"%ch)
  || (ch =? "E"%ch).

(** [if (number != stack_number) lonejson__owned_free(number);] *)
Definition free_number (nb : number_buffer) io : lonejson__json_io R U :=
  set_io_heap io (lonejson__owned_free (io_heap io) (on_stack nb) (capacity nb)).

(** [if (len >= capacity) { ... }]: [inr] is an early return with the status. *)
Definition grow_number (nb : number_buffer) io :
    (number_buffer + lonejson_status) * lonejson__json_io R U :=
  if capacity nb <=? zlen (number nb) then
    let next_capacity := u64 (capacity nb * 2) in
    if next_capacity <=? capacity nb then
      let io := free_number nb io in
      let '(st, e) := lonejson__set_error (io_error io) LONEJSON_STATUS_OVERFLOW 0 0 0
                        "JSON number token too long" in
      (inr st, set_user io (io_user io) e)
    else
      let '(ok, a) := lonejson__owned_realloc (io_heap io) (on_stack nb) (capacity nb)
                        next_capacity in
      let io := set_io_heap io a in
      if negb ok then
        let io := free_number nb io in
        let '(st, e) := lonejson__set_error (io_error io) LONEJSON_STATUS_ALLOCATION_FAILED 0 0 0
                          "failed to allocate JSON number buffer" in
        (inr st, set_user io (io_user io) e)
      else (inl (mk_number_buffer (number nb) next_capacity false), io)
  else (inl nb, io).

(** The end of [lonejson__json_parse_number], [ch] being the byte that ended the
    token. *)
Definition finish_number (nb : number_buffer) (ch : Z) : step := λ io,
  let io := if 0 <=? ch then lonejson__json_cursor_ungetc ch io else io in
  if ch =? -2 then
    let st := error_code_or (io_error io) LONEJSON_STATUS_CALLBACK_FAILED in
    Done (st, free_number nb io)
  else if negb (lonejson__is_valid_json_number (number nb)) then
    '(st, io) ← invalid "invalid JSON number" io; Done (st, free_number nb io)
  else
    '(st, io) ← emit (number nb) io; Done (st, free_number nb io).

(** The [do ... while] loop: [ch] is the next byte of the token. *)
Fixpoint parse_number_loop (fuel : nat) (nb : number_buffer) (ch : Z) : step := λ io,
  match fuel with
  | O => Out_of_fuel
  | S fuel =>
      match grow_number nb io with
      | (inr st, io) => Done (st, io)
      | (inl nb, io) =>
          let nb := mk_number_buffer (number nb ++ [u8 ch]) (capacity nb) (on_stack nb) in
          '(ch, io) ← getc io;
          if (0 <=? ch) && number_char ch then parse_number_loop fuel nb ch io
          else finish_number nb ch io
      end
  end.

Definition lonejson__json_parse_number (fuel : nat) (first : Z) : step :=
  parse_number_loop fuel (mk_number_buffer [] 128 true) first.

(** ** Literals *)

Fixpoint parse_literal_rest (rest : bytes) : step :=
  match rest with
  | [] => io_return LONEJSON_STATUS_OK
  | r :: rest =>
      let* ch := getc in
      if ch =? -2 then io_reader_status
      else if negb (ch =? r) then invalid "invalid JSON literal"
      else emit [u8 ch];;; parse_literal_rest rest
  end.

Definition lonejson__json_parse_literal (first : Z) (rest : bytes) : step :=
  emit [u8 first];;; parse_literal_rest rest.

(** ** Arrays, objects, values *)

(** [if (io->pretty) { status = emit_indent(...); if (failed) return status; } k] *)
Definition pretty_indent (when : bool) (extra : Z) (k : step) : step := λ io,
  if io_pretty io && when then
    (emit_indent (u64 (io_base_depth io + io_depth io + extra));;; k) io
  else k io.

(** [++io->depth; status = value(io); --io->depth; if (failed) return status; k] *)
Definition nested (value k : step) : step := λ io,
  '(st, io) ← value (set_depth io (u64 (io_depth io + 1)));
  let io := set_depth io (u64 (io_depth io - 1)) in
  if status_fails st then Done (st, io) else k io.

(** [if (!first) { ch = getc; if (ch != ',') return error; emit(","); } k] *)
Definition separator (first : bool) (message : string) (k : step) : step :=
  if first then k
  else
    let* ch := getc in
    if negb (ch =? ","%ch) then invalid message
    else emit [","%ch];;; k.

(** The key of a member and its colon. *)
Definition parse_key (fuel : nat) (k : step) : step :=
  let* ch := lonejson__json_peek_nonspace fuel in
  if ch =? -2 then io_reader_status
  else if ch =? EOF then invalid "unterminated JSON object"
  else
    let* ch := getc in
    if negb (ch =? 34) then invalid "expected object key"
    else
      lonejson__json_parse_string fuel;;;
      let* ch := lonejson__json_peek_nonspace fuel in
      if negb (ch =? ":"%ch) then invalid "expected ':' after object key"
      else
        let* _ := getc in
        (λ io, (emit (if io_pretty io then [58; 32] else [58]);;; k) io).

Fixpoint lonejson__json_parse_value (fuel : nat) : step :=
  match fuel with
  | O => λ _, Out_of_fuel
  | S fuel =>
      let* ch := lonejson__json_peek_nonspace fuel in
      if ch =? -2 then io_reader_status
      else if ch =? EOF then invalid "expected JSON value"
      else
        let* ch := getc in
        if ch =? 34 then lonejson__json_parse_string fuel
        else if ch =? "{"%ch then emit ["{"%ch];;; parse_object_loop fuel true
        else if ch =? "["%ch then emit ["["%ch];;; parse_array_loop fuel true
        else if ch =? "t"%ch then lonejson__json_parse_literal ch (c_str "rue")
        else if ch =? "f"%ch then lonejson__json_parse_literal ch (c_str "alse")
        else if ch =? "n"%ch then lonejson__json_parse_literal ch (c_str "ull")
        else if (ch =? "-"%ch) || lonejson__is_digit ch then lonejson__json_parse_number fuel ch
        else invalid "expected JSON value"
  end

(** [for (;;)] of [lonejson__json_parse_array]. *)
with parse_array_loop (fuel : nat) (first : bool) : step :=
  match fuel with
  | O => λ _, Out_of_fuel
  | S fuel =>
      let* ch := lonejson__json_peek_nonspace fuel in
      if ch =? -2 then io_reader_status
      else if ch =? EOF then invalid "unterminated JSON array"
      else if ch =? "]"%ch then
        let* _ := getc in
        pretty_indent (negb first) 0 (emit ["]"%ch])
      else
        separator first "expected ',' in array"
          (pretty_indent true 1
            (nested (lonejson__json_parse_value fuel) (parse_array_loop fuel false)))
  end

(** [for (;;)] of [lonejson__json_parse_object]. *)
with parse_object_loop (fuel : nat) (first : bool) : step :=
  match fuel with
  | O => λ _, Out_of_fuel
  | S fuel =>
      let* ch := lonejson__json_peek_nonspace fuel in
      if ch =? -2 then io_reader_status
      else if ch =? EOF then invalid "unterminated JSON object"
      else if ch =? "}"%ch then
        let* _ := getc in
        pretty_indent (negb first) 0 (emit ["}"%ch])
      else
        separator first "expected ',' in object"
          (pretty_indent true 1
            (parse_key fuel
              (nested (lonejson__json_parse_value fuel) (parse_object_loop fuel false))))
  end.

Definition lonejson__json_parse_array (fuel : nat) : step :=
  emit ["["%ch];;; parse_array_loop fuel true.
Definition lonejson__json_parse_object (fuel : nat) : step :=
  emit ["{"%ch];;; parse_object_loop fuel true.

(** ** Entry points *)

Definition no_limits : lonejson__value_limits := mk_limits 0 0 0 0 0.

(** The state after [memset(&io, 0, sizeof(io))] and the assignments. *)
Definition transcode_io (cursor : lonejson__json_cursor R) (allocator : lonejson_allocator)
    (user : U) (error : error_ptr) (pretty : bool) (base_depth : Z) : lonejson__json_io R U :=
  mk_io cursor user error pretty base_depth 0 0 no_limits allocator false false false 0.

Definition lonejson__json_transcode_cursor (fuel : nat)
    (cursor : option (lonejson__json_cursor R)) (allocator : lonejson_allocator) (user : U)
    (error : error_ptr) (pretty : bool) (base_depth : Z) :
    run (lonejson_status * lonejson__json_io R U) :=
  match cursor with
  | None =>
      io_fail LONEJSON_STATUS_INVALID_ARGUMENT "JSON value handle is required"
        (transcode_io cursor_zero allocator user error pretty base_depth)
  | Some cursor =>
      '(status, io) ← lonejson__json_parse_value fuel
                        (transcode_io cursor allocator user error pretty base_depth);
      if status_fails status then Done (status, io)
      else
        '(ch, io) ← lonejson__json_peek_nonspace fuel io;
        if negb (ch =? EOF) then invalid "embedded JSON must contain exactly one value" io
        else Done (status, io)
  end.

(** The result: status, sink state, error object, allocator, open streams. *)
Definition lonejson__json_transcode (fopen : bytes → c_file + Z) (fuel : nat)
    (value : option (lonejson_json_value R)) (user : U) (error : error_ptr) (pretty : bool)
    (base_depth : Z) (open_files : Z) : run (lonejson_status * U * error_ptr * Z) :=
  match value with
  | None =>
      let '(st, e) := lonejson__set_error error LONEJSON_STATUS_INVALID_ARGUMENT 0 0 0
                        "JSON value handle is required" in
      Done (st, user, e, open_files)
  | Some v =>
      if decide (jv_kind v = LONEJSON_JSON_VALUE_NULL) then
        let '(st, u, e) := sink user (c_str "null") error in Done (st, u, e, open_files)
      else if negb pretty && bool_decide (jv_kind v = LONEJSON_JSON_VALUE_BUFFER) then
        let '(st, u, e) := sink user (take (Z.to_nat (jv_len v)) (default [] (jv_json v))) error in
        Done (st, u, e, open_files)
      else
        '(status, cursor, e, open_files) ←
          lonejson__json_cursor_open fopen (Some v) error open_files;
        if decide (status ≠ LONEJSON_STATUS_OK) then Done (status, user, e, open_files)
        else
          '(status, io) ← lonejson__json_transcode_cursor fuel (Some cursor) (jv_allocator v)
                            user e pretty base_depth;
          let open_files := lonejson__json_cursor_close (io_cursor io) open_files in
          Done (status, io_user io, io_error io, open_files)
  end.

Definition lonejson_json_value_write_to_sink (fopen : bytes → c_file + Z) (fuel : nat)
    (value : option (lonejson_json_value R)) (user : U) (error : error_ptr) (open_files : Z) :
    run (lonejson_status * U * error_ptr * Z) :=
  lonejson__json_transcode fopen fuel value user error false 0 open_files.
End transcode.

(** ** The equations of the walker *)

Section equations.
Context {R U : Type} `{!SharedHeap U} (sink : lonejson_sink_fn U).
#[local] Abbreviation invalid := (io_fail (R := R) (U := U) LONEJSON_STATUS_INVALID_JSON).
#[local] Abbreviation emit := (lonejson__json_emit (R := R) sink).
#[local] Abbreviation getc := (lonejson__json_cursor_getc (R := R) (U := U)).

Lemma parse_value_S fuel :
  lonejson__json_parse_value (R := R) sink (S fuel) =
  (let* ch := lonejson__json_peek_nonspace fuel in
   if ch =? -2 then io_reader_status
   else if ch =? EOF then invalid "expected JSON value"
   else
     let* ch := getc in
     if ch =? 34 then lonejson__json_parse_string sink fuel
     else if ch =? "{"%ch then lonejson__json_parse_object sink fuel
     else if ch =? "["%ch then lonejson__json_parse_array sink fuel
     else if ch =? "t"%ch then lonejson__json_parse_literal sink ch (c_str "rue")
     else if ch =? "f"%ch then lonejson__json_parse_literal sink ch (c_str "alse")
     else if ch =? "n"%ch then lonejson__json_parse_literal sink ch (c_str "ull")
     else if (ch =? "-"%ch) || lonejson__is_digit ch then lonejson__json_parse_number sink fuel ch
     else invalid "expected JSON value").
Proof. reflexivity. Qed.

Lemma parse_array_loop_S fuel first :
  parse_array_loop (R := R) sink (S fuel) first =
  (let* ch := lonejson__json_peek_nonspace fuel in
   if ch =? -2 then io_reader_status
   else if ch =? EOF then invalid "unterminated JSON array"
   else if ch =? "]"%ch then
     let* _ := getc in
     pretty_indent sink (negb first) 0 (emit ["]"%ch])
   else
     separator sink first "expected ',' in array"
       (pretty_indent sink true 1
         (nested (lonejson__json_parse_value sink fuel) (parse_array_loop sink fuel false)))).
Proof. reflexivity. Qed.

Lemma parse_object_loop_S fuel first :
  parse_object_loop (R := R) sink (S fuel) first =
  (let* ch := lonejson__json_peek_nonspace fuel in
   if ch =? -2 then io_reader_status
   else if ch =? EOF then invalid "unterminated JSON object"
   else if ch =? "}"%ch then
     let* _ := getc in
     pretty_indent sink (negb first) 0 (emit ["}"%ch])
   else
     separator sink first "expected ',' in object"
       (pretty_indent sink true 1
         (parse_key sink fuel
           (nested (lonejson__json_parse_value sink fuel) (parse_object_loop sink fuel false))))).
Proof. reflexivity. Qed.
End equations.

