(* ===== verification/TranscodeSpec.v ===== *)
(** * TranscodeSpec: the transcoder against the grammar

    The walker of [Transcode] is compared with the reference parser of
    [JsonGrammar] step by step: on every input both accept the same prefix, and
    what the walker emits is the rendering of the value the parser returns
    ([walker_spec]).  The properties of the entry points follow. *)

From stdpp Require Import base numbers list strings.
From Stdlib Require Import ZArith Lia Bool.
From S2P Require Import Prelude Runtime Source Unicode Number JsonGrammar JsonCursor Walker Transcode.

Section transcode_spec.
Context {R U : Type} (sink : lonejson_sink_fn U) `{!LosslessSink sink}.
Implicit Types io : lonejson__json_io R U.

#[local] Abbreviation emits := (Walker.emits (R := R) (sink_out sink)).
#[local] Abbreviation accepted := (Walker.accepted (R := R) (sink_out sink)).
#[local] Abbreviation set_allocator_ready :=
  (Walker.set_allocator_ready (R := R) (out := sink_out sink)).
#[local] Abbreviation ungetc_ready := (Walker.ungetc_ready (R := R) (out := sink_out sink)).

Lemma sink_emit_ok d io :
  ∃ u, lonejson__json_emit sink d io
       = Done (LONEJSON_STATUS_OK, set_user io u (io_error io))
       ∧ emits io d (set_user io u (io_error io)).
Proof.
  destruct (sink_lossless sink (io_user io) d (io_error io)) as (u & H & Ho). exists u.
  unfold lonejson__json_emit. rewrite H. split; [done|]. by split_and!.
Qed.

Lemma emit_accepted d io s : io_ready io s → accepted (lonejson__json_emit sink d io) io d s.
Proof. intros Hr. destruct (sink_emit_ok d io) as (u & H & He). eexists. by split_and!. Qed.

Lemma emit_seq d k io s :
  io_ready io s →
  ∃ io', (lonejson__json_emit sink d;;; k) io = k io' ∧ io_ready io' s ∧ emits io d io'.
Proof. intros. apply accepted_seq. by apply emit_accepted. Qed.

Ltac step_emit Hr io' Hr' He :=
  lazymatch goal with
  | |- context [io_seq (lonejson__json_emit sink ?d) ?k ?io] =>
      let H := fresh in
      destruct (emit_seq d k io _ Hr) as (io' & H & Hr' & He); rewrite H; clear H
  end.

Ltac step_getc Hr io' Hr' He Hb := walk_getc (sink_out sink) Hr io' Hr' He Hb.
Ltac step_getc_eof Hr io' Hr' He := walk_getc_eof (sink_out sink) Hr io' Hr' He.
Ltac step_close Hr io' Hr' He := walk_close (sink_out sink) Hr io' Hr' He.
Ltac step_peek Hr io' Hr' He := walk_peek (sink_out sink) Hr io' Hr' He.

(** ** Strings *)

Definition string_spec (r : run (lonejson_status * lonejson__json_io R U)) io (s : bytes) : Prop :=
  match scan_string s with
  | Some (l, s') => accepted r io (items_bytes l ++ [34]) s'
  | None => rejected r
  end.

(** A step that consumed one item of the string. *)
Lemma string_spec_item r io io1 i s1 s :
  emits io (item_bytes i) io1 → string_spec r io1 s1 →
  scan_string s = ('(l, r) ← scan_string s1; Some (i :: l, r)) → string_spec r io s.
Proof.
  intros He Hs Hscan. unfold string_spec in *. rewrite Hscan.
  destruct (scan_string s1) as [[l s']|]; [|done].
  rewrite some_bind, items_bytes_cons, <- app_assoc. by eapply accepted_emits.
Qed.

Lemma u8_byte b : is_byte b → u8 b = b.
Proof. apply u8_small. Qed.

(** The hexadecimal digits of a [\u] escape. *)
Lemma parse_unicode_digits_ok n k io s :
  io_ready io s →
  if decide (hex_digits_of n s)
  then ∃ io', parse_unicode_digits sink n k io = k io' ∧ io_ready io' (drop n s)
              ∧ emits io (take n s) io'
  else rejected (parse_unicode_digits sink n k io).
Proof.
  revert io s. induction n as [|n IH]; intros io s Hr.
  { rewrite decide_True by (split; [lia|by constructor]).
    exists io. rewrite drop_0. split_and!; [done|done|]. by apply emits_same. }
  cbn [parse_unicode_digits]. destruct s as [|b s].
  { rewrite decide_False by (intros [? _]; simpl in *; lia).
    step_getc_eof Hr io1 Hr1 He1. apply io_fail_rejected. }
  step_getc Hr io1 Hr1 He1 Hb. unfold is_byte in Hb. byte_tests.
  rewrite is_hex_ltb. destruct (is_hex b) eqn:Eh; cbn [negb].
  2:{ rewrite decide_False; [apply io_fail_rejected|]. rewrite hex_digits_of_cons.
      intros [? _]. congruence. }
  rewrite u8_byte by done. step_emit Hr1 io2 Hr2 He2. specialize (IH io2 s Hr2).
  destruct (decide (hex_digits_of n s)) as [Hd|Hd].
  - rewrite decide_True by (by rewrite hex_digits_of_cons).
    destruct IH as (io3 & -> & Hr3 & He3). exists io3. split_and!; [done|done|].
    change (take (S n) (b :: s)) with ([] ++ [b] ++ take n s).
    eapply emits_trans; [done|]. by eapply emits_trans.
  - rewrite decide_False; [done|]. rewrite hex_digits_of_cons. by intros [_ ?].
Qed.

Lemma simple_escape_tests e :
  (e =? 34) || (e =? 92) || (e =? "/"%ch) || (e =? "b"%ch) || (e =? "f"%ch) || (e =? "n"%ch)
  || (e =? "r"%ch) || (e =? "t"%ch) = is_simple_escape e.
Proof. unfold is_simple_escape. simpl. by rewrite orb_false_r, !orb_assoc. Qed.

(** The escape after a backslash that has been read and emitted. *)
Lemma parse_escape_spec k io s :
  io_ready io s →
  (∀ io' s', (length s' < length s)%nat → io_ready io' s' → string_spec (k io') io' s') →
  match scan_string (92 :: s) with
  | Some (l, s') => ∃ d, items_bytes l ++ [34] = 92 :: d ∧ accepted (parse_escape sink k io) io d s'
  | None => rejected (parse_escape sink k io)
  end.
Proof.
  intros Hr Hk. rewrite scan_string_cons. change (92 =? 34) with false. change (92 <? 32) with false.
  change (92 =? 92) with true. cbv iota. unfold parse_escape. destruct s as [|e s].
  { step_getc_eof Hr io1 Hr1 He1. apply io_fail_rejected. }
  step_getc Hr io1 Hr1 He1 Hb. rewrite simple_escape_tests. unfold is_byte in Hb.
  replace (e =? -2) with false by lia. replace (e =? -1) with false by lia.
  rewrite u8_byte by done.
  (* the item [i], whose last bytes [d] have been read, and the rest [s1] *)
  assert (∀ i io2 d s1, (length s1 < length (e :: s))%nat → item_bytes i = 92 :: d →
    io_ready io2 s1 → emits io d io2 →
    match '(l, r) ← scan_string s1; Some (i :: l, r) with
    | Some (l, s') => ∃ d', items_bytes l ++ [34] = 92 :: d' ∧ accepted (k io2) io d' s'
    | None => rejected (k io2)
    end) as Hitem.
  { intros i io2 d s1 Hl Hi Hr2 He2. specialize (Hk io2 s1 Hl Hr2). unfold string_spec in Hk.
    destruct (scan_string s1) as [[l s']|]; [|done]. rewrite some_bind.
    exists (d ++ items_bytes l ++ [34]). split; [by rewrite items_bytes_cons, Hi, <- app_assoc|].
    by eapply accepted_emits. }
  destruct (is_simple_escape e) eqn:Es.
  - rewrite (proj2 (Z.eqb_neq e 117)) by (by apply simple_escape_not_u).
    step_emit Hr1 io2 Hr2 He2. apply (Hitem (Esc e) io2 [e]); [simpl; lia|done|done|].
    by eapply emits_nil_l.
  - destruct (e =? 117) eqn:Eu; [|apply io_fail_rejected].
    assert (e = 117) as -> by lia. step_emit Hr1 io2 Hr2 He2.
    pose proof (parse_unicode_digits_ok 4 k io2 s Hr2) as Hd.
    destruct s as [|h0 [|h1 [|h2 [|h3 s3]]]];
      try (rewrite decide_False in Hd; [done|intros [? _]; simpl in *; lia]).
    assert (hex_digits_of 4 (h0 :: h1 :: h2 :: h3 :: s3)
            ↔ is_hex h0 && is_hex h1 && is_hex h2 && is_hex h3 = true) as Hiff.
    { rewrite !hex_digits_of_cons, !andb_true_iff. unfold hex_digits_of. simpl.
      split; [tauto|]. intros. split_and!; try tauto; [lia|constructor]. }
    destruct (is_hex h0 && is_hex h1 && is_hex h2 && is_hex h3).
    + rewrite decide_True in Hd by tauto. destruct Hd as (io3 & -> & Hr3 & He3).
      apply (Hitem (Uni h0 h1 h2 h3) io3 [117; h0; h1; h2; h3]); [simpl; lia|done|done|].
      eapply emits_nil_l; [done|]. by apply (emits_trans _ _ _ [117] [h0; h1; h2; h3] He2).
    + by rewrite decide_False in Hd by (rewrite Hiff; done).
Qed.

Lemma parse_string_char_spec k io s :
  io_ready io s →
  (∀ io' s', (length s' < length s)%nat → io_ready io' s' → string_spec (k io') io' s') →
  string_spec (parse_string_char sink k io) io s.
Proof.
  intros Hr Hk. unfold parse_string_char. destruct s as [|b s].
  { step_getc_eof Hr io1 Hr1 He1. apply io_fail_rejected. }
  step_getc Hr io1 Hr1 He1 Hb. pose proof Hb as Hb'. unfold is_byte in Hb'.
  replace (b =? -2) with false by lia. replace (b =? -1) with false by lia.
  rewrite u8_byte by done. unfold string_spec.
  destruct (b <? 32) eqn:E32.
  { rewrite scan_string_cons, E32. replace (b =? 34) with false by lia. apply io_fail_rejected. }
  step_emit Hr1 io2 Hr2 He2. assert (emits io [b] io2) as He by (by eapply emits_nil_l).
  clear He1 He2. destruct (b =? 34) eqn:E34.
  { rewrite scan_string_cons, E34. assert (b = 34) as -> by lia. exists io2. by split_and!. }
  destruct (b =? 92) eqn:E92.
  - assert (b = 92) as -> by lia.
    pose proof (parse_escape_spec k io2 s Hr2) as Hesc.
    destruct (scan_string (92 :: s)) as [[l s']|].
    + destruct Hesc as (d & Hd & Hacc); [intros; apply Hk; [simpl; lia|done]|].
      rewrite Hd. by apply (accepted_emits io io2 _ [92]).
    + apply Hesc. intros. apply Hk; [simpl; lia|done].
  - apply (string_spec_item _ io io2 (Plain b) s); [done|apply Hk; [simpl; lia|done]|].
    by rewrite scan_string_cons, E34, E32, E92.
Qed.

Lemma parse_string_loop_spec fuel io s :
  io_ready io s → (length s < fuel)%nat → string_spec (parse_string_loop sink fuel io) io s.
Proof.
  revert io s. induction fuel as [|fuel IH]; intros io s Hr Hf; [lia|]. cbn [parse_string_loop].
  assert (string_spec (parse_string_char sink (parse_string_loop sink fuel) io) io s) as Hchar.
  { apply parse_string_char_spec; [done|]. intros. apply IH; [done|lia]. }
  destruct (lonejson__json_cursor_plain_span io) as [[avail uses]|] eqn:Espan; [|done].
  set (span := take_while span_byte avail). destruct (zlen span =? 0) eqn:E0; [done|].
  cbn [negb]. pose proof Hr as [Hrest Halloc].
  destruct (plain_span_rest io s avail uses Hrest Espan) as (s0 & Hs & Hadv).
  pose proof (take_drop_while span_byte avail) as Hsplit. fold span in Hsplit.
  set (rest := drop_while span_byte avail) in *.
  destruct (sink_emit_ok span io) as (u & Hemit & He). unfold io_seq. rewrite Hemit, run_bind_done.
  cbn [status_fails]. set (io1 := set_user io u (io_error io)) in *.
  set (io2 := span_advance uses (zlen span) io1).
  destruct Hrest as (_ & Hpos & Hmax & Hlim & _).
  assert (zlen rest + zlen s0 ≤ zlen s) as Hle.
  { rewrite Hs, <- Hsplit, !zlen_app. pose proof (zlen_nonneg span). lia. }
  assert (io_ready io2 (rest ++ s0)) as Hr2.
  { split; [|done]. apply Hadv; try done.
    - by eapply plain_span_no_pushback.
    - change (io_total_bytes io1) with (io_total_bytes io). lia.
    - change (io_total_bytes io1) with (io_total_bytes io). lia. }
  assert (length (rest ++ s0) < fuel)%nat as Hfuel.
  { apply (f_equal length) in Hs. rewrite <- Hsplit in Hs. rewrite !length_app in Hs.
    rewrite length_app. unfold zlen in E0. lia. }
  specialize (IH io2 (rest ++ s0) Hr2 Hfuel).
  assert (Forall (λ b, is_plain b = true) span) as Hplain by apply take_while_Forall.
  unfold string_spec in *. rewrite Hs, <- Hsplit, <- app_assoc, scan_string_plain by done.
  destruct (scan_string (rest ++ s0)) as [[l s']|]; [|done]. rewrite some_bind.
  rewrite items_bytes_plain, <- app_assoc. by apply (accepted_emits io io2).
Qed.

Lemma parse_string_spec fuel io s :
  io_ready io s → (length s < fuel)%nat →
  match scan_string s with
  | Some (l, s') => accepted (lonejson__json_parse_string sink fuel io) io (quoted l) s'
  | None => rejected (lonejson__json_parse_string sink fuel io)
  end.
Proof.
  intros Hr Hf. unfold lonejson__json_parse_string. step_emit Hr io1 Hr1 He1.
  pose proof (parse_string_loop_spec fuel io1 s Hr1 Hf) as H. unfold string_spec in H.
  destruct (scan_string s) as [[l s']|]; [|done]. by apply (accepted_emits io io1 _ [34]).
Qed.

(** ** Numbers *)

(** The token buffer while the token is read. *)
Definition number_ok (nb : number_buffer) (n : Z) : Prop :=
  zlen (number nb) ≤ capacity nb ∧ 128 ≤ capacity nb ≤ Z.max 128 (2 * zlen (number nb))
  ∧ zlen (number nb) + n < 2 ^ 62.

Lemma grow_number_ok nb n io s :
  number_ok nb n → io_ready io s → 1 ≤ n →
  ∃ cap st io', grow_number nb io = (inl (mk_number_buffer (number nb) cap st), io')
    ∧ io_ready io' s ∧ emits io [] io' ∧ zlen (number nb) < cap
    ∧ 128 ≤ cap ≤ Z.max 128 (2 * zlen (number nb)).
Proof.
  intros (H1 & H2 & H3) Hr Hn. unfold grow_number. pose proof (zlen_nonneg (number nb)).
  destruct (capacity nb <=? zlen (number nb)) eqn:E.
  2:{ exists (capacity nb), (on_stack nb), io. destruct nb; simpl in *.
      split_and!; [done|done|apply emits_refl|lia..]. }
  rewrite u64_small by (unfold is_u64; lia).
  replace (capacity nb * 2 <=? capacity nb) with false by lia.
  change (io_heap io) with (io_allocator io).
  destruct (owned_realloc_ok (io_allocator io) (on_stack nb) (capacity nb) (capacity nb * 2))
    as (a & -> & Ha); [apply Hr|]. cbn [negb].
  destruct (set_allocator_ready io a s Hr Ha) as [Hr' He'].
  change (set_io_heap io a) with (set_allocator io a).
  eexists _, _, _. split; [done|]. split_and!; [done|done|lia|lia|lia].
Qed.

Lemma free_number_ready nb io s :
  io_ready io s → io_ready (free_number nb io) s ∧ emits io [] (free_number nb io).
Proof.
  intros Hr. apply set_allocator_ready; [done|]. apply owned_free_never_fails, Hr.
Qed.


Definition number_spec (r : run (lonejson_status * lonejson__json_io R U)) io (t s' : bytes) : Prop :=
  if lonejson__is_valid_json_number t then accepted r io t s' else rejected r.

Lemma finish_number_spec nb ch io io0 io1 rest :
  (if 0 <=? ch then lonejson__json_cursor_ungetc ch io else io) = io1 → ch ≠ -2 →
  io_ready io1 rest → emits io0 [] io1 →
  number_spec (finish_number sink nb ch io) io0 (number nb) rest.
Proof.
  intros H1 Hch Hr He. unfold finish_number, number_spec. rewrite H1.
  replace (ch =? -2) with false by lia.
  destruct (lonejson__is_valid_json_number (number nb)); cbn [negb].
  - destruct (emit_accepted (number nb) io1 rest Hr) as (io2 & -> & Hr2 & He2).
    rewrite run_bind_done. destruct (free_number_ready nb io2 rest Hr2) as [Hr3 He3].
    eexists. split_and!; [done|done|]. rewrite <- (app_nil_r (number nb)).
    eapply emits_trans; [|done]. by eapply emits_nil_l.
  - destruct (io_fail_rejected "invalid JSON number" io1) as (io2 & ->). rewrite run_bind_done.
    by eexists.
Qed.

Lemma parse_number_loop_spec fuel nb ch io s :
  number_ok nb (1 + zlen s) → io_ready io s → is_byte ch → (length s < fuel)%nat →
  number_spec (parse_number_loop sink fuel nb ch io) io
    (number nb ++ ch :: take_while is_number_char s) (drop_while is_number_char s).
Proof.
  revert nb ch io s. induction fuel as [|fuel IH]; intros nb ch io s Hnb Hr Hch Hf; [lia|].
  cbn [parse_number_loop]. pose proof (zlen_nonneg s) as Hs0.
  destruct (grow_number_ok nb (1 + zlen s) io s Hnb Hr ltac:(lia))
    as (cap & st & io1 & -> & Hr1 & He1 & Hc1 & Hc2). cbn [number capacity on_stack].
  rewrite u8_byte by done. set (nb' := mk_number_buffer (number nb ++ [ch]) cap st).
  destruct Hnb as (_ & _ & Hbound). destruct s as [|c s].
  - destruct (getc_nil true io1 (proj1 Hr1)) as (io2 & H & Hr2 & Hs).
    unfold lonejson__json_cursor_getc. rewrite H, run_bind_done. change (0 <=? -1) with false.
    cbn [andb]. eapply (finish_number_spec nb' (-1)); [done|done|by eapply io_ready_same|].
    eapply emits_nil_l; [done|]. by apply emits_same.
  - destruct (getc_cons true io1 c s (proj1 Hr1)) as (io2 & H & Hr2 & Hs & Hj).
    pose proof (io_rest_head _ _ _ (proj1 Hr1)) as Hc. unfold is_byte in Hc.
    unfold lonejson__json_cursor_getc. rewrite H, run_bind_done.
    replace (0 <=? c) with true by lia. cbn [andb take_while drop_while].
    assert (io_ready io2 s) as Hr2' by (by eapply io_ready_same).
    assert (emits io [] io2) as He2 by (eapply emits_nil_l; [done|by apply emits_same]).
    change (number_char c) with (is_number_char c). destruct (is_number_char c).
    + rewrite zlen_cons in Hbound. specialize (IH nb' c io2 s).
      cbn [nb' number] in IH. rewrite <- app_assoc in IH. cbn [app] in IH.
      unfold number_spec in *. destruct (lonejson__is_valid_json_number _).
      * apply (accepted_emits io io2 _ []); [done|]. apply IH; [|done|done|simpl in Hf; lia].
        unfold number_ok. simpl. rewrite zlen_app. change (zlen [ch]) with 1. lia.
      * apply IH; [|done|done|simpl in Hf; lia].
        unfold number_ok. simpl. rewrite zlen_app. change (zlen [ch]) with 1. lia.
    + destruct (ungetc_ready io2 c s Hr2' Hj Hc) as [Hr3 He3].
      eapply (finish_number_spec nb' c); [by replace (0 <=? c) with true by lia|lia|done|].
      by eapply emits_nil_l.
Qed.

(** ** Literals *)

Lemma parse_literal_rest_spec rest io s :
  is_bytes rest → io_ready io s →
  match strip rest s with
  | Some s' => accepted (parse_literal_rest sink rest io) io rest s'
  | None => rejected (parse_literal_rest sink rest io)
  end.
Proof.
  intros Hbytes. revert io s. induction Hbytes as [|r rest Hrb _ IH]; intros io s Hr.
  { simpl. exists io. split_and!; [done|by destruct s|apply emits_refl]. }
  cbn [parse_literal_rest]. destruct s as [|b s].
  { simpl. step_getc_eof Hr io1 Hr1 He1. change (-1 =? -2) with false. cbv iota.
    unfold is_byte in Hrb. replace (-1 =? r) with false by lia. apply io_fail_rejected. }
  cbn [strip]. step_getc Hr io1 Hr1 He1 Hb. pose proof Hb as Hb'. unfold is_byte in Hb'.
  replace (b =? -2) with false by lia. destruct (b =? r) eqn:E; cbn [negb].
  2: apply io_fail_rejected. rewrite u8_byte by done. step_emit Hr1 io2 Hr2 He2.
  specialize (IH io2 s Hr2). destruct (strip rest s) as [s'|]; [|done].
  assert (b = r) as -> by lia. apply (accepted_emits io io2 _ [r]); [|done]. by eapply emits_nil_l.
Qed.

(** ** Indentation *)

Lemma indent_loop_ok n spaces io s :
  0 < spaces → spaces / 64 ≤ Z.of_nat n → io_ready io s →
  ∃ r io', indent_loop sink n LONEJSON_STATUS_OK spaces io
           = Done ((LONEJSON_STATUS_OK, r), io')
    ∧ 0 ≤ r ≤ spaces ∧ io_ready io' s ∧ emits io (replicate (Z.to_nat (spaces - r)) 32) io'.
Proof.
  revert spaces io. induction n as [|n IH]; intros spaces io Hs Hn Hr; cbn [indent_loop].
  { exists spaces, io. rewrite Z.sub_diag. split_and!; [done|lia|lia|done|apply emits_refl]. }
  destruct (64 <? spaces) eqn:E.
  2:{ exists spaces, io. rewrite Z.sub_diag. split_and!; [done|lia|lia|done|apply emits_refl]. }
  destruct (emit_accepted (replicate 64 32) io s Hr) as (io1 & -> & Hr1 & He1).
  rewrite run_bind_done. cbn [status_fails].
  destruct (IH (spaces - 64) io1) as (r & io2 & -> & Hle & Hr2 & He2); [lia| |done|].
  { replace (spaces - 64) with (spaces + (-1) * 64) by lia. rewrite Z.div_add by lia. lia. }
  exists r, io2. split_and!; [done|lia|lia|done|].
  replace (Z.to_nat (spaces - r)) with (64 + Z.to_nat (spaces - 64 - r))%nat by lia.
  rewrite replicate_add. by eapply emits_trans.
Qed.

Lemma emit_indent_accepted d io s :
  0 ≤ d ≤ SIZE_MAX / 2 → io_ready io s →
  accepted (lonejson__json_emit_indent sink d io) io (indent d) s.
Proof.
  intros Hd Hr. unfold lonejson__json_emit_indent, indent.
  replace (SIZE_MAX / 2 <? d) with false by lia.
  change (SIZE_MAX / 2) with 9223372036854775807 in Hd.
  rewrite u64_small by (unfold is_u64; lia). rewrite (Z.mul_comm d 2).
  destruct (2 * d <=? 64) eqn:E.
  { replace (Z.to_nat (2 * d + 1)) with (S (Z.to_nat (2 * d))) by lia. cbn [take].
    rewrite take_replicate, Nat.min_l by lia. by apply emit_accepted. }
  destruct (emit_accepted (10 :: replicate 64 32) io s Hr) as (io1 & -> & Hr1 & He1).
  rewrite run_bind_done. cbn [status_fails].
  destruct (indent_loop_ok (Z.to_nat ((2 * d - 64) / 64)) (2 * d - 64) io1 s)
    as (r & io2 & -> & Hle & Hr2 & He2); [lia|lia|done|]. rewrite run_bind_done. cbn [status_fails].
  assert (emits io (10 :: replicate (64 + Z.to_nat (2 * d - 64 - r)) 32) io2) as He.
  { rewrite replicate_add. change (10 :: replicate 64 32 ++ ?x) with ((10 :: replicate 64 32) ++ x).
    by eapply emits_trans. }
  clear He1 He2. destruct (r =? 0) eqn:Er; cbn [negb].
  - exists io2. split_and!; [done|done|].
    by replace (Z.to_nat (2 * d)) with (64 + Z.to_nat (2 * d - 64 - r))%nat by lia.
  - replace (Z.to_nat (2 * d)) with ((64 + Z.to_nat (2 * d - 64 - r)) + Z.to_nat r)%nat by lia.
    rewrite (replicate_add (64 + _)).
    match goal with |- accepted _ _ (10 :: ?a ++ ?b) _ => change (10 :: a ++ b) with ((10 :: a) ++ b) end.
    eapply (accepted_emits io io2); [exact He|].
    by apply emit_accepted.
Qed.

(** Deep enough for every level the input can open. *)
Definition depth_ok io (s : bytes) : Prop :=
  0 ≤ io_base_depth io ∧ 0 ≤ io_depth io ∧ io_level io + 1 + zlen s ≤ SIZE_MAX / 2.

Lemma pretty_indent_step when extra k io s :
  io_ready io s → 0 ≤ extra ≤ 1 → depth_ok io s →
  ∃ io', pretty_indent sink when extra k io = k io' ∧ io_ready io' s
         ∧ emits io (if when then line_break (io_pretty io) (io_level io + extra) else []) io'.
Proof.
  intros Hr Hx (Hb & Hd & Hm). unfold pretty_indent, io_level, line_break in *.
  pose proof (zlen_nonneg s). change (SIZE_MAX / 2) with 9223372036854775807 in Hm.
  destruct (io_pretty io && when) eqn:E.
  - apply andb_true_iff in E as [-> ->]. apply accepted_seq.
    rewrite u64_small by (unfold is_u64; lia).
    apply emit_indent_accepted; [change (SIZE_MAX / 2) with 9223372036854775807; lia|done].
  - exists io. split_and!; [done|done|].
    destruct when; [destruct (io_pretty io); [done|]|]; apply emits_refl.
Qed.

(** ** Values *)

(** [++depth; value; --depth]: the value is walked one level down. *)
Lemma nested_step value k io d s :
  0 ≤ io_depth io < SIZE_MAX →
  accepted (value (set_depth io (io_depth io + 1))) (set_depth io (io_depth io + 1)) d s →
  ∃ io', nested value k io = k io' ∧ io_ready io' s ∧ emits io d io'.
Proof.
  intros Hd (io1 & H & Hr & He). unfold nested. rewrite u64_small by (unfold is_u64; lia).
  rewrite H, run_bind_done. cbn [status_fails]. destruct He as (E1 & E2 & E3 & E4 & E5 & E6).
  cbn in E1, E2, E3, E4, E5, E6. rewrite E5, u64_small by (unfold is_u64; lia).
  eexists. split; [done|]. split; [done|]. unfold emits. cbn.
  split_and!; [done..|lia|done].
Qed.

Lemma nested_rejected value k io :
  0 ≤ io_depth io < SIZE_MAX →
  rejected (value (set_depth io (io_depth io + 1))) → rejected (nested value k io).
Proof.
  intros Hd (io1 & H). unfold nested. rewrite u64_small by (unfold is_u64; lia).
  rewrite H, run_bind_done. by eexists.
Qed.

Lemma depth_ok_emits io d io' s s' :
  emits io d io' → depth_ok io s → (length s' ≤ length s)%nat → depth_ok io' s'.
Proof.
  unfold depth_ok, io_level. intros (_ & _ & _ & -> & -> & _) (?&?&?) ?. unfold zlen in *. lia.
Qed.

(** Inside an array or object the values are one level deeper. *)
Definition loop_ok io (s : bytes) : Prop := depth_ok (set_depth io (io_depth io + 1)) s.

Lemma depth_ok_nested io s s' : depth_ok io s → (length s' < length s)%nat → loop_ok io s'.
Proof. unfold loop_ok, depth_ok, io_level. cbn. intros (?&?&?) ?. unfold zlen in *. lia. Qed.

Lemma loop_ok_depth io s : 0 ≤ io_depth io → loop_ok io s → depth_ok io s.
Proof. unfold loop_ok, depth_ok, io_level. cbn. lia. Qed.

Lemma loop_ok_emits io d io' s s' :
  emits io d io' → loop_ok io s → (length s' ≤ length s)%nat → loop_ok io' s'.
Proof.
  unfold loop_ok, depth_ok, io_level. cbn.
  intros (_ & _ & _ & -> & -> & _) (?&?&?) ?. unfold zlen in *. lia.
Qed.

Lemma depth_ok_range io s : depth_ok io s → 0 ≤ io_depth io < SIZE_MAX.
Proof.
  unfold depth_ok, io_level. change (SIZE_MAX / 2) with 9223372036854775807.
  intros (?&?&?). pose proof (zlen_nonneg s). lia.
Qed.

Definition short (s : bytes) : Prop := zlen s < 2 ^ 62.

Lemma short_shorter s s' : short s → (length s' ≤ length s)%nat → short s'.
Proof. unfold short, zlen. lia. Qed.

Definition value_spec (n : nat) : Prop := ∀ io s,
  io_ready io s → short s → depth_ok io s → (2 * length s + 2 ≤ n)%nat →
  match ref_value n s with
  | Some (v, r) =>
      accepted (lonejson__json_parse_value sink n io) io (render (io_pretty io) (io_level io) v) r
  | None => rejected (lonejson__json_parse_value sink n io)
  end.

Definition array_spec (n : nat) : Prop := ∀ first io s,
  io_ready io s → short s → 0 ≤ io_depth io → loop_ok io s → (2 * length s + 3 ≤ n)%nat →
  match ref_elements n first s with
  | Some (vs, r) =>
      accepted (parse_array_loop sink n first io) io
        (render_elements (io_pretty io) (io_level io) first vs) r
  | None => rejected (parse_array_loop sink n first io)
  end.

Definition object_spec (n : nat) : Prop := ∀ first io s,
  io_ready io s → short s → 0 ≤ io_depth io → loop_ok io s → (2 * length s + 3 ≤ n)%nat →
  match ref_members n first s with
  | Some (ms, r) =>
      accepted (parse_object_loop sink n first io) io
        (render_members (io_pretty io) (io_level io) first ms) r
  | None => rejected (parse_object_loop sink n first io)
  end.

(** The separator in front of an element, and the line it starts. *)
Lemma separator_step first message k io c s :
  io_ready io (c :: s) →
  match (if first : bool then Some (c :: s) else if c =? ","%ch then Some s else None) with
  | Some s2 => ∃ io', separator sink first message k io = k io' ∧ io_ready io' s2
                      ∧ emits io (if first then [] else [","%ch]) io'
  | None => rejected (separator sink first message k io)
  end.
Proof.
  intros Hr. unfold separator. destruct first.
  { exists io. split_and!; [done|done|apply emits_refl]. }
  step_getc Hr io1 Hr1 He1 Hb. destruct (c =? 44) eqn:E; cbn [negb]; [|apply io_fail_rejected].
  step_emit Hr1 io2 Hr2 He2. exists io2. split_and!; [done|done|]. by eapply emits_nil_l.
Qed.

(** The closing bracket. *)
Lemma close_step first close io s :
  io_ready io s → depth_ok io s →
  accepted (pretty_indent sink (negb first) 0 (lonejson__json_emit sink [close]) io) io
    ((if first then [] else line_break (io_pretty io) (io_level io)) ++ [close]) s.
Proof.
  intros Hr Hd. destruct (pretty_indent_step (negb first) 0 (lonejson__json_emit sink [close]) io s)
    as (io1 & -> & Hr1 & He1); [done|lia|done|]. rewrite Z.add_0_r in He1.
  apply (accepted_emits io io1); [by destruct first|]. by apply emit_accepted.
Qed.

(** A value inside an array or object, and what follows it. *)
Lemma nested_value n k io s :
  value_spec n → io_ready io s → short s → 0 ≤ io_depth io → loop_ok io s →
  (2 * length s + 2 ≤ n)%nat →
  match ref_value n s with
  | Some (v, r) =>
      ∃ io', nested (lonejson__json_parse_value sink n) k io = k io' ∧ io_ready io' r
             ∧ emits io (render (io_pretty io) (io_level io + 1) v) io'
  | None => rejected (nested (lonejson__json_parse_value sink n) k io)
  end.
Proof.
  intros IH Hr Hs Hd0 Hd Hn. pose proof (depth_ok_range _ _ (loop_ok_depth _ _ Hd0 Hd)) as Hrange.
  specialize (IH (set_depth io (io_depth io + 1)) s Hr Hs Hd Hn).
  destruct (ref_value n s) as [[v r]|].
  - apply nested_step; [done|]. unfold io_level in *. cbn in IH. by rewrite Z.add_assoc in IH.
  - by apply nested_rejected.
Qed.


Lemma array_step n : value_spec n → array_spec n → array_spec (S n).
Proof.
  intros IHv IHa first io s Hr Hs Hd0 Hd Hn. cbn [ref_elements]. rewrite parse_array_loop_S.
  step_peek Hr io1 Hr1 He1. destruct (skip_ws s) as [|c s1] eqn:Ews; [apply io_fail_rejected|].
  pose proof (skip_ws_head_length _ _ _ Ews) as Hl.
  pose proof (io_rest_head _ _ _ (proj1 Hr1)) as Hc. unfold is_byte in Hc.
  replace (c =? -2) with false by lia. replace (c =? -1) with false by lia.
  pose proof (loop_ok_emits _ _ _ _ (c :: s1) He1 Hd ltac:(simpl; lia)) as Hd1.
  rewrite <- (io_depth_emits _ _ _ He1) in Hd0. carry He1.
  destruct (c =? 93) eqn:E.
  { step_close Hr1 io2 Hr2 He2. apply (accepted_emits io io2 _ []); [by eapply emits_nil_l|].
    carry He2. apply close_step; [done|]. apply loop_ok_depth; [by rewrite (io_depth_emits _ _ _ He2)|].
    apply (loop_ok_emits _ _ _ _ s1 He2 Hd1). simpl. lia. }
  lazymatch goal with |- context [separator sink first ?m ?k io1] =>
    pose proof (separator_step first m k io1 c s1 Hr1) as Hsep end.
  destruct (if first then _ else _) as [s2|] eqn:E2; [|done]. rewrite some_bind.
  destruct Hsep as (io2 & -> & Hr2 & He2).
  assert (length s2 ≤ length (c :: s1))%nat as Hl2.
  { destruct first; [by simplify_eq|]. case_if; simplify_eq. simpl. lia. }
  simpl in Hl2. pose proof (loop_ok_emits _ _ _ _ s2 He2 Hd1 Hl2) as Hd2.
  rewrite <- (io_depth_emits _ _ _ He2) in Hd0. carry He2.
  lazymatch goal with |- context [pretty_indent sink true 1 ?k io2] =>
    destruct (pretty_indent_step true 1 k io2 s2 Hr2 ltac:(lia) (loop_ok_depth _ _ Hd0 Hd2))
      as (io3 & -> & Hr3 & He3) end.
  pose proof (loop_ok_emits _ _ _ _ s2 He3 Hd2 ltac:(lia)) as Hd3.
  rewrite <- (io_depth_emits _ _ _ He3) in Hd0. 
  lazymatch goal with |- context [nested (lonejson__json_parse_value sink n) ?k io3] =>
    pose proof (nested_value n k io3 s2 IHv Hr3 (short_shorter s s2 Hs ltac:(lia)) Hd0 Hd3
      ltac:(lia)) as Hv end.
  destruct (ref_value n s2) as [[v s3]|] eqn:Ev; [|done]. rewrite some_bind.
  destruct Hv as (io4 & -> & Hr4 & He4). apply ref_value_shorter in Ev.
  pose proof (loop_ok_emits _ _ _ _ s3 He4 Hd3 ltac:(lia)) as Hd4.
  rewrite <- (io_depth_emits _ _ _ He4) in Hd0.
  specialize (IHa false io4 s3 Hr4 (short_shorter s s3 Hs ltac:(lia)) Hd0 Hd4 ltac:(lia)).
  destruct (ref_elements n false s3) as [[vs s4]|]; [|done]. rewrite some_bind.
  rewrite render_elements_cons.
  eapply (accepted_emits io io2); [by eapply emits_nil_l|].
  eapply (accepted_emits io2 io3); [exact He3|]. carry He3.
  eapply (accepted_emits io3 io4); [exact He4|]. by carry He4.
Qed.

(** A key, its colon, and the value that follows. *)
Lemma parse_key_step fuel k io s :
  io_ready io s → (length s < fuel)%nat →
  match skip_ws s with
  | [] => rejected (parse_key sink fuel k io)
  | q :: s3 =>
      if negb (q =? 34) then rejected (parse_key sink fuel k io)
      else match scan_string s3 with
      | None => rejected (parse_key sink fuel k io)
      | Some (key, s4) =>
          match skip_ws s4 with
          | [] => rejected (parse_key sink fuel k io)
          | d :: s5 =>
              if negb (d =? ":"%ch) then rejected (parse_key sink fuel k io)
              else ∃ io', parse_key sink fuel k io = k io' ∧ io_ready io' s5
                          ∧ emits io (quoted key ++ colon (io_pretty io)) io'
          end
      end
  end.
Proof.
  intros Hr Hf. unfold parse_key. step_peek Hr io1 Hr1 He1.
  destruct (skip_ws s) as [|q s3] eqn:Ews; [apply io_fail_rejected|].
  pose proof (skip_ws_head_length _ _ _ Ews) as Hl.
  pose proof (io_rest_head _ _ _ (proj1 Hr1)) as Hc. unfold is_byte in Hc.
  replace (q =? -2) with false by lia. replace (q =? -1) with false by lia.
  step_close Hr1 io2 Hr2 He2. destruct (negb (q =? 34)); [apply io_fail_rejected|].
  pose proof (parse_string_spec fuel io2 s3 Hr2 ltac:(lia)) as Hstr.
  destruct (scan_string s3) as [[key s4]|] eqn:Escan; [|by apply rejected_seq].
  apply scan_string_shorter in Escan.
  lazymatch goal with |- context [io_seq (lonejson__json_parse_string sink fuel) ?k io2] =>
    destruct (accepted_seq _ k io2 _ _ Hstr) as (io3 & H & Hr3 & He3) end.
  rewrite H. clear H Hstr. step_peek Hr3 io4 Hr4 He4.
  destruct (skip_ws s4) as [|d s5]; [apply io_fail_rejected|].
  destruct (negb (d =? 58)); [apply io_fail_rejected|].
  step_close Hr4 io5 Hr5 He5. step_emit Hr5 io6 Hr6 He6. exists io6. split_and!; [done|done|].
  assert (emits io2 (quoted key) io5) as He25.
  { rewrite <- (app_nil_r (quoted key)). eapply emits_trans; [done|]. by eapply emits_nil_l. }
  assert (emits io (quoted key) io5) as He05.
  { eapply emits_nil_l; [|done]. by eapply emits_nil_l. }
  eapply emits_trans; [done|]. unfold colon. by rewrite <- (io_pretty_emits _ _ _ He05).
Qed.

Lemma object_step n : value_spec n → object_spec n → object_spec (S n).
Proof.
  intros IHv IHo first io s Hr Hs Hd0 Hd Hn. cbn [ref_members]. rewrite parse_object_loop_S.
  step_peek Hr io1 Hr1 He1. destruct (skip_ws s) as [|c s1] eqn:Ews; [apply io_fail_rejected|].
  pose proof (skip_ws_head_length _ _ _ Ews) as Hl.
  pose proof (io_rest_head _ _ _ (proj1 Hr1)) as Hc. unfold is_byte in Hc.
  replace (c =? -2) with false by lia. replace (c =? -1) with false by lia.
  pose proof (loop_ok_emits _ _ _ _ (c :: s1) He1 Hd ltac:(simpl; lia)) as Hd1.
  rewrite <- (io_depth_emits _ _ _ He1) in Hd0. carry He1.
  destruct (c =? 125) eqn:E.
  { step_close Hr1 io2 Hr2 He2. apply (accepted_emits io io2 _ []); [by eapply emits_nil_l|].
    carry He2. apply close_step; [done|]. apply loop_ok_depth; [by rewrite (io_depth_emits _ _ _ He2)|].
    apply (loop_ok_emits _ _ _ _ s1 He2 Hd1). simpl. lia. }
  lazymatch goal with |- context [separator sink first ?m ?k io1] =>
    pose proof (separator_step first m k io1 c s1 Hr1) as Hsep end.
  destruct (if first then _ else _) as [s2|] eqn:E2; [|done]. rewrite some_bind.
  destruct Hsep as (io2 & -> & Hr2 & He2).
  assert (length s2 ≤ length (c :: s1))%nat as Hl2.
  { destruct first; [by simplify_eq|]. case_if; simplify_eq. simpl. lia. }
  simpl in Hl2. pose proof (loop_ok_emits _ _ _ _ s2 He2 Hd1 Hl2) as Hd2.
  rewrite <- (io_depth_emits _ _ _ He2) in Hd0. carry He2.
  lazymatch goal with |- context [pretty_indent sink true 1 ?k io2] =>
    destruct (pretty_indent_step true 1 k io2 s2 Hr2 ltac:(lia) (loop_ok_depth _ _ Hd0 Hd2))
      as (io3 & -> & Hr3 & He3) end.
  pose proof (loop_ok_emits _ _ _ _ s2 He3 Hd2 ltac:(lia)) as Hd3.
  rewrite <- (io_depth_emits _ _ _ He3) in Hd0.
  lazymatch goal with |- context [parse_key sink n ?k io3] =>
    pose proof (parse_key_step n k io3 s2 Hr3 ltac:(lia)) as Hkey end.
  destruct (skip_ws s2) as [|q s3] eqn:Ews2; [done|].
  apply skip_ws_head_length in Ews2. destruct (negb (q =? 34)); [done|].
  destruct (scan_string s3) as [[key s4]|] eqn:Escan; [|done]. rewrite some_bind.
  apply scan_string_shorter in Escan.
  destruct (skip_ws s4) as [|d s5] eqn:Ews4; [done|]. apply skip_ws_head_length in Ews4.
  destruct (negb (d =? 58)); [done|]. destruct Hkey as (io4 & -> & Hr4 & He4).
  pose proof (loop_ok_emits _ _ _ _ s5 He4 Hd3 ltac:(lia)) as Hd4.
  rewrite <- (io_depth_emits _ _ _ He4) in Hd0.
  lazymatch goal with |- context [nested (lonejson__json_parse_value sink n) ?k io4] =>
    pose proof (nested_value n k io4 s5 IHv Hr4 (short_shorter s s5 Hs ltac:(lia)) Hd0 Hd4
      ltac:(lia)) as Hv end.
  destruct (ref_value n s5) as [[v s6]|] eqn:Ev; [|done]. rewrite some_bind.
  destruct Hv as (io5 & -> & Hr5 & He5). apply ref_value_shorter in Ev.
  pose proof (loop_ok_emits _ _ _ _ s6 He5 Hd4 ltac:(lia)) as Hd5.
  rewrite <- (io_depth_emits _ _ _ He5) in Hd0.
  specialize (IHo false io5 s6 Hr5 (short_shorter s s6 Hs ltac:(lia)) Hd0 Hd5 ltac:(lia)).
  destruct (ref_members n false s6) as [[ms s7]|]; [|done]. rewrite some_bind.
  rewrite render_members_cons.
  eapply (accepted_emits io io2); [by eapply emits_nil_l|].
  eapply (accepted_emits io2 io3); [exact He3|]. carry He3. rewrite app_assoc.
  eapply (accepted_emits io3 io4); [exact He4|]. carry He4.
  eapply (accepted_emits io4 io5); [exact He5|]. by carry He5.
Qed.

Lemma parse_literal_accepted c rest v io io1 s1 :
  is_bytes rest → is_byte c → emits io [] io1 → io_ready io1 s1 →
  (∀ d p, render p d v = c :: rest) →
  match (r ← strip rest s1; Some (v, r)) with
  | Some (v, r) =>
      accepted (lonejson__json_parse_literal sink c rest io1) io
        (render (io_pretty io) (io_level io) v) r
  | None => rejected (lonejson__json_parse_literal sink c rest io1)
  end.
Proof.
  intros Hbytes Hc He1 Hr1 Hv. unfold lonejson__json_parse_literal. rewrite u8_byte by done.
  step_emit Hr1 io2 Hr2 He2. pose proof (parse_literal_rest_spec rest io2 s1 Hbytes Hr2) as H.
  destruct (strip rest s1) as [r|]; [|done]. rewrite some_bind, Hv.
  apply (accepted_emits io io2 _ [c]); [|done]. by eapply emits_nil_l.
Qed.

Lemma value_step n : array_spec n → object_spec n → value_spec (S n).
Proof.
  intros IHa IHo io s Hr Hs Hd Hn. cbn [ref_value]. rewrite parse_value_S.
  step_peek Hr io1 Hr1 He1. destruct (skip_ws s) as [|c s1] eqn:Ews; [apply io_fail_rejected|].
  pose proof (skip_ws_head_length _ _ _ Ews) as Hl.
  pose proof (io_rest_head _ _ _ (proj1 Hr1)) as Hc. pose proof Hc as Hc'. unfold is_byte in Hc'.
  replace (c =? -2) with false by lia. replace (c =? -1) with false by lia.
  pose proof (depth_ok_nested io s s1 Hd ltac:(lia)) as Hd1.
  assert (0 ≤ io_depth io) as Hd0 by apply Hd.
  step_close Hr1 io2 Hr2 He2. assert (emits io [] io2) as He by (by eapply emits_nil_l).
  clear Hr1 He1 He2 io1.
  assert (∀ b, is_byte b → ∃ io3, io_ready io3 s1 ∧ emits io [b] io3 ∧ 0 ≤ io_depth io3
    ∧ loop_ok io3 s1 ∧ ∀ k, (lonejson__json_emit sink [b];;; k) io2 = k io3) as Hopen.
  { intros b Hb. destruct (sink_emit_ok [b] io2) as (u & Hu & Heu).
    exists (set_user io2 u (io_error io2)).
    assert (emits io [b] (set_user io2 u (io_error io2))) as He3 by (by eapply emits_nil_l).
    split_and!; [done|done|by rewrite (io_depth_emits _ _ _ He3)| |].
    - by eapply loop_ok_emits.
    - intros k. unfold io_seq. by rewrite Hu. }
  destruct (c =? 34) eqn:E34.
  { pose proof (parse_string_spec n io2 s1 Hr2 ltac:(lia)) as H.
    destruct (scan_string s1) as [[l r]|]; [|done]. by apply (accepted_emits io io2 _ []). }
  destruct (c =? 123) eqn:E123.
  { destruct (Hopen 123) as (io3 & Hr3 & He3 & Hd3 & Hl3 & Hk); [done|].
    unfold lonejson__json_parse_object. rewrite Hk.
    specialize (IHo true io3 s1 Hr3 (short_shorter s s1 Hs ltac:(lia)) Hd3 Hl3 ltac:(lia)).
    destruct (ref_members n true s1) as [[ms r]|]; [|done]. rewrite some_bind, render_obj.
    apply (accepted_emits io io3 _ [123]); [done|]. by carry He3. }
  destruct (c =? 91) eqn:E91.
  { destruct (Hopen 91) as (io3 & Hr3 & He3 & Hd3 & Hl3 & Hk); [done|].
    unfold lonejson__json_parse_array. rewrite Hk.
    specialize (IHa true io3 s1 Hr3 (short_shorter s s1 Hs ltac:(lia)) Hd3 Hl3 ltac:(lia)).
    destruct (ref_elements n true s1) as [[vs r]|]; [|done]. rewrite some_bind, render_arr.
    apply (accepted_emits io io3 _ [91]); [done|]. by carry He3. }
  destruct (c =? 116) eqn:Et; [assert (c = 116) as -> by lia|].
  { apply (parse_literal_accepted _ _ (JBool true)); try done.
    apply (bool_decide_unpack _). vm_compute. exact I. }
  destruct (c =? 102) eqn:Ef; [assert (c = 102) as -> by lia|].
  { apply (parse_literal_accepted _ _ (JBool false)); try done.
    apply (bool_decide_unpack _). vm_compute. exact I. }
  destruct (c =? 110) eqn:En; [assert (c = 110) as -> by lia|].
  { apply (parse_literal_accepted _ _ JNull); try done.
    apply (bool_decide_unpack _). vm_compute. exact I. }
  change ((c =? 45) || lonejson__is_digit c) with (starts_number c).
  destruct (starts_number c) eqn:Est; [|apply io_fail_rejected].
  rewrite scan_number_cons by done.
  pose proof (parse_number_loop_spec n (mk_number_buffer [] 128 true) c io2 s1) as H.
  unfold number_spec in H. cbn [number app] in H. unfold lonejson__json_parse_number.
  assert (number_ok (mk_number_buffer [] 128 true) (1 + zlen s1)) as Hnb.
  { unfold number_ok, short, zlen in *. simpl. lia. }
  specialize (H Hnb Hr2 Hc ltac:(lia)).
  destruct (lonejson__is_valid_json_number _); [|done]. by apply (accepted_emits io io2 _ []).
Qed.

(** The walker agrees with the reference parser, on every input. *)
Lemma walker_spec n : value_spec n ∧ array_spec n ∧ object_spec n.
Proof.
  induction n as [|n (IHv & IHa & IHo)].
  - split_and!; [intros io s _ _ _ H|intros first io s _ _ _ _ H..]; lia.
  - split_and!; [by apply value_step|by apply array_step|by apply object_step].
Qed.

(** ** The entry point over a cursor *)

(** What a whole-document transcode gives, [u] being the sink before it. *)
Definition transcoded (r : run (lonejson_status * lonejson__json_io R U)) (u : U) (e : error_ptr)
    (pretty : bool) (base : Z) (s : bytes) : Prop :=
  match ref_document s with
  | Some v =>
      ∃ io', r = Done (LONEJSON_STATUS_OK, io') ∧ io_error io' = e
             ∧ sink_out sink (io_user io') = sink_out sink u ++ render pretty base v
  | None => rejected r
  end.

(** The input and the indentation fit the machine. *)
Definition transcodable (base : Z) (s : bytes) : Prop :=
  short s ∧ 0 ≤ base ∧ base + 1 + zlen s ≤ SIZE_MAX / 2.

Lemma transcode_io_ready cursor a u e pretty base s :
  cursor_rest cursor s → never_fails a → short s →
  io_ready (R := R) (U := U) (transcode_io cursor a u e pretty base) s.
Proof.
  intros Hc Ha Hs. split; [|done]. unfold io_rest, short in *. cbn.
  pose proof (zlen_nonneg s). split_and!; [done|lia|lia|by left|]. by exists s.
Qed.

Lemma transcode_cursor_document fuel cursor a u e pretty base s :
  cursor_rest cursor s → never_fails a → transcodable base s → (ref_fuel s ≤ fuel)%nat →
  transcoded (lonejson__json_transcode_cursor sink fuel (Some cursor) a u e pretty base)
    u e pretty base s.
Proof.
  intros Hc Ha (Hs & Hb & Hmax) Hf. unfold transcoded. rewrite <- (document_of_ref fuel s Hf).
  pose proof (transcode_io_ready cursor a u e pretty base s Hc Ha Hs) as Hr.
  destruct (walker_spec fuel) as [Hv _]. specialize (Hv _ s Hr Hs).
  unfold ref_fuel in Hf. unfold document_of. cbn [lonejson__json_transcode_cursor].
  destruct (ref_value fuel s) as [[v r]|] eqn:Ev.
  2:{ destruct Hv as (io1 & ->); [by split_and!; cbn; unfold io_level; cbn; lia|lia|].
      rewrite run_bind_done. by eexists. }
  destruct Hv as (io1 & -> & Hr1 & He1); [by split_and!; cbn; unfold io_level; cbn; lia|lia|].
  rewrite some_bind, run_bind_done. cbn [status_fails]. apply ref_value_shorter in Ev.
  destruct (peek_nonspace_rest fuel io1 r (proj1 Hr1)) as (io2 & -> & _ & Hsame); [lia|].
  rewrite run_bind_done. destruct (emits_same (out := sink_out sink) _ _ Hsame) as (Ho2 & He2 & _).
  destruct He1 as (Ho1 & He1 & _). unfold peeked. destruct (skip_ws r) as [|c r1] eqn:Ews.
  - exists io2. split; [done|]. split; [by rewrite He2, He1|].
    rewrite Ho2, Ho1, app_nil_r. unfold io_level. cbn. by rewrite Z.add_0_r.
  - assert (is_byte c) as Hcb.
    { destruct (peek_nonspace_rest (S (length r)) io1 r (proj1 Hr1)) as (io3 & _ & Hr3 & _); [lia|].
      rewrite Ews in Hr3. by apply io_rest_head in Hr3. }
    unfold is_byte in Hcb. replace (c =? -1) with false by lia. apply io_fail_rejected.
Qed.

End transcode_spec.

(** ** Handles *)

(** [s] is the text behind a handle of any kind but NULL: what a buffer holds, a
    reader or a path delivers, a stream or a descriptor holds from its start. *)
Definition handle_text {R} (fopen : bytes → c_file + Z) (v : lonejson_json_value R) (s : bytes) :
    Prop :=
  match jv_kind v with
  | LONEJSON_JSON_VALUE_NULL => False
  | LONEJSON_JSON_VALUE_BUFFER =>
      ∃ buffer, jv_json v = Some buffer ∧ s = take (Z.to_nat (jv_len v)) buffer
  | LONEJSON_JSON_VALUE_READER =>
      ∃ reader r (F : FaithfulReader reader),
        jv_reader v = Some (reader, r) ∧ reader_valid r ∧ reader_rest r = s
  | LONEJSON_JSON_VALUE_FILE =>
      ∃ f, jv_fp v = Some f ∧ f_seekable f = true ∧ f_fault f = None ∧ f_data f = s
  | LONEJSON_JSON_VALUE_FD =>
      ∃ f, jv_fd v = Some f ∧ f_seekable f = true ∧ f_sound f ∧ f_data f = s
  | LONEJSON_JSON_VALUE_PATH =>
      ∃ path f, jv_path v = Some path ∧ fopen path = inl f ∧ f_sound f ∧ f_rest f = s
  end.

(** Opening such a handle gives a cursor at the start of the text. *)
Lemma open_handle_text {R} fopen (v : lonejson_json_value R) s e n :
  handle_text fopen v s → is_bytes s → short s →
  ∃ c n', lonejson__json_cursor_open fopen (Some v) e n = Done (LONEJSON_STATUS_OK, c, e, n')
          ∧ cursor_rest c s ∧ lonejson__json_cursor_close c n' = n.
Proof.
  intros Ht Hb Hs. assert (0 ≤ 0 ∧ 0 + zlen s ≤ UINT64_MAX) as Hlen.
  { unfold short in Hs. split; [done|]. change UINT64_MAX with 18446744073709551615. lia. }
  unfold handle_text, lonejson__json_cursor_open, cursor_rest, device_rest in *.
  destruct (jv_kind v).
  - done.
  - destruct Ht as (buffer & -> & ->). eexists _, _. split; [done|]. cbn.
    unfold lonejson__json_cursor_close. cbn. by rewrite drop_0.
  - destruct Ht as (reader & r & F & -> & Hv & Hr). eexists _, _. split; [done|]. cbn.
    split_and!; [done|done|lia|lia|done|exists s; split_and!; [by exists F|done|lia|lia]|done].
  - destruct Ht as (f & -> & Hseek & Hfault & <-). unfold fseek_start. rewrite Hseek.
    cbn [negb]. eexists _, _. split; [done|]. cbn.
    split_and!; [done|done|lia|lia|done| |done]. exists (f_data f).
    split_and!; [|done|lia|lia]. eexists. split_and!; [done|by split_and!|done].
  - destruct Ht as (f & -> & Hseek & (Hf1 & Hf2 & _) & <-). unfold fseek_start. rewrite Hseek.
    cbn [negb]. eexists _, _. split; [done|]. cbn.
    split_and!; [done|done|lia|lia|done| |done]. exists (f_data f).
    split_and!; [|done|lia|lia]. eexists. split_and!; [done|by split_and!|done].
  - destruct Ht as (path & f & -> & -> & Hf & <-). eexists _, _. split; [done|]. cbn.
    split_and!; [done|done|lia|lia|done| |unfold lonejson__json_cursor_close; cbn; lia].
    exists (f_rest f). split_and!; [|done|lia|lia]. by exists f.
Qed.

Lemma ref_document_none s : (∀ v, ¬ json_document v s) → ref_document s = None.
Proof.
  intros H. destruct (ref_document s) as [v|] eqn:E; [|done]. apply ref_document_iff in E. by edestruct H.
Qed.

(** ** Properties *)

(** C2: the transcoder accepts exactly the JSON documents and re-renders them.
    Over any cursor - a buffer, a faithful reader delivering the text in chunks of
    any sizes, a stream or a descriptor - with memory, a sink without a limit and
    an input that fits the machine, the call returns; on a document of the value
    [v] with [OK], the error object untouched and exactly the (compact or indented)
    rendering of [v] written; on anything else with [INVALID_JSON]. *)
Theorem transcode_exact {R U} (sink : lonejson_sink_fn U) `{!LosslessSink sink}
    fuel (cursor : lonejson__json_cursor R) a u e pretty base s :
  cursor_rest cursor s → never_fails a → transcodable base s → (ref_fuel s ≤ fuel)%nat →
  let r := lonejson__json_transcode_cursor sink fuel (Some cursor) a u e pretty base in
  (∀ v, json_document v s →
     ∃ io, r = Done (LONEJSON_STATUS_OK, io) ∧ io_error io = e
           ∧ sink_out sink (io_user io) = sink_out sink u ++ render pretty base v)
  ∧ ((∀ v, ¬ json_document v s) → ∃ io, r = Done (LONEJSON_STATUS_INVALID_JSON, io)).
Proof.
  intros Hc Ha Ht Hf r.
  pose proof (transcode_cursor_document sink fuel cursor a u e pretty base s Hc Ha Ht Hf) as H.
  unfold transcoded in H. fold r in H. split.
  - intros v Hv. apply ref_document_iff in Hv. by rewrite Hv in H.
  - intros Hno. by rewrite (ref_document_none s Hno) in H.
Qed.

(** C13: transcoding again changes nothing but the layout.  Whatever layout a
    document was first written in, compact or indented from any depth, transcoding
    that output into a second layout gives exactly what transcoding the document
    into the second layout gives; in particular compact after indented gives the
    compact text back. *)
Theorem transcode_again {R} fuel a e (pretty pretty' : bool) base base' s t :
  is_bytes s → never_fails a → transcodable base s → transcodable base' s →
  transcodable base' t → (ref_fuel s ≤ fuel)%nat → (ref_fuel t ≤ fuel)%nat →
  let run_over x pretty base :=
    lonejson__json_transcode_cursor (R := R) collect_sink fuel (Some (cursor_over_buffer x)) a [] e
      pretty base in
  ∀ io, run_over s pretty base = Done (LONEJSON_STATUS_OK, io) → io_user io = t →
  ∃ io1 io2,
    run_over t pretty' base' = Done (LONEJSON_STATUS_OK, io1)
    ∧ run_over s pretty' base' = Done (LONEJSON_STATUS_OK, io2)
    ∧ io_user io1 = io_user io2.
Proof.
  intros Hs Ha H1 H2 H3 Hf Hft run_over io Hrun Hout.
  assert (∀ x p b, is_bytes x → transcodable b x → (ref_fuel x ≤ fuel)%nat →
    transcoded collect_sink (run_over x p b) [] e p b x) as Hall.
  { intros x p b Hx Hb Hfx. by apply transcode_cursor_document. }
  pose proof (Hall s pretty base Hs H1 Hf) as Hfirst.
  pose proof (Hall s pretty' base' Hs H2 Hf) as Hsecond. unfold transcoded in *.
  destruct (ref_document s) as [v|] eqn:Ev; [|destruct Hfirst as (? & Hfirst); congruence].
  destruct Hfirst as (io' & Hfirst & _ & Ho). rewrite Hrun in Hfirst. injection Hfirst as <-.
  cbn in Ho. assert (t = render pretty base v) as -> by congruence.
  apply ref_document_iff in Ev. pose proof (render_document pretty base v s Ev) as Hdoc.
  pose proof (render_bytes pretty base v s Ev Hs) as Hb.
  pose proof (Hall _ pretty' base' Hb H3 Hft) as Hthird. apply ref_document_iff in Hdoc.
  rewrite Hdoc in Hthird. destruct Hthird as (io1 & -> & _ & Ho1).
  destruct Hsecond as (io2 & -> & _ & Ho2). exists io1, io2. split_and!; [done..|].
  cbn in Ho1, Ho2. congruence.
Qed.

(** What transcoding a handle with the text [s] has to write: [null] for a NULL
    handle, the text itself for compact output of a buffer, which is copied and not
    parsed, and otherwise the rendering of the document [s], if it is one. *)
Definition handle_output {R} (v : lonejson_json_value R) (pretty : bool) (base : Z) (s : bytes) :
    option bytes :=
  match jv_kind v with
  | LONEJSON_JSON_VALUE_NULL => Some (c_str "null")
  | LONEJSON_JSON_VALUE_BUFFER => if pretty then render pretty base <$> ref_document s else Some s
  | _ => render pretty base <$> ref_document s
  end.

(** C16: transcoding a handle, of every kind.  A NULL handle is written as [null];
    compact output of a buffer handle is a copy of its bytes, which are not parsed;
    every other handle, and a buffer in indented output, is written as the compact
    or indented rendering of its text's value, and rejected with [INVALID_JSON] when
    its text is no document.  What is written is written with [OK] and the error
    object untouched. *)
Theorem transcode_handle_exact {R U} (sink : lonejson_sink_fn U) `{!LosslessSink sink}
    fopen fuel (v : lonejson_json_value R) u e pretty base n s :
  (jv_kind v ≠ LONEJSON_JSON_VALUE_NULL → handle_text fopen v s) → is_bytes s → transcodable base s →
  never_fails (jv_allocator v) → (ref_fuel s ≤ fuel)%nat →
  ∃ st u' e' n',
    lonejson__json_transcode sink fopen fuel (Some v) u e pretty base n = Done (st, u', e', n')
    ∧ match handle_output v pretty base s with
      | Some d => st = LONEJSON_STATUS_OK ∧ e' = e ∧ sink_out sink u' = sink_out sink u ++ d
      | None => st = LONEJSON_STATUS_INVALID_JSON
      end.
Proof.
  intros Ht Hb Htr Ha Hf. unfold lonejson__json_transcode, handle_output.
  destruct (decide (jv_kind v = LONEJSON_JSON_VALUE_NULL)) as [Hnull|Hnull].
  { rewrite Hnull. destruct (sink_lossless sink u (c_str "null") e) as (u' & -> & Ho).
    eexists _, _, _, _. by split_and!. }
  specialize (Ht Hnull).
  destruct (decide (pretty = false ∧ jv_kind v = LONEJSON_JSON_VALUE_BUFFER)) as [[-> Hk]|Hk].
  { rewrite Hk, bool_decide_true by done. cbn [negb andb].
    unfold handle_text in Ht. rewrite Hk in Ht. destruct Ht as (buffer & Hj & ->). rewrite Hj.
    destruct (sink_lossless sink u (take (Z.to_nat (jv_len v)) buffer) e) as (u' & Hs & Ho).
    cbn. rewrite Hs. eexists _, _, _, _. by split_and!. }
  assert (negb pretty && bool_decide (jv_kind v = LONEJSON_JSON_VALUE_BUFFER) = false) as ->.
  { apply andb_false_iff. destruct pretty; [by left|right]. apply bool_decide_eq_false_2. naive_solver. }
  destruct (open_handle_text fopen v s e n Ht Hb (proj1 Htr)) as (c & n' & -> & Hc & _).
  rewrite run_bind_done, decide_False by auto.
  pose proof (transcode_cursor_document sink fuel c (jv_allocator v) u e pretty base s Hc Ha Htr Hf)
    as H. unfold transcoded in H.
  assert (match jv_kind v with
          | LONEJSON_JSON_VALUE_NULL => Some (c_str "null")
          | LONEJSON_JSON_VALUE_BUFFER => if pretty then render pretty base <$> ref_document s else Some s
          | _ => render pretty base <$> ref_document s
          end = render pretty base <$> ref_document s) as ->.
  { destruct (jv_kind v); try done. destruct pretty; [done|]. exfalso. by apply Hk. }
  destruct (ref_document s) as [d|].
  - destruct H as (io & -> & He & Ho). rewrite run_bind_done. eexists _, _, _, _. by split_and!.
  - destruct H as (io & ->). rewrite run_bind_done. eexists _, _, _, _. by split_and!.
Qed.

(** A document, its value, and an indented form of it. *)
Definition demo_text : bytes := c_str " [1, [true,null ] ,-2e3]".
Definition demo_value : json :=
  JArr [JNum (c_str "1"); JArr [JBool true; JNull]; JNum (c_str "-2e3")].
Definition demo_indented : bytes := render true 0 demo_value.

Lemma demo_document : json_document demo_value demo_text.
Proof. apply ref_document_iff. vm_compute. reflexivity. Qed.

Lemma transcode_exact_witness :
  ∃ io, lonejson__json_transcode_cursor (R := lonejson_buffer_reader) collect_sink 100
          (Some (cursor_over_reader (buffer_reader_fn,
             lonejson_buffer_reader_init (Some demo_text) (zlen demo_text))))
          fresh_allocator [] None false 0 = Done (LONEJSON_STATUS_OK, io)
        ∧ io_error io = None
        ∧ sink_out collect_sink (io_user io)
          = sink_out collect_sink [] ++ render false 0 demo_value.
Proof.
  refine (proj1 (transcode_exact (R := lonejson_buffer_reader) collect_sink 100
    (cursor_over_reader (buffer_reader_fn, lonejson_buffer_reader_init (Some demo_text) (zlen demo_text)))
    fresh_allocator [] None false 0 demo_text _ fresh_never_fails _ _) demo_value demo_document).
  - split; [apply (bool_decide_unpack _); vm_compute; exact I|].
    split; [reflexivity|]. split; [split; discriminate|]. split; [reflexivity|].
    exists demo_text. split; [|split; [reflexivity|split; discriminate]].
    exists buffer_reader_faithful. split; [|reflexivity].
    exists demo_text. split; [reflexivity|]. split; [reflexivity|]. split; discriminate.
  - split; [reflexivity|]. split; discriminate.
  - vm_compute. lia.
Defined.

Lemma transcode_again_witness :
  ∃ io1 io2,
    lonejson__json_transcode_cursor (R := unit) collect_sink 200
      (Some (cursor_over_buffer demo_indented)) fresh_allocator [] None false 0
      = Done (LONEJSON_STATUS_OK, io1)
    ∧ lonejson__json_transcode_cursor (R := unit) collect_sink 200
        (Some (cursor_over_buffer demo_text)) fresh_allocator [] None false 0
      = Done (LONEJSON_STATUS_OK, io2)
    ∧ io_user io1 = io_user io2.
Proof.
  eapply (transcode_again (R := unit) 200 fresh_allocator None true false 0 0 demo_text demo_indented).
  - apply (bool_decide_unpack _). vm_compute. exact I.
  - exact fresh_never_fails.
  - split; [reflexivity|]. split; discriminate.
  - split; [reflexivity|]. split; discriminate.
  - split; [reflexivity|]. split; discriminate.
  - vm_compute. lia.
  - vm_compute. lia.
  - vm_compute. reflexivity.
  - vm_compute. reflexivity.
Defined.

Definition demo_handle : lonejson_json_value unit :=
  mk_json_value LONEJSON_JSON_VALUE_PATH None 0 0 None None None (Some (c_str "x")) fresh_allocator.
Definition demo_files (path : bytes) : c_file + Z := inl (mk_file demo_text 0 true None false (λ _, 7)).

Lemma transcode_handle_exact_witness :
  ∃ st u' e' n',
    lonejson__json_transcode collect_sink demo_files 200 (Some demo_handle) [] None true 1 0
      = Done (st, u', e', n')
    ∧ match handle_output demo_handle true 1 demo_text with
      | Some d => st = LONEJSON_STATUS_OK ∧ e' = None
                  ∧ sink_out collect_sink u' = sink_out collect_sink [] ++ d
      | None => st = LONEJSON_STATUS_INVALID_JSON
      end.
Proof.
  refine (transcode_handle_exact collect_sink demo_files 200 demo_handle [] None true 1 0 demo_text
    _ _ _ _ _).
  - intros _. eexists _, _. split; [reflexivity|]. split; [reflexivity|]. split; [|reflexivity].
    split; [reflexivity|]. split; [reflexivity|discriminate].
  - apply (bool_decide_unpack _). vm_compute. exact I.
  - split; [reflexivity|]. split; discriminate.
  - exact fresh_never_fails.
  - vm_compute. lia.
Defined.
