(* ===== verification/Visit.v ===== *)
(** * Visit: walking one JSON value with a visitor

    Models the visitor half of [src/impl/13_json_value_visit.h] that runs without
    a path visitor: the callbacks, [lonejson__json_visit_string_value_no_path]
    with its 256-byte chunk buffer, numbers, literals, arrays and objects, and
    [lonejson__json_visit_cursor] and [lonejson__json_visit]; and the entry points
    of [src/impl/30_api.h] over a buffer, a C string, a reader and a descriptor.
    The [io] of the walker is the one of [JsonCursor]; [io_user] is the visitor's
    [user].  The theorems are in [VisitSpec]. *)

From stdpp Require Import base numbers list strings.
From Stdlib Require Import ZArith Lia Bool.
From S2P Require Import Prelude Runtime Source Unicode Number JsonCursor.

(** ** Visitors

    A callback is caller code; a NULL one is [None].  [lonejson_value_event_fn]
    is [callback] of [Runtime], [lonejson_value_chunk_fn] has the type of a sink. *)

Definition lonejson_value_bool_fn (U : Type) : Type :=
  U → bool → error_ptr → lonejson_status * U * error_ptr.

Record lonejson_value_visitor (U : Type) := mk_visitor {
  object_begin : option (callback U);
  object_end : option (callback U);
  object_key_begin : option (callback U);
  object_key_chunk : option (lonejson_sink_fn U);
  object_key_end : option (callback U);
  array_begin : option (callback U);
  array_end : option (callback U);
  string_begin : option (callback U);
  string_chunk : option (lonejson_sink_fn U);
  string_end : option (callback U);
  number_begin : option (callback U);
  number_chunk : option (lonejson_sink_fn U);
  number_end : option (callback U);
  boolean_value : option (lonejson_value_bool_fn U);
  null_value : option (callback U)
}.
Arguments mk_visitor {U} _ _ _ _ _ _ _ _ _ _ _ _ _ _ _.
Arguments object_begin {U} _.
Arguments object_end {U} _.
Arguments object_key_begin {U} _.
Arguments object_key_chunk {U} _.
Arguments object_key_end {U} _.
Arguments array_begin {U} _.
Arguments array_end {U} _.
Arguments string_begin {U} _.
Arguments string_chunk {U} _.
Arguments string_end {U} _.
Arguments number_begin {U} _.
Arguments number_chunk {U} _.
Arguments number_end {U} _.
Arguments boolean_value {U} _.
Arguments null_value {U} _.

Section visit.
Context {R U : Type} (visitor : lonejson_value_visitor U).
Implicit Types io : lonejson__json_io R U.

#[local] Abbreviation step := (io_fn R U lonejson_status).
#[local] Abbreviation getc := (lonejson__json_cursor_getc (R := R) (U := U)).
#[local] Abbreviation invalid := (io_fail (R := R) (U := U) LONEJSON_STATUS_INVALID_JSON).
#[local] Abbreviation overflow := (io_fail (R := R) (U := U) LONEJSON_STATUS_OVERFLOW).

(** ** Calling back *)

Definition lonejson__json_visit_event (fn : option (callback U)) : step := λ io,
  match fn with
  | None => Done (LONEJSON_STATUS_OK, io)
  | Some fn =>
      let '(st, u, e) := fn (io_user io) (io_error io) in Done (st, set_user io u e)
  end.

Definition lonejson__json_visit_chunk (fn : option (lonejson_sink_fn U)) (data : bytes) : step :=
  λ io,
  match fn with
  | Some fn =>
      if zlen data =? 0 then Done (LONEJSON_STATUS_OK, io)
      else let '(st, u, e) := fn (io_user io) data (io_error io) in Done (st, set_user io u e)
  | None => Done (LONEJSON_STATUS_OK, io)
  end.

Definition lonejson__json_visit_bool (value : bool) : step := λ io,
  match boolean_value visitor with
  | None => Done (LONEJSON_STATUS_OK, io)
  | Some fn =>
      let '(st, u, e) := fn (io_user io) value (io_error io) in Done (st, set_user io u e)
  end.

(** ** Strings

    [plain] is the content of the 256-byte array, [plain_len] its length;
    [decoded_bytes] counts towards the limit. *)
Record string_buffer := mk_string_buffer { plain : bytes; decoded_bytes : Z }.

Definition plain_capacity : Z := 256.

Definition key_or_string_message (is_key : bool) : string :=
  if is_key then "JSON object key exceeds maximum decoded byte limit"
  else "JSON string exceeds maximum decoded byte limit".

(** [limit != 0u && decoded_bytes > limit] *)
Definition over_limit (limit decoded : Z) : bool := negb (limit =? 0) && (limit <? decoded).

(** [while (offset < len)]: copy through the array, flushing it when full. *)
Fixpoint plain_copy (fuel : nat) (fn : option (lonejson_sink_fn U)) (buf data : bytes) :
    io_fn R U (lonejson_status * bytes) := λ io,
  match data with
  | [] => Done ((LONEJSON_STATUS_OK, buf), io)
  | _ :: _ =>
      match fuel with
      | O => Out_of_fuel
      | S fuel =>
          let take_len := Z.min (Z.min (zlen data) 256) (plain_capacity - zlen buf) in
          let buf := buf ++ take (Z.to_nat take_len) data in
          let data := drop (Z.to_nat take_len) data in
          if zlen buf =? plain_capacity then
            '(status, io) ← lonejson__json_visit_chunk fn buf io;
            if status_fails status then Done ((status, buf), io)
            else plain_copy fuel fn [] data io
          else plain_copy fuel fn buf data io
      end
  end.

Definition lonejson__json_visit_plain_chunk_no_path (is_key : bool)
    (fn : option (lonejson_sink_fn U)) (limit : Z) (data : bytes) (sb : string_buffer) :
    io_fn R U (lonejson_status * string_buffer) := λ io,
  let len := zlen data in
  if len =? 0 then Done ((LONEJSON_STATUS_OK, sb), io)
  else if negb (max_total_bytes (io_limits io) =? 0)
          && (max_total_bytes (io_limits io) <? u64 (io_total_bytes io + len)) then
    '(status, io) ← overflow "JSON value exceeds maximum total byte limit" io;
    Done ((status, sb), io)
  else
    let io := set_total io (u64 (io_total_bytes io + len)) in
    let sb := mk_string_buffer (plain sb) (u64 (decoded_bytes sb + len)) in
    if over_limit limit (decoded_bytes sb) then
      '(status, io) ← overflow (key_or_string_message is_key) io; Done ((status, sb), io)
    else
      match fn with
      | None => Done ((LONEJSON_STATUS_OK, sb), io)
      | Some f =>
          if zlen (plain sb) =? 0 then
            let '(st, u, e) := f (io_user io) data (io_error io) in
            Done ((st, sb), set_user io u e)
          else
            '(r, io) ← plain_copy (length data) fn (plain sb) data io;
            let '(status, buf) := r in
            Done ((status, mk_string_buffer buf (decoded_bytes sb)), io)
      end.

(** [while (span != NULL && available != 0u)]: the buffered bytes that need no
    decoding. *)
Fixpoint visit_spans (fuel : nat) (is_key : bool) (fn : option (lonejson_sink_fn U)) (limit : Z)
    (sb : string_buffer) : io_fn R U (lonejson_status * string_buffer) := λ io,
  match fuel with
  | O => Out_of_fuel
  | S fuel =>
      match lonejson__json_cursor_plain_span io with
      | None => Done ((LONEJSON_STATUS_OK, sb), io)
      | Some (available, uses_read_buffer) =>
          let span := take_while span_byte available in
          if negb (zlen span =? 0) then
            '(r, io) ← lonejson__json_visit_plain_chunk_no_path is_key fn limit span sb io;
            let '(status, sb) := r in
            if status_fails status then Done ((status, sb), io)
            else
              let io := span_advance uses_read_buffer (zlen span) io in
              if zlen span =? zlen available then visit_spans fuel is_key fn limit sb io
              else Done ((LONEJSON_STATUS_OK, sb), io)
          else Done ((LONEJSON_STATUS_OK, sb), io)
      end
  end.

(** The two loops that read four hexadecimal digits. *)
Fixpoint visit_hex_digits (n : nat) (message : string) (cp : Z) (k : Z → step) : step :=
  match n with
  | O => k cp
  | S n =>
      let* hx := getc in
      if hx =? -2 then io_reader_status
      else if hx =? EOF then invalid message
      else
        let hv := lonejson__hex_value hx in
        if hv <? 0 then invalid message
        else visit_hex_digits n message (push_hex cp hv) k
  end.

(** [if (getc != '\\' || getc != 'u') return error;] *)
Definition visit_low_escape (k : step) : step :=
  let* c1 := getc in
  if negb (c1 =? 92) then invalid "invalid unicode surrogate pair"
  else
    let* c2 := getc in
    if negb (c2 =? "u"%ch) then invalid "invalid unicode surrogate pair" else k.

(** The code point of a [\u] escape, surrogate pairs included. *)
Definition visit_code_point (k : Z → step) : step :=
  visit_hex_digits 4 "invalid unicode escape" 0 (λ cp,
    if is_high_surrogate cp then
      visit_low_escape
        (visit_hex_digits 4 "invalid unicode surrogate pair" 0 (λ low,
          if negb (is_low_surrogate low) then invalid "invalid unicode surrogate pair"
          else k (combine_surrogates cp low)))
    else if is_low_surrogate cp then invalid "unexpected low surrogate"
    else k cp).

(** Count and deliver what an escape stands for. *)
Definition visit_decoded (fn : option (lonejson_sink_fn U)) (limit : Z) (out : bytes)
    (sb : string_buffer) (k : string_buffer → step) : step :=
  let decoded := u64 (decoded_bytes sb + zlen out) in
  if over_limit limit decoded then overflow "decoded JSON text exceeds limit"
  else lonejson__json_visit_chunk fn out;;; k (mk_string_buffer (plain sb) decoded).

Definition escape_value (ch : Z) : Z :=
  if ch =? "b"%ch then 8 else if ch =? "f"%ch then 12 else if ch =? "n"%ch then 10
  else if ch =? "r"%ch then 13 else 9.

(** After a backslash, [plain] having been flushed. *)
Definition visit_escape (fn : option (lonejson_sink_fn U)) (limit : Z) (sb : string_buffer)
    (k : string_buffer → step) : step :=
  let* ch := getc in
  if ch =? -2 then io_reader_status
  else if ch =? EOF then invalid "unterminated escape sequence"
  else if (ch =? 34) || (ch =? 92) || (ch =? "/"%ch) then visit_decoded fn limit [u8 ch] sb k
  else if (ch =? "b"%ch) || (ch =? "f"%ch) || (ch =? "n"%ch) || (ch =? "r"%ch) || (ch =? "t"%ch)
  then visit_decoded fn limit [escape_value ch] sb k
  else if ch =? "u"%ch then
    visit_code_point (λ cp,
      match lonejson__utf8_append (mk_scratch [] 6) cp with
      | None => io_fail LONEJSON_STATUS_INTERNAL_ERROR "failed to encode unicode escape"
      | Some scratch => visit_decoded fn limit (scratch_data scratch) sb k
      end)
  else invalid "invalid string escape".

(** One byte of the string; [k] is the next iteration. *)
Definition visit_string_char (is_key : bool) (fn : option (lonejson_sink_fn U))
    (end_fn : option (callback U)) (limit : Z) (sb : string_buffer)
    (k : string_buffer → step) : step :=
  let* ch := getc in
  if ch =? -2 then io_reader_status
  else if ch =? EOF then invalid "unterminated JSON string"
  else if ch =? 34 then
    lonejson__json_visit_chunk fn (plain sb);;; lonejson__json_visit_event end_fn
  else if ch <? 32 then invalid "control character in string"
  else if negb (ch =? 92) then
    let buf := plain sb ++ [u8 ch] in
    let decoded := u64 (decoded_bytes sb + 1) in
    if over_limit limit decoded then overflow (key_or_string_message is_key)
    else if zlen buf =? plain_capacity then
      lonejson__json_visit_chunk fn buf;;; k (mk_string_buffer [] decoded)
    else k (mk_string_buffer buf decoded)
  else
    lonejson__json_visit_chunk fn (plain sb);;;
    visit_escape fn limit (mk_string_buffer [] (decoded_bytes sb)) k.

Fixpoint visit_string_loop (fuel : nat) (is_key : bool) (fn : option (lonejson_sink_fn U))
    (end_fn : option (callback U)) (limit : Z) (sb : string_buffer) : step := λ io,
  match fuel with
  | O => Out_of_fuel
  | S fuel =>
      '(r, io) ← visit_spans fuel is_key fn limit sb io;
      let '(status, sb) := r in
      if status_fails status then Done (status, io)
      else
        visit_string_char is_key fn end_fn limit sb
          (visit_string_loop fuel is_key fn end_fn limit) io
  end.

Definition lonejson__json_visit_string_value_no_path (fuel : nat) (is_key : bool) : step := λ io,
  let limit :=
    if is_key then max_key_bytes (io_limits io) else max_string_bytes (io_limits io) in
  let begin_fn := if is_key then object_key_begin visitor else string_begin visitor in
  let chunk_fn := if is_key then object_key_chunk visitor else string_chunk visitor in
  let end_fn := if is_key then object_key_end visitor else string_end visitor in
  (lonejson__json_visit_event begin_fn;;;
   visit_string_loop fuel is_key chunk_fn end_fn limit (mk_string_buffer [] 0)) io.

(** ** Numbers

    The token goes to an array of 256 bytes, or to an owned block when
    [max_number_bytes + 1] is more. *)
Record visit_number_buffer := mk_visit_number { vn_bytes : bytes; vn_capacity : Z }.

Definition vn_on_stack (nb : visit_number_buffer) : bool := vn_capacity nb <=? 256.

(** The bytes that may be written. *)
Definition vn_size (nb : visit_number_buffer) : Z :=
  if vn_on_stack nb then 256 else owned_usable (vn_capacity nb).

Definition free_visit_number (nb : visit_number_buffer) io : lonejson__json_io R U :=
  set_allocator io (lonejson__owned_free (io_allocator io) (vn_on_stack nb) (vn_capacity nb)).

(** [if (buffer != stack_buf) free; return status;] after [m]. *)
Definition freeing (nb : visit_number_buffer) (m : step) : step := λ io,
  '(status, io) ← m io; Done (status, free_visit_number nb io).

(** [buffer[len++] = (char)ch] *)
Definition vn_push (nb : visit_number_buffer) (ch : Z) (k : visit_number_buffer → step) : step :=
  if zlen (vn_bytes nb) <? vn_size nb
  then k (mk_visit_number (vn_bytes nb ++ [u8 ch]) (vn_capacity nb))
  else λ _, Undefined.

Definition visit_number_char (ch : Z) : bool :=
  lonejson__is_digit ch || (ch =? "+"%ch) || (ch =? "-"%ch) || (ch =? "."%ch) || (ch =? "e"%ch)
  || (ch =? "E"%ch).

Definition number_too_long : step := overflow "JSON number exceeds maximum byte limit".

(** After the token; [ch] ended it. *)
Definition visit_number_end (nb : visit_number_buffer) (ch : Z) : step := λ io,
  let io := if 0 <=? ch then lonejson__json_cursor_ungetc ch io else io in
  if ch =? -2 then freeing nb io_reader_status io
  else if negb (lonejson__is_valid_json_number (vn_bytes nb)) then
    freeing nb (invalid "invalid JSON number") io
  else
    freeing nb (lonejson__json_visit_chunk (number_chunk visitor) (vn_bytes nb);;;
                lonejson__json_visit_event (number_end visitor)) io.

(** [while (ch >= 0 && (...))] *)
Fixpoint visit_number_loop (fuel : nat) (nb : visit_number_buffer) (ch : Z) : step := λ io,
  match fuel with
  | O => Out_of_fuel
  | S fuel =>
      if (0 <=? ch) && visit_number_char ch then
        '(status, io) ← lonejson__json_enforce_total_limit io;
        if decide (status ≠ LONEJSON_STATUS_OK) then Done (status, free_visit_number nb io)
        else if max_number_bytes (io_limits io) <=? zlen (vn_bytes nb) then
          freeing nb number_too_long io
        else
          vn_push nb ch (λ nb io,
            '(ch, io) ← lonejson__json_cursor_getc_lookahead io;
            visit_number_loop fuel nb ch io) io
      else visit_number_end nb ch io
  end.

Definition lonejson__json_visit_number_no_path (fuel : nat) (first : Z) : step := λ io,
  let nb := mk_visit_number [] (u64 (max_number_bytes (io_limits io) + 1)) in
  let '(ok, a) := if vn_on_stack nb then (true, io_allocator io)
                  else lonejson__owned_malloc (io_allocator io) (vn_capacity nb) in
  let io := set_allocator io a in
  if negb ok then io_fail LONEJSON_STATUS_ALLOCATION_FAILED "failed to allocate JSON number buffer" io
  else
    '(status, io) ← lonejson__json_visit_event (number_begin visitor) io;
    if status_fails status then Done (status, free_visit_number nb io)
    else if max_number_bytes (io_limits io) <=? 0 then freeing nb number_too_long io
    else
      vn_push nb first (λ nb io,
        '(ch, io) ← lonejson__json_cursor_getc_lookahead io;
        visit_number_loop fuel nb ch io) io.

(** ** Literals *)

Fixpoint visit_literal_rest (rest : bytes) (k : step) : step :=
  match rest with
  | [] => k
  | r :: rest =>
      let* ch := getc in
      if ch =? -2 then io_reader_status
      else if negb (ch =? r) then invalid "invalid JSON literal"
      else visit_literal_rest rest k
  end.

(** [is_bool] is [kind == 1]. *)
Definition lonejson__json_visit_literal_no_path (first : Z) (rest : bytes) (is_bool : bool) : step :=
  visit_literal_rest rest
    (if is_bool then lonejson__json_visit_bool (first =? "t"%ch)
     else lonejson__json_visit_event (null_value visitor)).

(** ** Arrays, objects, values *)

(** [++io->depth; status = value(io); --io->depth; if (failed) return status; k] *)
Definition visit_nested (value k : step) : step := λ io,
  '(st, io) ← value (set_depth io (u64 (io_depth io + 1)));
  let io := set_depth io (u64 (io_depth io - 1)) in
  if status_fails st then Done (st, io) else k io.

(** [if (!first) { ch = getc; if (ch != ',') return error; } k] *)
Definition visit_separator (first : bool) (message : string) (k : step) : step :=
  if first then k
  else
    let* ch := getc in
    if negb (ch =? ","%ch) then invalid message else k.

(** [if (io->depth >= io->limits.max_depth) return error;] *)
Definition depth_check (k : step) : step := λ io,
  if max_depth (io_limits io) <=? io_depth io
  then overflow "JSON value nesting exceeds maximum depth" io
  else k io.

(** The key of a member and its colon. *)
Definition visit_key (fuel : nat) (k : step) : step :=
  let* ch := lonejson__json_peek_nonspace fuel in
  if negb (ch =? 34) then invalid "expected object key"
  else
    let* _ := getc in
    lonejson__json_visit_string_value_no_path fuel true;;;
    let* ch := lonejson__json_peek_nonspace fuel in
    if negb (ch =? ":"%ch) then invalid "expected ':' after object key"
    else let* _ := getc in k.

Fixpoint lonejson__json_visit_value_no_path (fuel : nat) : step :=
  match fuel with
  | O => λ _, Out_of_fuel
  | S fuel =>
      let* ch := lonejson__json_peek_nonspace fuel in
      if ch =? -2 then io_reader_status
      else if ch =? EOF then invalid "expected JSON value"
      else
        let* ch := getc in
        if ch =? 34 then lonejson__json_visit_string_value_no_path fuel false
        else if ch =? "{"%ch then
          depth_check (lonejson__json_visit_event (object_begin visitor);;;
                       visit_object_loop fuel true)
        else if ch =? "["%ch then
          depth_check (lonejson__json_visit_event (array_begin visitor);;;
                       visit_array_loop fuel true)
        else if ch =? "t"%ch then lonejson__json_visit_literal_no_path ch (c_str "rue") true
        else if ch =? "f"%ch then lonejson__json_visit_literal_no_path ch (c_str "alse") true
        else if ch =? "n"%ch then lonejson__json_visit_literal_no_path ch (c_str "ull") false
        else if (ch =? "-"%ch) || lonejson__is_digit ch then
          lonejson__json_visit_number_no_path fuel ch
        else invalid "expected JSON value"
  end

(** [for (;;)] of [lonejson__json_visit_array_no_path]. *)
with visit_array_loop (fuel : nat) (first : bool) : step :=
  match fuel with
  | O => λ _, Out_of_fuel
  | S fuel =>
      let* ch := lonejson__json_peek_nonspace fuel in
      if ch =? -2 then io_reader_status
      else if ch =? EOF then invalid "unterminated JSON array"
      else if ch =? "]"%ch then
        let* _ := getc in lonejson__json_visit_event (array_end visitor)
      else
        visit_separator first "expected ',' in array"
          (visit_nested (lonejson__json_visit_value_no_path fuel) (visit_array_loop fuel false))
  end

(** [for (;;)] of [lonejson__json_visit_object_no_path]. *)
with visit_object_loop (fuel : nat) (first : bool) : step :=
  match fuel with
  | O => λ _, Out_of_fuel
  | S fuel =>
      let* ch := lonejson__json_peek_nonspace fuel in
      if ch =? -2 then io_reader_status
      else if ch =? EOF then invalid "unterminated JSON object"
      else if ch =? "}"%ch then
        let* _ := getc in lonejson__json_visit_event (object_end visitor)
      else
        visit_separator first "expected ',' in object"
          (visit_key fuel
            (visit_nested (lonejson__json_visit_value_no_path fuel) (visit_object_loop fuel false)))
  end.

Definition lonejson__json_visit_array_no_path (fuel : nat) : step :=
  depth_check (lonejson__json_visit_event (array_begin visitor);;; visit_array_loop fuel true).
Definition lonejson__json_visit_object_no_path (fuel : nat) : step :=
  depth_check (lonejson__json_visit_event (object_begin visitor);;; visit_object_loop fuel true).
End visit.

(** ** Entry points *)

(** The limits used: the defaults for a NULL pointer and for fields left 0
    ([max_total_bytes] excepted, where 0 is no limit). *)
Definition visit_limits (limits : option lonejson__value_limits) : lonejson__value_limits :=
  match limits with
  | Some l =>
      if negb (max_depth l =? 0) && negb (max_string_bytes l =? 0)
         && negb (max_number_bytes l =? 0) && negb (max_key_bytes l =? 0) then l
      else
        let defaults := lonejson__default_value_limits in
        mk_limits
          (if max_depth l =? 0 then max_depth defaults else max_depth l)
          (if max_string_bytes l =? 0 then max_string_bytes defaults else max_string_bytes l)
          (if max_number_bytes l =? 0 then max_number_bytes defaults else max_number_bytes l)
          (if max_key_bytes l =? 0 then max_key_bytes defaults else max_key_bytes l)
          (max_total_bytes l)
  | None => lonejson__default_value_limits
  end.

(** [cursor->has_pushback], [count_pushback], [pushback], [pushback_offset] *)
Definition cursor_pushback {R} (c : lonejson__json_cursor R) (has count : bool) (ch off : Z) :
    lonejson__json_cursor R :=
  mk_cursor (cur_fd c) (cur_buffer c) (cur_buffer_off c) (cur_read_buffer c)
    (cur_read_buffer_capacity c) (cur_read_buffer_len c) (cur_read_buffer_off c)
    (cur_stream_offset c) off count has ch (cur_reader c) (cur_fp c) (cur_close_fp c) (cur_use_fd c).

Section entry.
Context {R U : Type}.
Implicit Types cursor : lonejson__json_cursor R.

(** The state after [memset(&io, 0, sizeof(io))] and the assignments, the byte
    an earlier visit put back included. *)
Definition visit_io cursor (allocator : lonejson_allocator) (limits : option lonejson__value_limits)
    (user : U) (error : error_ptr) : lonejson__json_io R U :=
  let io := mk_io cursor user error false 0 0 0 (visit_limits limits) allocator false false false 0 in
  if cur_has_pushback cursor then
    set_pushback
      (set_cursor io (cursor_pushback cursor false false (cur_pushback cursor)
                        (cur_pushback_offset cursor)))
      true (cur_count_pushback cursor) false (cur_pushback cursor)
  else io.

(** [if (io.has_pushback) { cursor->has_pushback = 1; ... }] *)
Definition keep_pushback (io : lonejson__json_io R U) : lonejson__json_io R U :=
  if io_has_pushback io then
    let cursor := io_cursor io in
    set_cursor io (cursor_pushback cursor true (io_pushback_counted io) (io_pushback io)
                     (lonejson__json_cursor_last_offset (Some cursor)))
  else io.

(** With [path_visitor == NULL]. *)
Definition lonejson__json_visit_cursor (fuel : nat) (cursor : option (lonejson__json_cursor R))
    (allocator : lonejson_allocator) (visitor : option (lonejson_value_visitor U)) (user : U)
    (limits : option lonejson__value_limits) (error : error_ptr) :
    run (lonejson_status * lonejson__json_io R U) :=
  match cursor, visitor with
  | Some cursor, Some visitor =>
      '(status, io) ← lonejson__json_visit_value_no_path visitor fuel
                        (visit_io cursor allocator limits user error);
      '(status, io) ←
        (if status_fails status then Done (status, io)
         else
           '(ch, io) ← lonejson__json_peek_nonspace fuel io;
           if negb (ch =? EOF) then
             io_fail LONEJSON_STATUS_INVALID_JSON "visited JSON must contain exactly one value" io
           else Done (status, io));
      Done (status, keep_pushback io)
  | _, _ =>
      io_fail LONEJSON_STATUS_INVALID_ARGUMENT "JSON value source and visitor are required"
        (visit_io (default cursor_zero cursor) allocator limits user error)
  end.

(** The result: status, visitor state, error object, open streams. *)
Definition lonejson__json_visit (fopen : bytes → c_file + Z) (fuel : nat)
    (value : option (lonejson_json_value R)) (visitor : option (lonejson_value_visitor U))
    (user : U) (limits : option lonejson__value_limits) (error : error_ptr) (open_files : Z) :
    run (lonejson_status * U * error_ptr * Z) :=
  match value with
  | None =>
      let '(st, e) := lonejson__set_error error LONEJSON_STATUS_INVALID_ARGUMENT 0 0 0
                        "JSON value source and visitor are required" in
      Done (st, user, e, open_files)
  | Some v =>
      '(status, cursor, e, open_files) ←
        lonejson__json_cursor_open fopen (Some v) error open_files;
      if decide (status ≠ LONEJSON_STATUS_OK) then Done (status, user, e, open_files)
      else
        '(status, io) ← lonejson__json_visit_cursor fuel (Some cursor) (jv_allocator v) visitor
                          user limits e;
        let open_files := lonejson__json_cursor_close (io_cursor io) open_files in
        Done (status, io_user io, io_error io, open_files)
  end.

(** [if (status == LONEJSON_STATUS_OK) lonejson__clear_error(error);] *)
Definition visited (r : run (lonejson_status * lonejson__json_io R U)) :
    run (lonejson_status * U * error_ptr) :=
  '(status, io) ← r;
  let e := if decide (status = LONEJSON_STATUS_OK)
           then lonejson__clear_error (io_error io) else io_error io in
  Done (status, io_user io, e).

(** [return lonejson__set_error(error, LONEJSON_STATUS_INVALID_ARGUMENT, ...);] *)
Definition visit_argument_error (user : U) (error : error_ptr) (message : string) :
    run (lonejson_status * U * error_ptr) :=
  let '(st, e) := lonejson__set_error error LONEJSON_STATUS_INVALID_ARGUMENT 0 0 0 message in
  Done (st, user, e).

Definition lonejson__visit_value_buffer_with_limits (fuel : nat) (data : option bytes) (len : Z)
    (visitor : option (lonejson_value_visitor U)) (user : U)
    (limits : option lonejson__value_limits) (allocator : lonejson_allocator) (error : error_ptr) :
    run (lonejson_status * U * error_ptr) :=
  match data, visitor with
  | Some data, Some _ =>
      visited (lonejson__json_visit_cursor fuel
                 (Some (cursor_over_buffer (take (Z.to_nat len) data)))
                 allocator visitor user limits error)
  | _, _ => visit_argument_error user error "buffer and visitor are required"
  end.

Definition lonejson__visit_value_cstr_with_limits (fuel : nat) (json : option bytes)
    (visitor : option (lonejson_value_visitor U)) (user : U)
    (limits : option lonejson__value_limits) (allocator : lonejson_allocator) (error : error_ptr) :
    run (lonejson_status * U * error_ptr) :=
  match json with
  | None => visit_argument_error user error "json string and visitor are required"
  | Some json =>
      lonejson__visit_value_buffer_with_limits fuel (Some json) (zlen (c_string json)) visitor user
        limits allocator error
  end.

Definition lonejson__visit_value_reader_with_limits (fuel : nat)
    (reader : option (lonejson_reader_fn R)) (reader_user : R)
    (visitor : option (lonejson_value_visitor U)) (user : U)
    (limits : option lonejson__value_limits) (allocator : lonejson_allocator) (error : error_ptr) :
    run (lonejson_status * U * error_ptr) :=
  match reader, visitor with
  | Some reader, Some _ =>
      visited (lonejson__json_visit_cursor fuel (Some (cursor_over_reader (reader, reader_user)))
                 allocator visitor user limits error)
  | _, _ => visit_argument_error user error "reader and visitor are required"
  end.
End entry.

(** The reader over a descriptor; [None] is a descriptor that is not open. *)
Definition lonejson__fd_reader : lonejson_reader_fn (option c_file) := λ fd capacity,
  match fd with
  | None => (mk_read_result 0 false false EBADF, [], None)
  | Some f =>
      match fd_read f capacity with
      | (inr errno, f) => (mk_read_result 0 false false errno, [], Some f)
      | (inl got, f) => (mk_read_result (zlen got) (zlen got =? 0) false 0, got, Some f)
      end
  end.

(** A descriptor that can be read to the end keeps the reader contract. *)
#[export] Instance fd_reader_faithful : FaithfulReader lonejson__fd_reader.
Proof.
  refine {| reader_valid := λ r, ∃ f, r = Some f ∧ f_sound f;
            reader_rest := λ r, from_option f_rest [] r |}.
  intros r capacity (f & -> & Hf) Hcap. cbn.
  destruct (fd_read_sound f capacity Hf Hcap) as (got & f' & -> & Hf' & Hr & Hl & Hn).
  eexists _, _, _. split; [done|]. cbn. split_and!; eauto.
Defined.

(** ** The equations of the walker *)

Section equations.
Context {R U : Type} (visitor : lonejson_value_visitor U).
#[local] Abbreviation invalid := (io_fail (R := R) (U := U) LONEJSON_STATUS_INVALID_JSON).
#[local] Abbreviation getc := (lonejson__json_cursor_getc (R := R) (U := U)).

Lemma visit_value_S fuel :
  lonejson__json_visit_value_no_path (R := R) visitor (S fuel) =
  (let* ch := lonejson__json_peek_nonspace fuel in
   if ch =? -2 then io_reader_status
   else if ch =? EOF then invalid "expected JSON value"
   else
     let* ch := getc in
     if ch =? 34 then lonejson__json_visit_string_value_no_path visitor fuel false
     else if ch =? "{"%ch then lonejson__json_visit_object_no_path visitor fuel
     else if ch =? "["%ch then lonejson__json_visit_array_no_path visitor fuel
     else if ch =? "t"%ch then lonejson__json_visit_literal_no_path visitor ch (c_str "rue") true
     else if ch =? "f"%ch then lonejson__json_visit_literal_no_path visitor ch (c_str "alse") true
     else if ch =? "n"%ch then lonejson__json_visit_literal_no_path visitor ch (c_str "ull") false
     else if (ch =? "-"%ch) || lonejson__is_digit ch then
       lonejson__json_visit_number_no_path visitor fuel ch
     else invalid "expected JSON value").
Proof. reflexivity. Qed.

Lemma visit_array_loop_S fuel first :
  visit_array_loop (R := R) visitor (S fuel) first =
  (let* ch := lonejson__json_peek_nonspace fuel in
   if ch =? -2 then io_reader_status
   else if ch =? EOF then invalid "unterminated JSON array"
   else if ch =? "]"%ch then
     let* _ := getc in lonejson__json_visit_event (array_end visitor)
   else
     visit_separator first "expected ',' in array"
       (visit_nested (lonejson__json_visit_value_no_path visitor fuel)
          (visit_array_loop visitor fuel false))).
Proof. reflexivity. Qed.

Lemma visit_object_loop_S fuel first :
  visit_object_loop (R := R) visitor (S fuel) first =
  (let* ch := lonejson__json_peek_nonspace fuel in
   if ch =? -2 then io_reader_status
   else if ch =? EOF then invalid "unterminated JSON object"
   else if ch =? "}"%ch then
     let* _ := getc in lonejson__json_visit_event (object_end visitor)
   else
     visit_separator first "expected ',' in object"
       (visit_key visitor fuel
         (visit_nested (lonejson__json_visit_value_no_path visitor fuel)
            (visit_object_loop visitor fuel false)))).
Proof. reflexivity. Qed.
End equations.
