(* ===== verification/VisitSpec.v ===== *)
(** * VisitSpec: the visitor against the grammar

    [value_events] is what a visitor should be told about a value of the grammar:
    the balanced sequence of callbacks, strings and keys decoded to UTF-8, within
    the limits.  The walker of [Visit] is compared with the reference parser of
    [JsonGrammar] step by step ([visit_walker_spec]): on every input it either
    delivers exactly these events, or refuses. *)

From stdpp Require Import base numbers list strings.
From Stdlib Require Import ZArith Lia Bool.
From S2P Require Import Prelude Runtime Source Unicode Number JsonGrammar JsonCursor Walker Visit.

(** ** What a visitor is told *)

Inductive event :=
| ObjectBegin | ObjectEnd | KeyBegin | KeyByte (b : Z) | KeyEnd
| ArrayBegin | ArrayEnd | StringBegin | StringByte (b : Z) | StringEnd
| NumberBegin | NumberByte (b : Z) | NumberEnd | BoolValue (b : bool) | NullValue.

(** What the two-byte escapes stand for. *)
Definition unescape (c : Z) : Z :=
  if c =? "b"%ch then 8 else if c =? "t"%ch then 9 else if c =? "n"%ch then 10
  else if c =? "f"%ch then 12 else if c =? "r"%ch then 13 else c.

(** The UTF-8 text of a string; [None] when a surrogate stands alone. *)
Fixpoint decode_items (l : list str_item) : option bytes :=
  match l with
  | [] => Some []
  | Plain b :: l => rest ← decode_items l; Some (b :: rest)
  | Esc c :: l => rest ← decode_items l; Some (unescape c :: rest)
  | Uni a b c d :: l =>
      let cp := hex_quad a b c d in
      if is_high_surrogate cp then
        match l with
        | Uni a' b' c' d' :: l =>
            let low := hex_quad a' b' c' d' in
            if is_low_surrogate low then
              out ← utf8_bytes (combine_surrogates cp low);
              rest ← decode_items l; Some (out ++ rest)
            else None
        | _ => None
        end
      else if is_low_surrogate cp then None
      else out ← utf8_bytes cp; rest ← decode_items l; Some (out ++ rest)
  end.

Definition text_events (first : event) (byte : Z → event) (last : event) (limit : Z)
    (l : list str_item) : option (list event) :=
  text ← decode_items l;
  if zlen text <=? limit then Some (first :: map byte text ++ [last]) else None.

Definition string_events : Z → list str_item → option (list event) :=
  text_events StringBegin StringByte StringEnd.
Definition key_events : Z → list str_item → option (list event) :=
  text_events KeyBegin KeyByte KeyEnd.

(** [d] is the depth of the value; [None] when a limit is exceeded. *)
Section value_events.
Context (limits : lonejson__value_limits).

Fixpoint value_events (d : Z) (v : json) : option (list event) :=
  match v with
  | JNull => Some [NullValue]
  | JBool b => Some [BoolValue b]
  | JNum t =>
      if zlen t <=? max_number_bytes limits
      then Some (NumberBegin :: map NumberByte t ++ [NumberEnd]) else None
  | JStr l => string_events (max_string_bytes limits) l
  | JArr vs =>
      if max_depth limits <=? d then None
      else
        es ← (fix go vs :=
                match vs with
                | [] => Some [ArrayEnd]
                | v :: vs => es ← value_events (d + 1) v; rest ← go vs; Some (es ++ rest)
                end) vs;
        Some (ArrayBegin :: es)
  | JObj ms =>
      if max_depth limits <=? d then None
      else
        es ← (fix go ms :=
                match ms with
                | [] => Some [ObjectEnd]
                | (k, v) :: ms =>
                    ks ← key_events (max_key_bytes limits) k;
                    es ← value_events (d + 1) v; rest ← go ms; Some (ks ++ es ++ rest)
                end) ms;
        Some (ObjectBegin :: es)
  end.

(** The rest of an array or object whose values are at depth [d]. *)
Fixpoint elements_events (d : Z) (vs : list json) : option (list event) :=
  match vs with
  | [] => Some [ArrayEnd]
  | v :: vs => es ← value_events d v; rest ← elements_events d vs; Some (es ++ rest)
  end.

Fixpoint members_events (d : Z) (ms : list (list str_item * json)) : option (list event) :=
  match ms with
  | [] => Some [ObjectEnd]
  | (k, v) :: ms =>
      ks ← key_events (max_key_bytes limits) k;
      es ← value_events d v; rest ← members_events d ms; Some (ks ++ es ++ rest)
  end.

Lemma value_events_arr d vs :
  value_events d (JArr vs)
  = if max_depth limits <=? d then None
    else es ← elements_events (d + 1) vs; Some (ArrayBegin :: es).
Proof.
  cbn [value_events]. destruct (max_depth limits <=? d); [done|]. f_equal.
  induction vs as [|v vs IH]; [done|]. cbn [elements_events]. by rewrite IH.
Qed.

Lemma value_events_obj d ms :
  value_events d (JObj ms)
  = if max_depth limits <=? d then None
    else es ← members_events (d + 1) ms; Some (ObjectBegin :: es).
Proof.
  cbn [value_events]. destruct (max_depth limits <=? d); [done|]. f_equal.
  induction ms as [|[k v] ms IH]; [done|]. cbn [members_events]. by rewrite IH.
Qed.
End value_events.
#[global] Arguments value_events : simpl never.

(** ** Visitors that keep a log

    [heard] says which events the visitor has a callback for; the others are
    NULL.  A callback accepts and logs what it is told. *)

Definition logs_event {U} (log : U → list event) (heard : event → bool)
    (fn : option (callback U)) (ev : event) : Prop :=
  match fn with
  | None => heard ev = false
  | Some f => heard ev = true
              ∧ ∀ u e, ∃ u', f u e = (LONEJSON_STATUS_OK, u', e) ∧ log u' = log u ++ [ev]
  end.

Definition logs_chunk {U} (log : U → list event) (heard : event → bool)
    (fn : option (lonejson_sink_fn U)) (byte : Z → event) : Prop :=
  match fn with
  | None => ∀ b, heard (byte b) = false
  | Some f => (∀ b, heard (byte b) = true)
              ∧ ∀ u d e, ∃ u', f u d e = (LONEJSON_STATUS_OK, u', e) ∧ log u' = log u ++ map byte d
  end.

Definition logs_bool {U} (log : U → list event) (heard : event → bool)
    (fn : option (lonejson_value_bool_fn U)) : Prop :=
  match fn with
  | None => ∀ b, heard (BoolValue b) = false
  | Some f => (∀ b, heard (BoolValue b) = true)
              ∧ ∀ u b e, ∃ u', f u b e = (LONEJSON_STATUS_OK, u', e) ∧ log u' = log u ++ [BoolValue b]
  end.

Class LoggingVisitor {U : Type} (v : lonejson_value_visitor U) := {
  visitor_log : U → list event;
  heard : event → bool;
  logs_object_begin : logs_event visitor_log heard (object_begin v) ObjectBegin;
  logs_object_end : logs_event visitor_log heard (object_end v) ObjectEnd;
  logs_key_begin : logs_event visitor_log heard (object_key_begin v) KeyBegin;
  logs_key_chunk : logs_chunk visitor_log heard (object_key_chunk v) KeyByte;
  logs_key_end : logs_event visitor_log heard (object_key_end v) KeyEnd;
  logs_array_begin : logs_event visitor_log heard (array_begin v) ArrayBegin;
  logs_array_end : logs_event visitor_log heard (array_end v) ArrayEnd;
  logs_string_begin : logs_event visitor_log heard (string_begin v) StringBegin;
  logs_string_chunk : logs_chunk visitor_log heard (string_chunk v) StringByte;
  logs_string_end : logs_event visitor_log heard (string_end v) StringEnd;
  logs_number_begin : logs_event visitor_log heard (number_begin v) NumberBegin;
  logs_number_chunk : logs_chunk visitor_log heard (number_chunk v) NumberByte;
  logs_number_end : logs_event visitor_log heard (number_end v) NumberEnd;
  logs_boolean : logs_bool visitor_log heard (boolean_value v);
  logs_null : logs_event visitor_log heard (null_value v) NullValue
}.
Arguments visitor_log {U} v {_} _.
Arguments heard {U} v {_} _.

(** ** Facts on decoding *)

Lemma unescape_cases c :
  is_simple_escape c = true →
  if (c =? 34) || (c =? 92) || (c =? "/"%ch) then unescape c = c
  else (c =? "b"%ch) || (c =? "f"%ch) || (c =? "n"%ch) || (c =? "r"%ch) || (c =? "t"%ch) = true
       ∧ escape_value c = unescape c.
Proof.
  unfold is_simple_escape, unescape, escape_value. cbn. intros H. rewrite !orb_true_iff in H.
  destruct H as [?|[?|[?|[?|[?|[?|[?|[?|?]]]]]]]]; try done;
    match goal with H : (c =? _) = true |- _ => apply Z.eqb_eq in H; subst; by vm_compute end.
Qed.

Lemma scan_string_split s l r :
  scan_string s = Some (l, r) → s = items_bytes l ++ 34 :: r ∧ Forall item_ok l.
Proof. intros H. apply scan_string_sound in H as [? ?]. done. Qed.

Lemma scan_string_items l s :
  Forall item_ok l →
  scan_string (items_bytes l ++ s) = '(l', r) ← scan_string s; Some (l ++ l', r).
Proof.
  induction 1 as [|i l Hi _ IH].
  - cbn. by destruct (scan_string s) as [[l' r]|].
  - rewrite items_bytes_cons, <- app_assoc. destruct i as [b|c|a b c d]; cbn [item_bytes app item_ok] in *.
    + unfold is_plain in Hi. rewrite scan_string_cons. replace (b =? 34) with false by lia.
      replace (b <? 32) with false by lia. replace (b =? 92) with false by lia. rewrite IH.
      by destruct (scan_string s) as [[l' r]|].
    + rewrite scan_string_cons. change (92 =? 34) with false. change (92 <? 32) with false.
      change (92 =? 92) with true. cbv iota. rewrite (proj2 (Z.eqb_neq c 117)) by (by apply simple_escape_not_u).
      rewrite Hi, IH. by destruct (scan_string s) as [[l' r]|].
    + rewrite scan_string_cons. cbn. rewrite Hi, IH. by destruct (scan_string s) as [[l' r]|].
Qed.

(** A string that starts with [\u] starts with a [Uni] item. *)
Lemma uni_head l t s :
  Forall item_ok l → items_bytes l ++ 34 :: t = 92 :: 117 :: s →
  ∃ a b c d l', l = Uni a b c d :: l' ∧ s = a :: b :: c :: d :: items_bytes l' ++ 34 :: t
    ∧ is_hex a && is_hex b && is_hex c && is_hex d = true ∧ Forall item_ok l'.
Proof.
  intros Hl H. destruct Hl as [|i l Hi Hl]; [done|]. rewrite items_bytes_cons, <- app_assoc in H.
  destruct i as [b|c|a b c d]; cbn in H, Hi.
  - injection H as -> _. done.
  - injection H as -> _. done.
  - injection H as <-. eauto 10.
Qed.

#[local] Set Default Proof Using "Type*".

Section visit_spec.
Context {R U : Type} (visitor : lonejson_value_visitor U) `{!LoggingVisitor visitor}.
Implicit Types io : lonejson__json_io R U.

(** The limits in force, and a bound on the input. *)
Context (lim : lonejson__value_limits) (N : Z) (HN : N < 2 ^ 62).

#[local] Abbreviation log := (visitor_log visitor).
#[local] Abbreviation emits := (Walker.emits (R := R) log).
#[local] Abbreviation accepted := (Walker.accepted (R := R) log).

(** The events that have a callback. *)
Definition said (es : list event) : list event := List.filter (heard visitor) es.

#[global] Arguments said : simpl never.

Lemma said_app es1 es2 : said (es1 ++ es2) = said es1 ++ said es2.
Proof. apply List.filter_app. Qed.

(** Some limit is below the size of the input. *)
Definition tight : Prop :=
  max_depth lim < N ∨ max_string_bytes lim < N ∨ max_key_bytes lim < N ∨ max_number_bytes lim < N.

(** The walk ends with an error: of the input, or of a limit that is in reach. *)
Definition refused (r : run (lonejson_status * lonejson__json_io R U)) : Prop :=
  ∃ st io', r = Done (st, io')
            ∧ (st = LONEJSON_STATUS_INVALID_JSON ∨ st = LONEJSON_STATUS_OVERFLOW ∧ tight).

Lemma rejected_refused r : rejected r → refused r.
Proof. intros (io' & ->). eexists _, _. split; [done|by left]. Qed.

Lemma io_fail_refused message io : refused (io_fail LONEJSON_STATUS_INVALID_JSON message io).
Proof. apply rejected_refused, io_fail_rejected. Qed.

Lemma io_fail_overflow message io : tight → refused (io_fail LONEJSON_STATUS_OVERFLOW message io).
Proof.
  intros Ht. unfold io_fail. destruct (io_error io); simpl; eexists _, _; (split; [done|by right]).
Qed.

Lemma refused_seq (m k : io_fn R U lonejson_status) io : refused (m io) → refused ((m;;; k) io).
Proof.
  intros (st & io' & H & Hst). unfold io_seq. rewrite H, run_bind_done.
  exists st, io'. split; [|done]. by destruct Hst as [->|[-> _]].
Qed.

Lemma event_accepted fn ev io s :
  logs_event log (heard visitor) fn ev → io_ready io s →
  accepted (lonejson__json_visit_event fn io) io (said [ev]) s.
Proof.
  intros Hl Hr. unfold lonejson__json_visit_event, said, logs_event in *. cbn.
  destruct fn as [f|].
  - destruct Hl as [-> Hf]. destruct (Hf (io_user io) (io_error io)) as (u & -> & Hu).
    eexists. split; [done|]. split; [by apply set_user_ready|]. by split_and!.
  - rewrite Hl. exists io. split_and!; [done|done|apply emits_refl].
Qed.

Lemma event_seq fn ev k io s :
  logs_event log (heard visitor) fn ev → io_ready io s →
  ∃ io', (lonejson__json_visit_event fn;;; k) io = k io' ∧ io_ready io' s ∧ emits io (said [ev]) io'.
Proof. intros. apply accepted_seq. by apply event_accepted. Qed.

Lemma io_limits_emits io d io' : emits io d io' → io_limits io' = io_limits io.
Proof. by intros (_ & _ & _ & _ & _ & ->). Qed.

(** ** Strings *)

Lemma logs_chunk_cases fn byte :
  logs_chunk log (heard visitor) fn byte →
  (fn = None ∧ ∀ bs, said (map byte bs) = [])
  ∨ ∃ f, fn = Some f ∧ (∀ bs, said (map byte bs) = map byte bs)
         ∧ ∀ u d e, ∃ u', f u d e = (LONEJSON_STATUS_OK, u', e) ∧ log u' = log u ++ map byte d.
Proof.
  unfold logs_chunk, said. destruct fn as [f|].
  - intros [Hh Hf]. right. exists f. split_and!; [done| |done].
    intros bs. induction bs as [|b bs IH]; [done|]. cbn. by rewrite Hh, IH.
  - intros Hh. left. split; [done|]. intros bs. induction bs as [|b bs IH]; [done|]. cbn.
    by rewrite Hh, IH.
Qed.

Section strings.
Context (is_key : bool) (fn : option (lonejson_sink_fn U)) (byte : Z → event)
  (end_fn : option (callback U)) (last : event) (limit : Z).
Context (Hfn : logs_chunk log (heard visitor) fn byte)
  (Hend : logs_event log (heard visitor) end_fn last)
  (Hlimit : 0 < limit) (Htight : limit < N → tight).

Definition hears (bs : bytes) : list event := said (map byte bs).

#[global] Arguments hears : simpl never.

Lemma hears_app b1 b2 : hears (b1 ++ b2) = hears b1 ++ hears b2.
Proof. unfold hears. rewrite map_app. apply said_app. Qed.

(** Either the chunks go nowhere or all of them are logged. *)
Lemma chunk_cases :
  (fn = None ∧ ∀ bs, hears bs = [])
  ∨ ∃ f, fn = Some f ∧ (∀ bs, hears bs = map byte bs)
         ∧ ∀ u d e, ∃ u', f u d e = (LONEJSON_STATUS_OK, u', e) ∧ log u' = log u ++ map byte d.
Proof. by apply logs_chunk_cases. Qed.

Lemma chunk_user data io :
  ∃ u, lonejson__json_visit_chunk fn data io = Done (LONEJSON_STATUS_OK, set_user io u (io_error io))
       ∧ log u = log (io_user io) ++ hears data.
Proof.
  unfold lonejson__json_visit_chunk. destruct chunk_cases as [[-> Hh]|(f & -> & Hh & Hf)].
  - exists (io_user io). rewrite Hh, app_nil_r. split; [by destruct io|done].
  - destruct (zlen data =? 0) eqn:E.
    + destruct data; [|rewrite zlen_cons in E; pose proof (zlen_nonneg data); lia].
      exists (io_user io). split; [by destruct io|]. by rewrite app_nil_r.
    + rewrite Hh. destruct (Hf (io_user io) data (io_error io)) as (u & -> & Hu). by exists u.
Qed.

Lemma emits_user io u d : log u = log (io_user io) ++ d → emits io d (set_user io u (io_error io)).
Proof. intros. by split_and!. Qed.

Lemma chunk_seq data k io s :
  io_ready io s →
  ∃ io', (lonejson__json_visit_chunk fn data;;; k) io = k io' ∧ io_ready io' s
         ∧ emits io (hears data) io'.
Proof.
  intros Hr. destruct (chunk_user data io) as (u & H & Hu). unfold io_seq. rewrite H.
  eexists. split; [done|]. split; [by apply set_user_ready|by apply emits_user].
Qed.

(** Copying through the array loses nothing and keeps it from filling up. *)
Lemma plain_copy_ok fuel buf data io :
  (length data ≤ fuel)%nat → zlen buf < 256 →
  ∃ u buf' d, plain_copy fuel fn buf data io
              = Done ((LONEJSON_STATUS_OK, buf'), set_user io u (io_error io))
    ∧ log u = log (io_user io) ++ d ∧ hears (buf ++ data) = d ++ hears buf' ∧ zlen buf' < 256.
Proof.
  revert buf data io. induction fuel as [|fuel IH]; intros buf data io Hf Hb.
  { destruct data; [|simpl in Hf; lia]. exists (io_user io), buf, []. cbn.
    split_and!; [by destruct io|by rewrite app_nil_r|by rewrite app_nil_r|done]. }
  cbn [plain_copy]. destruct data as [|b data].
  { exists (io_user io), buf, [].
    split_and!; [by destruct io|by rewrite app_nil_r|by rewrite app_nil_r|done]. }
  set (n := Z.min _ _). set (data0 := b :: data) in *.
  assert (zlen data0 = zlen data + 1) as Hlen by apply zlen_cons.
  pose proof (zlen_nonneg data). unfold plain_capacity in *.
  assert (1 ≤ n ≤ zlen data0) as Hn by (unfold n; lia).
  assert (length (drop (Z.to_nat n) data0) ≤ fuel)%nat as Hfuel.
  { rewrite length_drop. unfold zlen in *. lia. }
  assert (zlen (buf ++ take (Z.to_nat n) data0) ≤ 256) as Hle.
  { rewrite zlen_app. unfold zlen at 2. rewrite length_take. unfold n, zlen in *. lia. }
  set (buf1 := buf ++ _) in *.
  assert (buf ++ data0 = buf1 ++ drop (Z.to_nat n) data0) as Hsplit.
  { unfold buf1. by rewrite <- app_assoc, take_drop. }
  rewrite Hsplit. destruct (zlen buf1 =? 256) eqn:E.
  - destruct (chunk_user buf1 io) as (u & -> & Hu). rewrite run_bind_done. cbn [status_fails].
    destruct (IH [] (drop (Z.to_nat n) data0) (set_user io u (io_error io)) Hfuel)
      as (u' & buf' & d & -> & Hu' & Hd & Hb'); [done|].
    exists u', buf', (hears buf1 ++ d). split_and!; [by destruct io| |by rewrite hears_app; cbn in Hd; rewrite Hd, app_assoc|done].
    cbn in Hu'. by rewrite Hu', Hu, app_assoc.
  - destruct (IH buf1 (drop (Z.to_nat n) data0) io Hfuel) as (u' & buf' & d & -> & Hu' & Hd & Hb');
      [lia|]. exists u', buf', d. by split_and!.
Qed.

(** What is known of the buffer with [s] left to read. *)
Definition buffer_ok (sb : string_buffer) (s : bytes) : Prop :=
  zlen (plain sb) < 256 ∧ 0 ≤ decoded_bytes sb ≤ limit ∧ decoded_bytes sb + zlen s ≤ N.

(** [sb'] after [io] gave [o] to [sb] and called back on the way. *)
Definition decoded_to io sb (o : bytes) io' sb' : Prop :=
  ∃ d, emits io d io' ∧ hears (plain sb ++ o) = d ++ hears (plain sb')
       ∧ decoded_bytes sb' = decoded_bytes sb + zlen o ∧ zlen (plain sb') < 256.

Lemma over_limit_iff n : over_limit limit n = true ↔ limit < n.
Proof. unfold over_limit. lia. Qed.

Lemma plain_chunk_ok data sb io s :
  buffer_ok sb (data ++ s) → data ≠ [] → io_rest io (data ++ s) → io_has_pushback io = false →
  ∃ st u sb',
    lonejson__json_visit_plain_chunk_no_path is_key fn limit data sb io
    = Done ((st, sb'), set_user (set_total io (io_total_bytes io + zlen data)) u
                         (if over_limit limit (decoded_bytes sb + zlen data)
                          then (lonejson__set_error (io_error io) st 0 0 0 (key_or_string_message is_key)).2
                          else io_error io))
    ∧ if over_limit limit (decoded_bytes sb + zlen data) then st = LONEJSON_STATUS_OVERFLOW
      else st = LONEJSON_STATUS_OK
           ∧ decoded_to io sb data (set_user (set_total io (io_total_bytes io + zlen data)) u (io_error io)) sb'.
Proof.
  intros (Hp & Hd & Hlen) Hne (_ & Hpos & Hmax & Hlim & _) _.
  rewrite zlen_app in *. pose proof (zlen_nonneg s).
  assert (0 < zlen data) as Hdata.
  { destruct data; [done|]. rewrite zlen_cons. pose proof (zlen_nonneg data). lia. }
  unfold lonejson__json_visit_plain_chunk_no_path. replace (zlen data =? 0) with false by lia.
  rewrite !u64_small by (unfold is_u64; lia).
  replace (negb (max_total_bytes (io_limits io) =? 0)
           && (max_total_bytes (io_limits io) <? io_total_bytes io + zlen data)) with false by lia.
  cbn [decoded_bytes plain]. set (io1 := set_total io _).
  destruct (over_limit limit (decoded_bytes sb + zlen data)) eqn:Eo.
  { unfold io_fail. change (io_error io1) with (io_error io).
    destruct (lonejson__set_error (io_error io) LONEJSON_STATUS_OVERFLOW 0 0 0
                (key_or_string_message is_key)) as [st e] eqn:Ee.
    assert (st = LONEJSON_STATUS_OVERFLOW) as ->.
    { pose proof (set_error_fst (io_error io) LONEJSON_STATUS_OVERFLOW 0 0 0 (key_or_string_message is_key)) as H1.
      by rewrite Ee in H1. }
    exists LONEJSON_STATUS_OVERFLOW. eexists _, _. by rewrite run_bind_done, Ee. }
  exists LONEJSON_STATUS_OK. pose proof chunk_user as Hcu. pose proof plain_copy_ok as Hcopy.
  destruct chunk_cases as [[-> Hh]|(f & Hf & Hh & Hcall)].
  { exists (io_user io), (mk_string_buffer (plain sb) (decoded_bytes sb + zlen data)).
    split; [done|]. split; [done|]. exists []. cbn. rewrite !Hh.
    split_and!; [|done|done|done]. unfold Walker.emits. cbn. by rewrite app_nil_r. }
  rewrite Hf in Hcopy |- *. destruct (zlen (plain sb) =? 0) eqn:E0.
  - assert (plain sb = []) as Hpl.
    { destruct (plain sb) as [|x l]; [done|]. rewrite zlen_cons in E0. pose proof (zlen_nonneg l). lia. }
    destruct (Hcall (io_user io1) data (io_error io1)) as (u & -> & Hu).
    exists u. eexists. split; [done|]. split; [done|]. exists (map byte data). cbn.
    rewrite Hpl, !Hh. cbn. rewrite app_nil_r. by split_and!.
  - destruct (Hcopy (length data) (plain sb) data io1) as (u & buf' & d & -> & Hu & Hd' & Hb);
      [done|done|]. rewrite run_bind_done. exists u. eexists. split; [done|]. split; [done|].
    exists d. cbn. by split_and!.
Qed.

(** The buffered bytes: all of them consumed, or the limit hit. *)
Definition spans_result sb io s (r : run ((lonejson_status * string_buffer) * lonejson__json_io R U)) :
    Prop :=
  ∃ span s1 st sb1 io1, s = span ++ s1 ∧ Forall (λ b, is_plain b = true) span
  ∧ r = Done ((st, sb1), io1)
  ∧ (if over_limit limit (decoded_bytes sb + zlen span) then st = LONEJSON_STATUS_OVERFLOW
     else st = LONEJSON_STATUS_OK ∧ io_ready io1 s1 ∧ decoded_to io sb span io1 sb1).

Lemma over_limit_more n m : 0 ≤ m → over_limit limit n = true → over_limit limit (n + m) = true.
Proof. rewrite !over_limit_iff. lia. Qed.

Lemma decoded_to_refl io sb : zlen (plain sb) < 256 → decoded_to io sb [] io sb.
Proof.
  intros H. exists []. rewrite app_nil_r. change (zlen (@nil Z)) with 0.
  split_and!; [apply emits_refl|done|lia|done].
Qed.

Lemma decoded_to_trans io sb o1 io1 sb1 o2 io2 sb2 :
  decoded_to io sb o1 io1 sb1 → decoded_to io1 sb1 o2 io2 sb2 →
  decoded_to io sb (o1 ++ o2) io2 sb2.
Proof.
  intros (d1 & He1 & Hh1 & Hd1 & _) (d2 & He2 & Hh2 & Hd2 & Hp). exists (d1 ++ d2).
  split_and!; [by eapply emits_trans| |rewrite zlen_app; lia|done].
  rewrite app_assoc, hears_app, Hh1, <- app_assoc, <- hears_app, Hh2. by rewrite app_assoc.
Qed.

Lemma decoded_to_ok io sb o io' sb' s s' :
  decoded_to io sb o io' sb' → buffer_ok sb s → over_limit limit (decoded_bytes sb + zlen o) = false →
  zlen o + zlen s' ≤ zlen s → buffer_ok sb' s'.
Proof.
  intros (d & _ & _ & Hd & Hp) (_ & H1 & H2) Ho Hl. pose proof (zlen_nonneg o).
  unfold over_limit in Ho. unfold buffer_ok. split_and!; lia.
Qed.

Lemma visit_spans_ok fuel sb io s :
  io_ready io s → buffer_ok sb s → (length s < fuel)%nat →
  spans_result sb io s (visit_spans fuel is_key fn limit sb io).
Proof.
  revert sb io s. induction fuel as [|fuel IH]; intros sb io s Hr Hb Hf; [lia|].
  cbn [visit_spans].
  assert (spans_result sb io s (Done ((LONEJSON_STATUS_OK, sb), io))) as Hstop.
  { exists [], s, LONEJSON_STATUS_OK, sb, io. split_and!; [done|apply Forall_nil_2|done|].
    change (zlen (@nil Z)) with 0. rewrite Z.add_0_r. destruct Hb as (Hp & Hd & _).
    replace (over_limit limit (decoded_bytes sb)) with false by (unfold over_limit; lia).
    split_and!; [done|done|by apply decoded_to_refl]. }
  destruct (lonejson__json_cursor_plain_span io) as [[avail uses]|] eqn:Espan; [|done].
  set (span := take_while span_byte avail) in *. destruct (zlen span =? 0) eqn:E0; [done|].
  cbn [negb]. pose proof Hr as [Hrest Halloc]. clear Hstop.
  pose proof (plain_span_no_pushback _ _ Espan) as Hpb.
  destruct (plain_span_rest io s avail uses Hrest Espan) as (s0 & Hs & Hadv).
  pose proof (take_drop_while span_byte avail) as Hsplit. fold span in Hsplit.
  set (rest := drop_while span_byte avail) in *.
  assert (s = span ++ rest ++ s0) as Hs1 by (by rewrite Hs, <- Hsplit, <- app_assoc).
  assert (Forall (λ b, is_plain b = true) span) as Hplain by apply take_while_Forall.
  assert (span ≠ []) as Hne by (intros H; by rewrite H in E0).
  rewrite Hs1 in Hrest, Hb.
  destruct (plain_chunk_ok span sb io (rest ++ s0) Hb Hne Hrest Hpb) as (st & u & sb1 & -> & Hst).
  rewrite run_bind_done. destruct (over_limit limit (decoded_bytes sb + zlen span)) eqn:Eo.
  { subst st. cbn [status_fails]. exists span, (rest ++ s0), LONEJSON_STATUS_OVERFLOW, sb1.
    eexists. split_and!; [done|done|done|]. by rewrite Eo. }
  destruct Hst as [-> Hto]. cbn [status_fails]. set (io1 := set_user _ u _) in *.
  set (io2 := span_advance uses (zlen span) io1).
  assert (decoded_to io sb span io2 sb1) as Hto2.
  { destruct Hto as (d & He & Hto). exists d. split; [|done]. exact He. }
  destruct Hrest as (_ & Hpos & Hmax & Hlim & _). rewrite !zlen_app in Hmax, Hlim.
  pose proof (zlen_nonneg span).
  assert (io_ready io2 (rest ++ s0)) as Hr2.
  { split; [|done]. apply Hadv; cbn; try done; lia. }
  assert (buffer_ok sb1 (rest ++ s0)) as Hb2.
  { apply (decoded_to_ok io sb span io2 sb1 (span ++ rest ++ s0)); [done..|]. by rewrite !zlen_app. }
  destruct (zlen span =? zlen avail).
  2:{ exists span, (rest ++ s0), LONEJSON_STATUS_OK, sb1, io2. rewrite Eo. by split_and!. }
  assert (length (rest ++ s0) < fuel)%nat as Hfuel.
  { apply (f_equal length) in Hs1. rewrite (length_app span) in Hs1. unfold zlen in E0. lia. }
  destruct (IH sb1 io2 (rest ++ s0) Hr2 Hb2 Hfuel) as (span' & s1 & st & sb2 & io3 & Hs2 & Hp2 & -> & Hst).
  destruct Hto2 as (d & He & Hh & Hdec & Hpl). rewrite Hdec in Hst.
  exists (span ++ span'), s1, st, sb2, io3. split_and!; [|by apply Forall_app|done|].
  { by rewrite Hs1, Hs2, app_assoc. }
  rewrite zlen_app, Z.add_assoc. revert Hst. case_if; [done|].
  intros (-> & Hr3 & Hto3). split_and!; [done|done|].
  eapply decoded_to_trans; [|done]. by exists d.
Qed.


(** ** Escapes *)

(** What the rest of a string gives: its text, what was pending in front of it,
    and the end event. *)
Definition string_spec (r : run (lonejson_status * lonejson__json_io R U)) io sb s : Prop :=
  match scan_string s with
  | Some (l, s') =>
      match decode_items l with
      | Some d =>
          if decoded_bytes sb + zlen d <=? limit
          then accepted r io (hears (plain sb ++ d) ++ said [last]) s'
          else refused r
      | None => refused r
      end
  | None => refused r
  end.

Lemma string_spec_refused r io sb s :
  (∀ l s' d, scan_string s = Some (l, s') → decode_items l = Some d →
             limit < decoded_bytes sb + zlen d) →
  refused r → string_spec r io sb s.
Proof.
  intros H Hr. unfold string_spec. destruct (scan_string s) as [[l s']|] eqn:Es; [|done].
  destruct (decode_items l) as [d|] eqn:Ed; [|done]. specialize (H l s' d eq_refl Ed).
  by replace (decoded_bytes sb + zlen d <=? limit) with false by lia.
Qed.

(** A step over the items [its], which stand for [o]. *)
Definition stands_for (its : list str_item) (o : bytes) : Prop :=
  Forall item_ok its ∧ zlen o ≤ zlen (items_bytes its)
  ∧ ∀ l, decode_items (its ++ l) = rest ← decode_items l; Some (o ++ rest).

Lemma stands_for_over its o sb s r io :
  stands_for its o → over_limit limit (decoded_bytes sb + zlen o) = true →
  refused r → string_spec r io sb (items_bytes its ++ s).
Proof.
  intros (Hok & _ & Hdec) Ho. apply string_spec_refused. intros l s' d Hs Hd.
  rewrite scan_string_items in Hs by done.
  destruct (scan_string s) as [[l0 r0]|]; [|done]. rewrite some_bind in Hs. simplify_eq.
  rewrite Hdec in Hd. destruct (decode_items l0) as [d0|]; [|done]. rewrite some_bind in Hd.
  simplify_eq. rewrite zlen_app. pose proof (zlen_nonneg d0). rewrite over_limit_iff in Ho. lia.
Qed.

Lemma string_spec_step its o io sb io1 sb1 s r :
  stands_for its o → decoded_to io sb o io1 sb1 → string_spec r io1 sb1 s →
  string_spec r io sb (items_bytes its ++ s).
Proof.
  intros (Hok & _ & Hdec) (d & He & Hh & Hd & _) H. unfold string_spec in *.
  rewrite scan_string_items by done. destruct (scan_string s) as [[l s']|]; [|done].
  rewrite some_bind, Hdec. destruct (decode_items l) as [t|]; [|done]. rewrite some_bind.
  rewrite zlen_app, Z.add_assoc, <- Hd. destruct (decoded_bytes sb1 + zlen t <=? limit); [|done].
  rewrite (app_assoc (plain sb)), hears_app, Hh, <- !app_assoc, (app_assoc (hears (plain sb1))),
    <- hears_app. by eapply accepted_emits.
Qed.

Lemma stands_for_plain span :
  Forall (λ b, is_plain b = true) span → stands_for (map Plain span) span.
Proof.
  intros H. split_and!.
  - by apply Forall_map.
  - pose proof (items_bytes_plain span []) as Hi. rewrite app_nil_r in Hi. rewrite Hi.
    cbn. by rewrite app_nil_r.
  - intros l. induction H as [|b span _ _ IH]; cbn [map app decode_items].
    + by destruct (decode_items l).
    + rewrite IH. by destruct (decode_items l).
Qed.

Lemma stands_for_escape c : is_simple_escape c = true → stands_for [Esc c] [unescape c].
Proof. intros H. split_and!; [by constructor|done|done]. Qed.

(** Hexadecimal digits. *)
Lemma hex_step n m cp k io s :
  io_ready io s →
  match s with
  | b :: s1 =>
      if is_hex b then
        ∃ io1, visit_hex_digits (S n) m cp k io
               = visit_hex_digits n m (push_hex cp (lonejson__hex_value b)) k io1
               ∧ io_ready io1 s1 ∧ emits io [] io1
      else rejected (visit_hex_digits (S n) m cp k io)
  | [] => rejected (visit_hex_digits (S n) m cp k io)
  end.
Proof.
  intros Hr. cbn [visit_hex_digits]. destruct s as [|b s1].
  { walk_getc_eof (visitor_log visitor) Hr io1 Hr1 He1. apply io_fail_rejected. }
  walk_getc (visitor_log visitor) Hr io1 Hr1 He1 Hb. unfold is_byte in Hb. byte_tests. rewrite is_hex_ltb.
  destruct (is_hex b); cbn [negb]; [|apply io_fail_rejected]. eauto.
Qed.

Definition quad (s : bytes) : Prop :=
  ∃ a b c d s1, s = a :: b :: c :: d :: s1 ∧ is_hex a && is_hex b && is_hex c && is_hex d = true.

Lemma quad_ok m k io s :
  io_ready io s →
  (∃ a b c d s1 io1,
     s = a :: b :: c :: d :: s1 ∧ is_hex a && is_hex b && is_hex c && is_hex d = true
     ∧ visit_hex_digits 4 m 0 k io = k (hex_quad a b c d) io1
     ∧ io_ready io1 s1 ∧ emits io [] io1)
  ∨ (rejected (visit_hex_digits 4 m 0 k io) ∧ ¬ quad s).
Proof.
  intros Hr.
  assert (∀ s, (∀ a b c d s1, s = a :: b :: c :: d :: s1 →
     is_hex a && is_hex b && is_hex c && is_hex d = false) → ¬ quad s) as Hno.
  { intros s' H (a & b & c & d & s1 & Hs & Hh). specialize (H _ _ _ _ _ Hs). congruence. }
  pose proof (hex_step 3 m 0 k io s Hr) as H1. destruct s as [|a s].
  { right. split; [done|]. apply Hno. by intros. }
  destruct (is_hex a) eqn:Ea; [|right; split; [done|]; apply Hno; intros * [= <- ->]; by rewrite Ea].
  destruct H1 as (io1 & -> & Hr1 & He1).
  pose proof (hex_step 2 m (push_hex 0 (lonejson__hex_value a)) k io1 s Hr1) as H2. destruct s as [|b s].
  { right. split; [done|]. apply Hno. by intros. }
  destruct (is_hex b) eqn:Eb;
    [|right; split; [done|]; apply Hno; intros * [= <- <- ->]; by rewrite Ea, Eb].
  destruct H2 as (io2 & -> & Hr2 & He2).
  lazymatch goal with |- context [visit_hex_digits 2 m ?cp k io2] =>
    pose proof (hex_step 1 m cp k io2 s Hr2) as H3 end. destruct s as [|c s].
  { right. split; [done|]. apply Hno. by intros. }
  destruct (is_hex c) eqn:Ec;
    [|right; split; [done|]; apply Hno; intros * [= <- <- <- ->]; by rewrite Ea, Eb, Ec].
  destruct H3 as (io3 & -> & Hr3 & He3).
  lazymatch goal with |- context [visit_hex_digits 1 m ?cp k io3] =>
    pose proof (hex_step 0 m cp k io3 s Hr3) as H4 end. destruct s as [|d s].
  { right. split; [done|]. apply Hno. by intros. }
  destruct (is_hex d) eqn:Ed;
    [|right; split; [done|]; apply Hno; intros * [= <- <- <- <- ->]; by rewrite Ea, Eb, Ec, Ed].
  destruct H4 as (io4 & -> & Hr4 & He4). left. exists a, b, c, d, s, io4.
  split_and!; [done|by rewrite Ea, Eb, Ec, Ed| |done|].
  - cbn [visit_hex_digits]. by rewrite push_hex_quad.
  - do 3 (eapply emits_nil_l; [eassumption|]). done.
Qed.


Lemma low_escape_ok k io s :
  io_ready io s →
  match s with
  | 92 :: 117 :: s1 => ∃ io1, visit_low_escape k io = k io1 ∧ io_ready io1 s1 ∧ emits io [] io1
  | _ => rejected (visit_low_escape k io)
  end.
Proof.
  intros Hr. unfold visit_low_escape. destruct s as [|c1 s].
  { walk_getc_eof (visitor_log visitor) Hr io1 Hr1 He1. apply io_fail_rejected. }
  walk_getc (visitor_log visitor) Hr io1 Hr1 He1 Hb. destruct (c1 =? 92) eqn:E1; cbn [negb].
  2:{ assert (c1 ≠ 92) by lia. pose proof (io_fail_rejected "invalid unicode surrogate pair" io1) as Hbad.
      repeat case_match; done. }
  assert (c1 = 92) as -> by lia. destruct s as [|c2 s].
  { walk_getc_eof (visitor_log visitor) Hr1 io2 Hr2 He2. apply io_fail_rejected. }
  walk_getc (visitor_log visitor) Hr1 io2 Hr2 He2 Hb2. destruct (c2 =? 117) eqn:E2; cbn [negb].
  2:{ assert (c2 ≠ 117) by lia. pose proof (io_fail_rejected "invalid unicode surrogate pair" io2) as Hbad.
      repeat case_match; done. }
  assert (c2 = 117) as -> by lia. exists io2. split_and!; [done|done|]. by eapply emits_nil_l.
Qed.

(** The items of one escape, their code point, and what follows; or an escape
    that stands for nothing.  [s] follows the backslash and the [u]. *)
Definition code_point_outcome r (k : Z → io_fn R U lonejson_status) io s : Prop :=
  (∃ its cp out s1 io1,
     r = k cp io1 ∧ io_ready io1 s1 ∧ emits io [] io1
     ∧ 92 :: 117 :: s = items_bytes its ++ s1 ∧ (length s1 < length s)%nat
     ∧ utf8_bytes cp = Some out ∧ stands_for its out)
  ∨ (rejected r ∧ ∀ l s', scan_string (92 :: 117 :: s) = Some (l, s') → decode_items l = None).

Lemma scan_uni s l s' :
  scan_string (92 :: 117 :: s) = Some (l, s') →
  ∃ a b c d l', l = Uni a b c d :: l' ∧ s = a :: b :: c :: d :: items_bytes l' ++ 34 :: s'
    ∧ is_hex a && is_hex b && is_hex c && is_hex d = true ∧ Forall item_ok l'.
Proof. intros H. apply scan_string_split in H as [H Hl]. symmetry in H. by apply uni_head. Qed.

(** A high surrogate means something only in front of a low one. *)
Lemma scan_pair a b c d s1 l s' :
  is_high_surrogate (hex_quad a b c d) = true →
  scan_string (92 :: 117 :: a :: b :: c :: d :: s1) = Some (l, s') → decode_items l ≠ None →
  ∃ a' b' c' d' l'',
    s1 = 92 :: 117 :: a' :: b' :: c' :: d' :: items_bytes l'' ++ 34 :: s'
    ∧ is_hex a' && is_hex b' && is_hex c' && is_hex d' = true
    ∧ is_low_surrogate (hex_quad a' b' c' d') = true.
Proof.
  intros Ehigh H Hd. destruct (scan_uni _ _ _ H) as (a0 & b0 & c0 & d0 & l' & -> & Hs & _ & Hl').
  injection Hs as <- <- <- <- ->. cbn [decode_items] in Hd. rewrite Ehigh in Hd.
  destruct Hl' as [|i l'' Hi Hl'']; [done|]. destruct i as [|?|a' b' c' d']; [done..|].
  destruct (is_low_surrogate (hex_quad a' b' c' d')) eqn:El; [|done].
  exists a', b', c', d', l''. split_and!; [|done|done].
  by rewrite items_bytes_cons, <- app_assoc.
Qed.

Lemma pair_ok k io io1 a b c d s1 :
  let s := a :: b :: c :: d :: s1 in
  let cp := hex_quad a b c d in
  is_hex a && is_hex b && is_hex c && is_hex d = true → is_high_surrogate cp = true →
  io_ready io1 s1 → emits io [] io1 →
  code_point_outcome
    (visit_low_escape (visit_hex_digits 4 "invalid unicode surrogate pair" 0 (λ low,
       if negb (is_low_surrogate low)
       then io_fail LONEJSON_STATUS_INVALID_JSON "invalid unicode surrogate pair"
       else k (combine_surrogates cp low))) io1) k io s.
Proof.
  intros s cp Hh Ehigh Hr1 He1. set (r := visit_low_escape _ io1).
  assert (rejected r → (∀ l s', scan_string (92 :: 117 :: s) = Some (l, s') →
    decode_items l ≠ None → False) → code_point_outcome r k io s) as Hnone.
  { intros HP HF. right. split; [done|]. intros l s' H. destruct (decode_items l) eqn:E; [|done].
    destruct (HF l s' H). congruence. }
  pose proof (low_escape_ok (visit_hex_digits 4 "invalid unicode surrogate pair" 0 (λ low,
    if negb (is_low_surrogate low)
    then io_fail LONEJSON_STATUS_INVALID_JSON "invalid unicode surrogate pair"
    else k (combine_surrogates cp low))) io1 s1 Hr1) as Hlow. fold r in Hlow.
  assert (∃ s2, s1 = 92 :: 117 :: s2 ∨ rejected r ∧ ∀ s2, s1 ≠ 92 :: 117 :: s2) as (s2 & Hs2).
  { clear -Hlow. repeat case_match; try (exists []; right; split; [done|congruence]).
    eexists. by left. }
  destruct Hs2 as [->|[Hrej Hne]].
  2:{ apply Hnone; [done|]. intros l s' H Hd.
      destruct (scan_pair _ _ _ _ _ _ _ Ehigh H Hd) as (? & ? & ? & ? & ? & Hs & _). by apply Hne in Hs. }
  destruct Hlow as (io2 & Hr & Hr2 & He2). rewrite Hr in Hnone |- *. clear Hr r.
  lazymatch goal with |- context [visit_hex_digits 4 ?m 0 ?k0 io2] =>
    destruct (quad_ok m k0 io2 s2 Hr2)
      as [(a' & b' & c' & d' & s3 & io3 & -> & Hh' & Heq & Hr3 & He3)|[Hrej Hno]] end.
  2:{ apply Hnone; [done|]. intros l s' H Hd.
      destruct (scan_pair _ _ _ _ _ _ _ Ehigh H Hd) as (? & ? & ? & ? & ? & Hs & Hh' & _).
      destruct Hno. injection Hs as ->. by repeat eexists. }
  rewrite Heq in Hnone |- *. clear Heq. set (low := hex_quad a' b' c' d') in *.
  destruct (is_low_surrogate low) eqn:Elow; cbn [negb] in *.
  2:{ apply Hnone; [apply io_fail_rejected|]. intros l s' H Hd.
      destruct (scan_pair _ _ _ _ _ _ _ Ehigh H Hd) as (? & ? & ? & ? & ? & Hs & _ & El).
      injection Hs as <- <- <- <- ->. unfold low in Elow. congruence. }
  left. pose proof (combine_surrogates_scalar cp low Ehigh Elow) as [Hsc _].
  destruct (utf8_bytes (combine_surrogates cp low)) as [out|] eqn:Eout.
  2:{ by rewrite utf8_bytes_arith in Eout. }
  exists [Uni a b c d; Uni a' b' c' d'], (combine_surrogates cp low), out, s3, io3.
  split_and!; [done|done| |done|simpl; lia|done|].
  { eapply emits_nil_l; [done|]. by eapply emits_nil_l. }
  apply utf8_bytes_length in Eout as Hlen. split_and!.
  - by repeat constructor.
  - change (zlen (items_bytes _)) with 12. lia.
  - intros l. cbn [app decode_items]. fold cp low. by rewrite Ehigh, Elow, Eout.
Qed.

Lemma code_point_ok k io s :
  io_ready io s → code_point_outcome (visit_code_point k io) k io s.
Proof.
  intros Hr. unfold visit_code_point.
  lazymatch goal with |- context [visit_hex_digits 4 ?m 0 ?k0 io] =>
    destruct (quad_ok m k0 io s Hr) as [(a & b & c & d & s1 & io1 & -> & Hh & Heq & Hr1 & He1)|[Hrej Hno]] end.
  2:{ right. split; [done|]. intros l s' H.
      destruct (scan_uni _ _ _ H) as (a & b & c & d & l' & _ & Hs & Hh & _).
      destruct Hno. by exists a, b, c, d, (items_bytes l' ++ 34 :: s'). }
  rewrite Heq. clear Heq. destruct (is_high_surrogate (hex_quad a b c d)) eqn:Ehigh.
  { by apply pair_ok. }
  assert (0 ≤ hex_quad a b c d ≤ 0xFFFF) as Hcp.
  { apply andb_true_iff in Hh as [[[Ha Hb]%andb_true_iff Hc]%andb_true_iff Hd].
    by apply hex_quad_range. }
  destruct (is_low_surrogate (hex_quad a b c d)) eqn:Elow.
  { right. split; [apply io_fail_rejected|]. intros l s' H.
    destruct (scan_uni _ _ _ H) as (a0 & b0 & c0 & d0 & l' & -> & Hs & _).
    injection Hs as <- <- <- <- ->. cbn [decode_items]. by rewrite Ehigh, Elow. }
  left. destruct (utf8_bytes (hex_quad a b c d)) as [out|] eqn:Eout.
  2:{ rewrite utf8_bytes_arith in Eout; [done|lia]. }
  exists [Uni a b c d], (hex_quad a b c d), out, s1, io1.
  split_and!; [done|done|done|done|simpl; lia|done|].
  apply utf8_bytes_length in Eout as Hlen. split_and!.
  - by repeat constructor.
  - change (zlen (items_bytes _)) with 6. lia.
  - intros l. cbn [app decode_items]. by rewrite Ehigh, Elow, Eout.
Qed.

Lemma string_spec_emits io io1 r sb s :
  emits io [] io1 → string_spec r io1 sb s → string_spec r io sb s.
Proof.
  intros He. unfold string_spec. repeat case_match; try done. by apply (accepted_emits io io1 _ []).
Qed.

(** Counting and delivering the text of one escape. *)
Lemma decoded_ok its out sb k io s1 :
  stands_for its out → plain sb = [] → io_ready io s1 → buffer_ok sb (items_bytes its ++ s1) →
  (∀ io' sb', io_ready io' s1 → buffer_ok sb' s1 → string_spec (k sb' io') io' sb' s1) →
  string_spec (visit_decoded fn limit out sb k io) io sb (items_bytes its ++ s1).
Proof.
  intros Hst Hp Hr Hb Hk. pose proof Hst as (_ & Hlen & _). pose proof Hb as (_ & Hd & HdN).
  rewrite zlen_app in HdN. pose proof (zlen_nonneg s1). pose proof (zlen_nonneg out).
  unfold visit_decoded. rewrite u64_small by (unfold is_u64; lia).
  destruct (over_limit limit (decoded_bytes sb + zlen out)) eqn:Eo.
  { eapply stands_for_over; [done|done|]. apply io_fail_overflow, Htight.
    apply over_limit_iff in Eo. lia. }
  lazymatch goal with |- context [(lonejson__json_visit_chunk fn out;;; ?k0) io] =>
    destruct (chunk_seq out k0 io s1 Hr) as (io1 & -> & Hr1 & He1) end.
  set (sb1 := mk_string_buffer _ _).
  assert (decoded_to io sb out io1 sb1) as Hto.
  { exists (hears out). cbn. rewrite Hp. cbn. rewrite app_nil_r. by split_and!. }
  eapply string_spec_step; [done|done|]. apply Hk; [done|].
  eapply decoded_to_ok; [done|done|done|]. rewrite zlen_app. lia.
Qed.

(** After a backslash. *)
Lemma escape_ok sb k io s :
  plain sb = [] → io_ready io s → buffer_ok sb (92 :: s) →
  (∀ io' sb' s', (length s' < length s)%nat → io_ready io' s' → buffer_ok sb' s' →
                 string_spec (k sb' io') io' sb' s') →
  string_spec (visit_escape fn limit sb k io) io sb (92 :: s).
Proof.
  intros Hp Hr Hb Hk. unfold visit_escape. destruct s as [|e s].
  { walk_getc_eof (visitor_log visitor) Hr io1 Hr1 He1.
    apply string_spec_refused; [by intros ??? H|apply io_fail_refused]. }
  walk_getc (visitor_log visitor) Hr io1 Hr1 He1 Hb1. pose proof Hb1 as Hb1'. unfold is_byte in Hb1'.
  replace (e =? -2) with false by lia. replace (e =? -1) with false by lia.
  apply (string_spec_emits io io1); [done|]. rewrite u8_small by done.
  destruct (is_simple_escape e) eqn:Es.
  - pose proof (stands_for_escape e Es) as Hst. pose proof (unescape_cases e Es) as Hun.
    change (92 :: e :: s) with (items_bytes [Esc e] ++ s) in *.
    destruct ((e =? 34) || (e =? 92) || (e =? 47)).
    + rewrite Hun in Hst. apply decoded_ok; [done..|]. intros. apply Hk; [simpl; lia|done|done].
    + destruct Hun as [-> ->]. apply decoded_ok; [done..|]. intros. apply Hk; [simpl; lia|done|done].
  - assert ((e =? 34) || (e =? 92) || (e =? 47) = false
            ∧ (e =? 98) || (e =? 102) || (e =? 110) || (e =? 114) || (e =? 116) = false) as [-> ->].
    { unfold is_simple_escape in Es. simpl in Es. rewrite !orb_false_iff in *. tauto. }
    destruct (e =? 117) eqn:Eu.
    2:{ apply string_spec_refused; [|apply io_fail_refused]. intros l s' d H.
        rewrite scan_string_cons in H. change (92 =? 34) with false in H.
        change (92 <? 32) with false in H. change (92 =? 92) with true in H. cbv iota in H.
        by rewrite Eu, Es in H. }
    assert (e = 117) as -> by lia.
    lazymatch goal with |- context [visit_code_point ?k0 io1] =>
      destruct (code_point_ok k0 io1 s Hr1)
        as [(its & cp & out & s1 & io2 & -> & Hr2 & He2 & Hs & Hl & Hout & Hst)|[Hrej Hno]] end.
    2:{ apply string_spec_refused; [|by apply rejected_refused]. intros l s' d H Hd.
        apply Hno in H. congruence. }
    rewrite (utf8_append_Some (mk_scratch [] 6) cp out Hout); cycle 1.
    { apply utf8_bytes_length in Hout. unfold scratch_len. cbn. change (zlen (@nil Z)) with 0. lia. }
    { done. }
    cbn [scratch_data app]. rewrite Hs in Hb |- *. apply (string_spec_emits io1 io2); [done|].
    apply decoded_ok; [done..|]. intros. apply Hk; [simpl; lia|done|done].
Qed.

Lemma string_char_ok sb k io s :
  io_ready io s → buffer_ok sb s →
  (∀ io' sb' s', (length s' < length s)%nat → io_ready io' s' → buffer_ok sb' s' →
                 string_spec (k sb' io') io' sb' s') →
  string_spec (visit_string_char is_key fn end_fn limit sb k io) io sb s.
Proof.
  intros Hr Hb Hk. unfold visit_string_char. destruct s as [|b s].
  { walk_getc_eof (visitor_log visitor) Hr io1 Hr1 He1.
    apply string_spec_refused; [by intros ??? H|apply io_fail_refused]. }
  walk_getc (visitor_log visitor) Hr io1 Hr1 He1 Hb1. pose proof Hb1 as Hb1'. unfold is_byte in Hb1'.
  replace (b =? -2) with false by lia. replace (b =? -1) with false by lia.
  apply (string_spec_emits io io1); [done|]. rewrite u8_small by done.
  destruct (b =? 34) eqn:E34.
  { unfold string_spec. rewrite scan_string_cons, E34. cbn [decode_items].
    change (zlen (@nil Z)) with 0. rewrite Z.add_0_r.
    destruct Hb as (_ & Hd & _). replace (decoded_bytes sb <=? limit) with true by lia.
    destruct (chunk_seq (plain sb) (lonejson__json_visit_event end_fn) io1 s Hr1)
      as (io2 & -> & Hr2 & He2). rewrite app_nil_r. eapply accepted_emits; [done|].
    by apply event_accepted. }
  destruct (b <? 32) eqn:E32.
  { apply string_spec_refused; [|apply io_fail_refused]. intros l s' d H.
    by rewrite scan_string_cons, E34, E32 in H. }
  destruct (b =? 92) eqn:E92; cbn [negb].
  - assert (b = 92) as -> by lia.
    lazymatch goal with |- context [(lonejson__json_visit_chunk fn (plain sb);;; ?k0) io1] =>
      destruct (chunk_seq (plain sb) k0 io1 s Hr1) as (io2 & -> & Hr2 & He2) end.
    set (sb1 := mk_string_buffer [] _).
    assert (string_spec (visit_escape fn limit sb1 k io2) io2 sb1 (92 :: s)) as H.
    { apply escape_ok; [done|done| |intros; apply Hk; [simpl; lia|done|done]].
      destruct Hb as (_ & Hb). by split. }
    unfold string_spec in *. destruct (scan_string (92 :: s)) as [[l s']|]; [|done].
    destruct (decode_items l) as [d|]; [|done]. cbn [decoded_bytes plain sb1] in H.
    destruct (decoded_bytes sb + zlen d <=? limit); [|done].
    rewrite hears_app, <- app_assoc. by eapply accepted_emits.
  - assert (stands_for (map Plain [b]) [b]) as Hst.
    { apply stands_for_plain. constructor; [unfold is_plain; lia|apply Forall_nil_2]. }
    change (b :: s) with (items_bytes (map Plain [b]) ++ s) in *.
    pose proof Hb as (Hp & Hd & HdN). rewrite zlen_app in HdN. change (zlen (items_bytes _)) with 1 in HdN.
    pose proof (zlen_nonneg s). rewrite u64_small by (unfold is_u64; lia).
    change (decoded_bytes sb + 1) with (decoded_bytes sb + zlen [b]).
    destruct (over_limit limit _) eqn:Eo.
    { eapply stands_for_over; [done|done|]. apply io_fail_overflow, Htight.
      apply over_limit_iff in Eo. change (zlen [b]) with 1 in Eo. lia. }
    assert (zlen (plain sb ++ [b]) = zlen (plain sb) + 1) as Hl1 by apply zlen_app.
    assert (∀ io' sb', decoded_to io1 sb [b] io' sb' → io_ready io' s →
      string_spec (k sb' io') io1 sb (items_bytes (map Plain [b]) ++ s)) as Hnext.
    { intros io' sb' Hto Hr'. eapply string_spec_step; [done|done|]. apply Hk; [simpl; lia|done|].
      eapply decoded_to_ok; [done|done|done|]. rewrite zlen_app. change (zlen [b]) with 1.
      change (zlen (items_bytes _)) with 1. lia. }
    destruct (zlen (plain sb ++ [b]) =? plain_capacity) eqn:Efull.
    + lazymatch goal with |- context [(lonejson__json_visit_chunk fn ?data;;; ?k0) io1] =>
        destruct (chunk_seq data k0 io1 s Hr1) as (io2 & -> & Hr2 & He2) end.
      apply Hnext; [|done]. exists (hears (plain sb ++ [b])). cbn. rewrite app_nil_r. by split_and!.
    + apply Hnext; [|done]. exists []. unfold plain_capacity in Efull.
      split_and!; [apply emits_refl|done|done|cbn; lia].
Qed.

Lemma string_loop_ok fuel sb io s :
  io_ready io s → buffer_ok sb s → (length s + 1 < fuel)%nat →
  string_spec (visit_string_loop fuel is_key fn end_fn limit sb io) io sb s.
Proof.
  revert sb io s. induction fuel as [|fuel IH]; intros sb io s Hr Hb Hf; [lia|].
  cbn [visit_string_loop].
  destruct (visit_spans_ok fuel sb io s Hr Hb ltac:(lia))
    as (span & s1 & st & sb1 & io1 & -> & Hplain & -> & Hst).
  rewrite run_bind_done. pose proof (stands_for_plain span Hplain) as Hfor.
  assert (span ++ s1 = items_bytes (map Plain span) ++ s1) as Heq.
  { pose proof (items_bytes_plain span []) as H. rewrite app_nil_r in H. rewrite H. cbn.
    by rewrite app_nil_r. }
  destruct (over_limit limit (decoded_bytes sb + zlen span)) eqn:Eo.
  - subst st. cbn [status_fails]. rewrite Heq. eapply stands_for_over; [done|done|].
    apply over_limit_iff in Eo. destruct Hb as (_ & _ & HdN). rewrite zlen_app in HdN.
    pose proof (zlen_nonneg s1). eexists _, _. split; [done|]. right. split; [done|].
    apply Htight. lia.
  - destruct Hst as (-> & Hr1 & Hto). cbn [status_fails]. rewrite Heq.
    eapply string_spec_step; [done|done|]. rewrite length_app in Hf. apply string_char_ok; [done| |].
    + eapply decoded_to_ok; [done|done|done|]. rewrite zlen_app. lia.
    + intros io' sb' s' Hl Hr' Hb'. apply IH; [done|done|lia].
Qed.
End strings.

(** A string or a key, after its opening quote. *)
Lemma visit_string_ok fuel is_key io s :
  let limit := if is_key : bool then max_key_bytes lim else max_string_bytes lim in
  let evs := if is_key : bool then key_events else string_events in
  io_ready io s → io_limits io = lim → 0 < limit → zlen s ≤ N → (length s + 1 < fuel)%nat →
  match scan_string s with
  | Some (l, s') =>
      match evs limit l with
      | Some es => accepted (lonejson__json_visit_string_value_no_path visitor fuel is_key io) io
                     (said es) s'
      | None => refused (lonejson__json_visit_string_value_no_path visitor fuel is_key io)
      end
  | None => refused (lonejson__json_visit_string_value_no_path visitor fuel is_key io)
  end.
Proof.
  intros limit evs Hr Hlim Hpos Hlen Hf. unfold lonejson__json_visit_string_value_no_path.
  rewrite Hlim.
  assert (∀ fn byte begin_fn begin end_fn last,
    logs_chunk log (heard visitor) fn byte → logs_event log (heard visitor) begin_fn begin →
    logs_event log (heard visitor) end_fn last → (limit < N → tight) →
    evs = text_events begin byte last →
    match scan_string s with
    | Some (l, s') =>
        match evs limit l with
        | Some es => accepted ((lonejson__json_visit_event begin_fn;;;
            visit_string_loop fuel is_key fn end_fn limit (mk_string_buffer [] 0)) io) io (said es) s'
        | None => refused ((lonejson__json_visit_event begin_fn;;;
            visit_string_loop fuel is_key fn end_fn limit (mk_string_buffer [] 0)) io)
        end
    | None => refused ((lonejson__json_visit_event begin_fn;;;
            visit_string_loop fuel is_key fn end_fn limit (mk_string_buffer [] 0)) io)
    end) as Hall.
  { intros fn byte begin_fn begin end_fn last Hfn Hbegin Hend Htight ->.
    lazymatch goal with |- context [(lonejson__json_visit_event begin_fn;;; ?k0) io] =>
      destruct (event_seq begin_fn begin k0 io s Hbegin Hr) as (io1 & -> & Hr1 & He1) end.
    pose proof (string_loop_ok is_key fn byte end_fn last limit Hfn Hend Hpos Htight fuel
      (mk_string_buffer [] 0) io1 s Hr1) as H.
    unfold string_spec in H. unfold text_events. cbn [plain decoded_bytes app] in H.
    assert (buffer_ok limit (mk_string_buffer [] 0) s) as Hb.
    { unfold buffer_ok. cbn. change (zlen (@nil Z)) with 0. lia. }
    specialize (H Hb Hf). destruct (scan_string s) as [[l s']|]; [|done].
    destruct (decode_items l) as [d|]; [|done]. rewrite some_bind, Z.add_0_l in *.
    destruct (zlen d <=? limit); [|done].
    change (begin :: map byte d ++ [last]) with ([begin] ++ map byte d ++ [last]).
    rewrite !said_app. by eapply accepted_emits. }
  unfold tight in Hall. destruct is_key; eapply Hall; try apply LoggingVisitor0; try done; tauto.
Qed.

(** ** Numbers *)

(** No field that matters is 0, and the number buffer's size does not wrap. *)
Definition limits_ok : Prop :=
  0 < max_string_bytes lim ∧ 0 < max_key_bytes lim
  ∧ 0 < max_number_bytes lim ∧ max_number_bytes lim + 1 + sizeof_alloc_header ≤ UINT64_MAX.

Context (Hlim : limits_ok).

Definition number_room (nb : visit_number_buffer) : Prop :=
  vn_capacity nb = max_number_bytes lim + 1.

Lemma vn_push_ok nb ch k io :
  number_room nb → zlen (vn_bytes nb) < max_number_bytes lim → is_byte ch →
  vn_push (R := R) (U := U) nb ch k io
  = k (mk_visit_number (vn_bytes nb ++ [ch]) (vn_capacity nb)) io.
Proof.
  intros Hr Hl Hch. unfold vn_push, vn_size, vn_on_stack, number_room in *. rewrite Hr, u8_small by done.
  destruct Hlim as (_ & _ & Hpos & Hmax). unfold sizeof_alloc_header in Hmax.
  replace (zlen (vn_bytes nb) <? _) with true; [done|]. symmetry. apply Z.ltb_lt.
  destruct (max_number_bytes lim + 1 <=? 256) eqn:E; [lia|]. unfold owned_usable.
  rewrite u64_small by (unfold is_u64, sizeof_alloc_header; lia). unfold sizeof_alloc_header. lia.
Qed.

Lemma free_visit_number_ready nb io s :
  io_ready io s → io_ready (free_visit_number nb io) s ∧ emits io [] (free_visit_number nb io).
Proof.
  intros Hr. apply (Walker.set_allocator_ready (out := log)); [done|].
  apply owned_free_never_fails, Hr.
Qed.

Lemma freeing_accepted nb m io io0 d s : accepted (m io) io0 d s → accepted (freeing nb m io) io0 d s.
Proof.
  intros (io1 & H & Hr & He). unfold freeing. rewrite H, run_bind_done.
  destruct (free_visit_number_ready nb io1 s Hr) as [Hr2 He2]. eexists. split; [done|].
  split; [done|]. rewrite <- (app_nil_r d). by eapply emits_trans.
Qed.

Lemma freeing_refused nb (m : io_fn R U lonejson_status) io : refused (m io) → refused (freeing nb m io).
Proof.
  intros (st & io1 & H & Hst). unfold freeing. rewrite H, run_bind_done. by eexists _, _.
Qed.

(** The byte after what has been read of a token: [s] starts with it. *)
Definition looking_at io (ch : Z) (s : bytes) : Prop :=
  match s with
  | [] => ch = -1 ∧ io_ready io []
  | c :: s1 => ch = c ∧ is_byte c ∧ io_ready io s1 ∧ just_read io
  end.

Lemma lookahead_ok io s :
  io_ready io s →
  ∃ ch io1, lonejson__json_cursor_getc_lookahead io = Done (ch, io1) ∧ looking_at io1 ch s
            ∧ emits io [] io1.
Proof.
  intros Hr. unfold lonejson__json_cursor_getc_lookahead. destruct s as [|c s].
  - destruct (getc_nil false io (proj1 Hr)) as (io1 & -> & Hr1 & Hs). exists (-1), io1.
    split; [done|]. split; [|by apply emits_same]. split; [done|by eapply io_ready_same].
  - destruct (getc_cons false io c s (proj1 Hr)) as (io1 & -> & Hr1 & Hs & Hj). exists c, io1.
    split; [done|]. split; [|by apply emits_same].
    split; [done|]. split; [by eapply io_rest_head, Hr|]. split; [by eapply io_ready_same|done].
Qed.

(** The whole token is [t], and [s'] follows it. *)
Definition number_spec (r : run (lonejson_status * lonejson__json_io R U)) io (t s' : bytes) : Prop :=
  if lonejson__is_valid_json_number t && (zlen t <=? max_number_bytes lim)
  then accepted r io (said (map NumberByte t ++ [NumberEnd])) s' else refused r.

Lemma number_spec_emits io io1 r t s : emits io [] io1 → number_spec r io1 t s → number_spec r io t s.
Proof. intros He. unfold number_spec. case_match; [|done]. by apply (accepted_emits io io1 _ []). Qed.

Lemma number_end_ok nb ch io s :
  looking_at io ch s → zlen (vn_bytes nb) ≤ max_number_bytes lim →
  number_spec (visit_number_end visitor nb ch io) io (vn_bytes nb) s.
Proof.
  intros Hla Hlen. unfold visit_number_end, number_spec.
  set (io1 := if 0 <=? ch then _ else _). replace (zlen _ <=? _) with true by lia.
  rewrite andb_true_r.
  assert (io_ready io1 s ∧ emits io [] io1 ∧ ch ≠ -2) as (Hr1 & He1 & Hch).
  { unfold looking_at in Hla. destruct s as [|c s].
    - destruct Hla as [-> Hr]. split_and!; [done|apply emits_refl|done].
    - destruct Hla as (-> & Hb & Hr & Hj). pose proof Hb as Hb'. unfold is_byte in Hb'.
      unfold io1. replace (0 <=? c) with true by lia.
      destruct (ungetc_ready (out := log) io c s Hr Hj Hb). split_and!; [done|done|lia]. }
  clearbody io1. replace (ch =? -2) with false by lia.
  destruct (lonejson__is_valid_json_number (vn_bytes nb)); cbn [negb].
  2:{ apply freeing_refused, io_fail_refused. }
  apply (accepted_emits io io1 _ []); [done|]. apply freeing_accepted. rewrite said_app.
  destruct (chunk_seq (number_chunk visitor) NumberByte (number_end visitor) NumberEnd
    logs_number_chunk logs_number_end (vn_bytes nb)
    (lonejson__json_visit_event (number_end visitor)) io1 s Hr1) as (io2 & -> & Hr2 & He2).
  eapply accepted_emits; [done|]. by apply event_accepted; [apply logs_number_end|].
Qed.

Lemma number_loop_ok fuel nb ch io s :
  number_room nb → io_limits io = lim → looking_at io ch s →
  zlen (vn_bytes nb) ≤ max_number_bytes lim → zlen (vn_bytes nb) + zlen s ≤ N →
  (length s < fuel)%nat →
  number_spec (visit_number_loop visitor fuel nb ch io) io
    (vn_bytes nb ++ take_while is_number_char s) (drop_while is_number_char s).
Proof.
  revert nb ch io s. induction fuel as [|fuel IH]; intros nb ch io s Hroom Hli Hla Hlen HsN Hf; [lia|].
  cbn [visit_number_loop]. destruct s as [|c s].
  { pose proof Hla as [-> _]. cbn [take_while drop_while]. rewrite app_nil_r.
    by apply number_end_ok. }
  pose proof Hla as (-> & Hb & Hr & _). unfold is_byte in Hb. replace (0 <=? c) with true by lia.
  change (visit_number_char c) with (is_number_char c). cbn [andb take_while drop_while].
  destruct (is_number_char c) eqn:Ec; [|rewrite app_nil_r; by apply number_end_ok].
  unfold lonejson__json_enforce_total_limit.
  pose proof (proj1 Hr) as (_ & _ & _ & Htot & _). pose proof (zlen_nonneg s).
  replace (negb (max_total_bytes (io_limits io) =? 0)
           && (max_total_bytes (io_limits io) <? io_total_bytes io)) with false by lia.
  rewrite run_bind_done, decide_False by auto. rewrite Hli. rewrite zlen_cons in HsN.
  destruct (max_number_bytes lim <=? zlen (vn_bytes nb)) eqn:Emax.
  { unfold number_spec. rewrite zlen_app, zlen_cons.
    pose proof (zlen_nonneg (take_while is_number_char s)).
    replace (zlen (vn_bytes nb) + _ <=? max_number_bytes lim) with false by lia.
    rewrite andb_false_r. apply freeing_refused. unfold number_too_long. apply io_fail_overflow.
    unfold tight. lia. }
  rewrite vn_push_ok by (done || lia).
  destruct (lookahead_ok io s Hr) as (ch1 & io1 & -> & Hla1 & He1). rewrite run_bind_done.
  apply (number_spec_emits io io1); [done|].
  replace (vn_bytes nb ++ c :: take_while is_number_char s)
    with (vn_bytes (mk_visit_number (vn_bytes nb ++ [c]) (vn_capacity nb))
          ++ take_while is_number_char s) by (cbn; by rewrite <- app_assoc).
  assert (zlen (vn_bytes nb ++ [c]) = zlen (vn_bytes nb) + 1) as Hl1 by apply zlen_app.
  apply IH; [done|by rewrite (io_limits_emits _ _ _ He1)|done|cbn; lia|cbn; lia|simpl in Hf; lia].
Qed.

(** A number, after its first byte. *)
Lemma visit_number_ok fuel c io s :
  io_ready io s → io_limits io = lim → is_byte c → zlen s + 1 ≤ N → (length s < fuel)%nat →
  starts_number c = true →
  let t := c :: take_while is_number_char s in
  if lonejson__is_valid_json_number t && (zlen t <=? max_number_bytes lim)
  then accepted (lonejson__json_visit_number_no_path visitor fuel c io) io
         (said (NumberBegin :: map NumberByte t ++ [NumberEnd])) (drop_while is_number_char s)
  else refused (lonejson__json_visit_number_no_path visitor fuel c io).
Proof.
  intros Hr Hli Hc HsN Hf Hst t. unfold lonejson__json_visit_number_no_path. rewrite Hli.
  pose proof Hlim as (_ & _ & Hpos & Hmax). unfold sizeof_alloc_header in Hmax.
  rewrite u64_small by (unfold is_u64; lia). set (nb := mk_visit_number [] _).
  assert (∃ a, (if vn_on_stack nb then (true, io_allocator io)
                else lonejson__owned_malloc (io_allocator io) (vn_capacity nb)) = (true, a)
               ∧ never_fails a) as (a & -> & Ha).
  { destruct (vn_on_stack nb); [exists (io_allocator io); split; [done|apply Hr]|].
    apply owned_malloc_ok, Hr. }
  destruct (Walker.set_allocator_ready (out := log) io a s Hr Ha) as [Hr1 He1]. cbn [negb].
  destruct (event_accepted (number_begin visitor) NumberBegin (set_allocator io a) s
              logs_number_begin Hr1) as (io2 & -> & Hr2 & He2).
  rewrite run_bind_done. cbn [status_fails].
  rewrite (io_limits_emits _ _ _ He2). change (io_limits (set_allocator io a)) with (io_limits io).
  rewrite Hli. replace (max_number_bytes lim <=? 0) with false by lia.
  rewrite vn_push_ok; [|done|cbn; change (zlen (@nil Z)) with 0; lia|done].
  destruct (lookahead_ok io2 s Hr2) as (ch & io3 & -> & Hla & He3). rewrite run_bind_done.
  pose proof (number_loop_ok fuel (mk_visit_number ([] ++ [c]) (vn_capacity nb)) ch io3 s) as H.
  cbn [vn_bytes app] in H. change (zlen [c]) with 1 in H. unfold number_spec in H. fold t in H.
  rewrite (io_limits_emits _ _ _ He3), (io_limits_emits _ _ _ He2) in H.
  specialize (H eq_refl Hli Hla ltac:(lia) ltac:(lia) Hf).
  change (vn_bytes nb ++ [c]) with [c]. destruct (_ && _); [|done].
  change (NumberBegin :: map NumberByte t ++ [NumberEnd])
    with ([NumberBegin] ++ (map NumberByte t ++ [NumberEnd])).
  rewrite said_app. eapply (accepted_emits io io3); [|done].
  eapply emits_nil_l; [done|]. rewrite <- (app_nil_r (said [NumberBegin])). by eapply emits_trans.
Qed.

(** ** Literals *)

Lemma literal_rest_ok rest k io s :
  is_bytes rest → io_ready io s →
  match strip rest s with
  | Some s' => ∃ io1, visit_literal_rest rest k io = k io1 ∧ io_ready io1 s' ∧ emits io [] io1
  | None => rejected (visit_literal_rest rest k io)
  end.
Proof.
  intros Hbytes. revert io s. induction Hbytes as [|r rest Hrb _ IH]; intros io s Hr.
  { exists io. split_and!; [done|by destruct s|apply emits_refl]. }
  cbn [visit_literal_rest]. destruct s as [|b s].
  { cbn [strip]. walk_getc_eof (visitor_log visitor) Hr io1 Hr1 He1. unfold is_byte in Hrb.
    change (-1 =? -2) with false. cbv iota. replace (-1 =? r) with false by lia.
    apply io_fail_rejected. }
  cbn [strip]. walk_getc (visitor_log visitor) Hr io1 Hr1 He1 Hb. unfold is_byte in Hb.
  replace (b =? -2) with false by lia. destruct (b =? r); cbn [negb]; [|apply io_fail_rejected].
  specialize (IH io1 s Hr1). destruct (strip rest s) as [s'|]; [|done].
  destruct IH as (io2 & -> & Hr2 & He2). exists io2. split_and!; [done|done|]. by eapply emits_nil_l.
Qed.

Lemma bool_accepted b io s :
  io_ready io s → accepted (lonejson__json_visit_bool visitor b io) io (said [BoolValue b]) s.
Proof.
  intros Hr. unfold lonejson__json_visit_bool, said. pose proof logs_boolean as H.
  unfold logs_bool in H. cbn. destruct (boolean_value visitor) as [f|].
  - destruct H as [-> Hf]. destruct (Hf (io_user io) b (io_error io)) as (u & -> & Hu).
    eexists. split; [done|]. split; [by apply set_user_ready|]. by split_and!.
  - rewrite H. exists io. split_and!; [done|done|apply emits_refl].
Qed.

(** ** Arrays, objects, values *)

(** A walk that should deliver the events and stop in front of what is left. *)
Definition outcome (r : run (lonejson_status * lonejson__json_io R U)) io
    (o : option (list event * bytes)) : Prop :=
  match o with
  | Some (es, s') => accepted r io (said es) s'
  | None => refused r
  end.

Lemma outcome_emits io io1 r e o :
  emits io (said e) io1 → outcome r io1 o →
  outcome r io ('(es, s') ← o; Some (e ++ es, s')).
Proof.
  intros He. destruct o as [[es s']|]; [|done]. cbn. rewrite said_app. by eapply accepted_emits.
Qed.

Lemma outcome_skip io io1 r o : emits io [] io1 → outcome r io1 o → outcome r io o.
Proof. intros He. destruct o as [[es s']|]; [|done]. by apply (accepted_emits io io1 _ []). Qed.

(** The walker can go on: the limits are in force, and the depth is counted. *)
Definition visit_ok io (s : bytes) : Prop :=
  io_limits io = lim ∧ 0 ≤ io_depth io ∧ io_depth io + zlen s ≤ N.

(** Inside an array or object the values are one level deeper. *)
Definition inner_ok io (s : bytes) : Prop :=
  io_limits io = lim ∧ 0 ≤ io_depth io ∧ io_depth io + 1 + zlen s ≤ N.

Lemma inner_ok_emits io d io' s s' :
  emits io d io' → inner_ok io s → (length s' ≤ length s)%nat → inner_ok io' s'.
Proof.
  unfold inner_ok. intros (_ & _ & _ & _ & -> & ->) (? & ? & ?) ?. unfold zlen in *.
  split_and!; [done|lia|lia].
Qed.

Lemma visit_ok_inner io d io' s s' :
  emits io d io' → visit_ok io s → (length s' < length s)%nat → inner_ok io' s'.
Proof.
  unfold visit_ok, inner_ok. intros (_ & _ & _ & _ & -> & ->) (? & ? & ?) ?. unfold zlen in *.
  split_and!; [done|lia|lia].
Qed.

Lemma visit_separator_ok first message k io c s :
  io_ready io (c :: s) →
  match (if first : bool then Some (c :: s) else if c =? ","%ch then Some s else None) with
  | Some s2 => ∃ io', visit_separator first message k io = k io' ∧ io_ready io' s2 ∧ emits io [] io'
                      ∧ (length s2 ≤ length (c :: s))%nat
  | None => rejected (visit_separator first message k io)
  end.
Proof.
  intros Hr. unfold visit_separator. destruct first.
  { exists io. split_and!; [done|done|apply emits_refl|done]. }
  walk_getc (visitor_log visitor) Hr io1 Hr1 He1 Hb.
  destruct (c =? 44); cbn [negb]; [|apply io_fail_rejected].
  exists io1. split_and!; [done|done|done|simpl; lia].
Qed.

Definition value_spec (n : nat) : Prop := ∀ io s,
  io_ready io s → visit_ok io s → (2 * length s + 2 ≤ n)%nat →
  outcome (lonejson__json_visit_value_no_path visitor n io) io
    ('(v, s') ← ref_value n s; es ← value_events lim (io_depth io) v; Some (es, s')).

Definition array_spec (n : nat) : Prop := ∀ first io s,
  io_ready io s → inner_ok io s → (2 * length s + 3 ≤ n)%nat →
  outcome (visit_array_loop visitor n first io) io
    ('(vs, s') ← ref_elements n first s; es ← elements_events lim (io_depth io + 1) vs; Some (es, s')).

Definition object_spec (n : nat) : Prop := ∀ first io s,
  io_ready io s → inner_ok io s → (2 * length s + 3 ≤ n)%nat →
  outcome (visit_object_loop visitor n first io) io
    ('(ms, s') ← ref_members n first s; es ← members_events lim (io_depth io + 1) ms; Some (es, s')).

(** A value inside an array or object, and what follows it. *)
Lemma visit_nested_ok n k io s o :
  value_spec n → io_ready io s → inner_ok io s → (2 * length s + 2 ≤ n)%nat →
  (∀ v es io' s', ref_value n s = Some (v, s') → value_events lim (io_depth io + 1) v = Some es →
     io_ready io' s' → emits io (said es) io' → outcome (k io') io' (o v s')) →
  outcome (visit_nested (lonejson__json_visit_value_no_path visitor n) k io) io
    ('(v, s') ← ref_value n s; es ← value_events lim (io_depth io + 1) v;
     '(es', s') ← o v s'; Some (es ++ es', s')).
Proof.
  intros IH Hr (Hli & Hd & HsN) Hf Hk. unfold visit_nested. pose proof (zlen_nonneg s).
  rewrite u64_small by (unfold is_u64; lia).
  set (io0 := set_depth io (io_depth io + 1)).
  assert (visit_ok io0 s) as Hv by (split_and!; cbn; [done|lia|lia]).
  specialize (IH io0 s Hr Hv Hf). change (io_depth io0) with (io_depth io + 1) in IH.
  destruct (ref_value n s) as [[v s']|] eqn:Ev.
  2:{ destruct IH as (st & io1 & -> & Hst). rewrite run_bind_done. cbn [mbind option_bind].
      exists st. eexists. split; [|done]. by destruct Hst as [->|[-> _]]. }
  rewrite some_bind in IH |- *. destruct (value_events lim (io_depth io + 1) v) as [es|] eqn:Ee.
  2:{ destruct IH as (st & io1 & -> & Hst). rewrite run_bind_done. cbn [mbind option_bind].
      exists st. eexists. split; [|done]. by destruct Hst as [->|[-> _]]. }
  rewrite some_bind in IH |- *. destruct IH as (io1 & -> & Hr1 & He1).
  rewrite run_bind_done. cbn [status_fails]. destruct He1 as (E1 & E2 & E3 & E4 & E5 & E6).
  cbn in E1, E2, E3, E4, E5, E6. rewrite E5, u64_small by (unfold is_u64; lia).
  set (io2 := set_depth io1 _).
  assert (emits io (said es) io2) as He2.
  { unfold Walker.emits. cbn. split_and!; [done..|lia|done]. }
  eapply outcome_emits; [done|]. by eapply Hk.
Qed.

Lemma visit_array_step n : value_spec n → array_spec n → array_spec (S n).
Proof.
  intros IHv IHa first io s Hr Hi Hn. cbn [ref_elements]. rewrite visit_array_loop_S.
  walk_peek (visitor_log visitor) Hr io1 Hr1 He1. destruct (skip_ws s) as [|c s1] eqn:Ews; [apply io_fail_refused|].
  pose proof (skip_ws_head_length _ _ _ Ews) as Hl.
  pose proof (io_rest_head _ _ _ (proj1 Hr1)) as Hc. unfold is_byte in Hc.
  replace (c =? -2) with false by lia. replace (c =? -1) with false by lia.
  pose proof (inner_ok_emits _ _ _ _ (c :: s1) He1 Hi ltac:(simpl; lia)) as Hi1.
  rewrite <- (io_depth_emits _ _ _ He1). apply (outcome_skip io io1); [done|].
  destruct (c =? 93).
  { walk_close (visitor_log visitor) Hr1 io2 Hr2 He2. apply (outcome_skip io1 io2); [done|]. cbn.
    apply event_accepted; [apply logs_array_end|done]. }
  lazymatch goal with |- context [visit_separator first ?m ?k io1] =>
    pose proof (visit_separator_ok first m k io1 c s1 Hr1) as Hsep end.
  destruct (if first then _ else _) as [s2|]; [|by apply rejected_refused]. rewrite some_bind.
  destruct Hsep as (io2 & -> & Hr2 & He2 & Hl2). simpl in Hl2.
  pose proof (inner_ok_emits _ _ _ _ s2 He2 Hi1 Hl2) as Hi2.
  rewrite <- (io_depth_emits _ _ _ He2). apply (outcome_skip io1 io2); [done|].
  pose proof (visit_nested_ok n (visit_array_loop visitor n false) io2 s2
    (λ _ s3, '(vs, s4) ← ref_elements n false s3;
             es ← elements_events lim (io_depth io2 + 1) vs; Some (es, s4))
    IHv Hr2 Hi2 ltac:(lia)) as H. revert H.
  destruct (ref_value n s2) as [[v s3]|] eqn:Ev; intros H; [|by apply H].
  apply ref_value_shorter in Ev as Hl3. cbn [mbind option_bind] in H |- *.
  assert (∀ es io3, value_events lim (io_depth io2 + 1) v = Some es → io_ready io3 s3 →
    emits io2 (said es) io3 → outcome (visit_array_loop visitor n false io3) io3
      ('(vs, s4) ← ref_elements n false s3;
       es ← elements_events lim (io_depth io2 + 1) vs; Some (es, s4))) as Hnext.
  { intros es io3 _ Hr3 He3. rewrite <- (io_depth_emits _ _ _ He3). apply IHa; [done| |lia].
    eapply inner_ok_emits; [done|done|lia]. }
  specialize (H ltac:(intros ???? [= <- <-]; apply Hnext)).
  destruct (ref_elements n false s3) as [[vs s4]|]; cbn [mbind option_bind] in *.
  - cbn [elements_events]. destruct (value_events lim _ v) as [es|]; [|done]. cbn [mbind option_bind] in *.
    by destruct (elements_events lim _ vs).
  - by destruct (value_events lim _ v).
Qed.

(** A key and its colon; [o] is what should come after them. *)
Lemma visit_key_ok fuel k io s o :
  io_ready io s → inner_ok io s → (length s + 1 < fuel)%nat →
  (∀ key es s4 d s5 io', scan_string (drop 1 (skip_ws s)) = Some (key, s4) →
     skip_ws s4 = d :: s5 → (length s5 < length s)%nat →
     io_ready io' s5 → emits io (said es) io' → outcome (k io') io' (o key s5)) →
  outcome (visit_key visitor fuel k io) io
    (match skip_ws s with
     | [] => None
     | q :: s3 =>
         if negb (q =? 34) then None
         else
           '(key, s4) ← scan_string s3;
           match skip_ws s4 with
           | [] => None
           | d :: s5 =>
               if negb (d =? ":"%ch) then None
               else ks ← key_events (max_key_bytes lim) key;
                    '(es, r) ← o key s5; Some (ks ++ es, r)
           end
     end).
Proof.
  intros Hr (Hli & Hd & HsN) Hf Hk. unfold visit_key.
  walk_peek (visitor_log visitor) Hr io1 Hr1 He1.
  destruct (skip_ws s) as [|q s3] eqn:Ews; [apply io_fail_refused|].
  pose proof (skip_ws_head_length _ _ _ Ews) as Hl. cbn [drop] in Hk.
  destruct (negb (q =? 34)); [apply io_fail_refused|].
  walk_close (visitor_log visitor) Hr1 io2 Hr2 He2.
  assert (emits io [] io2) as He by (by eapply emits_nil_l).
  pose proof (visit_string_ok fuel true io2 s3) as Hstr. cbn zeta iota in Hstr.
  assert (zlen s3 ≤ N) as Hs3 by (unfold zlen in *; lia).
  specialize (Hstr Hr2 ltac:(by rewrite (io_limits_emits _ _ _ He)) ltac:(by destruct Hlim as (_ & ? & _)) Hs3
    ltac:(lia)).
  destruct (scan_string s3) as [[key s4]|] eqn:Escan; [|by apply refused_seq].
  cbn [mbind option_bind]. apply scan_string_shorter in Escan as Hl4.
  destruct (key_events (max_key_bytes lim) key) as [ks|] eqn:Ek.
  2:{ lazymatch goal with |- outcome _ _ ?P =>
        assert (P = None) as -> by (destruct (skip_ws s4); [done|]; by destruct (negb _)) end.
      by apply refused_seq. }
  lazymatch goal with |- context [io_seq (lonejson__json_visit_string_value_no_path visitor fuel true) ?k0 io2] =>
    destruct (accepted_seq _ k0 io2 _ _ Hstr) as (io3 & H & Hr3 & He3) end.
  rewrite H. clear H Hstr. walk_peek (visitor_log visitor) Hr3 io4 Hr4 He4.
  destruct (skip_ws s4) as [|d s5] eqn:Ews4; [apply io_fail_refused|].
  apply skip_ws_head_length in Ews4 as Hl5.
  destruct (negb (d =? 58)); [apply io_fail_refused|].
  walk_close (visitor_log visitor) Hr4 io5 Hr5 He5.
  assert (emits io (said ks) io5) as Hall.
  { eapply emits_nil_l; [done|]. rewrite <- (app_nil_r (said ks)). eapply emits_trans; [done|].
    by eapply emits_nil_l. }
  eapply outcome_emits; [done|]. eapply Hk; [done|done|lia|done|done].
Qed.

Lemma visit_object_step n : value_spec n → object_spec n → object_spec (S n).
Proof.
  intros IHv IHo first io s Hr Hi Hn. cbn [ref_members]. rewrite visit_object_loop_S.
  walk_peek (visitor_log visitor) Hr io1 Hr1 He1. destruct (skip_ws s) as [|c s1] eqn:Ews; [apply io_fail_refused|].
  pose proof (skip_ws_head_length _ _ _ Ews) as Hl.
  pose proof (io_rest_head _ _ _ (proj1 Hr1)) as Hc. unfold is_byte in Hc.
  replace (c =? -2) with false by lia. replace (c =? -1) with false by lia.
  pose proof (inner_ok_emits _ _ _ _ (c :: s1) He1 Hi ltac:(simpl; lia)) as Hi1.
  rewrite <- (io_depth_emits _ _ _ He1). apply (outcome_skip io io1); [done|].
  destruct (c =? 125).
  { walk_close (visitor_log visitor) Hr1 io2 Hr2 He2. apply (outcome_skip io1 io2); [done|]. cbn.
    apply event_accepted; [apply logs_object_end|done]. }
  lazymatch goal with |- context [visit_separator first ?m ?k io1] =>
    pose proof (visit_separator_ok first m k io1 c s1 Hr1) as Hsep end.
  destruct (if first then _ else _) as [s2|]; [|by apply rejected_refused]. rewrite some_bind.
  destruct Hsep as (io2 & -> & Hr2 & He2 & Hl2). simpl in Hl2.
  pose proof (inner_ok_emits _ _ _ _ s2 He2 Hi1 Hl2) as Hi2.
  rewrite <- (io_depth_emits _ _ _ He2). apply (outcome_skip io1 io2); [done|].
  set (D := io_depth io2 + 1).
  set (after := λ s6 : bytes, '(ms, s7) ← ref_members n false s6;
                              es ← members_events lim D ms; Some (es, s7)).
  set (o := λ (key : list str_item) s5, '(v, s6) ← ref_value n s5; es ← value_events lim D v;
                 '(es', s7) ← after s6; Some (es ++ es', s7)).
  lazymatch goal with |- context [visit_key visitor n ?k0 io2] =>
    assert (outcome (visit_key visitor n k0 io2) io2
    (match skip_ws s2 with
     | [] => None
     | q :: s3 =>
         if negb (q =? 34) then None
         else
           '(key, s4) ← scan_string s3;
           match skip_ws s4 with
           | [] => None
           | d :: s5 =>
               if negb (d =? ":"%ch) then None
               else ks ← key_events (max_key_bytes lim) key;
                    '(es, r) ← o key s5; Some (ks ++ es, r)
           end
     end)) as H end.
  { apply visit_key_ok; [done|done|lia|]. intros key es s4 d s5 io3 _ _ Hl5 Hr3 He3.
    assert (io_depth io3 + 1 = D) as HD by (by rewrite (io_depth_emits _ _ _ He3)).
    assert (inner_ok io3 s5) as Hi3 by (eapply inner_ok_emits; [done|done|lia]).
    unfold o. rewrite <- HD.
    apply (visit_nested_ok n (visit_object_loop visitor n false) io3 s5 (λ _ s6, after s6));
      [done|done|done|lia|].
    intros v es' io4 s6 Ev _ Hr4 He4. apply ref_value_shorter in Ev. unfold after.
    rewrite <- HD, <- (io_depth_emits _ _ _ He4). apply IHo; [done| |lia].
    eapply inner_ok_emits; [done|done|lia]. }
  revert H. generalize (visit_key visitor n
    (visit_nested (lonejson__json_visit_value_no_path visitor n) (visit_object_loop visitor n false)) io2).
  intros r H. clear -H. unfold o, after in H. clear o after.
  destruct (skip_ws s2) as [|q s3]; [done|]. destruct (negb (q =? 34)); [done|].
  destruct (scan_string s3) as [[key s4]|]; [|done]. cbn [mbind option_bind] in *.
  destruct (skip_ws s4) as [|d s5]; [done|]. destruct (negb (d =? 58)); [done|].
  destruct (ref_value n s5) as [[v s6]|]; cbn [mbind option_bind] in *;
    [|by destruct (key_events _ key)].
  destruct (ref_members n false s6) as [[ms s7]|]; cbn [mbind option_bind members_events] in *;
    destruct (key_events _ key) as [ks|]; try done; cbn [mbind option_bind] in *;
    destruct (value_events lim D v) as [es|]; try done; cbn [mbind option_bind] in *.
  by destruct (members_events lim D ms).
Qed.

Lemma visit_literal_ok c rest is_bool k io s1 v ev :
  is_bytes rest → io_ready io s1 →
  k = (if is_bool : bool then lonejson__json_visit_bool (R := R) visitor (c =? "t"%ch)
       else lonejson__json_visit_event (null_value visitor)) →
  (∀ io' s', io_ready io' s' → accepted (k io') io' (said [ev]) s') →
  (∀ d, value_events lim d v = Some [ev]) →
  outcome (lonejson__json_visit_literal_no_path visitor c rest is_bool io) io
    ('(v, s') ← (r ← strip rest s1; Some (v, r)); es ← value_events lim (io_depth io) v;
     Some (es, s')).
Proof.
  intros Hb Hr Hk Hacc Hev. unfold lonejson__json_visit_literal_no_path. rewrite <- Hk.
  pose proof (literal_rest_ok rest k io s1 Hb Hr) as H.
  destruct (strip rest s1) as [r|]; cbn [mbind option_bind]; [|by apply rejected_refused].
  rewrite Hev. destruct H as (io1 & -> & Hr1 & He1).
  apply (accepted_emits io io1 _ []); [done|]. by apply Hacc.
Qed.

(** [io->depth >= io->limits.max_depth], then the opening event and the rest. *)
Lemma open_ok fn ev k io s o :
  io_ready io s → inner_ok io s → logs_event log (heard visitor) fn ev →
  (∀ io', io_ready io' s → emits io (said [ev]) io' → outcome (k io') io' o) →
  outcome (depth_check (lonejson__json_visit_event fn;;; k) io) io
    (if max_depth lim <=? io_depth io then None else '(es, s') ← o; Some (ev :: es, s')).
Proof.
  intros Hr (Hli & Hd & HsN) Hfn Hk. unfold depth_check. rewrite Hli. pose proof (zlen_nonneg s).
  destruct (max_depth lim <=? io_depth io) eqn:E.
  { apply io_fail_overflow. left. lia. }
  destruct (event_seq fn ev k io s Hfn Hr) as (io1 & -> & Hr1 & He1).
  apply (outcome_emits io io1 _ [ev]); [done|]. by apply Hk.
Qed.

Lemma visit_value_step n : array_spec n → object_spec n → value_spec (S n).
Proof.
  intros IHa IHo io s Hr Hv Hn. cbn [ref_value]. rewrite visit_value_S.
  walk_peek (visitor_log visitor) Hr io1 Hr1 He1.
  destruct (skip_ws s) as [|c s1] eqn:Ews; [apply io_fail_refused|].
  pose proof (skip_ws_head_length _ _ _ Ews) as Hl.
  pose proof (io_rest_head _ _ _ (proj1 Hr1)) as Hc. pose proof Hc as Hc'. unfold is_byte in Hc'.
  replace (c =? -2) with false by lia. replace (c =? -1) with false by lia.
  walk_close (visitor_log visitor) Hr1 io2 Hr2 He2.
  assert (emits io [] io2) as He by (by eapply emits_nil_l). clear Hr1 He1 He2 io1.
  apply (outcome_skip io io2); [done|]. rewrite <- (io_depth_emits _ _ _ He).
  pose proof (visit_ok_inner _ _ _ _ s1 He Hv ltac:(lia)) as Hi. clear He.
  pose proof Hi as (Hli & Hd & HsN). pose proof (zlen_nonneg s1) as Hn1.
  destruct (c =? 34).
  { pose proof (visit_string_ok n false io2 s1) as H. cbn zeta iota in H.
    specialize (H Hr2 Hli ltac:(by destruct Hlim) ltac:(lia) ltac:(lia)).
    destruct (scan_string s1) as [[l r]|]; [|done]. cbn [mbind option_bind].
    change (value_events lim (io_depth io2) (JStr l)) with (string_events (max_string_bytes lim) l).
    by destruct (string_events _ l). }
  destruct (c =? 123).
  { pose proof (open_ok (object_begin visitor) ObjectBegin (visit_object_loop visitor n true) io2 s1
      ('(ms, r) ← ref_members n true s1; es ← members_events lim (io_depth io2 + 1) ms; Some (es, r))
      Hr2 Hi logs_object_begin) as H.
    assert (∀ io', io_ready io' s1 → emits io2 (said [ObjectBegin]) io' →
      outcome (visit_object_loop visitor n true io') io'
        ('(ms, r) ← ref_members n true s1; es ← members_events lim (io_depth io2 + 1) ms; Some (es, r)))
      as Hnext.
    { intros io3 Hr3 He3. rewrite <- (io_depth_emits _ _ _ He3). apply IHo; [done| |lia].
      by eapply inner_ok_emits. }
    specialize (H Hnext). unfold lonejson__json_visit_object_no_path.
    destruct (ref_members n true s1) as [[ms r]|]; cbn [mbind option_bind] in *; [|by destruct (_ <=? _)].
    rewrite value_events_obj. destruct (_ <=? _); [done|]. by destruct (members_events _ _ ms). }
  destruct (c =? 91).
  { pose proof (open_ok (array_begin visitor) ArrayBegin (visit_array_loop visitor n true) io2 s1
      ('(vs, r) ← ref_elements n true s1; es ← elements_events lim (io_depth io2 + 1) vs; Some (es, r))
      Hr2 Hi logs_array_begin) as H.
    assert (∀ io', io_ready io' s1 → emits io2 (said [ArrayBegin]) io' →
      outcome (visit_array_loop visitor n true io') io'
        ('(vs, r) ← ref_elements n true s1; es ← elements_events lim (io_depth io2 + 1) vs; Some (es, r)))
      as Hnext.
    { intros io3 Hr3 He3. rewrite <- (io_depth_emits _ _ _ He3). apply IHa; [done| |lia].
      by eapply inner_ok_emits. }
    specialize (H Hnext). unfold lonejson__json_visit_array_no_path.
    destruct (ref_elements n true s1) as [[vs r]|]; cbn [mbind option_bind] in *; [|by destruct (_ <=? _)].
    rewrite value_events_arr. destruct (_ <=? _); [done|]. by destruct (elements_events _ _ vs). }
  destruct (c =? 116) eqn:Et; [assert (c = 116) as -> by lia|].
  { eapply visit_literal_ok with (ev := BoolValue true); [|done|reflexivity|by intros; apply bool_accepted|done].
    apply (bool_decide_unpack _). vm_compute. exact I. }
  destruct (c =? 102) eqn:Ef; [assert (c = 102) as -> by lia|].
  { eapply visit_literal_ok with (ev := BoolValue false); [|done|reflexivity|by intros; apply bool_accepted|done].
    apply (bool_decide_unpack _). vm_compute. exact I. }
  destruct (c =? 110) eqn:En; [assert (c = 110) as -> by lia|].
  { eapply visit_literal_ok with (ev := NullValue); [|done|reflexivity| |done].
    - apply (bool_decide_unpack _). vm_compute. exact I.
    - intros. apply event_accepted; [apply logs_null|done]. }
  change ((c =? 45) || lonejson__is_digit c) with (starts_number c).
  destruct (starts_number c) eqn:Est; [|apply io_fail_refused].
  pose proof (visit_number_ok n c io2 s1 Hr2 Hli Hc ltac:(lia) ltac:(lia) Est) as H. cbn zeta in H.
  rewrite scan_number_cons by done.
  destruct (lonejson__is_valid_json_number _); cbn [andb] in H; [|done]. cbn [mbind option_bind].
  change (value_events lim (io_depth io2) (JNum ?t)) with
    (if zlen t <=? max_number_bytes lim then Some (NumberBegin :: map NumberByte t ++ [NumberEnd]) else None).
  by destruct (_ <=? _).
Qed.

(** The walker agrees with the reference parser, on every input. *)
Lemma visit_walker_spec n : value_spec n ∧ array_spec n ∧ object_spec n.
Proof.
  induction n as [|n (IHv & IHa & IHo)].
  - split_and!; [intros io s _ _ H|intros first io s _ _ H..]; lia.
  - split_and!; [by apply visit_value_step|by apply visit_array_step|by apply visit_object_step].
Qed.
End visit_spec.

(** ** Whole documents *)

(** The limits as a caller passes them: [size_t] fields, a number limit whose
    buffer does not wrap, and room for the input in the total. *)
Definition limits_fit (limits : option lonejson__value_limits) (s : bytes) : Prop :=
  (∀ l, limits = Some l → 0 ≤ max_string_bytes l ∧ 0 ≤ max_key_bytes l ∧ 0 ≤ max_number_bytes l)
  ∧ max_number_bytes (visit_limits limits) + 1 + sizeof_alloc_header ≤ UINT64_MAX
  ∧ (max_total_bytes (visit_limits limits) = 0 ∨ zlen s ≤ max_total_bytes (visit_limits limits)).

Lemma limits_fit_ok limits s : limits_fit limits s → limits_ok (visit_limits limits).
Proof.
  intros (Hl & Hn & _). unfold limits_ok. destruct limits as [l|]; [|done].
  destruct (Hl l eq_refl) as (H1 & H2 & H3). cbn [visit_limits] in *.
  destruct (_ && _ && _ && _) eqn:E; cbn in *; [lia|]. split_and!; try lia; case_if; lia.
Qed.

Section visit_document.
Context {R U : Type} (visitor : lonejson_value_visitor U) `{!LoggingVisitor visitor}.

(** The events of a whole document, when it is one and within the limits. *)
Definition document_events (limits : lonejson__value_limits) (s : bytes) : option (list event) :=
  v ← ref_document s; value_events limits 0 v.

Lemma document_events_iff limits s es :
  document_events limits s = Some es ↔ ∃ v, json_document v s ∧ value_events limits 0 v = Some es.
Proof.
  unfold document_events. split.
  - destruct (ref_document s) as [v|] eqn:E; [|done]. intros H. exists v. by apply ref_document_iff in E.
  - intros (v & Hv & H). apply ref_document_iff in Hv. by rewrite Hv.
Qed.

Lemma keep_pushback_user (io : lonejson__json_io R U) :
  io_user (keep_pushback io) = io_user io ∧ io_error (keep_pushback io) = io_error io.
Proof. unfold keep_pushback. by destruct (io_has_pushback io). Qed.

(** What visiting [s] gives. *)
Definition visit_outcome (r : run (lonejson_status * lonejson__json_io R U)) (u : U) (e : error_ptr)
    (limits : lonejson__value_limits) (s : bytes) : Prop :=
  match document_events limits s with
  | Some es =>
      ∃ io, r = Done (LONEJSON_STATUS_OK, io) ∧ io_error io = e
            ∧ visitor_log visitor (io_user io) = visitor_log visitor u ++ said visitor es
  | None => refused (R := R) (U := U) limits (zlen s) r
  end.

Lemma visit_cursor_document fuel (cursor : lonejson__json_cursor R) a u limits e s :
  cursor_rest cursor s → cur_has_pushback cursor = false → never_fails a → zlen s < 2 ^ 62 →
  limits_fit limits s → (ref_fuel s ≤ fuel)%nat →
  visit_outcome (lonejson__json_visit_cursor fuel (Some cursor) a (Some visitor) u limits e)
    u e (visit_limits limits) s.
Proof.
  intros Hc Hp Ha Hs Hl Hf. pose proof (limits_fit_ok _ _ Hl) as Hlim.
  set (lim := visit_limits limits) in *. destruct Hl as (_ & _ & Htot). fold lim in Htot.
  assert (visit_io cursor a limits u e = mk_io cursor u e false 0 0 0 lim a false false false 0) as Hio.
  { unfold visit_io. by rewrite Hp. }
  cbn [lonejson__json_visit_cursor]. rewrite Hio. set (io := mk_io cursor _ _ _ _ _ _ _ _ _ _ _ _).
  assert (io_ready io s) as Hr.
  { split; [|done]. unfold io_rest. cbn. pose proof (zlen_nonneg s).
    split_and!; [done|lia|lia|done|by exists s]. }
  destruct (visit_walker_spec (R := R) visitor lim (zlen s) Hs Hlim fuel) as [Hv _].
  specialize (Hv io s Hr ltac:(by split_and!) Hf).
  unfold visit_outcome, document_events. rewrite <- (document_of_ref fuel s Hf). unfold document_of.
  change (io_depth io) with 0 in Hv. unfold ref_fuel in Hf.
  assert (∀ r : run (lonejson_status * lonejson__json_io R U), refused lim (zlen s) r →
    refused lim (zlen s) ('(st, io) ← r;
      '(st, io) ← (if status_fails st then Done (st, io)
                   else '(ch, io) ← lonejson__json_peek_nonspace fuel io;
                        if negb (ch =? -1) then io_fail LONEJSON_STATUS_INVALID_JSON
                          "visited JSON must contain exactly one value" io
                        else Done (st, io));
      Done (st, keep_pushback io))) as Href.
  { intros r (st & io1 & -> & Hst). rewrite run_bind_done. exists st.
    destruct Hst as [->|[-> Ht]]; eexists; (split; [done|]); [by left|by right]. }
  destruct (ref_value fuel s) as [[v r]|] eqn:Ev; cbn [mbind option_bind] in *; [|by apply Href].
  apply ref_value_shorter in Ev. destruct (value_events lim 0 v) as [es|] eqn:Ees;
    cbn [mbind option_bind] in *.
  2:{ apply Href in Hv. destruct (skip_ws r); cbn [mbind option_bind]; [by rewrite Ees|done]. }
  destruct Hv as (io1 & -> & Hr1 & He1). rewrite run_bind_done. cbn [status_fails].
  destruct (peek_nonspace_rest fuel io1 r (proj1 Hr1)) as (io2 & -> & Hr2 & Hsame); [lia|].
  rewrite run_bind_done.
  destruct (emits_same (out := visitor_log visitor) _ _ Hsame) as (Ho2 & He2 & _).
  destruct He1 as (Ho1 & He1 & _). unfold peeked. destruct (skip_ws r) as [|c r1] eqn:Ews.
  - cbn [mbind option_bind]. rewrite Ees. change (negb (-1 =? -1)) with false. cbv iota.
    rewrite run_bind_done. eexists. split; [done|].
    destruct (keep_pushback_user io2) as [-> ->]. split; [by rewrite He2, He1|].
    by rewrite Ho2, Ho1, app_nil_r.
  - cbn [mbind option_bind]. apply io_rest_head in Hr2 as Hcb. unfold is_byte in Hcb.
    replace (c =? -1) with false by lia. cbn [negb].
    destruct (io_fail_rejected "visited JSON must contain exactly one value" io2) as (io3 & ->).
    rewrite run_bind_done. eexists _, _. split; [done|by left].
Qed.
End visit_document.
