(* ===== verification/VisitLimits.v ===== *)
(** * VisitLimits: visiting one text under two sets of limits

    Two walks of [Visit] over the same cursor with the same visitor, under limits
    that may differ in the depth and in the sizes of strings, keys and numbers, go
    in step until one of them answers [OVERFLOW]: the limits decide on nothing
    else.  A walk that ends with another failure ends with it under larger limits,
    too; so a document that is only too large for its limits is refused with
    [OVERFLOW]. *)

From stdpp Require Import base numbers list strings.
From Stdlib Require Import ZArith Lia Bool.
From S2P Require Import Prelude Runtime Source Unicode Number JsonGrammar JsonCursor Walker Visit VisitSpec.

Section limits.
#[local] Set Default Proof Using "Type*".
Context {R U : Type} (visitor : lonejson_value_visitor U).
Implicit Types io : lonejson__json_io R U.
(** The two sets of limits: the same total, and numbers whose buffer has a size. *)
Context (L L' : lonejson__value_limits) (Htotal : max_total_bytes L = max_total_bytes L').
Context (HL : 0 < max_number_bytes L ∧ max_number_bytes L + 1 + sizeof_alloc_header ≤ UINT64_MAX).
Context (HL' : 0 < max_number_bytes L' ∧ max_number_bytes L' + 1 + sizeof_alloc_header ≤ UINT64_MAX).

(** The same state, but for the limits and the allocator, which does not fail. *)
Inductive twin : lonejson__json_io R U → lonejson__json_io R U → Prop :=
| twin_intro c u e p b d t a a' h pc lg pb :
    never_fails a → never_fails a' →
    twin (mk_io c u e p b d t L a h pc lg pb) (mk_io c u e p b d t L' a' h pc lg pb).

(** A result that says [OVERFLOW]; [status] is the status of a result that has one. *)
Definition over {A} (status : A → option lonejson_status) (r : run (A * lonejson__json_io R U)) : Prop :=
  ∃ x io, r = Done (x, io) ∧ status x = Some LONEJSON_STATUS_OVERFLOW.

(** If the first returns, one of them is over or they are in step. *)
Definition twins {A} (status : A → option lonejson_status) (r r' : run (A * lonejson__json_io R U)) : Prop :=
  ∀ x io, r = Done (x, io) →
  over status r ∨ over status r' ∨ ∃ io', r' = Done (x, io') ∧ twin io io'.

Definition in_step {A} (status : A → option lonejson_status) (m m' : io_fn R U A) : Prop :=
  ∀ io io', twin io io' → twins status (m io) (m' io').

Definition no_status {A} (_ : A) : option lonejson_status := None.

#[local] Abbreviation steps := (in_step Some).
#[local] Abbreviation reads := (in_step (A := Z) no_status).
#[local] Abbreviation pairs := (λ x : lonejson_status * string_buffer, Some (fst x)).

Lemma twins_done {A} status (x : A) io io' : twin io io' → twins status (Done (x, io)) (Done (x, io')).
Proof. intros H ? ? [= <- <-]. right; right. eauto. Qed.

Lemma twins_fails {A} status (r' : run (A * lonejson__json_io R U)) : twins status Undefined r'.
Proof. by intros ? ?. Qed.
Lemma twins_fuel {A} status (r' : run (A * lonejson__json_io R U)) : twins status Out_of_fuel r'.
Proof. by intros ? ?. Qed.
#[local] Hint Resolve twins_done twins_fails twins_fuel : core.

(** A run goes on after a part: where one part is over, its whole run is over. *)
Lemma twins_bind {A B} (status : A → option lonejson_status) (status2 : B → option lonejson_status)
    (r r' : run (A * lonejson__json_io R U)) k k' :
  twins status r r' →
  (∀ x io, status x = Some LONEJSON_STATUS_OVERFLOW → over status2 (k (x, io))) →
  (∀ x io, status x = Some LONEJSON_STATUS_OVERFLOW → over status2 (k' (x, io))) →
  (∀ x io io', twin io io' → twins status2 (k (x, io)) (k' (x, io'))) →
  twins status2 (r ≫= k) (r' ≫= k').
Proof.
  intros Hr Ho Ho' Hk y io2 H. pose proof H as ([x io1] & -> & H1)%run_bind_inv.
  rewrite run_bind_done.
  destruct (Hr x io1 eq_refl) as [(x1 & io3 & [= <- <-] & Hx)|[(x' & io' & -> & Hx)|(io' & -> & Ht)]].
  - left. by apply Ho.
  - right; left. rewrite run_bind_done. by apply Ho'.
  - rewrite run_bind_done. by eapply Hk.
Qed.

Lemma steps_fail c m : steps (io_fail c m) (io_fail c m).
Proof.
  intros ? ? []. unfold io_fail. cbn. destruct (lonejson__set_error e c 0 0 0 m). apply twins_done. by constructor.
Qed.

Lemma over_fail m io : over Some (io_fail LONEJSON_STATUS_OVERFLOW m io).
Proof. unfold io_fail. destruct (io_error io); eexists _, _; by split. Qed.

Lemma over_left {A} status (r r' : run (A * lonejson__json_io R U)) : over status r → twins status r r'.
Proof. by left. Qed.
Lemma over_right {A} status (r r' : run (A * lonejson__json_io R U)) : over status r' → twins status r r'.
Proof. intros H ? ? _. by right; left. Qed.

(** A test that only the limits decide. *)
Lemma steps_over (b b' : bool) m k k' :
  steps k k' →
  steps (if b then io_fail LONEJSON_STATUS_OVERFLOW m else k) (if b' then io_fail LONEJSON_STATUS_OVERFLOW m else k').
Proof.
  intros Hk io io' H. destruct b; [apply over_left, over_fail|]. destruct b'; [apply over_right, over_fail|by apply Hk].
Qed.

Lemma steps_if (b : bool) m m' k k' : steps m m' → steps k k' → steps (if b then m else k) (if b then m' else k').
Proof. by destruct b. Qed.

Lemma steps_reader_status : steps io_reader_status io_reader_status.
Proof. intros ? ? []. apply twins_done. by constructor. Qed.

Lemma steps_seq m m' k k' : steps m m' → steps k k' → steps (m;;; k) (m';;; k').
Proof.
  intros Hm Hk io io' H. eapply twins_bind; [by apply Hm| | |].
  1-2: intros st io1 [= ->]; eexists _, _; by split.
  intros st io1 io1' H1. destruct (status_fails st); [by apply twins_done|by apply Hk].
Qed.

Lemma steps_bind m m' k k' : reads m m' → (∀ ch, steps (k ch) (k' ch)) → steps (io_bind m k) (io_bind m' k').
Proof. intros Hm Hk io io' H. eapply twins_bind; [by apply Hm|done|done|]. intros. by apply Hk. Qed.

Lemma reads_bind m m' k k' : reads m m' → (∀ ch, reads (k ch) (k' ch)) → reads (io_bind m k) (io_bind m' k').
Proof. intros Hm Hk io io' H. eapply twins_bind; [by apply Hm|done|done|]. intros. by apply Hk. Qed.

(** *** Reads *)

Ltac both_done := first [ apply twins_done; by constructor | apply twins_fails ].

(** Both sides branch on the same conditions: follow them. *)
Ltac both_cases :=
  repeat first
    [ both_done
    | progress cbn
    | match goal with
      | |- context [match ?x with _ => _ end] =>
          lazymatch x with
          | context [match _ with _ => _ end] => fail
          | _ => destruct x
          end
      end ].

Lemma reads_counted limited byte : reads (counted limited byte) (counted limited byte).
Proof.
  intros ? ? [c u e p b d t a a' h pc lg pb Ha Ha'].
  unfold counted, lonejson__json_enforce_total_limit, io_fail. cbn. rewrite <- Htotal. both_cases.
Qed.

Lemma reads_refilled data len : reads (refilled data len) (refilled data len).
Proof.
  intros ? ? [c u e p b d t a a' h pc lg pb Ha Ha'].
  unfold refilled, lonejson__json_cursor_add_stream_bytes, take_read_byte, io_fail. both_cases.
Qed.

Lemma reads_refill : reads lonejson__json_cursor_refill_getc lonejson__json_cursor_refill_getc.
Proof.
  intros ? ? [c u e p b d t a a' h pc lg pb Ha Ha'].
  unfold lonejson__json_cursor_refill_getc, lonejson__json_cursor_refill_source_getc, io_fail_getc,
    io_fail, with_errno.
  both_cases; apply reads_refilled; by constructor.
Qed.

Lemma reads_getc_common limited : reads (getc_common limited) (getc_common limited).
Proof.
  intros io io' H. pose proof H as H'. destruct H as [c u e p b d t a a' h pc lg pb Ha Ha'].
  unfold getc_common.
  cbn [io_has_pushback io_pushback_counted io_pushback io_cursor io_last_getc_counted].
  destruct h; [destruct pc; [apply reads_counted; by constructor|both_done]|].
  destruct (cur_buffer c) as [buffer|].
  { destruct (_ <=? _); [both_done|]. apply reads_counted. by constructor. }
  destruct (_ <? _).
  { unfold take_read_byte. rewrite !run_bind_done. apply reads_counted. by constructor. }
  apply (reads_bind lonejson__json_cursor_refill_getc lonejson__json_cursor_refill_getc
    (λ ch io, if ch <? 0 then Done (ch, io) else counted limited (u8 ch) io)
    (λ ch io, if ch <? 0 then Done (ch, io) else counted limited (u8 ch) io) reads_refill); [|by constructor].
  intros ch io io' H. destruct (ch <? 0); [by apply twins_done|by apply reads_counted].
Qed.

Lemma reads_getc : reads lonejson__json_cursor_getc lonejson__json_cursor_getc.
Proof. apply reads_getc_common. Qed.

Lemma twin_ungetc ch io io' :
  twin io io' → twin (lonejson__json_cursor_ungetc ch io) (lonejson__json_cursor_ungetc ch io').
Proof. intros []. unfold lonejson__json_cursor_ungetc. cbn. destruct (_ && _); by constructor. Qed.

Lemma reads_peek fuel : reads (lonejson__json_peek_nonspace fuel) (lonejson__json_peek_nonspace fuel).
Proof.
  induction fuel as [|fuel IH]; [by intros io io' _|].
  pose (k := λ (ch : Z) (io : lonejson__json_io R U),
    if (0 <=? ch) && lonejson__is_json_space ch then lonejson__json_peek_nonspace fuel io
    else if 0 <=? ch then Done (ch, lonejson__json_cursor_ungetc ch io) else Done (ch, io)).
  apply (reads_bind lonejson__json_cursor_getc lonejson__json_cursor_getc k k reads_getc).
  intros ch io io' H. unfold k. destruct (_ && _); [by apply IH|].
  destruct (0 <=? ch); apply twins_done; [by apply twin_ungetc|done].
Qed.

(** *** Callbacks and strings *)

Lemma twin_user io io' u e : twin io io' → twin (set_user io u e) (set_user io' u e).
Proof. intros []. by constructor. Qed.

Lemma steps_event (fn : option (callback U)) : steps (lonejson__json_visit_event fn) (lonejson__json_visit_event fn).
Proof.
  intros ? ? []. unfold lonejson__json_visit_event. destruct fn as [f|]; [|by apply twins_done; constructor].
  cbn. destruct (f u e) as [[st u'] e']. apply twins_done. by constructor.
Qed.

Lemma steps_chunk (fn : option (lonejson_sink_fn U)) data :
  steps (lonejson__json_visit_chunk fn data) (lonejson__json_visit_chunk fn data).
Proof.
  intros ? ? []. unfold lonejson__json_visit_chunk. destruct fn as [f|]; [|by apply twins_done; constructor].
  destruct (_ =? 0); [by apply twins_done; constructor|].
  cbn. destruct (f u data e) as [[st u'] e']. apply twins_done. by constructor.
Qed.

Lemma steps_bool value :
  steps (lonejson__json_visit_bool (R := R) visitor value) (lonejson__json_visit_bool visitor value).
Proof.
  intros ? ? []. unfold lonejson__json_visit_bool. destruct (boolean_value visitor) as [f|]; [|by apply twins_done; constructor].
  cbn. destruct (f u value e) as [[st u'] e']. apply twins_done. by constructor.
Qed.

Lemma plain_copy_twins fuel (fn : option (lonejson_sink_fn U)) buf data :
  in_step (λ x : lonejson_status * bytes, Some (fst x)) (plain_copy (R := R) fuel fn buf data) (plain_copy fuel fn buf data).
Proof.
  revert buf data. induction fuel as [|fuel IH]; intros buf [|b data] io io' H.
  1,3: by apply twins_done.
  { apply twins_fuel. }
  cbn [plain_copy]. cbv zeta. case_match; [|by apply IH].
  eapply twins_bind; [by apply steps_chunk| | |].
  1-2: intros st io1 [= ->]; eexists _, _; by split.
  intros st io1 io1' H1. destruct (status_fails st); [by apply twins_done|by apply IH].
Qed.

Section strings.
Context (is_key : bool) (fn : option (lonejson_sink_fn U)) (limit limit' : Z).

Lemma plain_chunk_twins data sb :
  in_step pairs (lonejson__json_visit_plain_chunk_no_path (R := R) is_key fn limit data sb)
    (lonejson__json_visit_plain_chunk_no_path is_key fn limit' data sb).
Proof.
  intros ? ? [c u e p b d t a a' h pc lg pb Ha Ha'].
  unfold lonejson__json_visit_plain_chunk_no_path. cbn [io_limits io_total_bytes]. rewrite <- Htotal.
  destruct (zlen data =? 0); [by apply twins_done; constructor|].
  assert (∀ m (sb1 : string_buffer) io, over pairs ('(status, io) ← io_fail LONEJSON_STATUS_OVERFLOW m io;
    Done ((status, sb1), io) : run (lonejson_status * string_buffer * lonejson__json_io R U))) as Hover.
  { intros m sb1 io0. destruct (over_fail m io0) as (st & io1 & -> & [= ->]). eexists _, _. by split. }
  destruct (negb _ && _); [by apply over_left|].
  set (sb1 := mk_string_buffer _ _).
  destruct (over_limit limit _); [by apply over_left|]. destruct (over_limit limit' _); [by apply over_right|].
  destruct fn as [f|]; [|by apply twins_done; constructor].
  destruct (_ =? 0).
  { cbn. destruct (f u data e) as [[st u'] e']. apply twins_done. by constructor. }
  eapply twins_bind; [by apply plain_copy_twins; constructor| | |].
  1-2: intros [st buf] io1 [= ->]; eexists _, _; by split.
  intros [st buf] io1 io1' H1. by apply twins_done.
Qed.

Lemma twin_span_advance uses n io io' : twin io io' → twin (span_advance uses n io) (span_advance uses n io').
Proof. intros []. unfold span_advance. by constructor. Qed.

Lemma spans_twins fuel sb :
  in_step pairs (visit_spans (R := R) fuel is_key fn limit sb) (visit_spans fuel is_key fn limit' sb).
Proof.
  revert sb. induction fuel as [|fuel IH]; intros sb io io' H; [done|]. cbn [visit_spans].
  assert (lonejson__json_cursor_plain_span io' = lonejson__json_cursor_plain_span io) as -> by by destruct H.
  destruct (lonejson__json_cursor_plain_span io) as [[avail uses]|]; [|by apply twins_done].
  destruct (negb _); [|by apply twins_done].
  eapply twins_bind; [by apply plain_chunk_twins| | |].
  1-2: intros [st sb1] io1 [= ->]; eexists _, _; by split.
  intros [st sb1] io1 io1' H1. destruct (status_fails st); [by apply twins_done|].
  destruct (_ =? _); [apply IH|apply twins_done]; by apply twin_span_advance.
Qed.

Lemma steps_hex_digits n m cp (k k' : Z → io_fn R U lonejson_status) :
  (∀ cp, steps (k cp) (k' cp)) → steps (visit_hex_digits n m cp k) (visit_hex_digits n m cp k').
Proof.
  intros Hk. revert cp. induction n as [|n IH]; intros cp; [apply Hk|]. cbn [visit_hex_digits].
  apply steps_bind; [apply reads_getc|]. intros ch.
  repeat apply steps_if; auto using steps_reader_status, steps_fail.
Qed.

Lemma steps_code_point (k k' : Z → io_fn R U lonejson_status) :
  (∀ cp, steps (k cp) (k' cp)) → steps (visit_code_point k) (visit_code_point k').
Proof.
  intros Hk. apply steps_hex_digits. intros cp. repeat apply steps_if; auto using steps_fail.
  unfold visit_low_escape. apply steps_bind; [apply reads_getc|]. intros c1.
  apply steps_if; [apply steps_fail|]. apply steps_bind; [apply reads_getc|]. intros c2.
  apply steps_if; [apply steps_fail|]. apply steps_hex_digits. intros low. apply steps_if; auto using steps_fail.
Qed.

Context (k k' : string_buffer → io_fn R U lonejson_status) (Hk : ∀ sb, steps (k sb) (k' sb)).

Lemma steps_decoded out sb : steps (visit_decoded fn limit out sb k) (visit_decoded fn limit' out sb k').
Proof. unfold visit_decoded. apply steps_over, steps_seq; [apply steps_chunk|apply Hk]. Qed.

Lemma steps_escape sb : steps (visit_escape fn limit sb k) (visit_escape fn limit' sb k').
Proof.
  unfold visit_escape. apply steps_bind; [apply reads_getc|]. intros ch.
  repeat apply steps_if; auto using steps_reader_status, steps_fail, steps_decoded.
  apply steps_code_point. intros cp. destruct (lonejson__utf8_append _ cp); auto using steps_fail, steps_decoded.
Qed.

Lemma steps_string_char end_fn sb :
  steps (visit_string_char is_key fn end_fn limit sb k) (visit_string_char is_key fn end_fn limit' sb k').
Proof.
  unfold visit_string_char. apply steps_bind; [apply reads_getc|]. intros ch.
  repeat apply steps_if; auto using steps_reader_status, steps_fail, steps_seq, steps_chunk, steps_event, steps_escape.
  apply steps_over. apply steps_if; auto using steps_seq, steps_chunk.
Qed.
End strings.

Lemma steps_string_loop fuel is_key (fn : option (lonejson_sink_fn U)) end_fn limit limit' sb :
  steps (visit_string_loop (R := R) fuel is_key fn end_fn limit sb) (visit_string_loop fuel is_key fn end_fn limit' sb).
Proof.
  revert sb. induction fuel as [|fuel IH]; intros sb io io' H; [done|]. cbn [visit_string_loop].
  eapply twins_bind; [by apply spans_twins| | |].
  1-2: intros [st sb1] io1 [= ->]; eexists _, _; by split.
  intros [st sb1] io1 io1' H1. destruct (status_fails st); [by apply twins_done|].
  by apply steps_string_char.
Qed.

Lemma steps_string fuel is_key :
  steps (lonejson__json_visit_string_value_no_path (R := R) visitor fuel is_key)
    (lonejson__json_visit_string_value_no_path visitor fuel is_key).
Proof.
  intros io io' H. unfold lonejson__json_visit_string_value_no_path.
  apply steps_seq; [apply steps_event|apply steps_string_loop|done].
Qed.

(** *** Numbers *)

(** The same token; the sizes of the buffers are those of the limits. *)
Definition same_number (nb nb' : visit_number_buffer) : Prop :=
  vn_bytes nb = vn_bytes nb' ∧ vn_capacity nb' = max_number_bytes L' + 1.

Lemma room_for_byte nb :
  vn_capacity nb = max_number_bytes L' + 1 → zlen (vn_bytes nb) < max_number_bytes L' →
  (zlen (vn_bytes nb) <? vn_size nb) = true.
Proof.
  intros Hc Hl. apply Z.ltb_lt. unfold vn_size, vn_on_stack. rewrite Hc. destruct HL' as [Hpos Hmax].
  unfold sizeof_alloc_header in Hmax. destruct (_ <=? 256) eqn:E; [lia|]. unfold owned_usable.
  rewrite u64_small by (unfold is_u64, sizeof_alloc_header; lia). unfold sizeof_alloc_header. lia.
Qed.

Lemma steps_push nb nb' ch (k k' : visit_number_buffer → io_fn R U lonejson_status) :
  same_number nb nb' → zlen (vn_bytes nb') < max_number_bytes L' →
  (∀ nb nb', same_number nb nb' → steps (k nb) (k' nb')) →
  steps (vn_push nb ch k) (vn_push nb' ch k').
Proof.
  intros [Hb Hc] Hl Hk io io' H. unfold vn_push. rewrite (room_for_byte nb' Hc Hl).
  destruct (_ <? vn_size nb); [|apply twins_fails]. by apply Hk; [split; [cbn; by rewrite Hb|]|].
Qed.

Lemma twin_free nb nb' io io' : twin io io' → twin (free_visit_number nb io) (free_visit_number nb' io').
Proof. intros []. unfold free_visit_number. constructor; by apply owned_free_never_fails. Qed.

Lemma steps_freeing nb nb' m m' : steps m m' → steps (freeing nb m) (freeing nb' m').
Proof.
  intros Hm io io' H. unfold freeing. eapply twins_bind; [by apply Hm| | |].
  1-2: intros st io1 [= ->]; eexists _, _; by split.
  intros st io1 io1' H1. by apply twins_done, twin_free.
Qed.

Lemma over_freeing nb m io : over Some (freeing nb (io_fail LONEJSON_STATUS_OVERFLOW m) io).
Proof. unfold freeing. destruct (over_fail m io) as (st & io1 & -> & [= ->]). eexists _, _. by split. Qed.

Lemma steps_number_end nb nb' ch :
  same_number nb nb' → steps (visit_number_end visitor nb ch) (visit_number_end visitor nb' ch).
Proof.
  intros [Hb _] io io' H. unfold visit_number_end. rewrite Hb.
  assert (twin (if 0 <=? ch then lonejson__json_cursor_ungetc ch io else io)
            (if 0 <=? ch then lonejson__json_cursor_ungetc ch io' else io')) as H1.
  { destruct (0 <=? ch); [by apply twin_ungetc|done]. }
  destruct (ch =? -2); [by apply steps_freeing, H1; apply steps_reader_status|].
  destruct (negb _); [by apply steps_freeing, H1; apply steps_fail|].
  apply steps_freeing, H1. apply steps_seq; [apply steps_chunk|apply steps_event].
Qed.

Lemma steps_total : steps lonejson__json_enforce_total_limit lonejson__json_enforce_total_limit.
Proof.
  intros ? ? []. unfold lonejson__json_enforce_total_limit, io_fail. cbn. rewrite <- Htotal. both_cases.
Qed.

Lemma twin_limits io io' : twin io io' → io_limits io = L ∧ io_limits io' = L'.
Proof. by intros []. Qed.

(** The next byte, and the loop on it. *)
Lemma steps_lookahead (k k' : Z → io_fn R U lonejson_status) io io' :
  (∀ ch, steps (k ch) (k' ch)) → twin io io' →
  twins Some ('(ch, io) ← lonejson__json_cursor_getc_lookahead io; k ch io)
    ('(ch, io) ← lonejson__json_cursor_getc_lookahead io'; k' ch io).
Proof. intros Hk H. exact (steps_bind _ _ k k' (reads_getc_common false) Hk io io' H). Qed.

Lemma steps_number_loop fuel nb nb' ch :
  same_number nb nb' → steps (visit_number_loop visitor fuel nb ch) (visit_number_loop visitor fuel nb' ch).
Proof.
  revert nb nb' ch. induction fuel as [|fuel IH]; intros nb nb' ch Hnb io io' H; [done|].
  cbn [visit_number_loop]. destruct (_ && _); [|by apply steps_number_end].
  eapply twins_bind; [by apply steps_total| | |].
  1-2: intros st io1 [= ->]; eexists _, _; by split.
  intros st io1 io1' H1. destruct (decide _); [by apply twins_done, twin_free|].
  destruct (twin_limits _ _ H1) as [-> ->]. pose proof Hnb as [Hb Hc].
  destruct (max_number_bytes L <=? _); [apply over_left, over_freeing|].
  destruct (max_number_bytes L' <=? _) eqn:E; [apply over_right, over_freeing|].
  apply steps_push; [done|lia| |done]. intros nb2 nb2' Hnb2 io2 io2' H2.
  apply steps_lookahead; [|done]. intros ch2. by apply IH.
Qed.

Lemma number_buffer_twins io io' :
  twin io io' →
  let nb := mk_visit_number [] (u64 (max_number_bytes (io_limits io) + 1)) in
  let nb' := mk_visit_number [] (u64 (max_number_bytes (io_limits io') + 1)) in
  same_number nb nb'
  ∧ ∃ a a',
      (if vn_on_stack nb then (true, io_allocator io)
       else lonejson__owned_malloc (io_allocator io) (vn_capacity nb)) = (true, a)
      ∧ (if vn_on_stack nb' then (true, io_allocator io')
         else lonejson__owned_malloc (io_allocator io') (vn_capacity nb')) = (true, a')
      ∧ twin (set_allocator io a) (set_allocator io' a').
Proof.
  intros [c u e p b d t a a' h pc lg pb Ha Ha'] nb nb'. split.
  - split; [done|]. cbn. destruct HL' as [Hpos Hmax]. unfold sizeof_alloc_header in Hmax.
    rewrite u64_small; [done|unfold is_u64; lia].
  - assert (∀ (on_stack : bool) x n, never_fails x → ∃ y,
      (if on_stack then (true, x) else lonejson__owned_malloc x n) = (true, y) ∧ never_fails y) as Halloc.
    { intros [] x n Hx; [by exists x|by apply owned_malloc_ok]. }
    destruct (Halloc (vn_on_stack nb) a (vn_capacity nb) Ha) as (y & Hy & Hny).
    destruct (Halloc (vn_on_stack nb') a' (vn_capacity nb') Ha') as (y' & Hy' & Hny').
    exists y, y'. split_and!; [done|done|]. by constructor.
Qed.

Lemma steps_number fuel first :
  steps (lonejson__json_visit_number_no_path visitor fuel first)
    (lonejson__json_visit_number_no_path visitor fuel first).
Proof.
  intros io io' H. unfold lonejson__json_visit_number_no_path.
  destruct (number_buffer_twins io io' H) as (Hnb & a & a' & -> & -> & H1). cbn [negb].
  eapply twins_bind; [by apply steps_event| | |].
  1-2: intros st io1 [= ->]; eexists _, _; by split.
  intros st io1 io1' H2. destruct (status_fails st); [by apply twins_done, twin_free|].
  destruct (twin_limits _ _ H2) as [-> ->]. destruct HL as [Hpos _], HL' as [Hpos' _].
  replace (max_number_bytes L <=? 0) with false by lia. replace (max_number_bytes L' <=? 0) with false by lia.
  apply steps_push; [done|by cbn; change (zlen (@nil Z)) with 0| |done]. intros nb2 nb2' Hnb2 io2 io2' H3.
  apply steps_lookahead; [|done]. intros ch2. by apply steps_number_loop.
Qed.

(** *** Literals, arrays, objects *)

Lemma steps_literal first rest is_bool :
  steps (lonejson__json_visit_literal_no_path visitor first rest is_bool)
    (lonejson__json_visit_literal_no_path visitor first rest is_bool).
Proof.
  unfold lonejson__json_visit_literal_no_path. induction rest as [|r rest IH]; cbn [visit_literal_rest].
  - destruct is_bool; [apply steps_bool|apply steps_event].
  - apply steps_bind; [apply reads_getc|]. intros ch.
    repeat apply steps_if; auto using steps_reader_status, steps_fail.
Qed.

Lemma twin_depth io io' f : twin io io' → twin (set_depth io (f (io_depth io))) (set_depth io' (f (io_depth io'))).
Proof. intros []. by constructor. Qed.

Lemma steps_nested value value' k k' :
  steps value value' → steps k k' → steps (visit_nested value k) (visit_nested value' k').
Proof.
  intros Hv Hk io io' H. unfold visit_nested.
  eapply twins_bind; [apply Hv; by apply (twin_depth _ _ (λ d, u64 (d + 1)))| | |].
  1-2: intros st io1 [= ->]; eexists _, _; by split.
  intros st io1 io1' H1. apply (twin_depth _ _ (λ d, u64 (d - 1))) in H1.
  destruct (status_fails st); [by apply twins_done|by apply Hk].
Qed.

Lemma steps_separator first m k k' : steps k k' → steps (visit_separator first m k) (visit_separator first m k').
Proof.
  intros Hk. unfold visit_separator. destruct first; [done|]. apply steps_bind; [apply reads_getc|].
  intros ch. apply steps_if; auto using steps_fail.
Qed.

Lemma steps_depth k k' : steps k k' → steps (depth_check k) (depth_check k').
Proof.
  intros Hk io io' H. unfold depth_check. destruct (twin_limits _ _ H) as [-> ->].
  destruct (_ <=? _); [apply over_left, over_fail|].
  destruct (_ <=? _); [apply over_right, over_fail|by apply Hk].
Qed.

Lemma steps_close (fn : option (callback U)) :
  steps (let* _ := lonejson__json_cursor_getc in lonejson__json_visit_event fn)
    (let* _ := lonejson__json_cursor_getc in lonejson__json_visit_event fn).
Proof. apply steps_bind; [apply reads_getc|]. intros _. apply steps_event. Qed.

Lemma steps_key fuel k k' : steps k k' → steps (visit_key visitor fuel k) (visit_key visitor fuel k').
Proof.
  intros Hk. unfold visit_key. apply steps_bind; [apply reads_peek|]. intros ch.
  apply steps_if; [apply steps_fail|]. apply steps_bind; [apply reads_getc|]. intros _.
  apply steps_seq; [apply steps_string|]. apply steps_bind; [apply reads_peek|]. intros ch2.
  apply steps_if; [apply steps_fail|]. by apply steps_bind; [apply reads_getc|].
Qed.

#[local] Hint Resolve steps_reader_status steps_fail steps_event steps_close steps_string steps_literal steps_number
  steps_depth steps_seq : core.

Lemma steps_walk fuel :
  steps (lonejson__json_visit_value_no_path visitor fuel) (lonejson__json_visit_value_no_path visitor fuel)
  ∧ (∀ first, steps (visit_array_loop visitor fuel first) (visit_array_loop visitor fuel first))
  ∧ (∀ first, steps (visit_object_loop visitor fuel first) (visit_object_loop visitor fuel first)).
Proof.
  induction fuel as [|fuel (IHv & IHa & IHo)]; [by split_and!|]. split_and!.
  - rewrite visit_value_S. apply steps_bind; [apply reads_peek|]. intros ch.
    apply steps_if; [done|]. apply steps_if; [done|]. apply steps_bind; [apply reads_getc|]. intros ch2.
    unfold lonejson__json_visit_object_no_path, lonejson__json_visit_array_no_path.
    repeat apply steps_if; auto.
  - intros first. rewrite visit_array_loop_S. apply steps_bind; [apply reads_peek|]. intros ch.
    do 3 (apply steps_if; [auto|]). by apply steps_separator, steps_nested.
  - intros first. rewrite visit_object_loop_S. apply steps_bind; [apply reads_peek|]. intros ch.
    do 3 (apply steps_if; [auto|]). by apply steps_separator, steps_key, steps_nested.
Qed.
End limits.

(** ** Whole documents *)

Section documents.
Context {R U : Type} (visitor : lonejson_value_visitor U) `{!LoggingVisitor visitor}.

(** Limits above the size of any input considered; the total is left as it is. *)
Definition lavish (lim : lonejson__value_limits) : lonejson__value_limits :=
  mk_limits (2 ^ 62) (2 ^ 62) (2 ^ 62) (2 ^ 62) (max_total_bytes lim).

Lemma lavish_fits limits s : limits_fit limits s → limits_fit (Some (lavish (visit_limits limits))) s.
Proof. intros (_ & _ & Ht). split_and!; [by intros l [= <-]|done|done]. Qed.

(** What follows the value. *)
Definition visit_tail fuel (st : lonejson_status) : io_fn R U lonejson_status := λ io,
  if status_fails st then Done (st, io)
  else '(ch, io) ← lonejson__json_peek_nonspace fuel io;
       if negb (ch =? EOF) then
         io_fail LONEJSON_STATUS_INVALID_JSON "visited JSON must contain exactly one value" io
       else Done (st, io).

Lemma visit_cursor_tail fuel (cursor : lonejson__json_cursor R) a u limits e :
  lonejson__json_visit_cursor fuel (Some cursor) a (Some visitor) u limits e
  = '(st, io) ← ('(st, io) ← lonejson__json_visit_value_no_path visitor fuel (visit_io cursor a limits u e);
                 visit_tail fuel st io);
    Done (st, keep_pushback io).
Proof using. cbn [lonejson__json_visit_cursor]. by destruct (lonejson__json_visit_value_no_path _ _ _) as [[st io]| |]. Qed.

Lemma visit_cursor_twins fuel (cursor : lonejson__json_cursor R) a u limits e s st io :
  never_fails a → limits_fit limits s →
  lonejson__json_visit_cursor fuel (Some cursor) a (Some visitor) u limits e = Done (st, io) →
  st = LONEJSON_STATUS_OVERFLOW
  ∨ ∃ st' io', lonejson__json_visit_cursor fuel (Some cursor) a (Some visitor) u
                 (Some (lavish (visit_limits limits))) e = Done (st', io')
               ∧ (st' = LONEJSON_STATUS_OVERFLOW ∨ st' = st).
Proof.
  intros Ha Hl. set (L := visit_limits limits). set (L' := lavish L).
  pose proof (limits_fit_ok _ _ Hl) as (_ & _ & Hn). fold L in Hn.
  assert (0 < max_number_bytes L' ∧ max_number_bytes L' + 1 + sizeof_alloc_header ≤ UINT64_MAX) as Hn'
    by done.
  rewrite !visit_cursor_tail.
  assert (twin L L' (visit_io cursor a limits u e) (visit_io cursor a (Some L') u e)) as Ht.
  { unfold visit_io. change (visit_limits (Some L')) with L'. fold L.
    destruct (cur_has_pushback cursor); by constructor. }
  pose proof (twins_bind visitor L L' eq_refl Hn Hn' Some Some _ _ (λ '(st, io), visit_tail fuel st io)
    (λ '(st, io), visit_tail fuel st io)
    (proj1 (steps_walk visitor L L' eq_refl Hn Hn' fuel) _ _ Ht)) as Hall.
  assert (∀ x (io : lonejson__json_io R U), Some x = Some LONEJSON_STATUS_OVERFLOW →
    over Some (visit_tail fuel x io)) as Hover by (intros x io1 [= ->]; eexists _, _; by split).
  specialize (Hall Hover Hover). intros ([st2 io2] & H2 & [= <- <-])%run_bind_inv.
  lapply Hall; [clear Hall; intros Hall|].
  - destruct (Hall _ _ H2) as [(st3 & io3 & H3 & [= ->])|[(st3 & io3 & H3 & [= ->])|(io3 & H3 & _)]].
    + rewrite H2 in H3. injection H3 as -> _. by left.
    + right. rewrite H3. eexists _, _. split; [done|by left].
    + right. rewrite H3. eexists _, _. split; [done|by right].
  - intros st1 io1 io1' H1. unfold visit_tail.
    destruct (status_fails st1); [by apply (twins_done visitor L L' eq_refl Hn Hn')|].
    eapply (twins_bind visitor L L' eq_refl Hn Hn');
      [by apply (reads_peek visitor L L' eq_refl Hn Hn')|done|done|].
    intros ch io3 io3' H3.
    destruct (negb _); [by apply (steps_fail visitor L L' eq_refl Hn Hn')|by apply (twins_done visitor L L' eq_refl Hn Hn')].
Qed.

(** A document that only exceeds its limits is refused with [OVERFLOW]. *)
Lemma visit_over_limit fuel (cursor : lonejson__json_cursor R) a u limits e s es :
  cursor_rest cursor s → cur_has_pushback cursor = false → never_fails a → zlen s < 2 ^ 62 →
  limits_fit limits s → (ref_fuel s ≤ fuel)%nat →
  document_events (visit_limits limits) s = None →
  document_events (lavish (visit_limits limits)) s = Some es →
  ∃ io, lonejson__json_visit_cursor fuel (Some cursor) a (Some visitor) u limits e
        = Done (LONEJSON_STATUS_OVERFLOW, io).
Proof using LoggingVisitor0.
  intros Hc Hp Ha Hs Hl Hf Hno Hyes.
  pose proof (visit_cursor_document visitor fuel cursor a u limits e s Hc Hp Ha Hs Hl Hf) as H.
  unfold visit_outcome in H. rewrite Hno in H. destruct H as (st & io & H & Hst).
  pose proof (visit_cursor_document visitor fuel cursor a u (Some (lavish (visit_limits limits))) e s Hc Hp Ha Hs
    (lavish_fits _ _ Hl) Hf) as H'.
  unfold visit_outcome in H'. change (visit_limits (Some (lavish ?l))) with (lavish l) in H'.
  rewrite Hyes in H'. destruct H' as (io' & H' & _).
  destruct (visit_cursor_twins fuel cursor a u limits e s st io Ha Hl H) as [->|(st' & io2 & H2 & Hst2)]; [eauto|].
  rewrite H' in H2. injection H2 as <- <-. exfalso. destruct Hst2 as [Hst2|<-]; [done|].
  destruct Hst as [?|[? _]]; done.
Qed.
End documents.
