(* ===== verification/VisitProps.v ===== *)
(** * VisitProps: what visiting a document promises

    The properties of the visitor over whole documents: exactness of the events
    and of the refusals, the balance of the events, and the case in which the
    number buffer is overrun.  The proofs apply [VisitSpec] and [VisitLimits]. *)

From stdpp Require Import base numbers list strings.
From Stdlib Require Import ZArith Lia Bool.
From S2P Require Import Prelude Runtime Source Number JsonGrammar JsonCursor Walker Visit VisitSpec VisitLimits.

(** ** Balance

    A checker for callback sequences, as the interface documents them: begin and
    end callbacks nest, text chunks come between theirs, an object alternates keys
    and values, and there is exactly one value in all. *)

Inductive frame :=
| FRoot | FDone                  (** before and after the document's value *)
| FArray                         (** in an array *)
| FObject | FMember              (** in an object, before a key and after one *)
| FKey | FString | FNumber.      (** between the begin and end of a text *)

(** The stack after the start of a value, where one may start. *)
Definition value_start (st : list frame) : option (list frame) :=
  match st with
  | FRoot :: st => Some (FDone :: st)
  | FArray :: _ => Some st
  | FMember :: st => Some (FObject :: st)
  | _ => None
  end.

Definition frame_step (st : list frame) (ev : event) : option (list frame) :=
  match ev with
  | ObjectBegin => cons FObject <$> value_start st
  | ArrayBegin => cons FArray <$> value_start st
  | StringBegin => cons FString <$> value_start st
  | NumberBegin => cons FNumber <$> value_start st
  | BoolValue _ | NullValue => value_start st
  | KeyBegin => match st with FObject :: _ => Some (FKey :: st) | _ => None end
  | KeyByte _ => match st with FKey :: _ => Some st | _ => None end
  | KeyEnd => match st with FKey :: FObject :: st => Some (FMember :: st) | _ => None end
  | StringByte _ => match st with FString :: _ => Some st | _ => None end
  | StringEnd => match st with FString :: st => Some st | _ => None end
  | NumberByte _ => match st with FNumber :: _ => Some st | _ => None end
  | NumberEnd => match st with FNumber :: st => Some st | _ => None end
  | ObjectEnd => match st with FObject :: st => Some st | _ => None end
  | ArrayEnd => match st with FArray :: st => Some st | _ => None end
  end.

Fixpoint frames (st : list frame) (es : list event) : option (list frame) :=
  match es with
  | [] => Some st
  | ev :: es => st ← frame_step st ev; frames st es
  end.

Definition balanced (es : list event) : Prop := frames [FRoot] es = Some [FDone].

Lemma frames_app st es1 es2 : frames st (es1 ++ es2) = st ← frames st es1; frames st es2.
Proof.
  revert st. induction es1 as [|ev es1 IH]; intros st; [done|]. cbn.
  destruct (frame_step st ev) as [st'|]; [apply IH|done].
Qed.

Lemma frames_text (first last : event) (byte : Z → event) st st1 st2 text :
  frame_step st first = Some st1 → (∀ b, frame_step st1 (byte b) = Some st1) →
  frame_step st1 last = Some st2 → frames st (first :: map byte text ++ [last]) = Some st2.
Proof.
  intros H1 Hb H2. cbn. rewrite H1. cbn. induction text as [|b text IH]; cbn.
  - by rewrite H2.
  - rewrite Hb. cbn. exact IH.
Qed.

Lemma key_frames limit k es st :
  key_events limit k = Some es → frames (FObject :: st) es = Some (FMember :: st).
Proof.
  unfold key_events, text_events. destruct (decode_items k) as [text|]; [|done]. cbn [mbind option_bind].
  case_if; [|done]. intros [= <-]. by eapply frames_text.
Qed.

(** A value takes the stack to the state after it, wherever a value may start. *)
Lemma value_frames limits v : ∀ d es st st',
  value_events limits d v = Some es → value_start st = Some st' → frames st es = Some st'.
Proof.
  induction v as [|b|t|l|vs IH|ms IH] using json_rect_nested; intros d es st st' Hes Hst.
  - injection Hes as <-. cbn. by rewrite Hst.
  - injection Hes as <-. cbn. by rewrite Hst.
  - unfold value_events in Hes. case_if; [|done]. injection Hes as <-.
    eapply frames_text; [cbn; by rewrite Hst|done|done].
  - change (value_events limits d (JStr l)) with (string_events (max_string_bytes limits) l) in Hes.
    unfold string_events, text_events in Hes. destruct (decode_items l) as [text|]; [|done].
    cbn [mbind option_bind] in Hes. case_if; [|done]. injection Hes as <-.
    eapply frames_text; [cbn; by rewrite Hst|done|done].
  - rewrite value_events_arr in Hes. case_if; [done|].
    destruct (elements_events limits (d + 1) vs) as [es0|] eqn:E; [|done]. injection Hes as <-.
    cbn. rewrite Hst. cbn. clear Hst. revert es0 E.
    induction IH as [|v vs Hv _ IH]; intros es0 E; [by injection E as <-|]. cbn in E.
    destruct (value_events limits (d + 1) v) as [es1|] eqn:E1; [|done]. cbn in E.
    destruct (elements_events limits (d + 1) vs) as [es2|]; [|done]. injection E as <-.
    rewrite frames_app, (Hv _ _ _ (FArray :: st') E1) by done. cbn. by apply IH.
  - rewrite value_events_obj in Hes. case_if; [done|].
    destruct (members_events limits (d + 1) ms) as [es0|] eqn:E; [|done]. injection Hes as <-.
    cbn. rewrite Hst. cbn. clear Hst. revert es0 E.
    induction IH as [|[k v] ms Hv _ IH]; intros es0 E; [by injection E as <-|]. cbn in E, Hv.
    destruct (key_events _ k) as [ks|] eqn:Ek; [|done]. cbn in E.
    destruct (value_events limits (d + 1) v) as [es1|] eqn:E1; [|done]. cbn in E.
    destruct (members_events limits (d + 1) ms) as [es2|]; [|done]. injection E as <-.
    rewrite !frames_app, (key_frames _ _ _ st' Ek). cbn.
    rewrite frames_app, (Hv _ _ _ (FObject :: st') E1) by done. cbn. by apply IH.
Qed.

Lemma said_all {U} (visitor : lonejson_value_visitor U) `{!LoggingVisitor visitor} es :
  (∀ ev, heard visitor ev = true) → said visitor es = es.
Proof.
  intros Hh. unfold said. induction es as [|ev es IH]; [done|]. cbn. by rewrite Hh, IH.
Qed.

(** ** Properties *)


(** C17: the callback sequence is balanced, as the interface documents.  When a
    visitor that implements every callback is told [OK], what it was told is a
    well-formed sequence: begin and end callbacks nest, keys and values alternate
    in objects, and there is exactly one value. *)
Theorem visit_balanced {R U} (visitor : lonejson_value_visitor U) `{!LoggingVisitor visitor}
    fuel (cursor : lonejson__json_cursor R) a u limits e s io :
  (∀ ev, heard visitor ev = true) →
  cursor_rest cursor s → cur_has_pushback cursor = false → never_fails a → zlen s < 2 ^ 62 →
  limits_fit limits s → (ref_fuel s ≤ fuel)%nat →
  lonejson__json_visit_cursor fuel (Some cursor) a (Some visitor) u limits e
    = Done (LONEJSON_STATUS_OK, io) →
  ∃ es, visitor_log visitor (io_user io) = visitor_log visitor u ++ es ∧ balanced es.
Proof.
  intros Hh Hc Hp Ha Hs Hl Hf Hrun.
  pose proof (visit_cursor_document visitor fuel cursor a u limits e s Hc Hp Ha Hs Hl Hf) as H.
  rewrite Hrun in H. unfold visit_outcome in H.
  destruct (document_events (visit_limits limits) s) as [es|] eqn:E.
  - destruct H as (io' & [= <-] & _ & Hlog). exists es. rewrite said_all in Hlog by done.
    split; [done|]. apply document_events_iff in E as (v & _ & Hv). by eapply value_frames.
  - destruct H as (st & io' & [= <- _] & [H|[H _]]); done.
Qed.

(** ** The number buffer

    [capacity = max_number_bytes + 1] wraps to 0 for [SIZE_MAX]: the array on the
    stack stays in use, and the limit check never stops the token. *)

Definition silent_visitor {U} : lonejson_value_visitor U :=
  mk_visitor None None None None None None None None None None None None None None None.

Definition size_max_limits : lonejson__value_limits := mk_limits 64 100 SIZE_MAX 100 0.

(** With [max_number_bytes] at [SIZE_MAX] a number of 257 digits is written past
    the end of the 256-byte array: visiting it is undefined behaviour, for every
    visitor state and error object, while 256 digits are still visited. *)
Theorem visit_number_overrun {U} (u : U) e :
  lonejson__json_visit_cursor (R := unit) 600 (Some (cursor_over_buffer (replicate 257 49)))
    fresh_allocator (Some silent_visitor) u (Some size_max_limits) e = Undefined
  ∧ ∃ io, lonejson__json_visit_cursor (R := unit) 600 (Some (cursor_over_buffer (replicate 256 49)))
            fresh_allocator (Some silent_visitor) u (Some size_max_limits) e
          = Done (LONEJSON_STATUS_OK, io).
Proof. split; [vm_compute; reflexivity|]. eexists. vm_compute. reflexivity. Qed.

(** ** Examples *)

(** A visitor that logs everything. *)
Definition log_event (ev : event) : callback (list event) :=
  λ log e, (LONEJSON_STATUS_OK, log ++ [ev], e).
Definition log_chunk (byte : Z → event) : lonejson_sink_fn (list event) :=
  λ log d e, (LONEJSON_STATUS_OK, log ++ map byte d, e).
Definition log_visitor : lonejson_value_visitor (list event) :=
  mk_visitor (Some (log_event ObjectBegin)) (Some (log_event ObjectEnd))
    (Some (log_event KeyBegin)) (Some (log_chunk KeyByte)) (Some (log_event KeyEnd))
    (Some (log_event ArrayBegin)) (Some (log_event ArrayEnd))
    (Some (log_event StringBegin)) (Some (log_chunk StringByte)) (Some (log_event StringEnd))
    (Some (log_event NumberBegin)) (Some (log_chunk NumberByte)) (Some (log_event NumberEnd))
    (Some (λ log b e, (LONEJSON_STATUS_OK, log ++ [BoolValue b], e))) (Some (log_event NullValue)).

#[export] Instance log_visitor_logs : LoggingVisitor log_visitor.
Proof.
  refine {| visitor_log := λ log, log; heard := λ _, true |};
    cbn; (split; [done|]); intros; eexists; done.
Defined.

(** [{"a\u00e9":[1,"\ud83d\ude00"]}] *)
Definition visit_text : bytes :=
  c_str "{" ++ [34] ++ c_str "a\u00e9" ++ [34] ++ c_str ":[1," ++ [34] ++ c_str "\ud83d\ude00" ++ [34]
  ++ c_str "]}".
Definition visit_events : list event :=
  [ObjectBegin; KeyBegin; KeyByte 97; KeyByte 195; KeyByte 169; KeyEnd; ArrayBegin;
   NumberBegin; NumberByte 49; NumberEnd;
   StringBegin; StringByte 240; StringByte 159; StringByte 152; StringByte 128; StringEnd;
   ArrayEnd; ObjectEnd].

Lemma visit_text_fits : limits_fit None visit_text.
Proof. split; [intros l H; discriminate H|]. split; [discriminate|]. left. reflexivity. Qed.



Lemma visit_balanced_witness :
  ∃ es, visitor_log log_visitor visit_events = visitor_log log_visitor [] ++ es ∧ balanced es.
Proof.
  refine (visit_balanced (R := unit) log_visitor 200 (cursor_over_buffer visit_text)
    fresh_allocator [] None None visit_text
    (mk_io _ visit_events _ _ _ _ _ _ _ _ _ _ _)
    (λ _, eq_refl) _ eq_refl fresh_never_fails _ visit_text_fits _ _).
  - split; [apply (bool_decide_unpack _); vm_compute; exact I|].
    split; [discriminate|]. split; [discriminate|reflexivity].
  - reflexivity.
  - vm_compute. lia.
  - vm_compute. reflexivity.
Defined.
