(* ===== verification/TranscodeFrame.v ===== *)
(** * TranscodeFrame: what the transcoder leaves alone

    Whatever the input and the result, a run of the transcoder
    ([src/impl/12_json_value_parse.h]) does not change which stream its cursor has to
    close, and what it does to the consumer is a series of calls of the sink
    ([transcode_frame]).  So every stream [lonejson__json_transcode] opens is closed
    again ([transcode_balanced]), and what a collecting sink holds only grows. *)

From stdpp Require Import base numbers list strings.
From Stdlib Require Import ZArith Lia Bool.
From S2P Require Import Prelude Runtime Source JsonCursor Transcode.

(** Whether closing the cursor closes a stream. *)
Definition closes {R} (c : lonejson__json_cursor R) : bool :=
  cur_close_fp c && bool_decide (is_Some (cur_fp c)).

Lemma cursor_close_closes {R} (c : lonejson__json_cursor R) n :
  lonejson__json_cursor_close c n = if closes c then n - 1 else n.
Proof. done. Qed.

(** [Grows u u']: the sink and the allocator can bring a consumer from [u] to [u']. *)
Class Growth {U : Type} `{!SharedHeap U} (sink : lonejson_sink_fn U) (Grows : U → U → Prop) := {
  grows_preorder :: PreOrder Grows;
  grows_sink : ∀ u d e, Grows u (snd (fst (sink u d e)));
  grows_heap : ∀ u a, Grows u (set_user_allocator u a)
}.

Definition frame {R U} (Grows : U → U → Prop) (io io' : lonejson__json_io R U) : Prop :=
  closes (io_cursor io') = closes (io_cursor io) ∧ Grows (io_user io) (io_user io').

Class Frames {R U A} (Grows : U → U → Prop) (m : io_fn R U A) : Prop :=
  frames_run : ∀ io a io', m io = Done (a, io') → frame Grows io io'.

Section frames.
#[local] Set Default Proof Using "Type*".
Context {R U : Type} `{!SharedHeap U} (sink : lonejson_sink_fn U) (Grows : U → U → Prop)
  `{!Growth sink Grows}.
Implicit Types (io : lonejson__json_io R U).
#[local] Abbreviation frame := (frame Grows).
#[local] Abbreviation Frames := (Frames (R := R) Grows).

#[export] Instance frame_preorder : PreOrder (TranscodeFrame.frame (R := R) Grows).
Proof.
  split; [by intros io|]. intros io1 io2 io3 [H1 H2] [H3 H4]. split; [congruence|by etrans].
Qed.

(** A change of the state that keeps the stream and the consumer. *)
Lemma frame_same io io' :
  closes (io_cursor io') = closes (io_cursor io) → io_user io' = io_user io → frame io io'.
Proof. intros H1 H2. split; [done|by rewrite H2]. Qed.

#[export] Instance frames_return {A} (a : A) : Frames (io_return a).
Proof. intros io b io'. by intros [= <- <-]. Qed.

#[export] Instance frames_reader_status : Frames io_reader_status.
Proof. intros io b io'. by intros [= <- <-]. Qed.

#[export] Instance frames_fail c m : Frames (io_fail c m).
Proof.
  intros io st io'. unfold io_fail. destruct (lonejson__set_error _ _ _ _ _ _) as [s e'].
  intros [= <- <-]. by apply frame_same.
Qed.

#[export] Instance frames_seq m k : Frames m → Frames k → Frames (m;;; k).
Proof.
  intros Hm Hk io st io' ([s io1] & H1 & H2)%run_bind_inv. apply Hm in H1. etrans; [exact H1|].
  destruct (status_fails s); [by injection H2 as <- <-|by eapply Hk].
Qed.

#[export] Instance frames_bind {A B} (m : io_fn R U A) (k : A → io_fn R U B) :
  Frames m → (∀ a, Frames (k a)) → Frames (io_bind m k).
Proof.
  intros Hm Hk io st io' ([a io1] & H1 & H2)%run_bind_inv. apply Hm in H1. etrans; [exact H1|].
  by eapply Hk.
Qed.

#[export] Instance frames_if {A} (b : bool) (m k : io_fn R U A) :
  Frames m → Frames k → Frames (if b then m else k).
Proof. by destruct b. Qed.

#[export] Instance frames_emit d : Frames (lonejson__json_emit sink d).
Proof.
  intros io st io'. unfold lonejson__json_emit. pose proof (grows_sink (io_user io) d (io_error io)) as H.
  destruct (sink (io_user io) d (io_error io)) as [[s u] e]. intros [= <- <-]. by split.
Qed.

(** *** Reads *)

Ltac frame_done :=
  first [ done | match goal with H : Done _ = Done _ |- _ => injection H as <- <-; by apply frame_same end ].

Ltac frame_cases :=
  repeat first
    [ progress cbn in *
    | match goal with
      | H : context [match ?x with _ => _ end] |- _ =>
          lazymatch x with
          | context [match _ with _ => _ end] => fail
          | _ => destruct x eqn:?
          end
      end ]; try frame_done.

Lemma counted_frames limited byte : Frames (counted limited byte).
Proof.
  intros io ch io' H. unfold counted, lonejson__json_enforce_total_limit, io_fail in H. frame_cases.
Qed.

Lemma refilled_frames data len : Frames (refilled data len).
Proof.
  intros io ch io' H. unfold refilled, lonejson__json_cursor_add_stream_bytes, take_read_byte, io_fail in H.
  frame_cases.
Qed.

Lemma closes_device (c : lonejson__json_cursor R) fd fp reader :
  (is_Some fp ↔ is_Some (cur_fp c)) → closes (set_device c fd fp reader) = closes c.
Proof. intros H. unfold closes. cbn. f_equal. by apply bool_decide_ext. Qed.

Lemma frame_cursor io c : closes c = closes (io_cursor io) → frame io (set_cursor io c).
Proof. intros H. by apply frame_same. Qed.

(** A read that only changed the cursor and goes on. *)
Lemma frame_then {A} (m : io_fn R U A) io io1 a io' :
  Frames m → frame io io1 → m io1 = Done (a, io') → frame io io'.
Proof. intros Hm H1 H2. etrans; [exact H1|]. by eapply Hm. Qed.

Lemma fail_getc_frames c m : Frames (io_fail_getc c m).
Proof.
  intros io ch io' ([s io1] & H1 & H2)%run_bind_inv. injection H2 as <- <-. by eapply frames_fail.
Qed.

Lemma refill_source_frames : Frames lonejson__json_cursor_refill_source_getc.
Proof.
  intros io ch io'. unfold lonejson__json_cursor_refill_source_getc. destruct (cur_use_fd _).
  - destruct (cur_fd (io_cursor io)) as [f|]; [|intros H; by apply fail_getc_frames in H].
    destruct (fd_read f _) as [[got|errno] f']; [|intros H; by apply fail_getc_frames in H].
    set (io1 := set_cursor io _). assert (frame io io1) as H1 by (by apply frame_cursor, closes_device).
    destruct (_ =? 0); [intros [= <- <-]; done|]. by apply frame_then; [apply refilled_frames|].
  - destruct (cur_fp (io_cursor io)) as [f|] eqn:Ef; [|done]. destruct (fread f _) as [[got errno] f'].
    set (io1 := set_cursor io _).
    assert (frame io io1) as H1 by (apply frame_cursor, closes_device; rewrite Ef; by split; eauto).
    destruct (_ <=? 0); [|by apply frame_then; [apply refilled_frames|]].
    destruct (ferror f'); [|intros [= <- <-]; done].
    intros H. apply fail_getc_frames in H. etrans; [exact H1|exact H].
Qed.

Lemma refill_frames : Frames lonejson__json_cursor_refill_getc.
Proof.
  intros io ch io'. unfold lonejson__json_cursor_refill_getc.
  destruct (cur_reader (io_cursor io)) as [[reader r]|]; [|by apply refill_source_frames].
  destruct (reader r _) as [[result data] r']. set (io1 := set_cursor io _).
  assert (frame io io1) as H1 by (by apply frame_cursor, closes_device).
  assert (∀ c m e st, io_fail_getc c m (with_errno e io1) = Done (st, io') → frame io io') as Hfail.
  { intros c m e st H%fail_getc_frames. etrans; [exact H1|exact H]. }
  destruct (negb (error_code result =? 0)); [apply Hfail|].
  destruct (negb _); [by apply frame_then; [apply refilled_frames|]|].
  destruct (eof result); [by intros [= <- <-]|].
  destruct (would_block result); [|by intros [= <- <-]].
  intros H%fail_getc_frames. etrans; [exact H1|exact H].
Qed.

Lemma getc_common_frames limited : Frames (getc_common limited).
Proof.
  intros io ch io'. unfold getc_common. destruct (io_has_pushback io).
  { destruct (io_pushback_counted io); [|intros [= <- <-]; by apply frame_same].
    by apply frame_then; [apply counted_frames|apply frame_same]. }
  destruct (cur_buffer (io_cursor io)) as [buffer|].
  { destruct (_ <=? _); [by intros [= <- <-]|].
    by apply frame_then; [apply counted_frames|apply frame_same]. }
  destruct (_ <? _).
  { unfold take_read_byte. rewrite run_bind_done.
    by apply frame_then; [apply counted_frames|apply frame_same]. }
  intros ([c io1] & H1%refill_frames & H2)%run_bind_inv. destruct (c <? 0).
  { by injection H2 as <- <-. }
  by eapply frame_then; [apply counted_frames|exact H1|].
Qed.

#[export] Instance getc_frames : Frames lonejson__json_cursor_getc.
Proof. apply getc_common_frames. Qed.

Lemma ungetc_frame ch io : frame io (lonejson__json_cursor_ungetc ch io).
Proof. unfold lonejson__json_cursor_ungetc. case_match; by apply frame_same. Qed.

#[export] Instance peek_frames fuel : Frames (lonejson__json_peek_nonspace fuel).
Proof.
  induction fuel as [|fuel IH]; intros io ch io'; [done|]. cbn [lonejson__json_peek_nonspace].
  intros ([c io1] & H1%getc_frames & H2)%run_bind_inv. etrans; [exact H1|].
  destruct (_ && _); [by eapply IH|]. destruct (0 <=? c); injection H2 as <- <-; [apply ungetc_frame|done].
Qed.

(** *** Strings and literals *)

#[export] Instance unicode_digits_frames n k : Frames k → Frames (parse_unicode_digits sink n k).
Proof. intros Hk. induction n as [|n IH]; [done|]. cbn [parse_unicode_digits]. apply _. Qed.

#[export] Instance escape_frames k : Frames k → Frames (parse_escape sink k).
Proof. intros Hk. unfold parse_escape. apply _. Qed.

#[export] Instance string_char_frames k : Frames k → Frames (parse_string_char sink k).
Proof. intros Hk. unfold parse_string_char. apply _. Qed.

Lemma span_advance_frame uses n io : frame io (span_advance uses n io).
Proof. unfold span_advance. destruct uses; by apply frame_same. Qed.

#[export] Instance span_advance_frames (k : io_fn R U lonejson_status) uses n :
  Frames k → Frames (λ io, k (span_advance uses n io)).
Proof. intros Hk io st io' H. eapply frame_then; [exact Hk|apply span_advance_frame|exact H]. Qed.

#[export] Instance string_loop_frames fuel : Frames (parse_string_loop sink fuel).
Proof.
  induction fuel as [|fuel IH]; intros io st io'; [done|]. cbn [parse_string_loop].
  destruct (lonejson__json_cursor_plain_span io) as [[available uses]|]; [|by apply string_char_frames].
  case_match; [|by apply string_char_frames]. by apply frames_seq; [apply _|apply span_advance_frames].
Qed.

#[export] Instance string_frames fuel : Frames (lonejson__json_parse_string sink fuel).
Proof. unfold lonejson__json_parse_string. apply _. Qed.

#[export] Instance literal_rest_frames rest : Frames (parse_literal_rest sink rest).
Proof. induction rest as [|r rest IH]; cbn [parse_literal_rest]; apply _. Qed.

#[export] Instance literal_frames first rest : Frames (lonejson__json_parse_literal sink first rest).
Proof. unfold lonejson__json_parse_literal. apply _. Qed.

(** *** Indentation *)

Lemma indent_loop_frames n st spaces : Frames (indent_loop sink n st spaces).
Proof.
  revert st spaces. induction n as [|n IH]; intros st spaces io r io'; cbn [indent_loop]; [by intros [= <- <-]|].
  destruct (64 <? spaces); [|by intros [= <- <-]].
  intros ([s io1] & H1%frames_emit & H2)%run_bind_inv. etrans; [exact H1|].
  destruct (status_fails s); [by injection H2 as <- <-|by eapply IH].
Qed.

#[export] Instance emit_indent_frames d : Frames (lonejson__json_emit_indent sink d).
Proof.
  intros io st io'. unfold lonejson__json_emit_indent.
  destruct (_ <? _); [intros H; by apply frames_fail in H|]. destruct (_ <=? _); [intros H; by apply frames_emit in H|].
  intros ([s io1] & H1%frames_emit & H2)%run_bind_inv. etrans; [exact H1|].
  destruct (status_fails s); [by injection H2 as <- <-|].
  apply run_bind_inv in H2 as ([[s2 k] io2] & H2%indent_loop_frames & H3). etrans; [exact H2|].
  destruct (status_fails s2); [by injection H3 as <- <-|].
  destruct (negb _); [by apply frames_emit in H3|by injection H3 as <- <-].
Qed.

#[export] Instance pretty_indent_frames when extra k : Frames k → Frames (pretty_indent sink when extra k).
Proof.
  intros Hk io st io'. unfold pretty_indent. destruct (_ && _); [|by apply Hk].
  by apply frames_seq; [apply emit_indent_frames|].
Qed.

(** *** Numbers *)

Lemma set_io_heap_frame io a : frame io (set_io_heap io a).
Proof.
  unfold set_io_heap. destruct (user_allocator (io_user io)); [|by apply frame_same].
  split; [done|]. apply grows_heap.
Qed.

Lemma free_number_frame nb io : frame io (free_number nb io).
Proof. apply set_io_heap_frame. Qed.

Lemma grow_number_frame nb io : frame io (snd (grow_number nb io)).
Proof.
  unfold grow_number. destruct (_ <=? _); [|done]. destruct (_ <=? _).
  - destruct (lonejson__set_error _ _ _ _ _ _) as [s e]. cbn. etrans; [apply free_number_frame|by apply frame_same].
  - destruct (lonejson__owned_realloc _ _ _ _) as [ok a]. destruct ok; cbn [negb]; [apply set_io_heap_frame|].
    destruct (lonejson__set_error _ _ _ _ _ _) as [s e]. cbn.
    etrans; [apply set_io_heap_frame|]. etrans; [apply free_number_frame|by apply frame_same].
Qed.

Lemma finish_number_frames nb ch : Frames (finish_number sink nb ch).
Proof.
  intros io st io'. unfold finish_number. set (io1 := if 0 <=? ch then _ else io).
  assert (frame io io1) as H1 by (subst io1; destruct (0 <=? ch); [apply ungetc_frame|done]).
  destruct (ch =? -2); [intros [= <- <-]; etrans; [exact H1|apply free_number_frame]|].
  destruct (negb _); intros ([s io2] & H2 & [= <- <-])%run_bind_inv;
    (etrans; [exact H1|]; etrans; [|apply free_number_frame]).
  - by apply frames_fail in H2.
  - by apply frames_emit in H2.
Qed.

Lemma number_loop_frames fuel nb ch : Frames (parse_number_loop sink fuel nb ch).
Proof.
  revert nb ch. induction fuel as [|fuel IH]; intros nb ch io st io'; [done|]. cbn [parse_number_loop].
  pose proof (grow_number_frame nb io) as Hg.
  destruct (grow_number nb io) as [[nb'|s] io1]; [|by intros [= <- <-]].
  intros ([c io2] & H1%getc_frames & H2)%run_bind_inv. etrans; [exact Hg|]. etrans; [exact H1|].
  destruct (_ && _); [by eapply IH|by eapply finish_number_frames].
Qed.

#[export] Instance number_frames fuel first : Frames (lonejson__json_parse_number sink fuel first).
Proof. apply number_loop_frames. Qed.

(** *** Values *)

#[export] Instance nested_frames v k : Frames v → Frames k → Frames (nested v k).
Proof.
  intros Hv Hk io st io' ([s io1] & H1%Hv & H2)%run_bind_inv.
  assert (frame io io1) as H by (etrans; [|exact H1]; by apply frame_same).
  etrans; [exact H|]. destruct (status_fails s); [injection H2 as <- <-; by apply frame_same|].
  eapply (frame_then k io1 (set_depth io1 _)); [exact Hk|by apply frame_same|exact H2].
Qed.

#[export] Instance separator_frames first m k : Frames k → Frames (separator sink first m k).
Proof. intros Hk. unfold separator. apply _. Qed.

#[export] Instance colon_frames k :
  Frames k → Frames (λ io, (lonejson__json_emit sink (if io_pretty io then [58; 32] else [58]);;; k) io).
Proof. intros Hk io. by apply frames_seq; [apply _|]. Qed.

#[export] Instance key_frames fuel k : Frames k → Frames (parse_key sink fuel k).
Proof. intros Hk. unfold parse_key. apply _. Qed.

Lemma walker_frames fuel :
  Frames (lonejson__json_parse_value sink fuel) ∧ (∀ first, Frames (parse_array_loop sink fuel first))
  ∧ (∀ first, Frames (parse_object_loop sink fuel first)).
Proof.
  induction fuel as [|fuel (Hv & Ha & Ho)]; [by split_and!; repeat intro|]. split_and!.
  - rewrite parse_value_S. unfold lonejson__json_parse_object, lonejson__json_parse_array. apply _.
  - intros first. rewrite parse_array_loop_S. apply _.
  - intros first. rewrite parse_object_loop_S. apply _.
Qed.

#[export] Instance value_frames fuel : Frames (lonejson__json_parse_value sink fuel).
Proof. apply walker_frames. Qed.
#[export] Instance array_loop_frames fuel first : Frames (parse_array_loop sink fuel first).
Proof. apply walker_frames. Qed.
#[export] Instance object_loop_frames fuel first : Frames (parse_object_loop sink fuel first).
Proof. apply walker_frames. Qed.

(** The whole run, from the state it starts in. *)
Lemma transcode_frame fuel cursor a u e pretty base st io :
  lonejson__json_transcode_cursor (R := R) sink fuel (Some cursor) a u e pretty base = Done (st, io) →
  closes (io_cursor io) = closes cursor ∧ Grows u (io_user io).
Proof.
  intros ([s io1] & H1%value_frames & H2)%run_bind_inv.
  assert (frame (transcode_io cursor a u e pretty base) io) as H; [|exact H].
  etrans; [exact H1|]. destruct (status_fails s); [by injection H2 as <- <-|].
  apply run_bind_inv in H2 as ([c io2] & H2%peek_frames & H3). etrans; [exact H2|].
  destruct (negb _); [by apply frames_fail in H3|by injection H3 as <- <-].
Qed.
End frames.

(** ** The streams of a handle *)

(** Opening counts the stream that closing gives back. *)
Lemma cursor_open_counts {R} fopen (v : lonejson_json_value R) e n st c e' n' :
  lonejson__json_cursor_open fopen (Some v) e n = Done (st, c, e', n') →
  if decide (st = LONEJSON_STATUS_OK) then lonejson__json_cursor_close c n' = n else n' = n.
Proof.
  unfold lonejson__json_cursor_open, set_system_errno, fseek_start. intros H.
  assert (∀ m x y c', (let '(st, e) := lonejson__set_error m LONEJSON_STATUS_IO_ERROR 0 0 0 x in
    Done (st, c', e, y)) = Done (st, c, e', n') → st = LONEJSON_STATUS_IO_ERROR ∧ n' = y) as Herr.
  { intros m x y c'. destruct (lonejson__set_error m LONEJSON_STATUS_IO_ERROR 0 0 0 x) as [s e2] eqn:E.
    apply (f_equal fst) in E. rewrite set_error_fst in E. cbn in E. by intros [= <- _ _ <-]. }
  destruct (jv_kind v).
  1-3: by injection H as <- <- _ <-.
  - destruct (jv_fp v) as [f|]; [|done]. destruct (f_seekable f); cbn [negb] in H.
    + by injection H as <- <- _ <-.
    + by apply Herr in H as [-> ->].
  - destruct (jv_fd v) as [f|]; [destruct (f_seekable f)|]; cbn [negb] in H.
    + by injection H as <- <- _ <-.
    + by apply Herr in H as [-> ->].
    + by apply Herr in H as [-> ->].
  - destruct (jv_path v) as [path|]; [|done]. destruct (fopen path) as [f|errno].
    + injection H as <- <- _ <-. rewrite decide_True by done. unfold lonejson__json_cursor_close. cbn. lia.
    + by apply Herr in H as [-> ->].
Qed.

(** Every stream the transcoder opens it closes, whatever the handle, the sink and the
    result. *)
Lemma transcode_balanced {R U} (sink : lonejson_sink_fn U) fopen fuel (v : option (lonejson_json_value R))
    u e pretty base n st u' e' n' :
  lonejson__json_transcode sink fopen fuel v u e pretty base n = Done (st, u', e', n') → n' = n.
Proof.
  unfold lonejson__json_transcode. destruct v as [v|].
  2:{ destruct (lonejson__set_error _ _ _ _ _ _). by intros [= _ _ _ <-]. }
  case_decide; [destruct (sink u _ e) as [[] ]; by intros [= _ _ _ <-]|].
  destruct (negb pretty && _); [destruct (sink u _ e) as [[] ]; by intros [= _ _ _ <-]|].
  destruct (lonejson__json_cursor_open fopen (Some v) e n) as [[[[s c] e1] n1]| |] eqn:Eo; [|done..].
  rewrite run_bind_done. apply cursor_open_counts in Eo.
  destruct (decide (s = LONEJSON_STATUS_OK)) as [->|Hs].
  2:{ rewrite decide_True by done. by intros [= _ _ _ <-]. }
  rewrite decide_False by auto.
  destruct (lonejson__json_transcode_cursor _ _ _ _ _ _ _ _) as [[s2 io]| |] eqn:Er; [|done..].
  rewrite run_bind_done. intros [= _ _ _ <-]. rewrite cursor_close_closes.
  assert (Growth sink (λ _ _, True)) as Hg by by split.
  destruct (transcode_frame sink (λ _ _, True) _ _ _ _ _ _ _ _ _ Er) as [-> _]. exact Eo.
Qed.
