(* ===== verification/TranscodeSim.v ===== *)
(** * TranscodeSim: one transcoder, any consumer

    The transcoder of [Transcode] over any sink and any allocator is related to
    its run over the collecting sink with an allocator that never fails: either
    the two go in step, the sink having been given exactly what the reference run
    collected, or the sink or the allocator refused and the run ends with a
    failure; what the consumer had been offered by then is a prefix of what the
    reference run collects.  What a consumer knows of its own state, its allocator and
    the number scratch buffer is an invariant [Inv] it supplies ([Collector]). *)

From stdpp Require Import base numbers list strings.
From Stdlib Require Import ZArith Lia Bool.
From S2P Require Import Prelude Runtime Source Unicode Number JsonGrammar JsonCursor Transcode TranscodeFrame.

(** The heap of a walk with consumer state [u] and walker allocator [a], and the
    two after the heap became [h]. *)
Definition heap_of {U} `{!SharedHeap U} (u : U) (a : lonejson_allocator) : lonejson_allocator :=
  default a (user_allocator u).
Definition put_heap {U} `{!SharedHeap U} (u : U) (a h : lonejson_allocator) :
    U * lonejson_allocator :=
  match user_allocator u with
  | None => (u, h)
  | Some _ => (set_user_allocator u h, a)
  end.

(** The heap block of the number buffer, if it is not on the stack. *)
Definition scratch (on_stack : bool) (capacity : Z) : option Z :=
  if on_stack then None else Some capacity.

(** [Inv u a out sc]: the consumer [u] was given [out], and the heap holds a
    number scratch block [sc].  [Passes st p]: it accepts with the status [st] when the output
    becomes [p].
    [Broken st u a p sc]: it, or its allocator, refused with the status [st]
    when the output would have become [p]. *)
Class Collector {U : Type} `{!SharedHeap U} (sink : lonejson_sink_fn U)
    (Inv : U → lonejson_allocator → bytes → option Z → Prop)
    (Passes : lonejson_status → bytes → Prop)
    (Broken : lonejson_status → U → lonejson_allocator → bytes → option Z → Prop) := {
  collect_passes : ∀ st p, Passes st p → status_fails st = false;
  collect_more : ∀ st p d, Passes st p → Passes st (p ++ d);
  collect_broken : ∀ st u a p sc, Broken st u a p sc → status_fails st = true;
  collect_emit : ∀ u a out sc d e,
    Inv u a out sc →
    let '(st, u', e') := sink u d e in
    (Passes st (out ++ d) ∧ e' = e ∧ Inv u' a (out ++ d) sc) ∨ Broken st u' a (out ++ d) sc;
  collect_grow : ∀ u a out on_stack old n,
    Inv u a out (scratch on_stack old) → 0 < n →
    let '(ok, h) := lonejson__owned_realloc (heap_of u a) on_stack old n in
    let '(u', a') := put_heap u a h in
    if ok then Inv u' a' out (Some n)
    else Broken LONEJSON_STATUS_ALLOCATION_FAILED u' a' out (scratch on_stack old);
  collect_free : ∀ u a out on_stack old,
    Inv u a out (scratch on_stack old) →
    let '(u', a') := put_heap u a (lonejson__owned_free (heap_of u a) on_stack old) in
    Inv u' a' out None;
  collect_free_broken : ∀ st u a p on_stack old,
    Broken st u a p (scratch on_stack old) →
    let '(u', a') := put_heap u a (lonejson__owned_free (heap_of u a) on_stack old) in
    Broken st u' a' p None
}.

(** What a collecting sink holds grows. *)
#[export] Instance collect_growth : Growth collect_sink prefix.
Proof. split; [apply _| |]; intros u; [intros d e; by exists d|done]. Qed.

Section sim.
#[local] Set Default Proof Using "Type*".
Context {R U : Type} `{!SharedHeap U} (sink : lonejson_sink_fn U).
Context (Inv : U → lonejson_allocator → bytes → option Z → Prop) (Passes : lonejson_status → bytes → Prop).
Context (Broken : lonejson_status → U → lonejson_allocator → bytes → option Z → Prop).
Context `{!Collector sink Inv Passes Broken}.
Implicit Types (io : lonejson__json_io R U) (ioc : lonejson__json_io R bytes).
#[local] Abbreviation Frames := (Frames (R := R) (U := bytes) prefix).

(** Two states in step: they differ in the consumer and the allocator only. *)
Inductive sim_io (sc : option Z) : lonejson__json_io R U → lonejson__json_io R bytes → Prop :=
| sim_io_intro c u out e p b d t l a a2 h pc lg pb :
    Inv u a out sc → never_fails a2 →
    sim_io sc (mk_io c u e p b d t l a h pc lg pb) (mk_io c out e p b d t l a2 h pc lg pb).

(** [p] is collected by then, if the reference run ends. *)
Definition held {A} (p : bytes) (r : run (A * lonejson__json_io R bytes)) : Prop :=
  ∀ a ioc, r = Done (a, ioc) → p `prefix_of` io_user ioc.

Lemma held_frames {A} p (m : io_fn R bytes A) ioc : Frames m → p `prefix_of` io_user ioc → held p (m ioc).
Proof. intros Hm Hp a ioc' H. apply Hm in H as [_ H]. by etrans. Qed.

Lemma held_bind {A B} p (r : run (A * lonejson__json_io R bytes)) (k : A * lonejson__json_io R bytes → run (B * lonejson__json_io R bytes)) :
  held p r → (∀ a ioc, p `prefix_of` io_user ioc → held p (k (a, ioc))) → held p (r ≫= k).
Proof. intros Hr Hk b ioc ([a ioc1] & H1 & H2)%run_bind_inv. eapply Hk; [by eapply Hr|exact H2]. Qed.

(** A run cut short by the consumer or the allocator. *)
Definition aborted {A B} (status : A → lonejson_status) (sc : option Z) (a : A) io
    (r : run (B * lonejson__json_io R bytes)) : Prop :=
  ∃ p, Broken (status a) (io_user io) (io_allocator io) p sc ∧ held p r.

(** Statuses in step when [p] was collected: a consumer may pass with one of its own. *)
Definition same_status (st st2 : lonejson_status) (p : bytes) : Prop :=
  st = st2 ∨ (Passes st p ∧ st2 = LONEJSON_STATUS_OK).

Lemma same_fails st st2 p : same_status st st2 p → status_fails st2 = status_fails st.
Proof. intros [->|[H ->]]; [done|]. by rewrite (collect_passes st p H). Qed.

Lemma same_more st st2 p q : same_status st st2 p → p `prefix_of` q → same_status st st2 q.
Proof. intros [->|[H ->]] [d ->]; [by left|]. right. split; [by apply collect_more|done]. Qed.

(** [r1] and [r2] in step, or [r1] aborted. *)
Definition sim_run {A} (rel : A → A → bytes → Prop) (fails : option (A → lonejson_status)) (sc : option Z)
    (r1 : run (A * lonejson__json_io R U)) (r2 : run (A * lonejson__json_io R bytes)) : Prop :=
  match r1 with
  | Done (a, io) =>
      match fails with Some status => aborted status sc a io r2 | None => False end
      ∨ ∃ a2 ioc, r2 = Done (a2, ioc) ∧ rel a a2 (io_user ioc) ∧ sim_io sc io ioc
  | Undefined => r2 = Undefined
  | Out_of_fuel => r2 = Out_of_fuel
  end.

Definition sim_fn {A} (sc : option Z) rel fails (m1 : io_fn R U A) (m2 : io_fn R bytes A) : Prop :=
  ∀ io ioc, sim_io sc io ioc → sim_run rel fails sc (m1 io) (m2 ioc).

(** Steps return a status, reads never abort. *)
#[local] Abbreviation sim_step sc := (sim_fn sc same_status (Some id)).
#[local] Abbreviation sim_read sc := (sim_fn (A := Z) sc (λ a a2 _, a = a2) None).

Lemma sim_done {A} rel fails sc (a : A) io ioc :
  (∀ a p, rel a a p) → sim_io sc io ioc → sim_run rel fails sc (Done (a, io)) (Done (a, ioc)).
Proof. intros Hr H. right. by exists a, ioc. Qed.

Lemma same_refl st p : same_status st st p.
Proof. by left. Qed.

Lemma sim_return sc st : sim_step sc (io_return st) (io_return st).
Proof. intros io ioc H. by apply sim_done; [apply same_refl|]. Qed.

Lemma sim_fail sc c m : sim_step sc (io_fail c m) (io_fail c m).
Proof.
  intros ? ? [cur u out e p b d t l a a2 h pc lg pb Hi Ha]. unfold io_fail. cbn.
  destruct (lonejson__set_error e c 0 0 0 m) as [st e']. by apply sim_done; [apply same_refl|].
Qed.

Lemma sim_reader_status sc : sim_step sc io_reader_status io_reader_status.
Proof. intros ? ? []. by apply sim_done; [apply same_refl|]. Qed.

Lemma sim_seq sc m1 m2 k1 k2 :
  sim_step sc m1 m2 → sim_step sc k1 k2 → Frames k2 → sim_step sc (m1;;; k1) (m2;;; k2).
Proof.
  intros Hm Hk Hf io ioc H. specialize (Hm io ioc H). unfold io_seq, sim_run in *.
  destruct (m1 io) as [[st io']| |]; [|by rewrite Hm..]. rewrite run_bind_done.
  destruct Hm as [(p & Hb & Hp)|(st2 & ioc' & -> & Hst & H')].
  - rewrite (collect_broken st _ _ _ _ Hb). left. exists p. split; [done|].
    apply held_bind; [done|]. intros a2 ioc2 Hp2. destruct (status_fails a2); [by intros ? ? [= <- <-]|].
    by apply held_frames.
  - rewrite run_bind_done, (same_fails st st2 _ Hst).
    destruct (status_fails st); [right; by exists st2, ioc'|]. by apply Hk.
Qed.

Lemma sim_bind sc m1 m2 k1 k2 :
  sim_read sc m1 m2 → (∀ ch, sim_step sc (k1 ch) (k2 ch)) → sim_step sc (io_bind m1 k1) (io_bind m2 k2).
Proof.
  intros Hm Hk io ioc H. specialize (Hm io ioc H). unfold io_bind, sim_run in *.
  destruct (m1 io) as [[ch io']| |]; [|by rewrite Hm..]. rewrite run_bind_done.
  destruct Hm as [[]|(? & ioc' & -> & <- & H')]. by apply Hk.
Qed.

Lemma sim_if sc (b : bool) m1 m2 k1 k2 :
  sim_step sc m1 m2 → sim_step sc k1 k2 → sim_step sc (if b then m1 else k1) (if b then m2 else k2).
Proof. by destruct b. Qed.

Lemma sim_emit sc d : sim_step sc (lonejson__json_emit sink d) (lonejson__json_emit collect_sink d).
Proof.
  intros ? ? [cur u out e p b dd t l a a2 h pc lg pb Hi Ha].
  pose proof (collect_emit u a out sc d e Hi) as He. unfold lonejson__json_emit. cbn.
  destruct (sink u d e) as [[st u'] e']. destruct He as [(Hp & -> & Hi')|Hb].
  - right. eexists _, _. split; [done|]. split; [by right|done].
  - left. exists (out ++ d). split; [done|]. by intros ? ? [= <- <-].
Qed.

#[local] Hint Extern 0 (TranscodeFrame.Frames _ _) => apply _ : core.

(** *** Reads *)

Ltac sim_done :=
  first [ reflexivity | right; eexists _, _; split; [reflexivity|split; [reflexivity|by constructor]] ].

(** Both sides branch on the same conditions: follow them. *)
Ltac sim_cases :=
  repeat first
    [ sim_done
    | progress cbn
    | match goal with
      | |- context [match ?x with _ => _ end] =>
          lazymatch x with
          | context [match _ with _ => _ end] => fail
          | _ => destruct x
          end
      end ].

Lemma sim_counted sc limited byte : sim_read sc (counted limited byte) (counted limited byte).
Proof.
  intros ? ? [c u out e p b d t l a a2 h pc lg pb Hi Ha].
  unfold counted, lonejson__json_enforce_total_limit, io_fail. sim_cases.
Qed.

Lemma sim_refilled sc data len : sim_read sc (refilled data len) (refilled data len).
Proof.
  intros ? ? [c u out e p b d t l a a2 h pc lg pb Hi Ha].
  unfold refilled, lonejson__json_cursor_add_stream_bytes, take_read_byte, io_fail. sim_cases.
Qed.

Lemma sim_refill sc :
  sim_read sc lonejson__json_cursor_refill_getc lonejson__json_cursor_refill_getc.
Proof.
  intros ? ? [c u out e p b d t l a a2 h pc lg pb Hi Ha].
  unfold lonejson__json_cursor_refill_getc, lonejson__json_cursor_refill_source_getc, io_fail_getc,
    io_fail, with_errno.
  sim_cases; apply sim_refilled; by constructor.
Qed.

Lemma sim_read_bind sc m1 m2 k1 k2 :
  sim_read sc m1 m2 → (∀ ch, sim_read sc (k1 ch) (k2 ch)) → sim_read sc (io_bind m1 k1) (io_bind m2 k2).
Proof.
  intros Hm Hk io ioc H. specialize (Hm io ioc H). unfold io_bind, sim_run in *.
  destruct (m1 io) as [[ch io']| |]; [|by rewrite Hm..]. rewrite run_bind_done.
  destruct Hm as [[]|(? & ioc' & -> & <- & H')]. by apply Hk.
Qed.

Lemma sim_getc sc : sim_read sc lonejson__json_cursor_getc lonejson__json_cursor_getc.
Proof.
  intros io ioc H. pose proof H as H'.
  destruct H as [c u out e p b d t l a a2 h pc lg pb Hi Ha].
  unfold lonejson__json_cursor_getc, getc_common.
  cbn [io_has_pushback io_pushback_counted io_pushback io_cursor io_last_getc_counted].
  destruct h; [destruct pc; [apply sim_counted; by constructor|sim_done]|].
  destruct (cur_buffer c) as [buffer|].
  { destruct (_ <=? _); [sim_done|]. apply sim_counted. by constructor. }
  destruct (_ <? _).
  { unfold take_read_byte. rewrite run_bind_done. apply sim_counted. by constructor. }
  apply (sim_read_bind sc lonejson__json_cursor_refill_getc lonejson__json_cursor_refill_getc
    (λ ch io, if ch <? 0 then Done (ch, io) else counted true (u8 ch) io)
    (λ ch ioc, if ch <? 0 then Done (ch, ioc) else counted true (u8 ch) ioc)
    (sim_refill sc)); [|by constructor].
  intros ch io ioc H. destruct (ch <? 0); [by apply sim_done|by apply sim_counted].
Qed.

Lemma sim_ungetc sc ch io ioc :
  sim_io sc io ioc → sim_io sc (lonejson__json_cursor_ungetc ch io) (lonejson__json_cursor_ungetc ch ioc).
Proof.
  intros [c u out e p b d t l a a2 h pc lg pb Hi Ha]. unfold lonejson__json_cursor_ungetc. cbn.
  destruct (lg && negb (t =? 0)); by constructor.
Qed.

Lemma sim_peek sc fuel :
  sim_read sc (lonejson__json_peek_nonspace fuel) (lonejson__json_peek_nonspace fuel).
Proof.
  induction fuel as [|fuel IH]; [by intros io ioc _|].
  apply (sim_read_bind sc lonejson__json_cursor_getc lonejson__json_cursor_getc
    (λ ch io, if (0 <=? ch) && lonejson__is_json_space ch
              then lonejson__json_peek_nonspace fuel io
              else if 0 <=? ch then Done (ch, lonejson__json_cursor_ungetc ch io) else Done (ch, io))
    (λ ch ioc, if (0 <=? ch) && lonejson__is_json_space ch
               then lonejson__json_peek_nonspace fuel ioc
               else if 0 <=? ch then Done (ch, lonejson__json_cursor_ungetc ch ioc)
               else Done (ch, ioc))
    (sim_getc sc)).
  intros ch io ioc H. destruct (_ && _); [by apply IH|].
  destruct (0 <=? ch); (apply sim_done; [done|]); [by apply sim_ungetc|done].
Qed.

(** *** Strings, literals, indentation *)

Lemma sim_unicode_digits sc n k1 k2 :
  sim_step sc k1 k2 → Frames k2 →
  sim_step sc (parse_unicode_digits sink n k1) (parse_unicode_digits collect_sink n k2).
Proof.
  intros Hk Hf. induction n as [|n IH]; [done|]. cbn [parse_unicode_digits].
  apply sim_bind; [apply sim_getc|]. intros ch.
  repeat apply sim_if; auto using sim_reader_status, sim_fail, sim_seq, sim_emit.
Qed.

Lemma sim_string_char sc k1 k2 :
  sim_step sc k1 k2 → Frames k2 →
  sim_step sc (parse_string_char sink k1) (parse_string_char collect_sink k2).
Proof.
  intros Hk Hf. unfold parse_string_char. apply sim_bind; [apply sim_getc|]. intros ch.
  repeat apply sim_if; auto using sim_reader_status, sim_fail.
  apply sim_seq; [apply sim_emit| |apply _]. repeat apply sim_if; auto using sim_return.
  unfold parse_escape. apply sim_bind; [apply sim_getc|]. intros esc.
  repeat apply sim_if;
    auto using sim_reader_status, sim_fail, sim_seq, sim_emit, sim_unicode_digits.
Qed.

Lemma sim_span_advance sc uses n io ioc :
  sim_io sc io ioc → sim_io sc (span_advance uses n io) (span_advance uses n ioc).
Proof. intros []. unfold span_advance. by constructor. Qed.

Lemma sim_plain_span sc io ioc :
  sim_io sc io ioc → lonejson__json_cursor_plain_span io = lonejson__json_cursor_plain_span ioc.
Proof. by intros []. Qed.

Lemma sim_string_loop sc fuel :
  sim_step sc (parse_string_loop sink fuel) (parse_string_loop collect_sink fuel).
Proof.
  induction fuel as [|fuel IH]; [by intros io ioc _|]. intros io ioc H.
  cbn [parse_string_loop]. rewrite (sim_plain_span sc io ioc H).
  destruct (lonejson__json_cursor_plain_span ioc) as [[avail uses]|]; [|by apply sim_string_char; [|apply _|]].
  destruct (negb _); [|by apply sim_string_char; [|apply _|]]. revert io ioc H.
  apply sim_seq; [apply sim_emit| |apply (span_advance_frames collect_sink prefix), _].
  intros io ioc H. apply IH. by apply sim_span_advance.
Qed.

Lemma sim_string sc fuel :
  sim_step sc (lonejson__json_parse_string sink fuel) (lonejson__json_parse_string collect_sink fuel).
Proof. apply sim_seq; [apply sim_emit|apply sim_string_loop|apply _]. Qed.

Lemma sim_literal_rest sc rest :
  sim_step sc (parse_literal_rest sink rest) (parse_literal_rest collect_sink rest).
Proof.
  induction rest as [|r rest IH]; [apply sim_return|]. cbn [parse_literal_rest].
  apply sim_bind; [apply sim_getc|]. intros ch.
  repeat apply sim_if; auto using sim_reader_status, sim_fail, sim_seq, sim_emit.
Qed.
(** *** Indentation *)

Definition same_pair (r r2 : lonejson_status * Z) (p : bytes) : Prop :=
  same_status (fst r) (fst r2) p ∧ snd r = snd r2.

(** A step of the sink inside a longer run: aborted, or on. *)
Lemma sim_run_seq {A B} rel rel2 fails fails2 sc (m1 : run (A * lonejson__json_io R U)) m2 k1 k2 :
  sim_run rel (Some fails) sc m1 m2 →
  (∀ a io p r, Broken (fails a) (io_user io) (io_allocator io) p sc → held (A := B) p r →
     sim_run rel2 (Some fails2) sc (k1 (a, io)) r) →
  (∀ a a2 io ioc, rel a a2 (io_user ioc) → sim_io sc io ioc → sim_run rel2 (Some fails2) sc (k1 (a, io)) (k2 (a2, ioc))) →
  (∀ a ioc p, p `prefix_of` io_user ioc → held p (k2 (a, ioc))) →
  sim_run rel2 (Some fails2) sc (m1 ≫= k1) (m2 ≫= k2).
Proof.
  intros Hm Hbroken Hk Hheld. unfold sim_run in Hm. destruct m1 as [[a io]| |]; [|by rewrite Hm..].
  rewrite run_bind_done. destruct Hm as [(p & Hb & Hp)|(a2 & ioc & -> & Hr & H)].
  - eapply Hbroken; [exact Hb|]. apply held_bind; [done|]. intros. by apply Hheld.
  - rewrite run_bind_done. by apply Hk.
Qed.

Lemma sim_indent_loop n st st2 spaces sc io ioc :
  same_status st st2 (io_user ioc) → sim_io sc io ioc →
  sim_run same_pair (Some fst) sc (indent_loop sink n st spaces io) (indent_loop collect_sink n st2 spaces ioc).
Proof.
  revert st st2 spaces io ioc. induction n as [|n IH]; intros st st2 spaces io ioc Hs H; cbn [indent_loop].
  { right. by eexists _, _. }
  destruct (64 <? spaces); [|right; by eexists _, _].
  eapply sim_run_seq; [by apply sim_emit| | |].
  - intros s io1 p r Hb Hp. cbn in Hb. rewrite (collect_broken s _ _ _ _ Hb). left. by exists p.
  - intros s s2 io1 ioc1 Hs1 H1. rewrite (same_fails s s2 _ Hs1). destruct (status_fails s); [|by apply IH].
    right. by eexists _, _.
  - intros s ioc1 p Hp. destruct (status_fails s); [by intros ? ? [= <- <-]|].
    apply held_frames; [apply (indent_loop_frames collect_sink prefix)|done].
Qed.

Lemma sim_emit_indent sc d :
  sim_step sc (lonejson__json_emit_indent sink d) (lonejson__json_emit_indent collect_sink d).
Proof.
  unfold lonejson__json_emit_indent. intros io ioc H.
  destruct (_ <? _); [by apply sim_fail|]. destruct (_ <=? _); [by apply sim_emit|].
  set (tail_of := λ (sink : lonejson_sink_fn bytes) (r : lonejson_status * Z) (ioc : lonejson__json_io R bytes),
         let '(st, spaces) := r in
         if status_fails st then Done (st, ioc)
         else if negb (spaces =? 0) then lonejson__json_emit sink (replicate (Z.to_nat spaces) 32) ioc
         else Done (st, ioc)).
  assert (∀ r, Frames (tail_of collect_sink r)) as Htail.
  { intros [st k] ioc1 a ioc2. unfold tail_of. destruct (status_fails st); [by intros [= <- <-]|].
    destruct (negb _); [intros Hx; by apply (frames_emit collect_sink prefix) in Hx|by intros [= <- <-]]. }
  eapply sim_run_seq; [by apply sim_emit| | |].
  - intros s io1 p r Hb Hp. cbn in Hb. rewrite (collect_broken s _ _ _ _ Hb). left. by exists p.
  - intros s s2 io1 ioc1 Hs1 H1. rewrite (same_fails s s2 _ Hs1).
    destruct (status_fails s); [right; by eexists _, _|].
    eapply (sim_run_seq same_pair same_status fst id); [by apply sim_indent_loop| | |].
    + intros [s' k] io2 p r Hb Hp. cbn in Hb. rewrite (collect_broken s' _ _ _ _ Hb). left. by exists p.
    + intros [s' k] [s2' k2] io2 ioc2 [Hs' Hk] H2. cbn in Hs', Hk. subst k2. rewrite (same_fails s' s2' _ Hs').
      destruct (status_fails s'); [right; by eexists _, _|].
      destruct (negb _); [by apply sim_emit|right; by eexists _, _].
    + intros r ioc2 p Hp. by apply (held_frames p (tail_of collect_sink r)).
  - intros s ioc1 p Hp. destruct (status_fails s); [by intros ? ? [= <- <-]|].
    apply held_bind; [apply held_frames; [apply (indent_loop_frames collect_sink prefix)|done]|].
    intros r ioc2 Hp2. by apply (held_frames p (tail_of collect_sink r)).
Qed.

Lemma sim_pretty_indent sc when extra k1 k2 :
  sim_step sc k1 k2 → Frames k2 →
  sim_step sc (pretty_indent sink when extra k1) (pretty_indent collect_sink when extra k2).
Proof.
  intros Hk Hf io ioc H. unfold pretty_indent.
  assert (io_pretty io = io_pretty ioc ∧ io_base_depth io = io_base_depth ioc
          ∧ io_depth io = io_depth ioc) as (-> & -> & ->) by (by destruct H).
  destruct (_ && _); [|by apply Hk]. revert io ioc H.
  intros io ioc H. eapply sim_seq; [apply sim_emit_indent|exact Hk|done|exact H].
Qed.

(** *** Numbers *)

Definition nb_scratch (nb : number_buffer) : option Z := scratch (on_stack nb) (capacity nb).

(** The heap after the consumer or the walker changed it. *)
Lemma set_io_heap_sim sc sc' io ioc h a2 :
  sim_io sc io ioc → never_fails a2 →
  (∀ out, Inv (io_user io) (io_allocator io) out sc →
     let '(u', a') := put_heap (io_user io) (io_allocator io) h in Inv u' a' out sc') →
  sim_io sc' (set_io_heap io h) (set_io_heap ioc a2).
Proof.
  intros [c u out e p b d t l a a3 hb pc lg pb Hi Ha] Ha2 Hh. specialize (Hh out Hi).
  unfold set_io_heap, put_heap in *. cbn in *. destruct (user_allocator u); by constructor.
Qed.

Lemma sim_heap_fails sc io ioc : sim_io sc io ioc → never_fails (io_heap ioc).
Proof. by intros []. Qed.

Lemma sim_free_number nb io ioc :
  sim_io (nb_scratch nb) io ioc → sim_io None (free_number nb io) (free_number nb ioc).
Proof.
  intros H. unfold free_number. apply (set_io_heap_sim (nb_scratch nb)); [done| |].
  - apply owned_free_never_fails. by eapply sim_heap_fails.
  - intros out Hi. by apply collect_free.
Qed.

Lemma free_number_broken st nb io p :
  Broken st (io_user io) (io_allocator io) p (nb_scratch nb) →
  Broken st (io_user (free_number nb io)) (io_allocator (free_number nb io)) p None.
Proof.
  intros Hi. pose proof (collect_free_broken _ _ _ _ (on_stack nb) (capacity nb) Hi) as H.
  unfold free_number, set_io_heap, put_heap, heap_of in *. unfold io_heap.
  destruct (user_allocator (io_user io)); exact H.
Qed.

(** Growing the token buffer: in step, or the allocator refused and the scratch
    block is gone. *)
Lemma sim_grow_number nb io ioc :
  sim_io (nb_scratch nb) io ioc → 0 ≤ capacity nb →
  match grow_number nb io with
  | (inr st, io') =>
      Broken st (io_user io') (io_allocator io') (io_user ioc) None
      ∨ ∃ ioc', grow_number nb ioc = (inr st, ioc') ∧ sim_io None io' ioc'
  | (inl nb', io') =>
      0 ≤ capacity nb'
      ∧ ∃ ioc', grow_number nb ioc = (inl nb', ioc') ∧ sim_io (nb_scratch nb') io' ioc'
  end.
Proof.
  intros H Hcap. unfold grow_number. destruct (_ <=? _); [|split; [done|by eexists]].
  set (n := u64 (capacity nb * 2)). destruct (n <=? capacity nb) eqn:E.
  - pose proof (sim_free_number nb io ioc H) as Hf. revert Hf.
    generalize (free_number nb io) (free_number nb ioc). intros i1 i2 [].
    cbn [io_error io_user]. destruct (lonejson__set_error _ _ _ _ _ _) as [st e']. right. by eexists.
  - destruct (owned_realloc_ok (io_heap ioc) (on_stack nb) (capacity nb) n) as (a2 & -> & Ha2);
      [by eapply sim_heap_fails|]. cbn [negb].
    pose proof (λ out Hi, collect_grow (io_user io) (io_allocator io) out (on_stack nb) (capacity nb) n
      Hi ltac:(lia)) as Hg.
    change (heap_of (io_user io) (io_allocator io)) with (io_heap io) in Hg.
    destruct (lonejson__owned_realloc (io_heap io) (on_stack nb) (capacity nb) n) as [[|] h]; cbn [negb].
    + split; [cbn; lia|]. eexists. split; [done|].
      apply (set_io_heap_sim (nb_scratch nb) (Some n)); [done|done|]. intros out Hi. exact (Hg out Hi).
    + destruct (lonejson__set_error _ _ _ _ _ _) as [st e'] eqn:Es. left.
      assert (st = LONEJSON_STATUS_ALLOCATION_FAILED) as ->.
      { apply (f_equal fst) in Es. by rewrite set_error_fst in Es. }
      destruct H as [c u out e p b d t l a a3 hb pc lg pb Hi Ha]. specialize (Hg out Hi). cbn [io_user] in *.
      apply (free_number_broken _ nb (set_io_heap (mk_io c u e p b d t l a hb pc lg pb) h)).
      unfold set_io_heap, put_heap in *. cbn in *. by destruct (user_allocator u).
Qed.

Lemma sim_finish_number nb ch io ioc :
  sim_io (nb_scratch nb) io ioc →
  sim_run same_status (Some id) None (finish_number sink nb ch io) (finish_number collect_sink nb ch ioc).
Proof.
  intros H. unfold finish_number.
  assert (sim_io (nb_scratch nb) (if 0 <=? ch then lonejson__json_cursor_ungetc ch io else io)
            (if 0 <=? ch then lonejson__json_cursor_ungetc ch ioc else ioc)) as H1.
  { destruct (0 <=? ch); [by apply sim_ungetc|done]. }
  revert H1. generalize (if 0 <=? ch then lonejson__json_cursor_ungetc ch io else io)
    (if 0 <=? ch then lonejson__json_cursor_ungetc ch ioc else ioc). clear H io ioc.
  intros io ioc H. destruct (ch =? -2).
  { right. eexists _, _. split; [done|]. split; [|by apply sim_free_number]. left. by destruct H. }
  assert (∀ (m1 : io_fn R U lonejson_status) m2, sim_step (nb_scratch nb) m1 m2 →
    sim_run same_status (Some id) None ('(st, io) ← m1 io; Done (st, free_number nb io))
      ('(st, io) ← m2 ioc; Done (st, free_number nb io))) as Hthen.
  { intros m1 m2 Hm. specialize (Hm _ _ H). unfold sim_run in Hm.
    destruct (m1 io) as [[st io']| |]; [|by rewrite Hm..]. rewrite run_bind_done.
    destruct Hm as [(p & Hb & Hp)|(st2 & ioc' & -> & Hs & H')].
    - left. exists p. split; [by apply free_number_broken|]. apply held_bind; [done|].
      intros a2 ioc2 Hp2 ? ? [= <- <-]. etrans; [exact Hp2|]. apply (free_number_frame collect_sink prefix).
    - right. rewrite run_bind_done. eexists _, _. split; [done|]. split; [done|]. by apply sim_free_number. }
  destruct (negb _); apply Hthen; [apply sim_fail|apply sim_emit].
Qed.

Lemma sim_number_loop fuel nb ch io ioc :
  sim_io (nb_scratch nb) io ioc → 0 ≤ capacity nb →
  sim_run same_status (Some id) None (parse_number_loop sink fuel nb ch io)
    (parse_number_loop collect_sink fuel nb ch ioc).
Proof.
  revert nb ch io ioc. induction fuel as [|fuel IH]; intros nb ch io ioc H Hcap; [done|].
  pose proof (held_frames (io_user ioc) (parse_number_loop collect_sink (S fuel) nb ch) ioc
                (number_loop_frames collect_sink prefix _ _ _) (reflexivity _)) as Hheld.
  cbn [parse_number_loop] in *. pose proof (sim_grow_number nb io ioc H Hcap) as Hg.
  destruct (grow_number nb io) as [[nb'|st] io'].
  2:{ destruct Hg as [?|(ioc' & -> & ?)]; [left; by eexists|by apply sim_done; [apply same_refl|]]. }
  destruct Hg as (Hcap' & ioc' & -> & H'). set (nb2 := mk_number_buffer _ _ _).
  pose proof (sim_getc (nb_scratch nb2) io' ioc' H') as Hr. unfold sim_run in Hr.
  destruct (lonejson__json_cursor_getc io') as [[c io2]| |]; [|by rewrite Hr..]. rewrite run_bind_done.
  destruct Hr as [[]|(? & ioc2 & -> & <- & H2)]. rewrite run_bind_done.
  destruct (_ && _); [by apply IH|by apply sim_finish_number].
Qed.

Lemma sim_number fuel first :
  sim_step None (lonejson__json_parse_number sink fuel first)
    (lonejson__json_parse_number collect_sink fuel first).
Proof. intros io ioc H. by apply sim_number_loop. Qed.

(** *** Values *)

Lemma sim_set_depth sc d io ioc : sim_io sc io ioc → sim_io sc (set_depth io d) (set_depth ioc d).
Proof. intros []. by constructor. Qed.

Lemma sim_nested sc v1 v2 k1 k2 :
  sim_step sc v1 v2 → sim_step sc k1 k2 → Frames k2 → sim_step sc (nested v1 k1) (nested v2 k2).
Proof.
  intros Hv Hk Hf io ioc H. unfold nested.
  assert (io_depth io = io_depth ioc) as -> by (by destruct H).
  eapply sim_run_seq; [by apply Hv, sim_set_depth| | |].
  - intros st io1 p r Hb Hp. cbn in Hb. rewrite (collect_broken st _ _ _ _ Hb). left. by exists p.
  - intros st st2 io1 ioc1 Hs H1. rewrite (same_fails st st2 _ Hs).
    assert (io_depth io1 = io_depth ioc1) as -> by (by destruct H1).
    apply (sim_set_depth sc (u64 (io_depth ioc1 - 1))) in H1.
    destruct (status_fails st); [right; by eexists _, _|]. by apply Hk.
  - intros st ioc1 p Hp. destruct (status_fails st); [by intros ? ? [= <- <-]|]. by apply held_frames.
Qed.

Lemma sim_separator sc first m k1 k2 :
  sim_step sc k1 k2 → Frames k2 →
  sim_step sc (separator sink first m k1) (separator collect_sink first m k2).
Proof.
  intros Hk Hf. unfold separator. destruct first; [done|]. apply sim_bind; [apply sim_getc|]. intros ch.
  apply sim_if; [apply sim_fail|]. by apply sim_seq; [apply sim_emit| |].
Qed.

Lemma sim_key sc fuel k1 k2 :
  sim_step sc k1 k2 → Frames k2 → sim_step sc (parse_key sink fuel k1) (parse_key collect_sink fuel k2).
Proof.
  intros Hk Hf. unfold parse_key. apply sim_bind; [apply sim_peek|]. intros ch.
  repeat apply sim_if; auto using sim_reader_status, sim_fail.
  apply sim_bind; [apply sim_getc|]. intros ch'. apply sim_if; [apply sim_fail|].
  apply sim_seq; [apply sim_string| |apply _]. apply sim_bind; [apply sim_peek|]. intros ch2.
  apply sim_if; [apply sim_fail|]. apply sim_bind; [apply sim_getc|]. intros _ io ioc H.
  assert (io_pretty io = io_pretty ioc) as -> by (by destruct H).
  exact (sim_seq sc _ _ k1 k2 (sim_emit sc _) Hk Hf io ioc H).
Qed.

Lemma sim_literal sc first rest :
  sim_step sc (lonejson__json_parse_literal sink first rest)
    (lonejson__json_parse_literal collect_sink first rest).
Proof. apply sim_seq; [apply sim_emit|apply sim_literal_rest|apply _]. Qed.

Definition sim_walker (fuel : nat) : Prop :=
  sim_step None (lonejson__json_parse_value sink fuel) (lonejson__json_parse_value collect_sink fuel)
  ∧ (∀ first, sim_step None (parse_array_loop sink fuel first) (parse_array_loop collect_sink fuel first))
  ∧ (∀ first,
       sim_step None (parse_object_loop sink fuel first) (parse_object_loop collect_sink fuel first)).

Lemma sim_value_step fuel :
  sim_walker fuel →
  sim_step None (lonejson__json_parse_value sink (S fuel)) (lonejson__json_parse_value collect_sink (S fuel)).
Proof.
  intros (_ & Ha & Ho). rewrite !parse_value_S. apply sim_bind; [apply sim_peek|]. intros ch.
  do 2 (apply sim_if; [auto using sim_reader_status, sim_fail|]).
  apply sim_bind; [apply sim_getc|]. intros c.
  repeat apply sim_if; auto using sim_string, sim_literal, sim_number, sim_fail.
  - by apply sim_seq; [apply sim_emit| |apply _].
  - by apply sim_seq; [apply sim_emit| |apply _].
Qed.

Lemma sim_loops_step fuel :
  sim_walker fuel →
  (∀ first, sim_step None (parse_array_loop sink (S fuel) first)
              (parse_array_loop collect_sink (S fuel) first))
  ∧ (∀ first, sim_step None (parse_object_loop sink (S fuel) first)
                (parse_object_loop collect_sink (S fuel) first)).
Proof.
  intros (Hv & Ha & Ho). split; intros first;
    (rewrite ?parse_array_loop_S, ?parse_object_loop_S; apply sim_bind; [apply sim_peek|]; intros ch;
     do 2 (apply sim_if; [auto using sim_reader_status, sim_fail|]);
     apply sim_if; [apply sim_bind; [apply sim_getc|]; intros _; apply sim_pretty_indent; [apply sim_emit|apply _]|];
     apply sim_separator; [apply sim_pretty_indent|]).
  - by apply sim_nested; [| |apply _].
  - apply _.
  - apply _.
  - by apply sim_key; [apply sim_nested; [| |apply _]|apply _].
  - apply _.
  - apply _.
Qed.

Lemma sim_walker_all fuel : sim_walker fuel.
Proof.
  induction fuel as [|fuel IH]; [by split_and!; repeat intro|].
  destruct (sim_loops_step fuel IH) as [Ha Ho]. split_and!; [by apply sim_value_step|done..].
Qed.

(** The entry point: over any consumer and the same cursor. *)
Lemma sim_transcode fuel cursor a a2 u out e pretty base :
  Inv u a out None → never_fails a2 →
  sim_run same_status (Some id) None
    (lonejson__json_transcode_cursor sink fuel (Some cursor) a u e pretty base)
    (lonejson__json_transcode_cursor (R := R) collect_sink fuel (Some cursor) a2 out e pretty base).
Proof.
  intros Hi Ha. cbn [lonejson__json_transcode_cursor].
  assert (sim_io None (transcode_io cursor a u e pretty base)
            (transcode_io cursor a2 out e pretty base)) as H by (by constructor).
  destruct (sim_walker_all fuel) as [Hv _].
  eapply sim_run_seq; [by apply Hv| | |].
  - intros st io1 p r Hb Hp. cbn in Hb. rewrite (collect_broken st _ _ _ _ Hb). left. by exists p.
  - intros st st2 io1 ioc1 Hs H1. rewrite (same_fails st st2 _ Hs).
    destruct (status_fails st); [right; by eexists _, _|].
    pose proof (sim_peek None fuel io1 ioc1 H1) as Hp. unfold sim_run in Hp.
    destruct (lonejson__json_peek_nonspace fuel io1) as [[ch io']| |]; [|by rewrite Hp..].
    rewrite run_bind_done. destruct Hp as [[]|(? & ioc' & Hpk & <- & H2)]. rewrite Hpk, run_bind_done.
    destruct (negb _); [by apply sim_fail|]. right. eexists _, _. split; [done|]. split; [|done].
    eapply same_more; [exact Hs|]. by apply (peek_frames collect_sink prefix) in Hpk as [_ ?].
  - intros st ioc1 p Hp. destruct (status_fails st); [by intros ? ? [= <- <-]|].
    apply held_bind; [apply held_frames; [apply _|done]|]. intros ch ioc2 Hp2.
    destruct (negb _); [by apply held_frames; [apply _|]|by intros ? ? [= <- <-]].
Qed.
End sim.
