(* ===== verification/JsonValue.v ===== *)
(** * JsonValue: the JSON value handle

    Models [src/impl/14_json_value_api.h], the life cycle of
    [lonejson_json_value] in [src/impl/00_prelude.h] (initialisation, cleanup,
    reset, [clear_runtime]) and the capture sink of
    [src/impl/11_json_value_io.h]: the setters that give a handle its source
    (a buffer, which is checked and stored compact; a reader, stream, descriptor
    or path) or its parse-time destination. *)

From stdpp Require Import base numbers list strings.
From Stdlib Require Import ZArith Lia Bool.
From S2P Require Import Prelude Runtime Source Number JsonGrammar JsonCursor Transcode.

(** ** The handle *)

Inductive lonejson_json_value_parse_mode :=
| LONEJSON_JSON_VALUE_PARSE_NONE
| LONEJSON_JSON_VALUE_PARSE_SINK
| LONEJSON_JSON_VALUE_PARSE_VISITOR
| LONEJSON_JSON_VALUE_PARSE_CAPTURE
| LONEJSON_JSON_VALUE_PARSE_PATH_VISITOR.

#[global] Instance parse_mode_eq_dec : EqDecision lonejson_json_value_parse_mode.
Proof. solve_decision. Defined.

(** A pointer the handle only stores and compares, by its address. *)
Abbreviation pointer := (option Z).

(** The parse-time half of the structure. *)
Record parse_config := mk_parse_config {
  parse_mode : lonejson_json_value_parse_mode;
  parse_sink : pointer;
  parse_sink_user : pointer;
  parse_visitor : pointer;
  parse_visitor_user : pointer;
  parse_path_visitor : pointer;
  parse_path_visitor_user : pointer
}.

Definition parse_config_none : parse_config :=
  mk_parse_config LONEJSON_JSON_VALUE_PARSE_NONE None None None None None None.

Record parse_limits := mk_parse_limits {
  parse_visitor_limits : lonejson__value_limits;
  runtime_parse_visitor_limits : lonejson__value_limits;
  parse_limits_follow_runtime : bool
}.

(** The structure: the value half of [JsonCursor], the parse-time half and the
    limits.  The method table and the initialisation cookie are left out. *)
Record json_handle (R : Type) := mk_handle {
  jh_value : lonejson_json_value R;
  jh_config : parse_config;
  jh_limits : parse_limits
}.
Arguments mk_handle {R} _ _ _.
Arguments jh_value {R} _.
Arguments jh_config {R} _.
Arguments jh_limits {R} _.

(** ** The value half *)

Section value.
Context {R : Type}.
Implicit Types value : lonejson_json_value R.

(** No source, with the given allocator. *)
Definition value_null (a : lonejson_allocator) : lonejson_json_value R :=
  mk_json_value LONEJSON_JSON_VALUE_NULL None 0 0 None None None None a.

Definition set_value_allocator value (a : lonejson_allocator) : lonejson_json_value R :=
  mk_json_value (jv_kind value) (jv_json value) (jv_json_size value) (jv_len value)
    (jv_reader value) (jv_fp value) (jv_fd value) (jv_path value) a.

(** A path is stored with its terminating NUL. *)
Definition path_size (path : option bytes) : Z :=
  match path with
  | Some p => zlen p + 1
  | None => 0
  end.

(** [lonejson__owned_free(value->json); if (value->kind == PATH)
    lonejson__owned_free(value->path);] *)
Definition free_blocks value : lonejson_allocator :=
  let a := lonejson__owned_free (jv_allocator value) (bool_decide (jv_json value = None))
             (jv_json_size value) in
  if decide (jv_kind value = LONEJSON_JSON_VALUE_PATH)
  then lonejson__owned_free a (bool_decide (jv_path value = None)) (path_size (jv_path value))
  else a.

(** The test for a handle without any source. *)
Definition value_is_empty value : bool :=
  bool_decide (jv_kind value = LONEJSON_JSON_VALUE_NULL) && bool_decide (jv_json value = None)
  && (jv_len value =? 0) && negb (bool_decide (is_Some (jv_reader value)))
  && negb (bool_decide (is_Some (jv_fp value))) && negb (bool_decide (is_Some (jv_fd value)))
  && bool_decide (jv_path value = None).

Definition lonejson__json_value_clear_runtime value : lonejson_json_value R :=
  if value_is_empty value then value else value_null (free_blocks value).

(** ** The capture sink *)

(** [while (next_cap < required)]: doubling, [required] itself when doubling
    wraps.  Sixty-four doublings of a positive [size_t] always wrap. *)
Fixpoint double_until (fuel : nat) (next_cap required : Z) : Z :=
  match fuel with
  | O => required
  | S fuel =>
      if next_cap <? required then
        let doubled := u64 (next_cap * 2) in
        if doubled <=? next_cap then required else double_until fuel doubled required
      else next_cap
  end.

(** [memcpy(mem + off, data, n)], on the part of the block that was written. *)
Definition write_at (mem : bytes) (off : Z) (data : bytes) : bytes :=
  take (Z.to_nat off) mem ++ data ++ drop (Z.to_nat off + length data) mem.

(** [value->json = next], a block of [size] with the old bytes. *)
Definition set_block value (size : Z) : lonejson_json_value R :=
  mk_json_value (jv_kind value) (Some (default [] (jv_json value))) size (jv_len value)
    (jv_reader value) (jv_fp value) (jv_fd value) (jv_path value) (jv_allocator value).

(** The end of the sink.  (A block is there: a NULL [json] has capacity 0, which
    is too small for any chunk that fits the address space.) *)
Definition append_json value (data : bytes) : lonejson_json_value R :=
  let len := u64 (jv_len value + zlen data) in
  mk_json_value (jv_kind value)
    ((λ mem, write_at (write_at mem (jv_len value) data) len [0]) <$> jv_json value)
    (jv_json_size value) len
    (jv_reader value) (jv_fp value) (jv_fd value) (jv_path value) (jv_allocator value).

Definition lonejson__json_buffer_sink : lonejson_sink_fn (lonejson_json_value R) :=
  λ value data error,
    if zlen data =? 0 then (LONEJSON_STATUS_OK, value, error)
    else
      let required := u64 (jv_len value + zlen data + 1) in
      let is_null := bool_decide (jv_json value = None) in
      let capacity := if is_null then 0 else jv_json_size value in
      if capacity <? required then
        let next_cap := double_until 64 (if negb (capacity =? 0) then capacity else 64) required in
        let '(ok, a) := lonejson__owned_realloc (jv_allocator value) is_null capacity next_cap in
        let value := set_value_allocator value a in
        if negb ok then (LONEJSON_STATUS_ALLOCATION_FAILED, value, error)
        else (LONEJSON_STATUS_OK, append_json (set_block value next_cap) data, error)
      else (LONEJSON_STATUS_OK, append_json value data, error).

(** The walk allocates from the allocator the captured value holds a copy of. *)
Definition captured_heap : SharedHeap (lonejson_json_value R) :=
  {| user_allocator := λ value, Some (jv_allocator value);
     set_user_allocator := set_value_allocator |}.
End value.

(** ** Life cycle *)

Section handle.
Context {R : Type}.
Implicit Types value : json_handle R.

(** The C library's allocator, used when the caller gives none. *)
Variable lonejson_default_allocator : lonejson_allocator.

Definition lonejson_json_value_init_with_allocator (allocator : option lonejson_allocator) :
    json_handle R :=
  mk_handle (value_null (default lonejson_default_allocator allocator)) parse_config_none
    (mk_parse_limits lonejson__default_value_limits lonejson__default_value_limits true).

Definition lonejson_json_value_cleanup value : json_handle R :=
  mk_handle (value_null (free_blocks (jh_value value))) parse_config_none (jh_limits value).

Definition lonejson_json_value_reset value : json_handle R := lonejson_json_value_cleanup value.

Definition lonejson__value_limits_equal (a b : option lonejson__value_limits) : bool :=
  match a, b with
  | Some a, Some b =>
      (max_depth a =? max_depth b) && (max_string_bytes a =? max_string_bytes b)
      && (max_number_bytes a =? max_number_bytes b) && (max_key_bytes a =? max_key_bytes b)
      && (max_total_bytes a =? max_total_bytes b)
  | None, None => true
  | _, _ => false
  end.

Definition lonejson__json_value_note_limits_mode_change (l : parse_limits) : parse_limits :=
  mk_parse_limits (parse_visitor_limits l) (runtime_parse_visitor_limits l)
    (lonejson__value_limits_equal (Some (parse_visitor_limits l))
       (Some (runtime_parse_visitor_limits l))).

(** ** Setters

    A [lonejson_json_value *] argument is an option, [None] being NULL; the
    result carries the handle as the call leaves it. *)

Definition invalid_argument (value : option (json_handle R)) (error : error_ptr) (m : string) :
    lonejson_status * option (json_handle R) * error_ptr :=
  let '(st, e) := lonejson__set_error error LONEJSON_STATUS_INVALID_ARGUMENT 0 0 0 m in
  (st, value, e).

(** Replaces the parse-time half and reports success. *)
Definition configured value (config : parse_config) (error : error_ptr) :
    lonejson_status * option (json_handle R) * error_ptr :=
  (LONEJSON_STATUS_OK,
   Some (mk_handle (jh_value value) config
           (lonejson__json_value_note_limits_mode_change (jh_limits value))),
   lonejson__clear_error error).

Definition clear_runtime value : json_handle R :=
  mk_handle (lonejson__json_value_clear_runtime (jh_value value)) (jh_config value) (jh_limits value).

Definition lonejson_json_value_set_parse_sink (value : option (json_handle R))
    (sink user : pointer) (error : error_ptr) :
    lonejson_status * option (json_handle R) * error_ptr :=
  match value, sink with
  | Some v, Some _ =>
      configured (clear_runtime v)
        (mk_parse_config LONEJSON_JSON_VALUE_PARSE_SINK sink user None None None None) error
  | _, _ => invalid_argument value error "JSON value handle and parse sink are required"
  end.

Definition lonejson_json_value_set_parse_visitor (value : option (json_handle R))
    (visitor user : pointer) (error : error_ptr) :
    lonejson_status * option (json_handle R) * error_ptr :=
  match value, visitor with
  | Some v, Some _ =>
      configured (clear_runtime v)
        (mk_parse_config LONEJSON_JSON_VALUE_PARSE_VISITOR None None visitor user None None) error
  | _, _ => invalid_argument value error "JSON value handle and parse visitor are required"
  end.

Definition lonejson_json_value_set_parse_path_visitor (value : option (json_handle R))
    (visitor user : pointer) (error : error_ptr) :
    lonejson_status * option (json_handle R) * error_ptr :=
  match value, visitor with
  | Some v, Some _ =>
      configured (clear_runtime v)
        (mk_parse_config LONEJSON_JSON_VALUE_PARSE_PATH_VISITOR None None None None visitor user)
        error
  | _, _ => invalid_argument value error "JSON value handle and parse path visitor are required"
  end.

(** The sink and its user are not reset. *)
Definition lonejson_json_value_enable_parse_capture (value : option (json_handle R))
    (error : error_ptr) : lonejson_status * option (json_handle R) * error_ptr :=
  match value with
  | Some v =>
      let v := if negb (value_is_empty (jh_value v)) then clear_runtime v else v in
      configured v
        (mk_parse_config LONEJSON_JSON_VALUE_PARSE_CAPTURE (parse_sink (jh_config v))
           (parse_sink_user (jh_config v)) None None None None)
        error
  | None => invalid_argument value error "JSON value handle is required"
  end.

(** A cleaned up handle with a new source. *)
Definition with_source value (source : lonejson_json_value R) : json_handle R :=
  mk_handle source (jh_config value) (jh_limits value).

Definition lonejson_json_value_set_reader (value : option (json_handle R))
    (reader : option (lonejson_reader_fn R * R)) (error : error_ptr) :
    lonejson_status * option (json_handle R) * error_ptr :=
  match value, reader with
  | Some v, Some _ =>
      let v := lonejson_json_value_cleanup v in
      (LONEJSON_STATUS_OK,
       Some (with_source v (mk_json_value LONEJSON_JSON_VALUE_READER None 0 0 reader None None None
                              (jv_allocator (jh_value v)))),
       lonejson__clear_error error)
  | _, _ => invalid_argument value error "JSON value handle and reader are required"
  end.

Definition lonejson_json_value_set_file (value : option (json_handle R)) (fp : option c_file)
    (error : error_ptr) : lonejson_status * option (json_handle R) * error_ptr :=
  match value, fp with
  | Some v, Some _ =>
      let v := lonejson_json_value_cleanup v in
      (LONEJSON_STATUS_OK,
       Some (with_source v (mk_json_value LONEJSON_JSON_VALUE_FILE None 0 0 None fp None None
                              (jv_allocator (jh_value v)))),
       lonejson__clear_error error)
  | _, _ => invalid_argument value error "JSON value handle and FILE* are required"
  end.

(** [None] stands for a negative descriptor. *)
Definition lonejson_json_value_set_fd (value : option (json_handle R)) (fd : option c_file)
    (error : error_ptr) : lonejson_status * option (json_handle R) * error_ptr :=
  match value, fd with
  | Some v, Some _ =>
      let v := lonejson_json_value_cleanup v in
      (LONEJSON_STATUS_OK,
       Some (with_source v (mk_json_value LONEJSON_JSON_VALUE_FD None 0 0 None None fd None
                              (jv_allocator (jh_value v)))),
       lonejson__clear_error error)
  | _, _ => invalid_argument value error "JSON value handle and non-negative fd are required"
  end.

(** [path] is the memory behind a [const char *]. *)
Definition lonejson_json_value_set_path (value : option (json_handle R)) (path : option bytes)
    (error : error_ptr) : lonejson_status * option (json_handle R) * error_ptr :=
  match value, path with
  | Some v, Some p =>
      let p := c_string p in
      if bool_decide (p = []) then
        invalid_argument value error "JSON value handle and path are required"
      else
        let '(ok, a) := lonejson__owned_malloc (jv_allocator (jh_value v)) (u64 (zlen p + 1)) in
        let v := with_source v (set_value_allocator (jh_value v) a) in
        if negb ok then
          let '(st, e) := lonejson__set_error error LONEJSON_STATUS_ALLOCATION_FAILED 0 0 0
                            "failed to duplicate JSON value path" in
          (st, Some v, e)
        else
          let v := lonejson_json_value_cleanup v in
          (LONEJSON_STATUS_OK,
           Some (with_source v (mk_json_value LONEJSON_JSON_VALUE_PATH None 0 0 None None None
                                  (Some p) (jv_allocator (jh_value v)))),
           lonejson__clear_error error)
  | _, _ => invalid_argument value error "JSON value handle and path are required"
  end.

(** The handle after a call that changed only the state behind its allocator. *)
Definition with_allocator value (a : lonejson_allocator) : json_handle R :=
  with_source value (set_value_allocator (jh_value value) a).

(** [data] is the memory behind the pointer, [None] for NULL.  The source is
    opened as a buffer, so no file system takes part. *)
Definition lonejson_json_value_set_buffer (fuel : nat) (value : option (json_handle R))
    (data : option bytes) (len : Z) (error : error_ptr) :
    run (lonejson_status * option (json_handle R) * error_ptr) :=
  match value with
  | None => Done (invalid_argument value error "JSON value handle and buffer are required")
  | Some v =>
      if bool_decide (data = None) && negb (len =? 0) then
        Done (invalid_argument value error "JSON value handle and buffer are required")
      else
        let a := jv_allocator (jh_value v) in
        let input := jh_value (lonejson_json_value_init_with_allocator None) in
        let input := mk_json_value LONEJSON_JSON_VALUE_BUFFER data 0 len (jv_reader input)
                       (jv_fp input) (jv_fd input) (jv_path input) (jv_allocator input) in
        let compact := lonejson_json_value_init_with_allocator (Some a) in
        '(status, cursor, error, open_files) ←
          lonejson__json_cursor_open (λ _, inr 0) (Some input) error 0;
        '(status, compact, error) ←
          (if decide (status = LONEJSON_STATUS_OK) then
             '(status, io) ← lonejson__json_transcode_cursor (SharedHeap0 := captured_heap)
                               lonejson__json_buffer_sink fuel (Some cursor) a (jh_value compact)
                               error false 0;
             Done (status, with_source compact (io_user io), io_error io)
           else Done (status, compact, error));
        if status_fails status then
          let compact := lonejson_json_value_cleanup compact in
          Done (status, Some (with_allocator v (jv_allocator (jh_value compact))), error)
        else
          let v := with_allocator v (jv_allocator (jh_value compact)) in
          let v := lonejson_json_value_cleanup v in
          let c := jh_value compact in
          Done (LONEJSON_STATUS_OK,
                Some (mk_handle
                        (mk_json_value LONEJSON_JSON_VALUE_BUFFER (jv_json c) (jv_json_size c)
                           (jv_len c) (jv_reader c) (jv_fp c) (jv_fd c) (jv_path c)
                           (jv_allocator (jh_value v)))
                        (jh_config compact) (jh_limits v)),
                lonejson__clear_error error)
  end.

(** ** Rewinding *)

(** [fseek(fp, pos, SEEK_SET)] and [lseek(fd, pos, SEEK_SET)]. *)
Definition fseek_to (f : c_file) (pos : Z) : bool * c_file :=
  if f_seekable f
  then (true, mk_file (f_data f) pos (f_seekable f) (f_fault f) (f_error f) (f_chunk f))
  else (false, f).

(** [ftell(fp)] and [lseek(fd, 0, SEEK_CUR)]: -1 on a stream that has no position. *)
Definition ftell (f : c_file) : Z := if f_seekable f then f_pos f else -1.

(** Seek to the start and back. *)
Definition try_rewind (f : c_file) : bool * c_file :=
  let pos := ftell f in
  if pos <? 0 then (false, f)
  else
    let '(ok, f) := fseek_start f in
    if negb ok then (false, f) else fseek_to f pos.

Definition lonejson_json_value_is_rewindable (value : option (json_handle R)) :
    bool * option (json_handle R) :=
  match value with
  | None => (false, None)
  | Some h =>
      let v := jh_value h in
      match jv_kind v with
      | LONEJSON_JSON_VALUE_NULL | LONEJSON_JSON_VALUE_BUFFER | LONEJSON_JSON_VALUE_PATH =>
          (true, value)
      | LONEJSON_JSON_VALUE_READER => (false, value)
      | LONEJSON_JSON_VALUE_FILE =>
          match jv_fp v with
          | None => (false, value)
          | Some f =>
              let '(ok, f) := try_rewind f in
              (ok, Some (with_source h (mk_json_value (jv_kind v) (jv_json v) (jv_json_size v)
                                          (jv_len v) (jv_reader v) (Some f) (jv_fd v) (jv_path v)
                                          (jv_allocator v))))
          end
      | LONEJSON_JSON_VALUE_FD =>
          match jv_fd v with
          | None => (false, value)
          | Some f =>
              let '(ok, f) := try_rewind f in
              (ok, Some (with_source h (mk_json_value (jv_kind v) (jv_json v) (jv_json_size v)
                                          (jv_len v) (jv_reader v) (jv_fp v) (Some f) (jv_path v)
                                          (jv_allocator v))))
          end
      end
  end.
End handle.
