(* ===== verification/JsonValueSpec.v ===== *)
(** * JsonValueSpec: what the handle API promises

    Two views of a [lonejson_json_value]: the heap blocks it owns against the
    allocator's counters, and the invariant every sequence of API calls keeps.
    The central lemma is about [lonejson_json_value_set_buffer]: by the simulation
    of [TranscodeSim] the captured bytes are exactly those of the reference
    transcoder, for any allocator. *)

From stdpp Require Import base numbers list strings.
From Stdlib Require Import ZArith Lia Bool.
From S2P Require Import Prelude Runtime Heap Source Number JsonGrammar JsonCursor Walker Transcode TranscodeSpec TranscodeSim JsonValue.

(** ** Blocks of a value *)

Section value_blocks.
Context {R : Type}.
Implicit Types v : lonejson_json_value R.

Definition json_blocks v : Z := one_if (bool_decide (is_Some (jv_json v))).
Definition path_blocks v : Z :=
  one_if (bool_decide (jv_kind v = LONEJSON_JSON_VALUE_PATH) && bool_decide (is_Some (jv_path v))).
Definition owned_blocks v : Z := json_blocks v + path_blocks v.

Lemma path_blocks_other v : jv_kind v ≠ LONEJSON_JSON_VALUE_PATH → path_blocks v = 0.
Proof. intros H. unfold path_blocks. by rewrite bool_decide_eq_false_2. Qed.

(** The blocks that are live and not [v]'s. *)
Definition foreign_blocks v : option Z := shift (- owned_blocks v) (live_blocks (jv_allocator v)).

Lemma free_blocks_spec v :
  same_callbacks (jv_allocator v) (free_blocks v)
  ∧ live_blocks (free_blocks v) = foreign_blocks v.
Proof.
  unfold free_blocks, foreign_blocks, owned_blocks, json_blocks, path_blocks.
  pose proof (owned_free_blocks (jv_allocator v) (bool_decide (jv_json v = None)) (jv_json_size v))
    as [Hc Hb]. destruct (decide (jv_kind v = LONEJSON_JSON_VALUE_PATH)) as [Hk|Hk].
  - pose proof (owned_free_blocks (lonejson__owned_free (jv_allocator v) (bool_decide (jv_json v = None))
      (jv_json_size v)) (bool_decide (jv_path v = None)) (path_size (jv_path v))) as [Hc2 Hb2].
    split; [by eapply same_callbacks_trans|]. rewrite Hb2, Hb, shift_shift. apply shift_blocks.
    rewrite Hk. by destruct (jv_json v), (jv_path v).
  - split; [done|]. rewrite Hb. apply shift_blocks. rewrite (bool_decide_eq_false_2 _ Hk).
    by destruct (jv_json v).
Qed.

Lemma foreign_null a : foreign_blocks (value_null (R := R) a) = live_blocks a.
Proof. apply shift_0. Qed.
End value_blocks.

(** ** The capture sink *)

Section capture.
Context {R : Type}.
Implicit Types v : lonejson_json_value R.

(** The captured bytes, NUL-terminated in their block. *)
Definition captured v (out : bytes) : Prop :=
  match jv_json v with
  | None => out = [] ∧ jv_len v = 0
  | Some mem =>
      jv_len v = zlen out ∧ zlen out < jv_json_size v
      ∧ take (S (length out)) mem = out ++ [0]
  end.

(** A value that is being captured into: nothing but [json] is set. *)
Definition capturing v : Prop :=
  v = mk_json_value LONEJSON_JSON_VALUE_NULL (jv_json v) (jv_json_size v) (jv_len v)
        None None None None (jv_allocator v).

Lemma write_at_end (mem out data : bytes) k :
  k = zlen out → take (length out) mem = out →
  write_at mem k data = out ++ data ++ drop (length out + length data) mem.
Proof. intros -> H. unfold write_at, zlen. by rewrite Nat2Z.id, H. Qed.

(** A write after the captured bytes keeps them and puts the NUL behind. *)
Lemma append_json_captured v mem out d :
  jv_json v = Some mem → jv_len v = zlen out → take (length out) mem = out →
  zlen out + zlen d < 2 ^ 62 → zlen out + zlen d < jv_json_size v →
  captured (append_json v d) (out ++ d).
Proof.
  intros Hj Hl Ht Hb Hs. unfold append_json, captured. rewrite Hj, Hl. cbn.
  pose proof (zlen_nonneg out). pose proof (zlen_nonneg d).
  rewrite u64_small, zlen_app by (unfold is_u64; lia). split_and!; [done|done|].
  rewrite (write_at_end mem out d) by done. rewrite app_assoc.
  rewrite (write_at_end _ (out ++ d) [0]) by (rewrite ?zlen_app, ?take_app_length; done).
  rewrite app_assoc, take_app_le by (rewrite !length_app; simpl; lia).
  apply take_ge. rewrite !length_app. simpl. lia.
Qed.

Lemma captured_held v out :
  captured v out → jv_len v = zlen out ∧ take (length out) (default [] (jv_json v)) = out.
Proof.
  unfold captured. destruct (jv_json v) as [mem|]; simpl.
  - intros (? & _ & Ht). split; [done|].
    apply (f_equal (take (length out))) in Ht. rewrite take_take in Ht.
    by rewrite Nat.min_l, take_app_length in Ht by lia.
  - intros [-> ?]. by rewrite take_nil.
Qed.

Lemma double_until_ge fuel c required : required ≤ double_until fuel c required.
Proof.
  revert c. induction fuel as [|fuel IH]; intros c; simpl; [lia|].
  destruct (c <? required) eqn:E; [|lia]. destruct (_ <=? c); [lia|]. apply IH.
Qed.

(** What one call of the sink does. *)
Lemma buffer_sink_spec v d e :
  0 ≤ jv_json_size v →
  let '(st, v', e') := lonejson__json_buffer_sink v d e in
  e' = e ∧ 0 ≤ jv_json_size v' ∧ same_callbacks (jv_allocator v) (jv_allocator v')
  ∧ live_blocks (jv_allocator v') = shift (json_blocks v' - json_blocks v) (live_blocks (jv_allocator v))
  ∧ (capturing v → capturing v')
  ∧ ((st = LONEJSON_STATUS_OK
      ∧ ∀ out, capturing v → captured v out → zlen out + zlen d < 2 ^ 62 → captured v' (out ++ d))
     ∨ (st = LONEJSON_STATUS_ALLOCATION_FAILED ∧ ¬ never_fails (jv_allocator v)
        ∧ ∀ out, captured v out → captured v' out)).
Proof.
  intros Hsize. unfold lonejson__json_buffer_sink. destruct (zlen d =? 0) eqn:E0.
  { assert (d = []) as -> by (destruct d; [done|rewrite zlen_cons in E0; pose proof (zlen_nonneg d); lia]).
    rewrite Z.sub_diag, shift_0. split_and!; [done..|]. left. split; [done|]. intros out. by rewrite app_nil_r. }
  set (required := u64 _). set (null := bool_decide (jv_json v = None)).
  set (capacity := if null then 0 else jv_json_size v). set (cap := double_until _ _ _).
  pose proof (zlen_nonneg d) as Hd.
  assert (∀ out, captured v out → zlen out + zlen d < 2 ^ 62 → required = zlen out + zlen d + 1)
    as Hreq.
  { intros out [Hl _]%captured_held Hb. pose proof (zlen_nonneg out). unfold required.
    rewrite Hl, u64_small by (unfold is_u64; lia). lia. }
  assert (∀ w, capturing w → capturing (append_json w d)) as Hcap.
  { intros w Hw. unfold capturing, append_json. cbn. by rewrite Hw. }
  assert (0 ≤ capacity) as Hcap0 by (unfold capacity; by destruct null).
  destruct (capacity <? required) eqn:Ec.
  - pose proof (double_until_ge 64 (if negb (capacity =? 0) then capacity else 64) required) as Hge.
    fold cap in Hge.
    pose proof (owned_realloc_blocks (jv_allocator v) null capacity cap ltac:(lia)) as Hr.
    destruct (lonejson__owned_realloc _ _ _ _) as [[] a]; destruct Hr as (Hcb & Hbl & Hf); cbn [negb].
    + split_and!; [done|simpl; lia|done| |intros Hv; apply Hcap; unfold capturing; by rewrite Hv|].
      * simpl. rewrite Hbl. apply shift_blocks. unfold json_blocks, null. simpl. by destruct (jv_json v).
      * left. split; [done|]. intros out Hv Hc Hb. destruct (captured_held v out Hc) as [Hl Ht].
        eapply append_json_captured; [done|done|done|done|]. simpl. rewrite (Hreq out Hc Hb) in Hge. lia.
    + split_and!; [done|done|done| |intros Hv; unfold capturing; by rewrite Hv|].
      * simpl. rewrite Hbl. apply shift_blocks. unfold json_blocks. simpl. by destruct (jv_json v).
      * right. split_and!; [done|by apply Hf|]. intros out Hc. exact Hc.
  - split_and!; [done|done|done| |by apply Hcap|].
    + simpl. rewrite <- (shift_0 (jv_allocator v)) at 1. apply shift_blocks. unfold json_blocks. simpl.
      destruct (jv_json v); simpl; lia.
    + left. split; [done|]. intros out Hv Hc Hb. destruct (captured_held v out Hc) as [Hl Ht].
      rewrite (Hreq out Hc Hb) in Ec. pose proof (zlen_nonneg out). unfold capacity, null in Ec.
      destruct (jv_json v) as [mem|] eqn:Hj; [|rewrite bool_decide_true in Ec by done; lia].
      rewrite bool_decide_false in Ec by done.
      eapply append_json_captured; [done|done|done|done|lia].
Qed.
(** *** The sink as a consumer of the transcoder *)

(** [u] captured [out] on a heap that started as [a0]. *)
Definition capture_inv (a0 : lonejson_allocator) (u : lonejson_json_value R)
    (_ : lonejson_allocator) (out : bytes) (sc : option Z) : Prop :=
  0 ≤ jv_json_size u ∧ capturing u ∧ same_callbacks a0 (jv_allocator u)
  ∧ live_blocks (jv_allocator u)
    = shift (json_blocks u + one_if (bool_decide (is_Some sc))) (live_blocks a0)
  ∧ (zlen out < 2 ^ 62 → captured u out).

Definition capture_fails (a0 : lonejson_allocator) (st : lonejson_status) : Prop :=
  st = LONEJSON_STATUS_ALLOCATION_FAILED ∧ ¬ never_fails a0.

(** The value after a refusal: what it captured so far is still its own. *)
Definition capture_broken (a0 : lonejson_allocator) (st : lonejson_status) (u : lonejson_json_value R)
    (a : lonejson_allocator) (_ : bytes) (sc : option Z) : Prop :=
  capture_fails a0 st ∧ ∃ out, capture_inv a0 u a out sc.

Lemma never_fails_back a b : same_callbacks a b → ¬ never_fails b → ¬ never_fails a.
Proof. intros H Hb Ha. by apply Hb, (same_callbacks_never_fails a). Qed.

(** A heap operation on the value's allocator. *)
Lemma capture_inv_heap a0 u a out sc sc' h k :
  capture_inv a0 u a out sc → same_callbacks (jv_allocator u) h →
  live_blocks h = shift k (live_blocks (jv_allocator u)) →
  one_if (bool_decide (is_Some sc)) + k = one_if (bool_decide (is_Some sc')) →
  capture_inv a0 (set_value_allocator u h) a out sc'.
Proof.
  intros (Hs & Hc & Hcb & Hb & Hcap) Hh Hbl Hk. unfold capture_inv. cbn. split_and!.
  - done.
  - unfold capturing. by rewrite Hc.
  - by eapply same_callbacks_trans.
  - rewrite Hbl, Hb, shift_shift. apply shift_blocks. unfold json_blocks in *. cbn. lia.
  - exact Hcap.
Qed.

(** Giving the scratch block back. *)
Lemma capture_inv_free a0 u a out on_stack old :
  capture_inv a0 u a out (scratch on_stack old) →
  capture_inv a0 (set_value_allocator u (lonejson__owned_free (jv_allocator u) on_stack old)) a out None.
Proof.
  intros Hi. destruct (owned_free_blocks (jv_allocator u) on_stack old) as [Hcb Hbl].
  eapply capture_inv_heap; [done|done|done|]. by destruct on_stack.
Qed.

Lemma capture_collector a0 :
  Collector (SharedHeap0 := captured_heap) lonejson__json_buffer_sink (capture_inv a0)
    (λ st _, st = LONEJSON_STATUS_OK) (capture_broken a0).
Proof.
  constructor.
  - by intros st _ ->.
  - done.
  - by intros st u a p sc [[-> _] _].
  - intros u a out sc d e (Hs & Hc & Hcb & Hb & Hcap). pose proof (buffer_sink_spec u d e Hs) as H.
    destruct (lonejson__json_buffer_sink u d e) as [[st v'] e'].
    destruct H as (-> & Hs' & Hcb' & Hb' & Hc' & Hout).
    assert (live_blocks (jv_allocator v')
            = shift (json_blocks v' + one_if (bool_decide (is_Some sc))) (live_blocks a0)) as Hlive.
    { rewrite Hb', Hb, shift_shift. apply shift_blocks. lia. }
    destruct Hout as [[-> Hout]|(-> & Hf & Hout)].
    + left. split_and!; [done|done|]. split_and!; [done|by apply Hc'|by eapply same_callbacks_trans|done|].
      rewrite zlen_app. intros Hb2. pose proof (zlen_nonneg d). apply Hout; [done| |done]. apply Hcap. lia.
    + right. split; [split; [done|by eapply never_fails_back]|]. exists out.
      split_and!; [done|by apply Hc'|by eapply same_callbacks_trans|done|]. auto.
  - intros u a out on_stack old n Hi Hn. unfold heap_of, put_heap. cbn [user_allocator captured_heap default].
    pose proof (owned_realloc_blocks (jv_allocator u) on_stack old n Hn) as H.
    cbn [from_option id]. destruct (lonejson__owned_realloc _ _ _ _) as [ok h].
    destruct H as (Hcb & Hbl & Hf). destruct ok.
    + eapply capture_inv_heap; [done|done|done|]. by destruct on_stack.
    + split; [split; [done|]; eapply never_fails_back; [apply Hi|auto]|]. exists out.
      eapply capture_inv_heap; [done|done|done|]. by destruct on_stack.
  - intros u a out on_stack old Hi. by apply capture_inv_free.
  - intros st u a p on_stack old (Hf & out & Hi). split; [done|]. exists out. by apply capture_inv_free.
Qed.

Lemma capture_start a : capture_inv a (value_null a) a [] None.
Proof.
  split_and!; [done|done|done| |by intros _]. unfold json_blocks. simpl. by rewrite shift_0.
Qed.

(** *** Capturing a text *)

(** What the walk that captures [s] leaves, from an allocator [a]. *)
Definition capture_outcome (a : lonejson_allocator) (s : bytes) (e : error_ptr)
    (st : lonejson_status) (u : lonejson_json_value R) (e' : error_ptr) : Prop :=
  (∃ out, capture_inv a u a out None)
  ∧ ((st = LONEJSON_STATUS_ALLOCATION_FAILED ∧ ¬ never_fails a)
     ∨ match ref_document s with
       | Some d => st = LONEJSON_STATUS_OK ∧ e' = e ∧ capture_inv a u a (render false 0 d) None
       | None => st = LONEJSON_STATUS_INVALID_JSON
       end).

Lemma capture_text fuel s c a e :
  cursor_rest (R := R) c s → short s → (ref_fuel s ≤ fuel)%nat →
  ∃ st io, lonejson__json_transcode_cursor (SharedHeap0 := captured_heap) lonejson__json_buffer_sink
             fuel (Some c) a (value_null a) e false 0 = Done (st, io)
           ∧ capture_outcome a s e st (io_user io) (io_error io).
Proof.
  intros Hc Hs Hf.
  pose proof (sim_transcode (SharedHeap0 := captured_heap) lonejson__json_buffer_sink (capture_inv a)
    (λ st _, st = LONEJSON_STATUS_OK) (capture_broken a) fuel c a fresh_allocator (value_null a) [] e false 0 (Collector0 := capture_collector a)
    (capture_start a) fresh_never_fails) as Hsim.
  assert (transcodable 0 s) as Ht.
  { split_and!; [done|lia|]. unfold short in Hs. change (SIZE_MAX / 2) with 9223372036854775807. lia. }
  pose proof (transcode_cursor_document collect_sink fuel c fresh_allocator [] e false 0 s Hc
    fresh_never_fails Ht Hf) as Href. unfold transcoded, rejected in Href. unfold sim_run in Hsim.
  destruct (lonejson__json_transcode_cursor _ _ _ a _ _ _ _) as [[st io]| |].
  - exists st, io. split; [done|].
    destruct Hsim as [(p & (Hfail & out & Hinv) & _)|(st2 & ioc & Hr & Hst & Hio)].
    { split; [by exists out|]. by left. }
    assert (st = st2) as -> by (by destruct Hst as [?|[? ?]]; [|congruence]).
    destruct Hio as [cu u out e' p b d t l aa a2 h pc lg pb Hinv Ha2].
    cbn [io_user io_error].
    split; [by exists out|]. right. revert Href. destruct (ref_document s) as [dd|].
    + intros (io' & Href & He & Ho). rewrite Hr in Href. injection Href as -> <-.
      cbn in He, Ho. subst. by split_and!.
    + intros (io' & Href). congruence.
  - revert Href. rewrite Hsim. destruct (ref_document s); [intros (? & ? & _)|intros (? & ?)]; done.
  - revert Href. rewrite Hsim. destruct (ref_document s); [intros (? & ? & _)|intros (? & ?)]; done.
Qed.
End capture.

(** ** The calls of the API *)

Section api.
Context {R : Type}.
Variable lonejson_default_allocator : lonejson_allocator.
Implicit Types h : json_handle R.

#[local] Abbreviation set_buffer := (lonejson_json_value_set_buffer (R := R) lonejson_default_allocator).

(** Only the state behind the allocator changed. *)
Definition kept h h' : Prop := ∃ a, h' = with_allocator h a.

(** The heap of the call: the same allocator, and no block gained or lost but
    those the handle owns. *)
Definition balanced h h' : Prop :=
  same_callbacks (jv_allocator (jh_value h)) (jv_allocator (jh_value h'))
  ∧ foreign_blocks (jh_value h') = foreign_blocks (jh_value h).

(** The handle after [set_buffer] stored a compact text. *)
Definition holds_buffer h' (out : bytes) : Prop :=
  jv_kind (jh_value h') = LONEJSON_JSON_VALUE_BUFFER ∧ captured (jh_value h') out
  ∧ jv_reader (jh_value h') = None ∧ jv_fp (jh_value h') = None ∧ jv_fd (jh_value h') = None
  ∧ jv_path (jh_value h') = None ∧ jh_config h' = parse_config_none.

Lemma balanced_with_allocator h a :
  same_callbacks (jv_allocator (jh_value h)) a →
  live_blocks a = live_blocks (jv_allocator (jh_value h)) → balanced h (with_allocator h a).
Proof. intros H1 H2. split; [done|]. unfold foreign_blocks. cbn. by rewrite H2. Qed.

Lemma cleanup_balanced h : balanced h (lonejson_json_value_cleanup h).
Proof.
  destruct (free_blocks_spec (jh_value h)) as [H1 H2]. split; [done|]. cbn.
  by rewrite foreign_null.
Qed.

Lemma clear_runtime_balanced h : balanced h (clear_runtime h).
Proof.
  unfold clear_runtime, lonejson__json_value_clear_runtime.
  destruct (value_is_empty (jh_value h)); [by split; [apply same_callbacks_refl|]|].
  apply (cleanup_balanced h).
Qed.

Lemma balanced_trans h1 h2 h3 : balanced h1 h2 → balanced h2 h3 → balanced h1 h3.
Proof. intros [] []. split; [by eapply same_callbacks_trans|congruence]. Qed.

(** The captured value is freed by its cleanup. *)
Lemma capture_free_blocks a (u : lonejson_json_value R) b out :
  capture_inv a u b out None →
  same_callbacks a (free_blocks u) ∧ live_blocks (free_blocks u) = live_blocks a.
Proof.
  intros (_ & Hc & Hcb & Hb & _). destruct (free_blocks_spec u) as [H1 H2].
  split; [by eapply same_callbacks_trans|]. rewrite H2. unfold foreign_blocks. rewrite Hb, shift_shift.
  transitivity (shift 0 (live_blocks a)); [apply shift_blocks|apply shift_0].
  unfold owned_blocks. rewrite path_blocks_other by (by rewrite Hc).
  rewrite bool_decide_false by (by intros [? ?]). cbn [one_if]. lia.
Qed.

Definition buffer_outcome h (s : bytes) (e : error_ptr) (st : lonejson_status) h' (e' : error_ptr) : Prop :=
  (st = LONEJSON_STATUS_ALLOCATION_FAILED ∧ ¬ never_fails (jv_allocator (jh_value h)) ∧ kept h h')
  ∨ match ref_document s with
    | Some d => st = LONEJSON_STATUS_OK ∧ e' = lonejson__clear_error e
                ∧ holds_buffer h' (render false 0 d)
    | None => st = LONEJSON_STATUS_INVALID_JSON ∧ kept h h'
    end.

Lemma set_buffer_spec fuel h data len s e :
  s = take (Z.to_nat len) data → is_bytes s → short s → (ref_fuel s ≤ fuel)%nat →
  ∃ st h' e', set_buffer fuel (Some h) (Some data) len e = Done (st, Some h', e')
    ∧ balanced h h' ∧ jh_limits h' = jh_limits h ∧ buffer_outcome h s e st h' e'.
Proof.
  intros Hs Hb Hsh Hf. unfold lonejson_json_value_set_buffer.
  rewrite (bool_decide_eq_false_2 (Some data = None)) by done. cbn [andb].
  set (a := jv_allocator (jh_value h)). set (input := mk_json_value _ _ _ _ _ _ _ _ _).
  destruct (open_handle_text (λ _, inr 0) input s e 0) as (c & n & -> & Hc & _); [|done|done|].
  { cbn. exists data. by rewrite Hs. }
  rewrite run_bind_done. rewrite decide_True by done.
  change (jh_value (lonejson_json_value_init_with_allocator lonejson_default_allocator (Some a)))
    with (value_null (R := R) a).
  destruct (capture_text fuel s c a e Hc Hsh Hf) as (st & io & -> & (out & Hinv) & Hout).
  rewrite !run_bind_done. destruct (capture_free_blocks a _ a out Hinv) as [Hcb Hlive].
  assert (kept h (with_allocator h (free_blocks (io_user io)))
          ∧ balanced h (with_allocator h (free_blocks (io_user io)))) as [Hkept Hbal].
  { split; [by eexists|]. by apply balanced_with_allocator. }
  destruct Hout as [[-> Hnf]|Hout].
  { cbn. eexists _, _, _. split_and!; [done|done|done|]. left. by split_and!. }
  unfold buffer_outcome.
  destruct (ref_document s) as [d|] eqn:Ed.
  2:{ rewrite Hout. cbn. eexists _, _, _. split_and!; [done|done|done|]. by right. }
  destruct Hout as (-> & -> & Hinv'). cbn. eexists _, _, _. split; [done|].
  destruct Hinv' as (_ & Hcap & Hcb' & Hlive' & Hcaptured).
  assert (zlen (render false 0 d) < 2 ^ 62) as Hlen.
  { apply ref_document_iff in Ed as Hd. apply (render_compact_length 0) in Hd. unfold short in Hsh. lia. }
  specialize (Hcaptured Hlen). set (u := io_user io) in *.
  destruct (free_blocks_spec (set_value_allocator (jh_value h) (jv_allocator u))) as [Hcbf Hlf].
  assert (jv_reader u = None ∧ jv_fp u = None ∧ jv_fd u = None ∧ jv_path u = None) as (-> & -> & -> & ->)
    by (rewrite Hcap; done).
  split_and!; [split|done|right; by split_and!].
  - eapply same_callbacks_trans; [exact Hcb'|exact Hcbf].
  - unfold foreign_blocks at 1. cbn [jh_value jv_allocator]. rewrite Hlf. unfold foreign_blocks.
    cbn [jv_allocator set_value_allocator]. rewrite Hlive', !shift_shift. apply shift_blocks.
    rewrite bool_decide_false by (by intros [? ?]). unfold owned_blocks.
    rewrite (path_blocks_other (mk_json_value _ _ _ _ _ _ _ _ _)) by done.
    unfold json_blocks, path_blocks. cbn [jv_json jv_kind jv_path set_value_allocator one_if]. lia.
Qed.

(** *** Reachable handles *)

(** The parse-time half: a mode other than NONE has its destination and no other
    visitor, and waits with an empty value; the visitors of other modes are gone. *)
Definition config_wf h : Prop :=
  let c := jh_config h in
  (parse_mode c ≠ LONEJSON_JSON_VALUE_PARSE_NONE → value_is_empty (jh_value h) = true)
  ∧ (parse_mode c = LONEJSON_JSON_VALUE_PARSE_SINK → is_Some (parse_sink c))
  ∧ (is_Some (parse_visitor c) ↔ parse_mode c = LONEJSON_JSON_VALUE_PARSE_VISITOR)
  ∧ (is_Some (parse_path_visitor c) ↔ parse_mode c = LONEJSON_JSON_VALUE_PARSE_PATH_VISITOR).

(** The value half: exactly the source of its kind is present, and a stored
    buffer is the compact rendering of some value, NUL-terminated in its block. *)
Definition value_wf (v : lonejson_json_value R) : Prop :=
  (jv_kind v = LONEJSON_JSON_VALUE_BUFFER → ∃ d s, json_document d s ∧ captured v (render false 0 d))
  ∧ (is_Some (jv_json v) ↔ jv_kind v = LONEJSON_JSON_VALUE_BUFFER)
  ∧ (is_Some (jv_reader v) ↔ jv_kind v = LONEJSON_JSON_VALUE_READER)
  ∧ (is_Some (jv_fp v) ↔ jv_kind v = LONEJSON_JSON_VALUE_FILE)
  ∧ (is_Some (jv_fd v) ↔ jv_kind v = LONEJSON_JSON_VALUE_FD)
  ∧ (is_Some (jv_path v) ↔ jv_kind v = LONEJSON_JSON_VALUE_PATH).

Definition handle_wf h : Prop := value_wf (jh_value h) ∧ config_wf h.

(** One API call, whatever it returns.  Buffers are texts the machine can hold,
    and the walk has the fuel it needs. *)
Inductive api_call : json_handle R → json_handle R → Prop :=
| call_cleanup h : api_call h (lonejson_json_value_cleanup h)
| call_reset h : api_call h (lonejson_json_value_reset h)
| call_set_parse_sink h h' sink user e st e' :
    lonejson_json_value_set_parse_sink (Some h) sink user e = (st, Some h', e') → api_call h h'
| call_set_parse_visitor h h' visitor user e st e' :
    lonejson_json_value_set_parse_visitor (Some h) visitor user e = (st, Some h', e') → api_call h h'
| call_set_parse_path_visitor h h' visitor user e st e' :
    lonejson_json_value_set_parse_path_visitor (Some h) visitor user e = (st, Some h', e') →
    api_call h h'
| call_enable_parse_capture h h' e st e' :
    lonejson_json_value_enable_parse_capture (Some h) e = (st, Some h', e') → api_call h h'
| call_set_reader h h' reader e st e' :
    lonejson_json_value_set_reader (Some h) reader e = (st, Some h', e') → api_call h h'
| call_set_file h h' fp e st e' :
    lonejson_json_value_set_file (Some h) fp e = (st, Some h', e') → api_call h h'
| call_set_fd h h' fd e st e' :
    lonejson_json_value_set_fd (Some h) fd e = (st, Some h', e') → api_call h h'
| call_set_path h h' path e st e' :
    lonejson_json_value_set_path (Some h) path e = (st, Some h', e') → api_call h h'
| call_set_buffer h h' fuel data len e st e' :
    let s := take (Z.to_nat len) data in
    is_bytes s → short s → (ref_fuel s ≤ fuel)%nat →
    set_buffer fuel (Some h) (Some data) len e = Done (st, Some h', e') → api_call h h'
| call_is_rewindable h h' b :
    lonejson_json_value_is_rewindable (Some h) = (b, Some h') → api_call h h'.

Lemma wf_with_allocator h a : handle_wf h → handle_wf (with_allocator h a).
Proof. intros H. exact H. Qed.

(** A handle with a source of its kind, or none, and no parse-time half. *)
Lemma config_none_wf v l : config_wf (mk_handle v parse_config_none l).
Proof. split_and!; cbn; [done..| |]; (split; [by intros [? ?]|done]). Qed.

Lemma null_wf a : value_wf (value_null (R := R) a).
Proof. split_and!; cbn; [done|..]; (split; [by intros [? ?]|done]). Qed.

Lemma cleanup_wf h : handle_wf (lonejson_json_value_cleanup h).
Proof. split; [apply null_wf|apply config_none_wf]. Qed.

Lemma clear_runtime_empty h :
  value_is_empty (jh_value (clear_runtime h)) = true ∧ (handle_wf h → value_wf (jh_value (clear_runtime h))).
Proof.
  unfold clear_runtime, lonejson__json_value_clear_runtime. cbn.
  destruct (value_is_empty (jh_value h)) eqn:E; [split; [done|by intros []]|].
  split; [done|intros _; apply null_wf].
Qed.
(** What every call is proved to keep. *)
Definition sound_call h h' : Prop := (handle_wf h → handle_wf h') ∧ balanced h h'.

Lemma sound_refl h : sound_call h h.
Proof. by split. Qed.

Lemma invalid_argument_inv h e m st h' e' :
  invalid_argument (Some h) e m = (st, Some h', e') → h' = h.
Proof. unfold invalid_argument. destruct (lonejson__set_error _ _ _ _ _ _). by intros [= _ <- _]. Qed.

(** The parse-time setters: the value is emptied and the half replaced. *)
Lemma configured_sound h c e st h' e' :
  configured (clear_runtime h) c e = (st, Some h', e') →
  (parse_mode c = LONEJSON_JSON_VALUE_PARSE_SINK → is_Some (parse_sink c)) →
  (is_Some (parse_visitor c) ↔ parse_mode c = LONEJSON_JSON_VALUE_PARSE_VISITOR) →
  (is_Some (parse_path_visitor c) ↔ parse_mode c = LONEJSON_JSON_VALUE_PARSE_PATH_VISITOR) →
  sound_call h h'.
Proof.
  intros [= _ <- _] H1 H2 H3. destruct (clear_runtime_empty h) as [He Hv]. split.
  - intros Hwf. split; [by apply Hv|]. by split_and!.
  - destruct (clear_runtime_balanced h). by split.
Qed.

(** The source setters: a cleaned up handle with one source of kind [k]. *)
Lemma with_source_sound h v :
  value_wf v → live_blocks (jv_allocator v) = shift (owned_blocks v) (foreign_blocks (jh_value h)) →
  same_callbacks (jv_allocator (jh_value h)) (jv_allocator v) →
  sound_call h (with_source (lonejson_json_value_cleanup h) v).
Proof.
  intros Hv Hl Hc. split.
  - intros _. split; [done|apply config_none_wf].
  - split; [done|]. unfold foreign_blocks at 1. cbn [jh_value with_source]. rewrite Hl, shift_shift.
    unfold foreign_blocks. rewrite shift_shift. apply shift_blocks. lia.
Qed.

Lemma cleanup_source_sound h v :
  value_wf v → owned_blocks v = 0 → jv_allocator v = free_blocks (jh_value h) →
  sound_call h (with_source (lonejson_json_value_cleanup h) v).
Proof.
  intros Hv Ho Ha. destruct (free_blocks_spec (jh_value h)) as [Hc Hl].
  apply with_source_sound; [done| |by rewrite Ha]. rewrite Ha, Ho, Hl. unfold foreign_blocks.
  rewrite shift_shift. apply shift_blocks. lia.
Qed.

Lemma owned_path p a :
  owned_blocks (R := R) (mk_json_value LONEJSON_JSON_VALUE_PATH None 0 0 None None None (Some p) a) = 1.
Proof. done. Qed.

Lemma set_path_sound h path e st h' e' :
  lonejson_json_value_set_path (Some h) path e = (st, Some h', e') → sound_call h h'.
Proof.
  unfold lonejson_json_value_set_path. destruct path as [p|].
  2:{ intros ->%invalid_argument_inv. apply sound_refl. }
  case_bool_decide as Hp; [intros ->%invalid_argument_inv; apply sound_refl|].
  pose proof (owned_malloc_blocks (jv_allocator (jh_value h)) (u64 (zlen (c_string p) + 1))) as Hm.
  destruct (lonejson__owned_malloc _ _) as [[] a]; destruct Hm as (Hc & Hl & _); cbn [negb].
  - intros [= _ <- _].
    destruct (free_blocks_spec (set_value_allocator (jh_value h) a)) as [Hcf Hlf].
    match goal with |- sound_call h (with_source _ ?v) =>
      change (sound_call h (with_source (lonejson_json_value_cleanup h) v)) end.
    apply with_source_sound; [|cbn [jv_allocator jh_value lonejson_json_value_cleanup value_null]|].
    + split_and!; cbn; [done|..]; (split; [by intros [? ?]|done]) || (by split; eauto).
    + cbn [free_blocks with_source jh_value]. rewrite Hlf. unfold foreign_blocks at 1.
      change (owned_blocks (set_value_allocator (jh_value h) a)) with (owned_blocks (jh_value h)).
      cbn [jv_allocator set_value_allocator]. rewrite Hl. unfold foreign_blocks. rewrite !shift_shift.
      apply shift_blocks. rewrite owned_path. lia.
    + by eapply same_callbacks_trans; [exact Hc|].
  - destruct (lonejson__set_error _ _ _ _ _ _). intros [= _ <- _]. split; [by intros H|].
    rewrite shift_0 in Hl. by apply balanced_with_allocator.
Qed.

Lemma set_buffer_sound fuel h data len e st h' e' :
  let s := take (Z.to_nat len) data in
  is_bytes s → short s → (ref_fuel s ≤ fuel)%nat →
  set_buffer fuel (Some h) (Some data) len e = Done (st, Some h', e') → sound_call h h'.
Proof.
  intros s Hb Hs Hf Hrun.
  destruct (set_buffer_spec fuel h data len s e eq_refl Hb Hs Hf) as (st2 & h2 & e2 & Hrun' & Hbal & _ & Hout).
  rewrite Hrun in Hrun'. injection Hrun' as <- <- <-. split; [|done]. intros Hwf.
  assert (kept h h' → handle_wf h') as Hkept by (by intros [a ->]).
  destruct Hout as [(_ & _ & Hk)|Hout]; [by apply Hkept|].
  destruct (ref_document s) as [d|] eqn:Ed; [|by apply Hkept; destruct Hout].
  destruct Hout as (_ & _ & Hk & Hc & Hr & Hfp & Hfd & Hp & Hcfg). split.
  - unfold value_wf. rewrite Hk, Hr, Hfp, Hfd, Hp. split_and!;
      try (split; [by intros [? ?]|done]).
    + intros _. exists d, s. split; [by apply ref_document_iff|done].
    + split; [done|]. intros _. unfold captured in Hc. destruct (jv_json (jh_value h')); [by eexists|].
      destruct Hc as [Hc _]. apply ref_document_iff in Ed. by apply (render_nonempty false 0) in Ed.
  - unfold config_wf. rewrite Hcfg. apply (config_none_wf (jh_value h') (jh_limits h')).
Qed.

Lemma is_rewindable_sound h b h' :
  lonejson_json_value_is_rewindable (Some h) = (b, Some h') → sound_call h h'.
Proof.
  unfold lonejson_json_value_is_rewindable. intros H.
  destruct (jv_kind (jh_value h)) eqn:Hk; try (injection H as _ <-; apply sound_refl).
  all: case_match; [|injection H as _ <-; apply sound_refl].
  all: destruct (try_rewind _) as [ok f']; injection H as _ <-.
  all: split; [|by split; [|unfold foreign_blocks, owned_blocks, json_blocks, path_blocks; cbn; rewrite Hk]].
  all: intros [(Hb & Hj & Hr & Hfp & Hfd & Hp) (Hc & Hcfg)]; split.
  all: match goal with
       | |- value_wf _ =>
           unfold value_wf in *; cbn [jh_value with_source jv_kind jv_json jv_reader jv_fp jv_fd jv_path];
           rewrite Hk in *; split_and!; try done; split; done || by eauto
       | |- config_wf _ =>
           split; [|exact Hcfg]; intros Hm; specialize (Hc Hm); unfold value_is_empty in Hc;
           by rewrite Hk in Hc
       end.
Qed.

Lemma api_call_sound h h' : api_call h h' → sound_call h h'.
Proof.
  destruct 1 as [h|h|h h' [s|] u e st e' H|h h' [s|] u e st e' H|h h' [s|] u e st e' H|h h' e st e' H
    |h h' [r|] e st e' H|h h' [f|] e st e' H|h h' [f|] e st e' H|h h' path e st e' H
    |h h' fuel data len e st e' s Hb Hs Hf H|h h' b H];
    try (apply invalid_argument_inv in H as ->; apply sound_refl).
  - split; [intros _; apply cleanup_wf|apply cleanup_balanced].
  - split; [intros _; apply cleanup_wf|apply cleanup_balanced].
  - apply (configured_sound _ _ _ _ _ _ H); cbn; [by eauto|..]; split; done || by intros [? ?].
  - apply (configured_sound _ _ _ _ _ _ H); cbn; [by eauto|..]; split; done || by eauto || by intros [? ?].
  - apply (configured_sound _ _ _ _ _ _ H); cbn; [by eauto|..]; split; done || by eauto || by intros [? ?].
  - cbn in H. assert ((if negb (value_is_empty (jh_value h)) then clear_runtime h else h) = clear_runtime h)
      as Heq.
    { unfold clear_runtime, lonejson__json_value_clear_runtime. destruct (value_is_empty (jh_value h)); [|done].
      by destruct h. }
    rewrite Heq in H. apply (configured_sound _ _ _ _ _ _ H); cbn; [done|..]; split; done || by intros [? ?].
  - injection H as _ <- _. apply cleanup_source_sound; [|done|done].
    split_and!; cbn; [done|..]; split; done || by eauto || by intros [? ?].
  - injection H as _ <- _. apply cleanup_source_sound; [|done|done].
    split_and!; cbn; [done|..]; split; done || by eauto || by intros [? ?].
  - injection H as _ <- _. apply cleanup_source_sound; [|done|done].
    split_and!; cbn; [done|..]; split; done || by eauto || by intros [? ?].
  - by eapply set_path_sound.
  - by eapply set_buffer_sound.
  - by eapply is_rewindable_sound.
Qed.
End api.
