(* ===== verification/JsonValueProps.v ===== *)
(** * JsonValueProps: the properties of the handle API

    The statements about [src/impl/14_json_value_api.h] a caller relies on, each
    with a concrete instance; the lemmas are in [JsonValueSpec]. *)

From stdpp Require Import base numbers list strings relations.
From Stdlib Require Import ZArith Lia Bool.
From S2P Require Import Prelude Runtime Heap Source Number JsonGrammar JsonCursor Walker Transcode TranscodeSpec JsonValue JsonValueSpec.

(** C18: storing a text in a handle.  With memory, [set_buffer] of a document
    stores exactly its compact rendering, NUL-terminated in a block that is large
    enough, and nothing else: the kind is BUFFER, every other source and every
    parse-time setting is gone, the limits are kept and the error object is
    cleared.  A text that is no document is refused with [INVALID_JSON]. *)
Theorem set_buffer_exact {R} dflt fuel (h : json_handle R) data len s e :
  s = take (Z.to_nat len) data → is_bytes s → short s → (ref_fuel s ≤ fuel)%nat →
  never_fails (jv_allocator (jh_value h)) →
  ∃ st h' e', lonejson_json_value_set_buffer dflt fuel (Some h) (Some data) len e
              = Done (st, Some h', e')
    ∧ ((∃ d, json_document d s ∧ st = LONEJSON_STATUS_OK ∧ e' = lonejson__clear_error e
             ∧ holds_buffer h' (render false 0 d) ∧ jh_limits h' = jh_limits h)
       ∨ ((∀ d, ¬ json_document d s) ∧ st = LONEJSON_STATUS_INVALID_JSON)).
Proof.
  intros Hs Hb Hsh Hf Ha.
  destruct (set_buffer_spec dflt fuel h data len s e Hs Hb Hsh Hf)
    as (st & h' & e' & Hrun & _ & Hlim & [(_ & Hn & _)|Hout]); [done|].
  exists st, h', e'. split; [done|]. destruct (ref_document s) as [d|] eqn:Ed.
  - left. exists d. apply ref_document_iff in Ed. destruct Hout as (-> & -> & ?). by split_and!.
  - right. destruct Hout as [-> _]. split; [|done]. intros d Hd%ref_document_iff. congruence.
Qed.

(** C7: a failing [set_buffer] changes nothing.  Whatever the allocator does, a
    call that reports a failure - a text that is no document, or memory that runs
    out in the middle of the capture - leaves the handle as it was (only the state
    behind its allocator moved on), with no block leaked or freed: the half-built
    copy is gone and the old value is still owned. *)
Theorem set_buffer_atomic {R} dflt fuel (h : json_handle R) data len s e :
  s = take (Z.to_nat len) data → is_bytes s → short s → (ref_fuel s ≤ fuel)%nat →
  ∃ st h' e', lonejson_json_value_set_buffer dflt fuel (Some h) (Some data) len e
              = Done (st, Some h', e')
    ∧ (status_fails st = true → kept h h')
    ∧ foreign_blocks (jh_value h') = foreign_blocks (jh_value h)
    ∧ (st = LONEJSON_STATUS_OK ∨ st = LONEJSON_STATUS_INVALID_JSON
       ∨ st = LONEJSON_STATUS_ALLOCATION_FAILED ∧ ¬ never_fails (jv_allocator (jh_value h))).
Proof.
  intros Hs Hb Hsh Hf.
  destruct (set_buffer_spec dflt fuel h data len s e Hs Hb Hsh Hf)
    as (st & h' & e' & Hrun & [_ Hbal] & _ & Hout).
  exists st, h', e'. split; [done|]. destruct Hout as [(-> & ? & ?)|Hout].
  { split_and!; auto. }
  destruct (ref_document s) as [d|].
  - destruct Hout as (-> & _). split_and!; auto. done.
  - destruct Hout as [-> ?]. split_and!; auto.
Qed.

(** C19: the state of a handle.  After any sequence of API calls on an initialised
    handle, with any arguments, any results and any allocator: exactly the source
    of its kind is present, a stored buffer is the NUL-terminated compact rendering
    of a JSON value, and a parse-time mode has its destination and waits with an
    empty value. *)
Theorem handle_invariant {R} dflt a (h : json_handle R) :
  rtc (api_call dflt) (lonejson_json_value_init_with_allocator dflt a) h → handle_wf h.
Proof.
  assert (∀ h1 h2 : json_handle R, rtc (api_call dflt) h1 h2 → handle_wf h1 → handle_wf h2) as H.
  { induction 1 as [|h1 h2 h3 Hcall _ IH]; [done|]. intros Hwf. apply IH.
    by apply (api_call_sound dflt h1 h2). }
  intros Hr. apply (H _ _ Hr). split; [apply null_wf|apply config_none_wf].
Qed.

(** C12: no leak, no double free.  After any sequence of API calls the allocator's
    counters show exactly the handle's own blocks on top of the blocks that were
    live before it was initialised; a final cleanup gives them all back. *)
Theorem handle_no_leak {R} dflt a (h : json_handle R) :
  rtc (api_call dflt) (lonejson_json_value_init_with_allocator dflt a) h →
  live_blocks (jv_allocator (jh_value h))
    = shift (owned_blocks (jh_value h)) (live_blocks (default dflt a))
  ∧ live_blocks (jv_allocator (jh_value (lonejson_json_value_cleanup h)))
    = live_blocks (default dflt a).
Proof.
  intros Hr.
  assert (foreign_blocks (jh_value h) = live_blocks (default dflt a)) as Hf.
  { rewrite <- (foreign_null (R := R)).
    change (value_null (default dflt a))
      with (jh_value (lonejson_json_value_init_with_allocator (R := R) dflt a)).
    induction Hr as [|h1 h2 h3 Hcall _ IH]; [done|]. rewrite IH.
    by destruct (api_call_sound dflt h1 h2 Hcall) as [_ [_ ?]]. }
  split.
  - rewrite <- Hf. unfold foreign_blocks. rewrite shift_shift.
    rewrite <- (shift_0 (jv_allocator (jh_value h))) at 1. apply shift_blocks. lia.
  - cbn. rewrite <- Hf. apply free_blocks_spec.
Qed.

(** What was stored is what is written.  After a successful [set_buffer] of a
    document, writing the handle to any sink passes the compact rendering in one
    call; and storing those bytes again stores the same bytes. *)
Theorem set_buffer_write {R U} (sink : lonejson_sink_fn U) dflt fopen fuel (h h' : json_handle R)
    data s e e' u n d :
  s = take (Z.to_nat (zlen s)) data → is_bytes s → short s → json_document d s →
  (ref_fuel s ≤ fuel)%nat → never_fails (jv_allocator (jh_value h)) →
  lonejson_json_value_set_buffer dflt fuel (Some h) (Some data) (zlen s) e
    = Done (LONEJSON_STATUS_OK, Some h', e') →
  lonejson_json_value_write_to_sink sink fopen fuel (Some (jh_value h')) u e n
    = (let '(st, u', e2) := sink u (render false 0 d) e in Done (st, u', e2, n))
  ∧ ∃ h2 e2, lonejson_json_value_set_buffer dflt fuel (Some h') (jv_json (jh_value h'))
               (jv_len (jh_value h')) e = Done (LONEJSON_STATUS_OK, Some h2, e2)
             ∧ holds_buffer h2 (render false 0 d).
Proof.
  intros Hs Hb Hsh Hd Hf Ha Hrun.
  destruct (set_buffer_spec dflt fuel h data (zlen s) s e Hs Hb Hsh Hf)
    as (st & h1 & e1 & Hrun' & [Hcb _] & _ & [(_ & Hn & _)|Hout]); [done|].
  rewrite Hrun in Hrun'. injection Hrun' as <- <- <-. pose proof Hd as Hd'.
  apply ref_document_iff in Hd' as Hr. rewrite Hr in Hout.
  destruct Hout as (_ & _ & Hk & Hc & _). set (out := render false 0 d) in *.
  pose proof (render_document false 0 d s Hd) as Hdoc. fold out in Hdoc.
  pose proof (render_compact_length 0 d s Hd) as Hlen. fold out in Hlen.
  destruct (captured_held _ _ Hc) as [Hl Ht].
  destruct (jv_json (jh_value h')) as [mem|] eqn:Hj.
  2:{ unfold captured in Hc. rewrite Hj in Hc. destruct Hc as [Hc _].
      by apply (render_nonempty false 0) in Hd. }
  assert (out = take (Z.to_nat (jv_len (jh_value h'))) mem) as Hout.
  { rewrite Hl. unfold zlen. by rewrite Nat2Z.id. }
  split.
  - unfold lonejson_json_value_write_to_sink, lonejson__json_transcode.
    rewrite Hk, decide_False, bool_decide_true by done. cbn [negb andb]. rewrite Hj. cbn [from_option id].
    by rewrite <- Hout.
  - assert (short out) as Hsh2 by (unfold short in *; lia).
    assert (ref_fuel out ≤ fuel)%nat as Hf2 by (unfold ref_fuel, zlen in *; lia).
    destruct (set_buffer_spec dflt fuel h' mem _ out e Hout (render_bytes false 0 d s Hd Hb) Hsh2 Hf2)
      as (st & h2 & e2 & Hrun2 & _ & _ & [(_ & Hn & _)|Ho]).
    { exfalso. by apply Hn, (same_callbacks_never_fails (jv_allocator (jh_value h))). }
    apply ref_document_iff in Hdoc. rewrite Hdoc in Ho. destruct Ho as (-> & _ & ?). eauto.
Qed.

(** A NULL buffer of length 0 passes the argument check, and the walk then reads
    from a stream that is not there. *)
Lemma set_buffer_null_undefined {R} dflt fuel (h : json_handle R) e :
  lonejson_json_value_set_buffer dflt (S (S fuel)) (Some h) None 0 e = Undefined.
Proof. reflexivity. Qed.

(** ** Instances *)

Definition demo_a : json_handle unit :=
  lonejson_json_value_init_with_allocator fresh_allocator None.

Lemma set_buffer_exact_witness :
  ∃ st h' e', lonejson_json_value_set_buffer fresh_allocator 200 (Some demo_a) (Some demo_text)
                (zlen demo_text) None = Done (st, Some h', e')
    ∧ ((∃ d, json_document d demo_text ∧ st = LONEJSON_STATUS_OK ∧ e' = lonejson__clear_error None
             ∧ holds_buffer h' (render false 0 d) ∧ jh_limits h' = jh_limits demo_a)
       ∨ ((∀ d, ¬ json_document d demo_text) ∧ st = LONEJSON_STATUS_INVALID_JSON)).
Proof.
  refine (set_buffer_exact fresh_allocator 200 demo_a demo_text (zlen demo_text) demo_text None
    _ _ _ _ fresh_never_fails).
  - reflexivity.
  - apply (bool_decide_unpack _). vm_compute. exact I.
  - reflexivity.
  - vm_compute. lia.
Defined.

(** An allocator whose second request fails: the capture grows to 64 bytes, and
    the number of 130 digits then needs a block. *)
Definition failing_allocator : lonejson_allocator :=
  mk_allocator (λ k _, bool_decide (k = 0%nat)) (λ _ _, false) 0 (Some (mk_stats 0 0 0 0 0)).
Definition demo_b : json_handle unit :=
  lonejson_json_value_init_with_allocator fresh_allocator (Some failing_allocator).
Definition long_text : bytes := c_str "[" ++ replicate 130 "1"%ch ++ c_str "]".

Lemma set_buffer_atomic_witness :
  (∃ h' e', lonejson_json_value_set_buffer fresh_allocator 400 (Some demo_b) (Some long_text)
              (zlen long_text) None = Done (LONEJSON_STATUS_ALLOCATION_FAILED, Some h', e'))
  ∧ ∃ st h' e', lonejson_json_value_set_buffer fresh_allocator 400 (Some demo_b) (Some long_text)
                  (zlen long_text) None = Done (st, Some h', e')
    ∧ (status_fails st = true → kept demo_b h')
    ∧ foreign_blocks (jh_value h') = foreign_blocks (jh_value demo_b)
    ∧ (st = LONEJSON_STATUS_OK ∨ st = LONEJSON_STATUS_INVALID_JSON
       ∨ st = LONEJSON_STATUS_ALLOCATION_FAILED
         ∧ ¬ never_fails (jv_allocator (jh_value demo_b))).
Proof.
  split; [eexists _, _; vm_compute; reflexivity|].
  refine (set_buffer_atomic fresh_allocator 400 demo_b long_text (zlen long_text) long_text None
    _ _ _ _).
  - vm_compute. reflexivity.
  - apply (bool_decide_unpack _). vm_compute. exact I.
  - vm_compute. reflexivity.
  - vm_compute. lia.
Defined.

(** A path, then a capture mode, then a path again. *)
Definition demo_path : json_handle unit :=
  default demo_a (snd (fst (lonejson_json_value_set_path (Some demo_a) (Some (c_str "x")) None))).
Definition demo_capture : json_handle unit :=
  default demo_a (snd (fst (lonejson_json_value_enable_parse_capture (Some demo_path) None))).

Lemma demo_reachable :
  rtc (api_call fresh_allocator) (lonejson_json_value_init_with_allocator fresh_allocator None) demo_capture.
Proof.
  eapply (rtc_l _ _ demo_path).
  { eapply (call_set_path _ _ _ (Some (c_str "x")) None). reflexivity. }
  eapply rtc_once, (call_enable_parse_capture _ _ _ None). reflexivity.
Qed.

Lemma handle_invariant_witness : handle_wf demo_capture ∧ handle_wf demo_path.
Proof.
  split.
  - exact (handle_invariant fresh_allocator None demo_capture demo_reachable).
  - apply (handle_invariant fresh_allocator None). eapply rtc_once.
    eapply (call_set_path _ _ _ (Some (c_str "x")) None). reflexivity.
Defined.

Lemma handle_no_leak_witness :
  live_blocks (jv_allocator (jh_value demo_path)) = Some 1
  ∧ live_blocks (jv_allocator (jh_value (lonejson_json_value_cleanup demo_path))) = Some 0.
Proof.
  destruct (handle_no_leak fresh_allocator None demo_path) as [H1 H2].
  - eapply rtc_once, (call_set_path _ _ _ (Some (c_str "x")) None). reflexivity.
  - split; [rewrite H1|rewrite H2]; reflexivity.
Defined.

Lemma set_buffer_write_witness :
  ∃ h' e', lonejson_json_value_set_buffer fresh_allocator 200 (Some demo_a) (Some demo_text)
             (zlen demo_text) None = Done (LONEJSON_STATUS_OK, Some h', e')
  ∧ lonejson_json_value_write_to_sink collect_sink (λ _, inr 0) 200 (Some (jh_value h')) [] None 0
    = Done (LONEJSON_STATUS_OK, render false 0 demo_value, None, 0).
Proof.
  eexists _, _. split; [vm_compute; reflexivity|].
  refine (eq_trans (proj1 (set_buffer_write collect_sink fresh_allocator (λ _, inr 0) 200 demo_a _
    demo_text demo_text None None [] 0 demo_value _ _ _ demo_document _ fresh_never_fails _)) _).
  - reflexivity.
  - apply (bool_decide_unpack _). vm_compute. exact I.
  - reflexivity.
  - vm_compute. lia.
  - vm_compute. reflexivity.
  - reflexivity.
Defined.
