(* ===== verification/Writer.v ===== *)
(** * Writer: emitting JSON event by event

    Models [src/impl/38_writer_api.h] (the writer's state, containers, keys,
    strings, numbers, scalars and [finish]) and the pull side of it in
    [src/impl/32_generator_api.h] (the pending buffer, the generator sink and
    [lonejson__writer_generator_read]).  A writer call changes the writer, the
    sink's user and the error object: it is a [step] of [Runtime].  An event that
    is blocked half-way returns [TRUNCATED] and is resumed by the same call. *)

From stdpp Require Import base numbers list strings.
From Stdlib Require Import ZArith Lia Bool.
From S2P Require Import Prelude Runtime ByteBuffer Number F64.

(** ** Data *)

Inductive lonejson__writer_mode :=
| LONEJSON__WRITER_MODE_SINK
| LONEJSON__WRITER_MODE_GENERATOR.

Inductive lonejson__writer_frame_kind :=
| LONEJSON__WRITER_FRAME_OBJECT
| LONEJSON__WRITER_FRAME_ARRAY.

#[global] Instance writer_frame_kind_eq_dec : EqDecision lonejson__writer_frame_kind.
Proof. solve_decision. Defined.

Record lonejson__writer_frame := mk_frame {
  frame_kind : lonejson__writer_frame_kind;
  frame_values : Z;
  after_key : bool
}.

Inductive lonejson__writer_event_kind :=
| LONEJSON__WRITER_EVENT_NONE
| LONEJSON__WRITER_EVENT_STRING
| LONEJSON__WRITER_EVENT_STRING_CHUNK
| LONEJSON__WRITER_EVENT_KEY
| LONEJSON__WRITER_EVENT_BYTES
| LONEJSON__WRITER_EVENT_CHILD
| LONEJSON__WRITER_EVENT_SCALAR_BYTES.

#[global] Instance writer_event_kind_eq_dec : EqDecision lonejson__writer_event_kind.
Proof. solve_decision. Defined.

(** Where [event_data] points: nowhere, to memory of the caller at an address, to
    the number buffer, or to [event_buffer]. *)
Inductive data_ref :=
| Ref_null
| Ref_caller (address : Z)
| Ref_number
| Ref_event_buffer.

#[global] Instance data_ref_eq_dec : EqDecision data_ref.
Proof. solve_decision. Defined.

(** The event in progress, with the bytes behind [event_data]: [event_len] is
    their number. *)
Record writer_event := mk_event {
  event_kind : lonejson__writer_event_kind;
  event_ref : data_ref;
  event_data : bytes;
  event_off : Z;
  event_phase : Z
}.

Definition no_event : writer_event := mk_event LONEJSON__WRITER_EVENT_NONE Ref_null [] 0 0.

(** The state without its runtime snapshot, its string reader and its child
    generator; [frames] has the innermost frame first. *)
Record lonejson__writer_state := mk_writer_state {
  ws_mode : lonejson__writer_mode;
  ws_allocator : lonejson_allocator;
  ws_frames : list lonejson__writer_frame;
  ws_frame_capacity : Z;
  ws_root_written : bool;
  ws_finished : bool;
  ws_string_open : bool;
  ws_number_open : bool;
  ws_event : writer_event;
  ws_failed : bool;
  ws_value_stream_active : bool;
  ws_number : lonejson__byte_buffer;
  ws_max_number_bytes : Z
}.

(** [lonejson_writer]: the state pointer and the last error. *)
Record lonejson_writer := mk_writer {
  w_state : option lonejson__writer_state;
  w_error : lonejson_error
}.

(** *** Assignments *)

Section assign.
Implicit Types s : lonejson__writer_state.

Definition set_frames (frames : list lonejson__writer_frame) s : lonejson__writer_state :=
  mk_writer_state (ws_mode s) (ws_allocator s) frames (ws_frame_capacity s) (ws_root_written s)
    (ws_finished s) (ws_string_open s) (ws_number_open s) (ws_event s) (ws_failed s)
    (ws_value_stream_active s) (ws_number s) (ws_max_number_bytes s).
Definition set_stack (a : lonejson_allocator) (frames : list lonejson__writer_frame) (capacity : Z) s :
    lonejson__writer_state :=
  mk_writer_state (ws_mode s) a frames capacity (ws_root_written s)
    (ws_finished s) (ws_string_open s) (ws_number_open s) (ws_event s) (ws_failed s)
    (ws_value_stream_active s) (ws_number s) (ws_max_number_bytes s).
Definition set_root_written s : lonejson__writer_state :=
  mk_writer_state (ws_mode s) (ws_allocator s) (ws_frames s) (ws_frame_capacity s) true
    (ws_finished s) (ws_string_open s) (ws_number_open s) (ws_event s) (ws_failed s)
    (ws_value_stream_active s) (ws_number s) (ws_max_number_bytes s).
Definition set_finished s : lonejson__writer_state :=
  mk_writer_state (ws_mode s) (ws_allocator s) (ws_frames s) (ws_frame_capacity s)
    (ws_root_written s) true (ws_string_open s) (ws_number_open s) (ws_event s) (ws_failed s)
    (ws_value_stream_active s) (ws_number s) (ws_max_number_bytes s).
Definition set_string_open (b : bool) s : lonejson__writer_state :=
  mk_writer_state (ws_mode s) (ws_allocator s) (ws_frames s) (ws_frame_capacity s)
    (ws_root_written s) (ws_finished s) b (ws_number_open s) (ws_event s) (ws_failed s)
    (ws_value_stream_active s) (ws_number s) (ws_max_number_bytes s).
Definition set_event (e : writer_event) s : lonejson__writer_state :=
  mk_writer_state (ws_mode s) (ws_allocator s) (ws_frames s) (ws_frame_capacity s)
    (ws_root_written s) (ws_finished s) (ws_string_open s) (ws_number_open s) e (ws_failed s)
    (ws_value_stream_active s) (ws_number s) (ws_max_number_bytes s).
Definition set_failed s : lonejson__writer_state :=
  mk_writer_state (ws_mode s) (ws_allocator s) (ws_frames s) (ws_frame_capacity s)
    (ws_root_written s) (ws_finished s) (ws_string_open s) (ws_number_open s) (ws_event s) true
    (ws_value_stream_active s) (ws_number s) (ws_max_number_bytes s).
(** The number buffer, the allocator it grew from, and whether a number is open. *)
Definition set_number (a : lonejson_allocator) (n : lonejson__byte_buffer) (open : bool) s :
    lonejson__writer_state :=
  mk_writer_state (ws_mode s) a (ws_frames s) (ws_frame_capacity s)
    (ws_root_written s) (ws_finished s) (ws_string_open s) open (ws_event s) (ws_failed s)
    (ws_value_stream_active s) n (ws_max_number_bytes s).

(** [frame->...] of the top frame. *)
Definition set_top (f : lonejson__writer_frame) s : lonejson__writer_state :=
  set_frames (f :: drop 1 (ws_frames s)) s.

Definition set_phase (phase : Z) s : lonejson__writer_state :=
  let e := ws_event s in
  set_event (mk_event (event_kind e) (event_ref e) (event_data e) (event_off e) phase) s.
Definition advance_event s : lonejson__writer_state :=
  let e := ws_event s in
  set_event (mk_event (event_kind e) (event_ref e) (event_data e) (event_off e + 1) (event_phase e)) s.
End assign.

Definition lonejson__writer_top (s : lonejson__writer_state) : option lonejson__writer_frame :=
  head (ws_frames s).

(** [lonejson__writer_clear_event] without a child generator. *)
Definition lonejson__writer_clear_event (s : lonejson__writer_state) : lonejson__writer_state :=
  set_event no_event s.

(** The state after a successful [lonejson__writer_init_sink_with_options]. *)
Definition lonejson__writer_init (mode : lonejson__writer_mode) (a : lonejson_allocator)
    (max_number_bytes : Z) : lonejson_writer :=
  mk_writer
    (Some (mk_writer_state mode a [] 0 false false false false no_event false false buffer_empty
             max_number_bytes)) error_zero.

(** ** Calls *)

Section writer.
Context {U : Type}.
(** [state->sink], and [lonejson__writer_generator_output_blocked] of its user. *)
Variable sink : lonejson_sink_fn U.
Variable generator_output_blocked : U → bool.

#[local] Abbreviation W := (step lonejson_writer U).

(** [lonejson__set_error(lonejson__writer_error_target(writer, error), ...)] *)
Definition lonejson__writer_set_error (status : lonejson_status) (m : string) : W := λ c,
  match error c with
  | Some _ => fail_with status m c
  | None =>
      match lonejson__set_error (Some (w_error (self c))) status 0 0 0 m with
      | (st, Some e) => (st, mk_ctx (mk_writer (w_state (self c)) e) (user c) None)
      | (st, None) => (st, c)
      end
  end.

Definition with_state (k : lonejson__writer_state → W) : W := λ c,
  match w_state (self c) with
  | Some s => k s c
  | None => lonejson__writer_set_error LONEJSON_STATUS_INVALID_ARGUMENT "writer is required" c
  end.

Definition update (f : lonejson__writer_state → lonejson__writer_state) : W :=
  modify (λ w, mk_writer (f <$> w_state w) (w_error w)).

(** [if (cond) return lonejson__writer_set_error(...);] *)
Definition refuse (cond : bool) (status : lonejson_status) (m : string) (k : W) : W :=
  if cond then lonejson__writer_set_error status m else k.

Definition refuse_failed (s : lonejson__writer_state) : W → W :=
  refuse (ws_failed s) LONEJSON_STATUS_INVALID_JSON "writer is in a failed state".
Definition refuse_value_stream (s : lonejson__writer_state) : W → W :=
  refuse (ws_value_stream_active s) LONEJSON_STATUS_INVALID_JSON "writer value stream is still open".
Definition refuse_string (s : lonejson__writer_state) : W → W :=
  refuse (ws_string_open s) LONEJSON_STATUS_INVALID_JSON "writer string is still open".
Definition refuse_number (s : lonejson__writer_state) : W → W :=
  refuse (ws_number_open s) LONEJSON_STATUS_INVALID_JSON "writer number is still open".

Definition truncated_step : W := λ c, (LONEJSON_STATUS_TRUNCATED, c).

Definition lonejson__writer_fail (status : lonejson_status) (m : string) : W :=
  update set_failed &> lonejson__writer_set_error status m.

Definition lonejson__writer_require_available : W :=
  with_state (λ s, refuse_failed s (refuse_value_stream s (refuse_number s ok))).

(** [data] is not NULL; a length of 0 is not passed on. *)
Definition lonejson__writer_emit (data : bytes) : W := λ c,
  if zlen data =? 0 then (LONEJSON_STATUS_OK, c)
  else
    with_state (λ s c,
      let '(status, u, e) :=
        sink (user c) data (Some (default (w_error (self c)) (error c))) in
      let e := default error_zero e in
      let failed := status_fails status in
      let s := if failed then set_failed s else s in
      match error c with
      | Some _ => (status, mk_ctx (mk_writer (Some s) (w_error (self c))) u (Some e))
      | None =>
          let e := if failed && bool_decide (code e = LONEJSON_STATUS_OK)
                   then default error_zero
                          (snd (lonejson__set_error (Some e) status 0 0 0 "writer sink failed"))
                   else e in
          (status, mk_ctx (mk_writer (Some s) e) u None)
      end) c.

Definition lonejson__writer_emit_cstr (text : bytes) : W := lonejson__writer_emit text.

Definition lonejson__writer_output_blocked (c : ctx_of lonejson_writer U) : bool :=
  match w_state (self c) with
  | None => false
  | Some s =>
      match ws_mode s with
      | LONEJSON__WRITER_MODE_SINK => false
      | LONEJSON__WRITER_MODE_GENERATOR => generator_output_blocked (user c)
      end
  end.

(** [if (lonejson__writer_output_blocked(writer)) return TRUNCATED;] *)
Definition unless_blocked (k : W) : W := λ c,
  if lonejson__writer_output_blocked c then truncated_step c else k c.

Definition lonejson__writer_begin_event (kind : lonejson__writer_event_kind) (ref : data_ref)
    (data : bytes) : W :=
  with_state (λ _,
    lonejson__writer_require_available &>
    with_state (λ s,
      let e := ws_event s in
      if negb (bool_decide (event_kind e = LONEJSON__WRITER_EVENT_NONE)) then
        refuse (negb (bool_decide (event_kind e = kind)) || negb (bool_decide (event_ref e = ref))
                || negb (zlen (event_data e) =? zlen data))
          LONEJSON_STATUS_INVALID_ARGUMENT
          "active writer event must be resumed with the same arguments" ok
      else update (set_event (mk_event kind ref data 0 0)))).

(** [0123456789abcdef] *)
Definition hex_lower (n : Z) : Z := if n <? 10 then "0"%ch + n else "a"%ch + (n - 10).

Definition lonejson__writer_string_reader_emit_byte (byte : Z) : W :=
  if (32 <=? byte) && negb (byte =? 34) && negb (byte =? 92) then lonejson__writer_emit [byte]
  else if byte =? 34 then lonejson__writer_emit_cstr [92; 34]
  else if byte =? 92 then lonejson__writer_emit_cstr [92; 92]
  else if byte =? 8 then lonejson__writer_emit_cstr (92 :: c_str "b")
  else if byte =? 12 then lonejson__writer_emit_cstr (92 :: c_str "f")
  else if byte =? 10 then lonejson__writer_emit_cstr (92 :: c_str "n")
  else if byte =? 13 then lonejson__writer_emit_cstr (92 :: c_str "r")
  else if byte =? 9 then lonejson__writer_emit_cstr (92 :: c_str "t")
  else lonejson__writer_emit
         (92 :: c_str "u00" ++ [hex_lower (Z.land (Z.shiftr byte 4) 15); hex_lower (Z.land byte 15)]).

(** [while (state->event_off < state->event_len)]: [rest] is what is left of the
    event's data. *)
Fixpoint emit_event_loop (emit_byte : Z → W) (rest : bytes) : W :=
  match rest with
  | [] => ok
  | b :: rest =>
      unless_blocked (emit_byte b &> update advance_event &> emit_event_loop emit_byte rest)
  end.

Definition event_rest (e : writer_event) : bytes := drop (Z.to_nat (event_off e)) (event_data e).

Definition lonejson__writer_emit_escaped_event : W :=
  with_state (λ s,
    emit_event_loop lonejson__writer_string_reader_emit_byte (event_rest (ws_event s))).

Definition lonejson__writer_emit_bytes_event : W :=
  with_state (λ s, emit_event_loop (λ b, lonejson__writer_emit [b]) (event_rest (ws_event s))).

(** [sizeof( *state->frames)] *)
Definition sizeof_frame : Z := 24.

Definition lonejson__writer_push_frame (kind : lonejson__writer_frame_kind) : W :=
  with_state (λ s,
    let frame := mk_frame kind 0 false in
    if zlen (ws_frames s) =? ws_frame_capacity s then
      let capacity := ws_frame_capacity s in
      let next_capacity := if capacity =? 0 then 8 else u64 (capacity * 2) in
      let '(next, a) := lonejson__buffer_realloc (ws_allocator s) (capacity =? 0)
                          (u64 (capacity * sizeof_frame)) (u64 (next_capacity * sizeof_frame)) in
      if negb next then
        update (set_stack a (ws_frames s) capacity) &>
        lonejson__writer_set_error LONEJSON_STATUS_ALLOCATION_FAILED "failed to grow writer stack"
      else update (set_stack a (frame :: ws_frames s) next_capacity)
    else update (set_frames (frame :: ws_frames s))).

Definition lonejson__writer_before_value : W :=
  with_state (λ s,
    refuse_failed s (refuse_value_stream s (refuse_string s (refuse_number s
    (refuse (ws_finished s) LONEJSON_STATUS_INVALID_ARGUMENT "writer is already finished"
    (unless_blocked
       match lonejson__writer_top s with
       | None =>
           refuse (ws_root_written s) LONEJSON_STATUS_INVALID_JSON "writer already has a root value"
             (update set_root_written)
       | Some frame =>
           let count := u64 (frame_values frame + 1) in
           match frame_kind frame with
           | LONEJSON__WRITER_FRAME_ARRAY =>
               (if negb (frame_values frame =? 0)
                then lonejson__writer_emit_cstr [","%ch] else ok) &>
               update (set_top (mk_frame (frame_kind frame) count (after_key frame)))
           | LONEJSON__WRITER_FRAME_OBJECT =>
               refuse (negb (after_key frame)) LONEJSON_STATUS_INVALID_JSON
                 "object values must be preceded by a writer key"
                 (update (set_top (mk_frame (frame_kind frame) count false)))
           end
       end)))))).

Definition lonejson__writer_emit_value_bytes (data : bytes) : W :=
  lonejson__writer_before_value &> lonejson__writer_emit data.

(** [if (state->event_phase == 0u) { status = before_value; ...; phase = 1u; }] *)
Definition event_before_value : W :=
  with_state (λ s,
    if event_phase (ws_event s) =? 0
    then lonejson__writer_before_value &> update (set_phase 1) else ok).

(** *** Scalars *)

Definition lonejson__writer_emit_scalar_bytes (data : bytes) : W :=
  with_state (λ s,
    let same := "active writer event must be resumed with the same arguments" in
    let kind := event_kind (ws_event s) in
    refuse (64 <? zlen data) LONEJSON_STATUS_INVALID_ARGUMENT "writer scalar bytes are invalid"
    ((if decide (kind = LONEJSON__WRITER_EVENT_SCALAR_BYTES) then
        refuse (negb (bool_decide (event_data (ws_event s) = data)))
          LONEJSON_STATUS_INVALID_ARGUMENT same ok
      else lonejson__writer_begin_event LONEJSON__WRITER_EVENT_SCALAR_BYTES Ref_event_buffer data) &>
     (if decide (kind = LONEJSON__WRITER_EVENT_SCALAR_BYTES ∨ kind = LONEJSON__WRITER_EVENT_NONE) then
        event_before_value &> lonejson__writer_emit_bytes_event &> update lonejson__writer_clear_event
      else ok))).

Definition lonejson__writer_format_u64 (value : Z) : bytes := format_digits 20 value [].

(** [-(value + 1)] is formed in [int64] and the sum in [uint64]. *)
Definition lonejson__writer_format_i64 (value : Z) : bytes :=
  if 0 <=? value then lonejson__writer_format_u64 (u64 value)
  else "-"%ch :: lonejson__writer_format_u64 (u64 (u64 (- (value + 1)) + 1)).

Definition lonejson_writer_i64 (value : Z) : W :=
  lonejson__writer_emit_scalar_bytes (lonejson__writer_format_i64 value).
Definition lonejson_writer_u64 (value : Z) : W :=
  lonejson__writer_emit_scalar_bytes (lonejson__writer_format_u64 value).
(** [buffer] and [len] of the call, for a finite value. *)
Definition writer_f64_text (value : f64) : bytes :=
  let '(len, buffer) := snprintf_17g 64 value in take (Z.to_nat len) buffer.
Definition lonejson_writer_f64 (value : f64) : W :=
  if negb (lonejson__is_finite_f64 value) then
    lonejson__writer_set_error LONEJSON_STATUS_INVALID_ARGUMENT "JSON numbers must be finite"
  else lonejson__writer_emit_scalar_bytes (writer_f64_text value).
Definition lonejson_writer_bool (value : bool) : W :=
  lonejson__writer_emit_scalar_bytes (if value then c_str "true" else c_str "false").
Definition lonejson_writer_null : W := lonejson__writer_emit_scalar_bytes (c_str "null").

(** *** Containers *)

Definition lonejson_writer_begin_object : W :=
  lonejson__writer_before_value &> lonejson__writer_emit_cstr ["{"%ch] &>
  lonejson__writer_push_frame LONEJSON__WRITER_FRAME_OBJECT.

Definition lonejson_writer_begin_array : W :=
  lonejson__writer_before_value &> lonejson__writer_emit_cstr ["["%ch] &>
  lonejson__writer_push_frame LONEJSON__WRITER_FRAME_ARRAY.

Definition pop_frame (s : lonejson__writer_state) : lonejson__writer_state :=
  set_frames (drop 1 (ws_frames s)) s.

Definition lonejson_writer_end_object : W :=
  with_state (λ s,
    refuse_failed s (refuse_value_stream s (refuse_string s (refuse_number s
    match lonejson__writer_top s with
    | Some frame =>
        refuse (negb (bool_decide (frame_kind frame = LONEJSON__WRITER_FRAME_OBJECT)))
          LONEJSON_STATUS_INVALID_JSON "writer is not inside an object"
          (refuse (after_key frame) LONEJSON_STATUS_INVALID_JSON "object key is missing a value"
             (lonejson__writer_emit_cstr ["}"%ch] &> update pop_frame))
    | None => lonejson__writer_set_error LONEJSON_STATUS_INVALID_JSON "writer is not inside an object"
    end)))).

Definition lonejson_writer_end_array : W :=
  with_state (λ s,
    refuse_failed s (refuse_value_stream s (refuse_string s (refuse_number s
    match lonejson__writer_top s with
    | Some frame =>
        refuse (negb (bool_decide (frame_kind frame = LONEJSON__WRITER_FRAME_ARRAY)))
          LONEJSON_STATUS_INVALID_JSON "writer is not inside an array"
          (lonejson__writer_emit_cstr ["]"%ch] &> update pop_frame)
    | None => lonejson__writer_set_error LONEJSON_STATUS_INVALID_JSON "writer is not inside an array"
    end)))).

(** *** Keys and strings

    A caller's pointer and length: [None] is NULL with a length that is not 0. *)

Definition caller_data : Type := option (data_ref * bytes).

Definition in_phase (phase : Z) (k : W) : W :=
  with_state (λ s, if event_phase (ws_event s) =? phase then k else ok).

Definition key_start : W :=
  with_state (λ s,
    refuse_string s (refuse_number s
    (unless_blocked
       match lonejson__writer_top s with
       | Some frame =>
           refuse (negb (bool_decide (frame_kind frame = LONEJSON__WRITER_FRAME_OBJECT)))
             LONEJSON_STATUS_INVALID_JSON "writer key requires an object"
             (refuse (after_key frame) LONEJSON_STATUS_INVALID_JSON
                "previous object key is missing a value"
                ((if negb (frame_values frame =? 0)
                  then lonejson__writer_emit_cstr [","%ch] else ok) &>
                 update (set_phase 1)))
       | None =>
           lonejson__writer_set_error LONEJSON_STATUS_INVALID_JSON "writer key requires an object"
       end))).

Definition set_after_key (s : lonejson__writer_state) : lonejson__writer_state :=
  match lonejson__writer_top s with
  | Some frame => set_top (mk_frame (frame_kind frame) (frame_values frame) true) s
  | None => s
  end.

Definition lonejson_writer_key (key : caller_data) : W :=
  with_state (λ s,
    match key with
    | None => lonejson__writer_set_error LONEJSON_STATUS_INVALID_ARGUMENT "writer and key are required"
    | Some (ref, key) =>
        refuse_failed s (refuse_value_stream s
        (lonejson__writer_begin_event LONEJSON__WRITER_EVENT_KEY ref key &>
         in_phase 0 key_start &>
         in_phase 1 (unless_blocked (lonejson__writer_emit_cstr [34] &> update (set_phase 2))) &>
         in_phase 2 (lonejson__writer_emit_escaped_event &> update (set_phase 3)) &>
         in_phase 3 (unless_blocked (lonejson__writer_emit_cstr [34; ":"%ch])) &>
         update set_after_key &> update lonejson__writer_clear_event))
    end).

Definition lonejson_writer_string (data : caller_data) : W :=
  match data with
  | None => lonejson__writer_set_error LONEJSON_STATUS_INVALID_ARGUMENT "string data is required"
  | Some (ref, data) =>
      lonejson__writer_begin_event LONEJSON__WRITER_EVENT_STRING ref data &>
      event_before_value &>
      in_phase 1 (unless_blocked (lonejson__writer_emit_cstr [34] &> update (set_phase 2))) &>
      in_phase 2 (lonejson__writer_emit_escaped_event &> update (set_phase 3)) &>
      unless_blocked (lonejson__writer_emit_cstr [34]) &>
      update lonejson__writer_clear_event
  end.

Definition lonejson_writer_string_begin : W :=
  lonejson__writer_before_value &> lonejson__writer_emit_cstr [34] &> update (set_string_open true).

Definition lonejson_writer_string_chunk (data : caller_data) : W :=
  with_state (λ s,
    match data with
    | None =>
        lonejson__writer_set_error LONEJSON_STATUS_INVALID_ARGUMENT
          "writer and string chunk are required"
    | Some (ref, data) =>
        refuse_failed s (refuse_value_stream s
        (refuse (negb (ws_string_open s)) LONEJSON_STATUS_INVALID_JSON "writer string is not open"
        (lonejson__writer_begin_event LONEJSON__WRITER_EVENT_STRING_CHUNK ref data &>
         lonejson__writer_emit_escaped_event &> update lonejson__writer_clear_event)))
    end).

Definition lonejson_writer_string_end : W :=
  with_state (λ s,
    refuse (negb (ws_string_open s)) LONEJSON_STATUS_INVALID_JSON "writer string is not open"
    (lonejson__writer_emit_cstr [34] &> update (set_string_open false))).

(** *** Numbers *)

Definition lonejson_writer_number_text (data : caller_data) : W :=
  let required :=
    lonejson__writer_set_error LONEJSON_STATUS_INVALID_ARGUMENT "number text is required" in
  match data with
  | None => required
  | Some (ref, data) =>
      if bool_decide (ref = Ref_null) || (zlen data =? 0) then required
      else
        refuse (negb (lonejson__is_valid_json_number data)) LONEJSON_STATUS_INVALID_JSON
          "number text must be a JSON number"
        (lonejson__writer_begin_event LONEJSON__WRITER_EVENT_BYTES ref data &>
         event_before_value &> lonejson__writer_emit_bytes_event &>
         update lonejson__writer_clear_event)
  end.

Definition lonejson_writer_number_begin : W :=
  lonejson__writer_before_value &>
  update (λ s, set_number (ws_allocator s) (lonejson__byte_reset (ws_number s)) true s).

(** [lonejson__byte_append(&state->number, ..., error != NULL ? error :
    &writer->error)] *)
Definition append_number (data : bytes) : W := λ c,
  with_state (λ s c,
    let target := Some (default (w_error (self c)) (error c)) in
    let '(st, number, a, e) :=
      lonejson__byte_append (ws_number s) data (ws_max_number_bytes s) (ws_allocator s) target in
    let e := default error_zero e in
    let s := set_number a number (ws_number_open s) s in
    let s := if decide (st = LONEJSON_STATUS_OK) then s else set_failed s in
    match error c with
    | Some _ => (st, mk_ctx (mk_writer (Some s) (w_error (self c))) (user c) (Some e))
    | None => (st, mk_ctx (mk_writer (Some s) e) (user c) None)
    end) c.

Definition lonejson_writer_number_chunk (data : caller_data) : W :=
  with_state (λ s,
    match data with
    | None =>
        lonejson__writer_set_error LONEJSON_STATUS_INVALID_ARGUMENT
          "writer and number chunk are required"
    | Some (_, data) =>
        refuse_failed s (refuse_value_stream s
        (refuse (negb (ws_number_open s)) LONEJSON_STATUS_INVALID_JSON "writer number is not open"
        (append_number data)))
    end).

Definition close_number (s : lonejson__writer_state) : lonejson__writer_state :=
  set_number (ws_allocator s) (lonejson__byte_reset (ws_number s)) false s.

Definition lonejson_writer_number_end : W :=
  with_state (λ s,
    let number := contents (ws_number s) in
    let e := ws_event s in
    let bad := lonejson__writer_fail LONEJSON_STATUS_INVALID_JSON "number text must be a JSON number" in
    refuse_failed s
    (refuse (negb (ws_number_open s)) LONEJSON_STATUS_INVALID_JSON "writer number is not open"
    (if zlen number =? 0 then bad
     else if negb (lonejson__is_valid_json_number number) then bad
     else
       (if decide (event_kind e = LONEJSON__WRITER_EVENT_NONE) then
          update (set_event (mk_event LONEJSON__WRITER_EVENT_BYTES Ref_number number 0 1))
        else
          refuse (negb (bool_decide (event_kind e = LONEJSON__WRITER_EVENT_BYTES))
                  || negb (bool_decide (event_ref e = Ref_number))
                  || negb (zlen (event_data e) =? zlen number))
            LONEJSON_STATUS_INVALID_ARGUMENT
            "active writer event must be resumed with the same arguments" ok) &>
       lonejson__writer_emit_bytes_event &>
       update lonejson__writer_clear_event &> update close_number))).

(** *** Finishing *)

Definition lonejson_writer_finish : W :=
  with_state (λ s,
    refuse_failed s (refuse_value_stream s (refuse_string s (refuse_number s
    (refuse (negb (ws_root_written s)) LONEJSON_STATUS_INVALID_JSON "writer emitted no JSON value"
    (refuse (negb (zlen (ws_frames s) =? 0)) LONEJSON_STATUS_INVALID_JSON
       "writer has unclosed containers"
       (update set_finished))))))).
End writer.
