(* ===== verification/WriterNumber.v ===== *)
(** * WriterNumber: the integers the writer prints

    [lonejson__writer_format_u64] and [lonejson__writer_format_i64]
    ([src/impl/38_writer_api.h]): the decimal text they produce is a JSON number,
    and the parser's conversions read it back. *)

From stdpp Require Import base numbers list strings.
From Stdlib Require Import ZArith Lia Bool SpecFloat.
From S2P Require Import Prelude Number F64 F64Lemmas F64Props Writer.

Lemma format_u64_spec value :
  0 ≤ value < 2 ^ 64 →
  json_int (lonejson__writer_format_u64 value)
  ∧ decimal_from 0 (lonejson__writer_format_u64 value) = value
  ∧ (length (lonejson__writer_format_u64 value) ≤ 20)%nat.
Proof.
  intros H. destruct (format_digits_spec 19 value []) as (front & Hf & ? & ? & ? & _); [simpl; lia|].
  unfold lonejson__writer_format_u64. rewrite Hf, app_nil_r. done.
Qed.

(** The magnitude of a negative number. *)
Lemma i64_magnitude value :
  - 2 ^ 63 ≤ value < 0 → u64 (u64 (- (value + 1)) + 1) = - value.
Proof. intros H. rewrite !u64_small by (unfold is_u64; rewrite ?u64_small; unfold is_u64; lia). lia. Qed.

Lemma format_i64_spec value :
  - 2 ^ 63 ≤ value < 2 ^ 63 →
  ∃ (negative : bool) digits,
    lonejson__writer_format_i64 value = (if negative then ["-"%ch] else []) ++ digits
    ∧ json_int digits ∧ (length digits ≤ 20)%nat
    ∧ value = (if negative then - decimal_from 0 digits else decimal_from 0 digits).
Proof.
  intros H. unfold lonejson__writer_format_i64. destruct (0 <=? value) eqn:E.
  - destruct (format_u64_spec (u64 value)) as (? & Hv & ?); [unfold u64; apply Z.mod_pos_bound; lia|].
    exists false, (lonejson__writer_format_u64 (u64 value)). split_and!; [done..|].
    rewrite Hv, u64_small; [done|]. unfold is_u64. lia.
  - rewrite i64_magnitude by lia. destruct (format_u64_spec (- value)) as (? & Hv & ?); [lia|].
    exists true, (lonejson__writer_format_u64 (- value)). split_and!; [done..|]. rewrite Hv. lia.
Qed.

Lemma format_u64_number value : 0 ≤ value < 2 ^ 64 → json_number (lonejson__writer_format_u64 value).
Proof. intros H. by apply json_int_number, format_u64_spec. Qed.

Lemma format_i64_number value : - 2 ^ 63 ≤ value < 2 ^ 63 → json_number (lonejson__writer_format_i64 value).
Proof.
  intros (negative & ds & -> & Hi & _)%format_i64_spec.
  destruct negative; [by apply json_int_minus|by apply json_int_number].
Qed.

(** The text of a double is not cut off by the buffer. *)
Lemma writer_f64_printf value :
  valid_binary 53 1024 value = true → writer_f64_text value = printf_17g value.
Proof.
  intros Hv. unfold writer_f64_text. rewrite snprintf_fits by by apply printf_short.
  apply take_ge. unfold zlen. lia.
Qed.

Lemma finite_valid value :
  valid_binary 53 1024 value = true → lonejson__is_finite_f64 value = true → f64_finite value.
Proof. destruct value as [|[]| |]; done. Qed.

Lemma writer_f64_number value :
  valid_binary 53 1024 value = true → lonejson__is_finite_f64 value = true →
  json_number (writer_f64_text value).
Proof. intros Hv Hf. rewrite writer_f64_printf by done. by apply printf_number, finite_valid. Qed.

(** Whatever the argument, the text fits the event buffer. *)
Lemma format_u64_length value : zlen (lonejson__writer_format_u64 value) ≤ 20.
Proof.
  assert (∀ fuel v ds, (length (format_digits fuel v ds) ≤ fuel + length ds)%nat) as H.
  { induction fuel as [|fuel IH]; intros v ds; cbn [format_digits]; [lia|].
    destruct (_ =? 0); [simpl; lia|]. etrans; [apply IH|]. simpl. lia. }
  specialize (H 20%nat value []). unfold zlen, lonejson__writer_format_u64. cbn [length] in H. lia.
Qed.

Lemma format_i64_length value : zlen (lonejson__writer_format_i64 value) ≤ 21.
Proof.
  unfold lonejson__writer_format_i64. destruct (0 <=? value).
  - pose proof (format_u64_length (u64 value)). lia.
  - rewrite zlen_cons. pose proof (format_u64_length (u64 (u64 (- (value + 1)) + 1))). lia.
Qed.

(** C32: the integers the writer prints are JSON numbers of at most 21 bytes, and
    the parser's conversions read back the very value, over the whole range of
    [uint64_t] and [int64_t]: the negation of the least [int64_t] does not
    overflow. *)
Theorem format_integer_roundtrip :
  (∀ value, 0 ≤ value < 2 ^ 64 →
     json_number (lonejson__writer_format_u64 value)
     ∧ lonejson__parse_u64_token (lonejson__writer_format_u64 value) = Some value
     ∧ zlen (lonejson__writer_format_u64 value) ≤ 20)
  ∧ (∀ value, - 2 ^ 63 ≤ value < 2 ^ 63 →
     json_number (lonejson__writer_format_i64 value)
     ∧ lonejson__parse_i64_token (lonejson__writer_format_i64 value) = Some value
     ∧ zlen (lonejson__writer_format_i64 value) ≤ 21).
Proof.
  split; intros value H.
  - destruct (format_u64_spec value H) as (Hi & Hv & _).
    split_and!; [by apply format_u64_number| |apply format_u64_length].
    apply parse_u64_token_iff; [by apply json_int_nonzero|]. by rewrite Hv.
  - destruct (format_i64_spec value H) as (negative & ds & Ht & Hi & _ & Hv).
    split_and!; [by apply format_i64_number| |apply format_i64_length].
    rewrite Ht. apply parse_i64_token_iff.
    + apply Forall_app. split; [by destruct negative; repeat constructor|by apply json_int_nonzero].
    + by exists negative, ds.
Qed.

Lemma format_integer_roundtrip_witness :
  lonejson__parse_u64_token (lonejson__writer_format_u64 (2 ^ 64 - 1)) = Some (2 ^ 64 - 1)
  ∧ lonejson__parse_i64_token (lonejson__writer_format_i64 (- 2 ^ 63)) = Some (- 2 ^ 63).
Proof.
  destruct format_integer_roundtrip as [Hu Hi]. split.
  - refine (proj1 (proj2 (Hu (2 ^ 64 - 1) _))). split; [discriminate|reflexivity].
  - refine (proj1 (proj2 (Hi (- 2 ^ 63) _))). split; [discriminate|reflexivity].
Defined.
