(* ===== verification/WriterSpec.v ===== *)
(** * WriterSpec: the documents a writer builds

    The abstract side: the events of the writer API as an inductive type, and a
    pure builder that turns a sequence of events into a JSON value while keeping
    the text written so far ([built_text]).  The writer of [Writer] is proved to
    keep its state and its output in step with the builder, through blocked
    output and resumed events. *)

From stdpp Require Import base numbers list strings.
From Stdlib Require Import ZArith Lia Bool.
From S2P Require Import Prelude Runtime ByteBuffer Unicode Number F64 JsonGrammar Writer.

(** ** Compact texts *)

Lemma render_compact_depth v : ∀ d, render false d v = render false 0 v.
Proof.
  induction v as [|b|t|l|vs IH|ms IH] using json_rect_nested; intros d; try done.
  - rewrite !render_arr. f_equal. generalize true. induction IH as [|v vs Hv _ IHs]; intros f; [done|].
    rewrite !render_elements_cons, (Hv (d + 1)), (Hv (0 + 1)), IHs. done.
  - rewrite !render_obj. f_equal. generalize true. induction IH as [|[k v] ms Hv _ IHs]; intros f; [done|].
    cbn [snd] in Hv. rewrite !render_members_cons, (Hv (d + 1)), (Hv (0 + 1)), IHs. done.
Qed.

(** [vs] and [ms] without the closing bracket; [first] as in [render_elements]. *)
Fixpoint elements_open (first : bool) (vs : list json) : bytes :=
  match vs with
  | [] => []
  | v :: vs => (if first then [] else [","%ch]) ++ render false 0 v ++ elements_open false vs
  end.

Fixpoint members_open (first : bool) (ms : list (list str_item * json)) : bytes :=
  match ms with
  | [] => []
  | (k, v) :: ms =>
      (if first then [] else [","%ch]) ++ quoted k ++ ":"%ch :: render false 0 v ++ members_open false ms
  end.

(** The comma before the next element. *)
Definition comma_after {A} (l : list A) : bytes :=
  match l with
  | [] => []
  | _ => [","%ch]
  end.

Lemma elements_open_snoc vs v :
  elements_open true (vs ++ [v]) = elements_open true vs ++ comma_after vs ++ render false 0 v.
Proof.
  assert (∀ f, elements_open f (vs ++ [v])
               = elements_open f vs
                 ++ (if f then comma_after vs else [","%ch]) ++ render false 0 v) as H.
  { induction vs as [|w vs IH]; intros f; cbn [elements_open app].
    - destruct f; by rewrite app_nil_r.
    - rewrite (IH false). destruct f; by rewrite <- !app_assoc. }
  apply H.
Qed.

Lemma members_open_snoc ms k v :
  members_open true (ms ++ [(k, v)])
  = members_open true ms ++ comma_after ms ++ quoted k ++ ":"%ch :: render false 0 v.
Proof.
  assert (∀ f, members_open f (ms ++ [(k, v)])
               = members_open f ms
                 ++ (if f then comma_after ms else [","%ch]) ++ quoted k ++ ":"%ch :: render false 0 v) as H.
  { induction ms as [|[l w] ms IH]; intros f; cbn [members_open app].
    - destruct f; by rewrite app_nil_r.
    - rewrite (IH false). destruct f; cbn [app]; rewrite <- ?app_assoc; cbn [app]; by rewrite <- ?app_assoc. }
  apply H.
Qed.

Lemma render_arr_open vs : render false 0 (JArr vs) = "["%ch :: elements_open true vs ++ ["]"%ch].
Proof.
  rewrite render_arr. f_equal. generalize true. induction vs as [|v vs IH]; intros f.
  - by destruct f.
  - rewrite render_elements_cons, IH, render_compact_depth. cbn [elements_open line_break app].
    by rewrite <- !app_assoc.
Qed.

Lemma render_obj_open ms : render false 0 (JObj ms) = "{"%ch :: members_open true ms ++ ["}"%ch].
Proof.
  rewrite render_obj. f_equal. generalize true. induction ms as [|[k v] ms IH]; intros f.
  - by destruct f.
  - rewrite render_members_cons, IH, render_compact_depth. cbn [members_open line_break app colon].
    rewrite <- !app_assoc. cbn [app]. by rewrite <- !app_assoc.
Qed.

(** ** Escaping *)

(** The item a byte of a key or string is written as. *)
Definition escape (b : Z) : str_item :=
  if (32 <=? b) && negb (b =? 34) && negb (b =? 92) then Plain b
  else if b =? 34 then Esc 34
  else if b =? 92 then Esc 92
  else if b =? 8 then Esc "b"%ch
  else if b =? 12 then Esc "f"%ch
  else if b =? 10 then Esc "n"%ch
  else if b =? 13 then Esc "r"%ch
  else if b =? 9 then Esc "t"%ch
  else Uni "0"%ch "0"%ch (hex_lower (Z.land (Z.shiftr b 4) 15)) (hex_lower (Z.land b 15)).

Definition escaped (data : bytes) : list str_item := escape <$> data.

Lemma hex_lower_ok n : 0 ≤ n < 16 → is_hex (hex_lower n) = true.
Proof.
  intros H. assert (n ∈ (Z.of_nat <$> seq 0 16)) as Hin.
  { apply list_elem_of_fmap. exists (Z.to_nat n). split; [lia|]. apply elem_of_seq. lia. }
  clear H. revert n Hin. apply Forall_forall. repeat constructor.
Qed.

Lemma escape_item_ok b : is_byte b → item_ok (escape b).
Proof.
  intros Hb. unfold is_byte in Hb. unfold escape.
  destruct ((32 <=? b) && negb (b =? 34) && negb (b =? 92)) eqn:E.
  { cbn. unfold is_plain. lia. }
  repeat match goal with |- context [if b =? ?n then _ else _] => destruct (b =? n) eqn:?; [reflexivity|] end.
  cbn [item_ok]. rewrite !hex_lower_ok; [reflexivity| |].
  - change 15 with (Z.ones 4). rewrite Z.land_ones by lia. pose proof (Z.mod_pos_bound b (2 ^ 4)). lia.
  - change 15 with (Z.ones 4). rewrite Z.land_ones by lia.
    pose proof (Z.mod_pos_bound (Z.shiftr b 4) (2 ^ 4)). lia.
Qed.

Lemma escaped_ok data : is_bytes data → Forall item_ok (escaped data).
Proof. intros H. apply Forall_fmap. by eapply Forall_impl; [exact H|apply escape_item_ok]. Qed.

Lemma escaped_app l k : escaped (l ++ k) = escaped l ++ escaped k.
Proof. apply fmap_app. Qed.

Lemma items_bytes_app l k : items_bytes (l ++ k) = items_bytes l ++ items_bytes k.
Proof. apply flat_map_app. Qed.

Lemma flat_map_single (l : bytes) : flat_map (λ b, [b]) l = l.
Proof. induction l as [|b l IH]; [done|]. cbn. by rewrite IH. Qed.

Lemma take_take_drop {A} (l : list A) n m :
  (n ≤ m)%nat → take n l ++ take (m - n) (drop n l) = take m l.
Proof. intros H. rewrite take_take_drop. f_equal. lia. Qed.

Lemma emit_byte_escape {U} (sink : lonejson_sink_fn U) b :
  lonejson__writer_string_reader_emit_byte sink b = lonejson__writer_emit sink (item_bytes (escape b)).
Proof.
  unfold lonejson__writer_string_reader_emit_byte, escape, lonejson__writer_emit_cstr.
  repeat case_match; reflexivity.
Qed.

Lemma flat_map_escape l : flat_map (λ b, item_bytes (escape b)) l = items_bytes (escaped l).
Proof. unfold items_bytes, escaped. induction l as [|b l IH]; [done|]. cbn. by rewrite IH. Qed.

Lemma escaped_take_drop (data : bytes) n m :
  (n ≤ m)%nat →
  items_bytes (escaped (take n data)) ++ items_bytes (escaped (take (m - n) (drop n data)))
  = items_bytes (escaped (take m data)).
Proof. intros H. by rewrite <- items_bytes_app, <- escaped_app, take_take_drop. Qed.

(** ** The builder *)

(** A container that is still open: its complete children, and the pending key. *)
Inductive partial :=
| PObj (ms : list (list str_item * json)) (key : option (list str_item))
| PArr (vs : list json).

(** A string or number that is being written piece by piece. *)
Inductive open_scalar :=
| No_scalar
| In_string (items : list str_item)
| In_number (text : bytes).

(** The document so far: the finished root, or the open containers, innermost
    first. *)
Record built := mk_built {
  b_root : option json;
  b_stack : list partial;
  b_scalar : open_scalar
}.

Definition built_empty : built := mk_built None [] No_scalar.

(** The events of the API.  Strings and keys come with the caller's address. *)
Inductive writer_op :=
| Begin_object
| End_object
| Begin_array
| End_array
| Key (address : Z) (key : bytes)
| String (address : Z) (data : bytes)
| String_begin
| String_chunk (address : Z) (data : bytes)
| String_end
| Number_text (address : Z) (text : bytes)
| Number_begin
| Number_chunk (address : Z) (text : bytes)
| Number_end
| I64 (value : Z)
| U64 (value : Z)
| Double (value : f64)
| Bool (value : bool)
| Null.

Definition scalar_open (B : built) : bool :=
  match b_scalar B with
  | No_scalar => false
  | _ => true
  end.

(** May a value start here? *)
Definition can_value (B : built) : bool :=
  negb (scalar_open B) &&
  match b_stack B with
  | [] => bool_decide (b_root B = None)
  | PObj _ None :: _ => false
  | _ => true
  end.

(** [v] is complete. *)
Definition add_value (v : json) (B : built) : built :=
  match b_stack B with
  | [] => mk_built (Some v) [] No_scalar
  | PArr vs :: rest => mk_built (b_root B) (PArr (vs ++ [v]) :: rest) No_scalar
  | PObj ms (Some k) :: rest => mk_built (b_root B) (PObj (ms ++ [(k, v)]) None :: rest) No_scalar
  | PObj ms None :: rest => B
  end.

Definition push_partial (p : partial) (B : built) : built :=
  mk_built (b_root B) (p :: b_stack B) No_scalar.
Definition set_scalar (o : open_scalar) (B : built) : built := mk_built (b_root B) (b_stack B) o.
Definition when (b : bool) (B : built) : option built := if b then Some B else None.

Definition apply_op (o : writer_op) (B : built) : option built :=
  match o with
  | Begin_object => when (can_value B) (push_partial (PObj [] None) B)
  | Begin_array => when (can_value B) (push_partial (PArr []) B)
  | End_object =>
      match b_stack B with
      | PObj ms None :: rest =>
          when (negb (scalar_open B)) (add_value (JObj ms) (mk_built (b_root B) rest No_scalar))
      | _ => None
      end
  | End_array =>
      match b_stack B with
      | PArr vs :: rest =>
          when (negb (scalar_open B)) (add_value (JArr vs) (mk_built (b_root B) rest No_scalar))
      | _ => None
      end
  | Key _ key =>
      match b_stack B with
      | PObj ms None :: rest =>
          when (negb (scalar_open B))
            (mk_built (b_root B) (PObj ms (Some (escaped key)) :: rest) No_scalar)
      | _ => None
      end
  | String _ data => when (can_value B) (add_value (JStr (escaped data)) B)
  | String_begin => when (can_value B) (set_scalar (In_string []) B)
  | String_chunk _ data =>
      match b_scalar B with
      | In_string l => Some (set_scalar (In_string (l ++ escaped data)) B)
      | _ => None
      end
  | String_end =>
      match b_scalar B with
      | In_string l => Some (add_value (JStr l) B)
      | _ => None
      end
  | Number_text _ text =>
      when (can_value B && lonejson__is_valid_json_number text) (add_value (JNum text) B)
  | Number_begin => when (can_value B) (set_scalar (In_number []) B)
  | Number_chunk _ text =>
      match b_scalar B with
      | In_number t => Some (set_scalar (In_number (t ++ text)) B)
      | _ => None
      end
  | Number_end =>
      match b_scalar B with
      | In_number t => when (lonejson__is_valid_json_number t) (add_value (JNum t) B)
      | _ => None
      end
  | I64 value => when (can_value B) (add_value (JNum (lonejson__writer_format_i64 value)) B)
  | U64 value => when (can_value B) (add_value (JNum (lonejson__writer_format_u64 value)) B)
  | Double value =>
      when (lonejson__is_finite_f64 value && can_value B) (add_value (JNum (writer_f64_text value)) B)
  | Bool value => when (can_value B) (add_value (JBool value) B)
  | Null => when (can_value B) (add_value JNull B)
  end.

Definition apply_ops (ops : list writer_op) (B : built) : option built :=
  foldl (λ B o, B ≫= apply_op o) (Some B) ops.

(** ** The text so far *)

(** What separates a new value from what stands before it. *)
Definition value_sep (stack : list partial) : bytes :=
  match stack with
  | PArr vs :: _ => comma_after vs
  | _ => []
  end.

Definition partial_text (p : partial) : bytes :=
  match p with
  | PArr vs => "["%ch :: elements_open true vs
  | PObj ms None => "{"%ch :: members_open true ms
  | PObj ms (Some k) => "{"%ch :: members_open true ms ++ comma_after ms ++ quoted k ++ [":"%ch]
  end.

Fixpoint stack_text (stack : list partial) : bytes :=
  match stack with
  | [] => []
  | p :: rest => stack_text rest ++ value_sep rest ++ partial_text p
  end.

Definition built_text (B : built) : bytes :=
  match b_stack B, b_root B with
  | [], Some v => render false 0 v
  | stack, _ =>
      stack_text stack ++
      match b_scalar B with
      | No_scalar => []
      | In_string l => value_sep stack ++ 34 :: items_bytes l
      | In_number _ => value_sep stack
      end
  end.

(** Flatten concatenations. *)
Ltac app_norm := repeat first [rewrite <- app_assoc | rewrite app_nil_r | progress cbn [app]].

(** A value at the current position is written after the separator. *)
Lemma add_value_text v B :
  can_value (set_scalar No_scalar B) = true →
  built_text (add_value v B)
  = stack_text (b_stack B) ++ value_sep (b_stack B) ++ render false 0 v.
Proof.
  unfold can_value, add_value, built_text. destruct B as [root [|[ms [k|]|vs] rest] sc]; cbn; try done.
  - intros _. rewrite members_open_snoc. by app_norm.
  - intros _. rewrite elements_open_snoc. by app_norm.
Qed.

(** ** Invariants of the builder *)

(** A value could start on top of [stack]. *)
Definition accepts (root : option json) (stack : list partial) : bool :=
  can_value (mk_built root stack No_scalar).

(** Every open container is where a value may be. *)
Fixpoint parents_ok (root : option json) (stack : list partial) : Prop :=
  match stack with
  | [] => True
  | _ :: rest => accepts root rest = true ∧ parents_ok root rest
  end.

Definition built_ok (B : built) : Prop :=
  parents_ok (b_root B) (b_stack B)
  ∧ (scalar_open B = true → accepts (b_root B) (b_stack B) = true).

Lemma can_value_accepts B : can_value B = true → accepts (b_root B) (b_stack B) = true.
Proof. unfold accepts, can_value. destruct (scalar_open B); [done|]. by destruct B. Qed.

Lemma add_value_ok v B :
  accepts (b_root B) (b_stack B) = true → parents_ok (b_root B) (b_stack B) → built_ok (add_value v B).
Proof.
  unfold add_value. destruct B as [root [|[ms [k|]|vs] rest] sc]; cbn.
  - intros _ _. by split.
  - intros _ [H1 H2]. by split.
  - intros H. unfold accepts, can_value in H. done.
  - intros _ [H1 H2]. by split.
Qed.

Lemma apply_op_ok o B B' : built_ok B → apply_op o B = Some B' → built_ok B'.
Proof.
  intros [Hp Hs].
  assert (∀ v, when (can_value B) (add_value v B) = Some B' → built_ok B') as Hval.
  { intros v. unfold when. destruct (can_value B) eqn:E; [|done]. intros [= <-].
    apply add_value_ok; [by apply can_value_accepts|done]. }
  destruct o; cbn [apply_op]; try apply Hval.
  - unfold when. destruct (can_value B) eqn:E; [|done]. intros [= <-].
    apply can_value_accepts in E. split; cbn; [by try split|by auto].
  - destruct B as [root [|[ms [k|]|vs] rest] sc]; try done. unfold when.
    destruct (negb _); [|done]. intros [= <-]. destruct Hp. by apply add_value_ok.
  - unfold when. destruct (can_value B) eqn:E; [|done]. intros [= <-].
    apply can_value_accepts in E. split; cbn; [by try split|by auto].
  - destruct B as [root [|[ms [k|]|vs] rest] sc]; try done. unfold when.
    destruct (negb _); [|done]. intros [= <-]. destruct Hp. by apply add_value_ok.
  - destruct B as [root [|[ms [k|]|vs] rest] sc]; try done. unfold when.
    destruct (negb _); [|done]. intros [= <-]. destruct Hp. split; cbn; [by split|by auto].
  - unfold when. destruct (can_value B) eqn:E; [|done]. intros [= <-].
    apply can_value_accepts in E. split; cbn; [by try split|by auto].
  - destruct (b_scalar B) eqn:E; try done. intros [= <-]. split; [done|]. intros _. apply Hs.
    unfold scalar_open. by rewrite E.
  - destruct (b_scalar B) eqn:E; try done. intros [= <-].
    apply add_value_ok; [|done]. apply Hs. unfold scalar_open. by rewrite E.
  - unfold when. destruct (can_value B) eqn:E; [|done]. cbn [andb].
    destruct (lonejson__is_valid_json_number text); [|done]. intros [= <-].
    apply add_value_ok; [by apply can_value_accepts|done].
  - unfold when. destruct (can_value B) eqn:E; [|done]. intros [= <-].
    apply can_value_accepts in E. split; cbn; [by try split|by auto].
  - destruct (b_scalar B) eqn:E; try done. intros [= <-]. split; [done|]. intros _. apply Hs.
    unfold scalar_open. by rewrite E.
  - destruct (b_scalar B) eqn:E; try done. unfold when.
    destruct (lonejson__is_valid_json_number text); [|done]. intros [= <-].
    apply add_value_ok; [|done]. apply Hs. unfold scalar_open. by rewrite E.
  - destruct (lonejson__is_finite_f64 value); [apply Hval|done].
Qed.
