(* ===== verification/SerializerIo.v ===== *)
(** * SerializerIo: output buffers and the emission of escaped strings

    Models [src/impl/23_serializer_io.h]: the sinks over a caller's buffer and over
    a growing buffer, and the emitters of the serializer.  The buffer variants of
    the emitters ([..._exact]) are optimised copies of the generic ones over a
    sink; a loop that occurs in both is one definition here, taken over the emit
    function and the statuses at which it returns. *)

From stdpp Require Import base numbers list strings.
From Stdlib Require Import ZArith Lia Bool.
From S2P Require Import Prelude Runtime ByteBuffer Source JsonGrammar Writer WriterSpec.

(** ** Buffer sinks *)

Inductive lonejson_overflow_policy :=
| LONEJSON_OVERFLOW_FAIL
| LONEJSON_OVERFLOW_TRUNCATE
| LONEJSON_OVERFLOW_TRUNCATE_SILENT.

#[global] Instance overflow_policy_eq_dec : EqDecision lonejson_overflow_policy.
Proof. solve_decision. Defined.

(** [bs_null] says whether [buffer] is NULL; [bs_written] are its first [length]
    bytes. *)
Record lonejson_buffer_sink := mk_buffer_sink {
  bs_null : bool;
  bs_written : bytes;
  bs_capacity : Z;
  bs_needed : Z;
  bs_alloc_size : Z;
  bs_max_bytes : Z;
  bs_policy : lonejson_overflow_policy;
  bs_truncated : bool;
  bs_allocator : lonejson_allocator
}.

(** [sink->length] *)
Definition bs_length (s : lonejson_buffer_sink) : Z := zlen (bs_written s).

(** [memcpy(sink->buffer + sink->length, data, len); sink->length += len;] *)
Definition bs_put (s : lonejson_buffer_sink) (data : bytes) : lonejson_buffer_sink :=
  mk_buffer_sink (bs_null s) (bs_written s ++ data) (bs_capacity s) (bs_needed s)
    (bs_alloc_size s) (bs_max_bytes s) (bs_policy s) (bs_truncated s) (bs_allocator s).
Definition bs_set_needed (n : Z) (s : lonejson_buffer_sink) : lonejson_buffer_sink :=
  mk_buffer_sink (bs_null s) (bs_written s) (bs_capacity s) n
    (bs_alloc_size s) (bs_max_bytes s) (bs_policy s) (bs_truncated s) (bs_allocator s).
Definition bs_set_truncated (s : lonejson_buffer_sink) : lonejson_buffer_sink :=
  mk_buffer_sink (bs_null s) (bs_written s) (bs_capacity s) (bs_needed s)
    (bs_alloc_size s) (bs_max_bytes s) (bs_policy s) true (bs_allocator s).
(** [sink->buffer = next; sink->capacity = n; sink->alloc_size = n;] *)
Definition bs_set_block (n : Z) (s : lonejson_buffer_sink) : lonejson_buffer_sink :=
  mk_buffer_sink false (bs_written s) n (bs_needed s) n (bs_max_bytes s) (bs_policy s)
    (bs_truncated s) (bs_allocator s).
(** The allocator behind [sink->allocator] after a call. *)
Definition bs_set_allocator (a : lonejson_allocator) (s : lonejson_buffer_sink) :
    lonejson_buffer_sink :=
  mk_buffer_sink (bs_null s) (bs_written s) (bs_capacity s) (bs_needed s) (bs_alloc_size s)
    (bs_max_bytes s) (bs_policy s) (bs_truncated s) a.

(** [return lonejson__set_error(error, code, error ? error->offset : 0u,
    error ? error->line : 0u, error ? error->column : 0u, message);] *)
Definition set_error_in_place (error : error_ptr) (c : lonejson_status) (message : string) :
    lonejson_status * error_ptr :=
  match error with
  | Some e => lonejson__set_error error c (offset e) (line e) (column e) message
  | None => lonejson__set_error error c 0 0 0 message
  end.

(** [available] and [writable] of the fixed buffers: one byte is kept for the
    terminator. *)
Definition bs_available (s : lonejson_buffer_sink) : Z :=
  if bs_length s <? bs_capacity s then bs_capacity s - bs_length s else 0.
Definition bs_writable (s : lonejson_buffer_sink) : Z :=
  if 0 <? bs_available s then bs_available s - 1 else 0.

Definition lonejson__sink_buffer : lonejson_sink_fn lonejson_buffer_sink := λ sink data error,
  let len := zlen data in
  let available := bs_available sink in
  let writable := bs_writable sink in
  let sink := bs_set_needed (u64 (bs_needed sink + len)) sink in
  let sink :=
    if 0 <? available then
      let copy_len := if len <? writable then len else writable in
      if 0 <? copy_len then bs_put sink (take (Z.to_nat copy_len) data) else sink
    else sink in
  if writable <? len then
    let sink := bs_set_truncated sink in
    if decide (bs_policy sink = LONEJSON_OVERFLOW_FAIL) then
      let '(st, error) :=
        set_error_in_place error LONEJSON_STATUS_OVERFLOW "output buffer too small" in
      (st, sink, error)
    else
      (if decide (bs_policy sink = LONEJSON_OVERFLOW_TRUNCATE) then LONEJSON_STATUS_TRUNCATED
       else LONEJSON_STATUS_OK, sink, error)
  else (LONEJSON_STATUS_OK, sink, error).

Definition lonejson__sink_buffer_exact : lonejson_sink_fn lonejson_buffer_sink :=
  λ sink data error,
  let len := zlen data in
  let writable := bs_writable sink in
  let sink := bs_set_needed (u64 (bs_needed sink + len)) sink in
  if writable <? len then
    let sink := bs_set_truncated sink in
    let '(st, error) :=
      set_error_in_place error LONEJSON_STATUS_OVERFLOW "output buffer too small" in
    (st, sink, error)
  else if negb (len =? 0) then (LONEJSON_STATUS_OK, bs_put sink data, error)
  else (LONEJSON_STATUS_OK, sink, error).

(** The checks before the growth in [lonejson__sink_grow] and
    [lonejson__buffer_reserve_grow]: the error message, if any. *)
Definition grow_refused (sink : lonejson_buffer_sink) (len : Z) : option string :=
  if SIZE_MAX - bs_length sink <? len then Some "output buffer too large"%string
  else
    let payload_required := bs_length sink + len in
    if payload_required =? SIZE_MAX then Some "output buffer too large"%string
    else if negb (bs_max_bytes sink =? 0) && (bs_max_bytes sink <? payload_required) then
      Some "serializer-owned output exceeds max_output_bytes"%string
    else None.

(** [next_cap] before the cap by [max_bytes]. *)
Definition grow_next_cap (sink : lonejson_buffer_sink) (alloc_required : Z) : Z :=
  grow_cap 64 (if bs_capacity sink =? 0 then 2048 else bs_capacity sink) alloc_required.

(** [if (alloc_required > sink->capacity) { ... }], in both functions. *)
Definition grow_block (sink : lonejson_buffer_sink) (alloc_required : Z) (error : error_ptr) :
    lonejson_status * lonejson_buffer_sink * error_ptr :=
  let next_cap := grow_next_cap sink alloc_required in
  let max_alloc := if negb (bs_max_bytes sink =? 0) then u64 (bs_max_bytes sink + 1) else 0 in
  if negb (bs_max_bytes sink =? 0) && (max_alloc =? 0) then
    let '(st, error) :=
      set_error_in_place error LONEJSON_STATUS_OVERFLOW "output buffer too large" in
    (st, sink, error)
  else
    let next_cap := if negb (max_alloc =? 0) && (max_alloc <? next_cap) then max_alloc
                    else next_cap in
    let '(next, a) := lonejson__buffer_realloc (bs_allocator sink) (bs_null sink)
                        (bs_alloc_size sink) next_cap in
    let sink := bs_set_allocator a sink in
    if negb next then
      let '(st, error) := lonejson__set_error error LONEJSON_STATUS_ALLOCATION_FAILED 0 0 0
                            "failed to grow output buffer" in
      (st, sink, error)
    else (LONEJSON_STATUS_OK, bs_set_block next_cap sink, error).

Definition lonejson__sink_grow : lonejson_sink_fn lonejson_buffer_sink := λ sink data error,
  let len := zlen data in
  if len =? 0 then (LONEJSON_STATUS_OK, sink, error)
  else
    match grow_refused sink len with
    | Some message =>
        let '(st, error) := set_error_in_place error LONEJSON_STATUS_OVERFLOW message in
        (st, sink, error)
    | None =>
        let alloc_required := bs_length sink + len + 1 in
        let '(st, sink, error) :=
          if bs_capacity sink <? alloc_required then grow_block sink alloc_required error
          else (LONEJSON_STATUS_OK, sink, error) in
        if decide (st ≠ LONEJSON_STATUS_OK) then (st, sink, error)
        else
          let sink := bs_put sink data in
          (LONEJSON_STATUS_OK, bs_set_needed (bs_length sink) sink, error)
    end.

(** [fwrite(data, 1, len, fp) != len] is decided by the stream: [room] is what the
    device still takes, [errno] what it then reports. *)
Record out_file := mk_out_file {
  of_data : bytes;
  of_room : Z;
  of_errno : Z
}.

Definition fwrite (fp : out_file) (data : bytes) : Z * out_file :=
  let taken := take (Z.to_nat (of_room fp)) data in
  (zlen taken, mk_out_file (of_data fp ++ taken) (of_room fp - zlen taken) (of_errno fp)).

Definition lonejson__sink_file : lonejson_sink_fn out_file := λ fp data error,
  let len := zlen data in
  if len =? 0 then (LONEJSON_STATUS_OK, fp, error)
  else
    let '(n, fp) := fwrite fp data in
    if negb (n =? len) then
      let '(st, error) := set_error_in_place (set_system_errno error (of_errno fp))
                            LONEJSON_STATUS_IO_ERROR "failed to write JSON output" in
      (st, fp, error)
    else (LONEJSON_STATUS_OK, fp, error).

(** ** Emitters

    An emitter is a [callback] of [Runtime]: a function of the sink's state and the
    error pointer. *)

Section emitters.
Context {U : Type}.

Definition emit_ok : callback U := λ u e, (LONEJSON_STATUS_OK, u, e).

(** [status = m; if (stop(status)) return status; k] *)
Definition emit_seq (stop : lonejson_status → bool) (m k : callback U) : callback U := λ u e,
  let '(st, u, e) := m u e in
  if stop st then (st, u, e) else k u e.

(** [status != LONEJSON_STATUS_OK], the test of the buffer variants. *)
Definition status_not_ok (st : lonejson_status) : bool :=
  match st with
  | LONEJSON_STATUS_OK => false
  | _ => true
  end.

(** [text[i] >= 0x20u && text[i] != DQUOTE && text[i] != BACKSLASH] *)
Definition needs_no_escape (b : Z) : bool := (32 <=? b) && negb (b =? 34) && negb (b =? 92).

(** The [switch] on the byte: what is emitted for it, nothing in the last case. *)
Definition escape_sequence (b : Z) : bytes :=
  if b =? 34 then [92; 34]
  else if b =? 92 then [92; 92]
  else if b =? 8 then 92 :: c_str "b"
  else if b =? 12 then 92 :: c_str "f"
  else if b =? 10 then 92 :: c_str "n"
  else if b =? 13 then 92 :: c_str "r"
  else if b =? 9 then 92 :: c_str "t"
  else if b <? 32 then
    92 :: c_str "u00" ++ [hex_lower (Z.land (Z.shiftr b 4) 15); hex_lower (Z.land b 15)]
  else [].

(** The loop over the text; [run] is [text[start .. i)]. *)
Fixpoint escape_loop (emit : bytes → callback U) (stop : lonejson_status → bool)
    (run text : bytes) : callback U :=
  match text with
  | [] => if negb (zlen run =? 0) then emit_seq stop (emit run) emit_ok else emit_ok
  | b :: text =>
      if needs_no_escape b then escape_loop emit stop (run ++ [b]) text
      else
        emit_seq stop (if negb (zlen run =? 0) then emit run else emit_ok)
          (emit_seq stop
            (if negb (zlen (escape_sequence b) =? 0) then emit (escape_sequence b) else emit_ok)
            (escape_loop emit stop [] text))
  end.
End emitters.

(** *** Over any sink *)

Section over_sink.
Context {U : Type} (sink : lonejson_sink_fn U).

Definition lonejson__emit (data : bytes) : callback U := λ u e,
  if zlen data =? 0 then (LONEJSON_STATUS_OK, u, e) else sink u data e.

(** [text] is a C string literal without its terminator. *)
Definition lonejson__emit_cstr (text : bytes) : callback U := lonejson__emit text.

Definition lonejson__emit_escaped_fragment (text : bytes) : callback U :=
  escape_loop lonejson__emit status_fails [] text.

Definition lonejson__emit_escaped_bytes (text : bytes) : callback U :=
  if forallb needs_no_escape text then
    emit_seq status_fails (lonejson__emit_cstr [34])
      (emit_seq status_fails (lonejson__emit text) (lonejson__emit_cstr [34]))
  else
    emit_seq status_fails (lonejson__emit_cstr [34])
      (emit_seq status_fails (lonejson__emit_escaped_fragment text) (lonejson__emit_cstr [34])).

(** [text] is the memory the pointer refers to, up to a NUL at least. *)
Definition lonejson__emit_escaped_string (text : bytes) : callback U :=
  lonejson__emit_escaped_bytes (c_string text).

Definition lonejson__emit_escaped_len (text : bytes) : callback U :=
  lonejson__emit_escaped_bytes text.
End over_sink.

(** *** Over a fixed buffer *)

Definition lonejson__buffer_emit_exact (data : bytes) : callback lonejson_buffer_sink :=
  λ sink error,
  let len := zlen data in
  let writable := bs_writable sink in
  let sink := bs_set_needed (u64 (bs_needed sink + len)) sink in
  if writable <? len then
    let sink := bs_set_truncated sink in
    let '(st, error) :=
      set_error_in_place error LONEJSON_STATUS_OVERFLOW "output buffer too small" in
    (st, sink, error)
  else if negb (len =? 0) then (LONEJSON_STATUS_OK, bs_put sink data, error)
  else (LONEJSON_STATUS_OK, sink, error).

Definition lonejson__buffer_emit_cstr_exact (text : bytes) : callback lonejson_buffer_sink :=
  lonejson__buffer_emit_exact text.

Definition lonejson__buffer_emit_escaped_fragment_exact (text : bytes) :
    callback lonejson_buffer_sink :=
  escape_loop lonejson__buffer_emit_exact status_not_ok [] text.

Definition lonejson__buffer_emit_escaped_bytes_exact (text : bytes) :
    callback lonejson_buffer_sink :=
  emit_seq status_not_ok (lonejson__buffer_emit_cstr_exact [34])
    (emit_seq status_not_ok (lonejson__buffer_emit_escaped_fragment_exact text)
      (lonejson__buffer_emit_cstr_exact [34])).

Definition lonejson__buffer_emit_escaped_string_exact (text : bytes) :
    callback lonejson_buffer_sink :=
  lonejson__buffer_emit_escaped_bytes_exact (c_string text).

Definition lonejson__buffer_emit_escaped_len_exact (text : bytes) :
    callback lonejson_buffer_sink :=
  lonejson__buffer_emit_escaped_bytes_exact text.

(** *** Over a growing buffer *)

Definition lonejson__buffer_reserve_grow (sink : lonejson_buffer_sink) (error : error_ptr)
    (len : Z) : lonejson_status * lonejson_buffer_sink * error_ptr :=
  match grow_refused sink len with
  | Some message =>
      let '(st, error) := set_error_in_place error LONEJSON_STATUS_OVERFLOW message in
      (st, sink, error)
  | None =>
      let alloc_required := bs_length sink + len + 1 in
      if alloc_required <=? bs_capacity sink then (LONEJSON_STATUS_OK, sink, error)
      else grow_block sink alloc_required error
  end.

Definition lonejson__buffer_emit_grow (data : bytes) : callback lonejson_buffer_sink :=
  λ sink error,
  let len := zlen data in
  let sink := bs_set_needed (u64 (bs_needed sink + len)) sink in
  if len =? 0 then (LONEJSON_STATUS_OK, sink, error)
  else
    let '(st, sink, error) := lonejson__buffer_reserve_grow sink error len in
    if decide (st ≠ LONEJSON_STATUS_OK) then (st, sink, error)
    else (LONEJSON_STATUS_OK, bs_put sink data, error).

Definition lonejson__buffer_emit_cstr_grow (text : bytes) : callback lonejson_buffer_sink :=
  lonejson__buffer_emit_grow text.
