(* ===== verification/Mapping.v ===== *)
(** * Mapping: field maps and the records they describe

    Models the schema tables [lonejson_field] and [lonejson_map]
    ([include/lonejson.h]) and what [src/impl/20_parser_map.h] computes from them:
    storage sizes, the analysis that accepts a map, presence flags, and the
    decision to omit a field.  A struct is its members by offset, each a typed
    cell; reading a member that is not there, or at another type than it has, is
    undefined.  Maps refer to each other by pointer: [maps] gives the map behind a
    pointer. *)

From stdpp Require Import base numbers list strings.
From Stdlib Require Import ZArith Lia Bool SpecFloat.
From S2P Require Import Prelude Runtime F64 Source Spooled JsonCursor SerializerIo.

(** ** Maps *)

Inductive lonejson_field_kind :=
| LONEJSON_FIELD_KIND_STRING
| LONEJSON_FIELD_KIND_STRING_STREAM
| LONEJSON_FIELD_KIND_BASE64_STREAM
| LONEJSON_FIELD_KIND_STRING_SOURCE
| LONEJSON_FIELD_KIND_BASE64_SOURCE
| LONEJSON_FIELD_KIND_JSON_VALUE
| LONEJSON_FIELD_KIND_I64
| LONEJSON_FIELD_KIND_U64
| LONEJSON_FIELD_KIND_F64
| LONEJSON_FIELD_KIND_BOOL
| LONEJSON_FIELD_KIND_OBJECT
| LONEJSON_FIELD_KIND_STRING_ARRAY
| LONEJSON_FIELD_KIND_I64_ARRAY
| LONEJSON_FIELD_KIND_U64_ARRAY
| LONEJSON_FIELD_KIND_F64_ARRAY
| LONEJSON_FIELD_KIND_BOOL_ARRAY
| LONEJSON_FIELD_KIND_OBJECT_ARRAY
| LONEJSON_FIELD_KIND_STRING_ARRAY_STREAM
| LONEJSON_FIELD_KIND_MAPPED_ARRAY_STREAM.

#[global] Instance field_kind_eq_dec : EqDecision lonejson_field_kind.
Proof. solve_decision. Defined.

Inductive lonejson_storage_kind :=
| LONEJSON_STORAGE_DYNAMIC
| LONEJSON_STORAGE_FIXED.

#[global] Instance storage_kind_eq_dec : EqDecision lonejson_storage_kind.
Proof. solve_decision. Defined.

(** The bits of [flags]. *)
Definition LONEJSON_FIELD_REQUIRED : Z := Z.shiftl 1 0.
Definition LONEJSON_FIELD_OMIT_NULL : Z := Z.shiftl 1 1.
Definition LONEJSON_FIELD_OMIT_EMPTY : Z := Z.shiftl 1 2.
Definition LONEJSON_FIELD_HAS_PRESENCE : Z := Z.shiftl 1 3.
Definition LONEJSON_FIELD_ACCEPT_NULL : Z := Z.shiftl 1 4.

(** A pointer to a map. *)
Definition map_ptr : Type := nat.

Record lonejson_field := mk_field {
  json_key : bytes;
  struct_offset : Z;
  kind : lonejson_field_kind;
  storage : lonejson_storage_kind;
  overflow_policy : lonejson_overflow_policy;
  flags : Z;
  fixed_capacity : Z;
  elem_size : Z;
  submap : option map_ptr;
  presence_offset : Z
}.

Record lonejson_map := mk_map {
  struct_size : Z;
  fields : list lonejson_field
}.

(** [(field->flags & mask) != 0u] *)
Definition has_flag (mask : Z) (field : lonejson_field) : bool := negb (Z.land (flags field) mask =? 0).

(** ** Layout *)

Section layout.
(** [sizeof] of the struct a member of a kind is: the handles and array headers. *)
Variable sizeof : lonejson_field_kind → Z.
Variable maps : map_ptr → lonejson_map.

Definition lonejson__field_storage_size (field : lonejson_field) : Z :=
  match kind field with
  | LONEJSON_FIELD_KIND_STRING =>
      if decide (storage field = LONEJSON_STORAGE_DYNAMIC) then 8 else fixed_capacity field
  | LONEJSON_FIELD_KIND_I64 | LONEJSON_FIELD_KIND_U64 | LONEJSON_FIELD_KIND_F64 => 8
  | LONEJSON_FIELD_KIND_BOOL => 1
  | LONEJSON_FIELD_KIND_OBJECT =>
      match submap field with
      | Some p => struct_size (maps p)
      | None => 0
      end
  | kind => sizeof kind
  end.

Definition lonejson__field_fits_map (map : lonejson_map) (field : lonejson_field) : bool :=
  let size := lonejson__field_storage_size field in
  if size =? 0 then false
  else if struct_size map <? struct_offset field then false
  else size <=? struct_size map - struct_offset field.

(** [kind_accepts_presence] *)
Definition kind_accepts_presence (field : lonejson_field) : bool :=
  match kind field with
  | LONEJSON_FIELD_KIND_I64 | LONEJSON_FIELD_KIND_U64 | LONEJSON_FIELD_KIND_F64
  | LONEJSON_FIELD_KIND_BOOL => true
  | _ => false
  end.

(** The condition of the early return in the loop over the fields. *)
Definition field_invalid (map : lonejson_map) (field : lonejson_field) : bool :=
  let size := lonejson__field_storage_size field in
  let has_presence := has_flag LONEJSON_FIELD_HAS_PRESENCE field in
  let accepts := kind_accepts_presence field in
  (size =? 0) || (struct_size map <? struct_offset field)
  || (struct_size map - struct_offset field <? size)
  || (has_presence
      && ((struct_size map <? presence_offset field)
          || (struct_size map - presence_offset field <? 4)
          || negb accepts))
  || (has_flag LONEJSON_FIELD_ACCEPT_NULL field && (negb has_presence || negb accepts))
  || (has_flag LONEJSON_FIELD_REQUIRED field
      && has_flag (Z.lor LONEJSON_FIELD_OMIT_NULL
                     (Z.lor LONEJSON_FIELD_OMIT_EMPTY
                        (Z.lor LONEJSON_FIELD_HAS_PRESENCE LONEJSON_FIELD_ACCEPT_NULL))) field).

Record lonejson__map_analysis := mk_analysis {
  an_valid : bool;
  an_may_allocate : bool;
  an_adopt_mask : Z
}.

Definition lonejson__recursive_submap_analysis : lonejson__map_analysis :=
  mk_analysis true true UINT64_MAX.

(** [stack] holds the maps of the frames. *)
Definition lonejson__map_analysis_stack_contains (stack : list map_ptr) (map : map_ptr) : bool :=
  bool_decide (map ∈ stack).

(** What a field says by itself: [may_allocate] and [adopt]. *)
Definition field_allocates (field : lonejson_field) : bool * bool :=
  let dynamic := negb (bool_decide (storage field = LONEJSON_STORAGE_FIXED)) in
  match kind field with
  | LONEJSON_FIELD_KIND_STRING =>
      let d := bool_decide (storage field = LONEJSON_STORAGE_DYNAMIC) in (d, d)
  | LONEJSON_FIELD_KIND_STRING_STREAM | LONEJSON_FIELD_KIND_BASE64_STREAM
  | LONEJSON_FIELD_KIND_STRING_SOURCE | LONEJSON_FIELD_KIND_BASE64_SOURCE
  | LONEJSON_FIELD_KIND_JSON_VALUE | LONEJSON_FIELD_KIND_STRING_ARRAY => (true, true)
  | LONEJSON_FIELD_KIND_OBJECT_ARRAY | LONEJSON_FIELD_KIND_I64_ARRAY
  | LONEJSON_FIELD_KIND_U64_ARRAY | LONEJSON_FIELD_KIND_F64_ARRAY
  | LONEJSON_FIELD_KIND_BOOL_ARRAY => (dynamic, true)
  | _ => (false, false)
  end.

(** The map an object field descends into, if any. *)
Definition field_descends (field : lonejson_field) : option map_ptr :=
  match kind field with
  | LONEJSON_FIELD_KIND_OBJECT | LONEJSON_FIELD_KIND_OBJECT_ARRAY => submap field
  | _ => None
  end.

(** [if (analysis.adopt_mask != ~(lonejson_uint64)0u && adopt)]: the mask starts
    full when there are more than 64 fields. *)
Definition adopt_bit (adopt : bool) (i mask : Z) : Z :=
  if negb (mask =? UINT64_MAX) && adopt then Z.lor mask (Z.shiftl 1 i) else mask.

(** The loop over the fields [i ..] of [map]; [sub] analyses a submap. *)
Fixpoint analyze_fields (sub : map_ptr → run lonejson__map_analysis) (map : lonejson_map)
    (fs : list lonejson_field) (i : Z) (acc : lonejson__map_analysis) : run lonejson__map_analysis :=
  match fs with
  | [] => Done acc
  | field :: fs =>
      if field_invalid map field then Done (mk_analysis false (an_may_allocate acc) (an_adopt_mask acc))
      else
        let '(allocates, adopt) := field_allocates field in
        let next a d :=
          analyze_fields sub map fs (i + 1)
            (mk_analysis (an_valid acc) (an_may_allocate acc || a)
               (adopt_bit d i (an_adopt_mask acc))) in
        match field_descends field with
        | Some p =>
            s ← sub p;
            if negb (an_valid s)
            then Done (mk_analysis false (an_may_allocate acc) (an_adopt_mask acc))
            else next (allocates || an_may_allocate s) (adopt || an_may_allocate s)
        | None => next allocates adopt
        end
  end.

Fixpoint lonejson__analyze_map_with_stack (fuel : nat) (map : map_ptr) (parent : list map_ptr) :
    run lonejson__map_analysis :=
  match fuel with
  | O => Out_of_fuel
  | S fuel =>
      let stack := map :: parent in
      let m := maps map in
      let sub p :=
        if lonejson__map_analysis_stack_contains stack p then Done lonejson__recursive_submap_analysis
        else lonejson__analyze_map_with_stack fuel p stack in
      analyze_fields sub m (fields m) 0
        (mk_analysis true false (if 64 <? zlen (fields m) then UINT64_MAX else 0))
  end.

Definition lonejson__analyze_map (fuel : nat) (map : map_ptr) : run lonejson__map_analysis :=
  lonejson__analyze_map_with_stack fuel map [].

(** The result is cached under the address of the map, whose content does not
    change; [None] is NULL. *)
Definition lonejson__map_layout_is_valid (fuel : nat) (map : option map_ptr) : run bool :=
  match map with
  | None => Done false
  | Some p => a ← lonejson__analyze_map fuel p; Done (an_valid a)
  end.
Definition lonejson__map_may_allocate (fuel : nat) (map : option map_ptr) : run bool :=
  match map with
  | None => Done false
  | Some p => a ← lonejson__analyze_map fuel p; Done (an_may_allocate a)
  end.
Definition lonejson__map_adopt_mask (fuel : nat) (map : option map_ptr) : run Z :=
  match map with
  | None => Done UINT64_MAX
  | Some p => a ← lonejson__analyze_map fuel p; Done (an_adopt_mask a)
  end.
End layout.

(** ** Records *)

(** What a member holds.  A string pointer is [None] for NULL and the memory it
    points to, up to the NUL at least, otherwise; a fixed string is its array; the
    parse-only handles carry nothing that is read. *)
#[local] Unset Elimination Schemes.
Inductive cell (R : Type) : Type :=
| CPointer (text : option bytes)
| CChars (text : bytes)
| CSpooled (value : lonejson_spooled)
| CSource (value : lonejson_source)
| CJson (value : lonejson_json_value R)
| CI64 (value : Z)
| CU64 (value : Z)
| CF64 (value : f64)
| CBool (value : bool)
| CInt (value : Z)
| CStruct (members : list (Z * cell R))
| CStrings (items : list (option bytes))
| CI64s (items : list Z)
| CU64s (items : list Z)
| CF64s (items : list f64)
| CBools (items : list bool)
| CStructs (items : list (list (Z * cell R)))
| CParseOnly.
#[local] Set Elimination Schemes.
Arguments CPointer {R}. Arguments CChars {R}. Arguments CSpooled {R}. Arguments CSource {R}.
Arguments CJson {R}. Arguments CI64 {R}. Arguments CU64 {R}. Arguments CF64 {R}. Arguments CBool {R}.
Arguments CInt {R}. Arguments CStruct {R}. Arguments CStrings {R}. Arguments CI64s {R}.
Arguments CU64s {R}. Arguments CF64s {R}. Arguments CBools {R}. Arguments CStructs {R}.
Arguments CParseOnly {R}.

(** A struct: its members by offset. *)
Definition record (R : Type) : Type := list (Z * cell R).

Section records.
Context {R : Type}.
Variable maps : map_ptr → lonejson_map.

(** [lonejson__field_cptr]: the member at an offset. *)
Definition with_member {A} (offset : Z) (k : cell R → run A) : record R → run A :=
  fix find members :=
    match members with
    | [] => Undefined
    | (o, c) :: members => if o =? offset then k c else find members
    end.

Definition lonejson__field_presence_is_set (base : record R) (field : lonejson_field) : run bool :=
  if negb (has_flag LONEJSON_FIELD_HAS_PRESENCE field) then Done true
  else
    with_member (presence_offset field)
      (λ c, match c with
            | CInt v => Done (negb (v =? 0))
            | _ => Undefined
            end) base.

(** The [switch] under [LONEJSON_FIELD_OMIT_NULL]. *)
Definition null_for_omit (field : lonejson_field) (c : cell R) : run bool :=
  match kind field with
  | LONEJSON_FIELD_KIND_STRING =>
      if decide (storage field = LONEJSON_STORAGE_DYNAMIC) then
        match c with
        | CPointer text => Done (bool_decide (text = None))
        | _ => Undefined
        end
      else Done false
  | LONEJSON_FIELD_KIND_STRING_SOURCE | LONEJSON_FIELD_KIND_BASE64_SOURCE =>
      match c with
      | CSource v => Done (bool_decide (src_kind v = LONEJSON_SOURCE_NONE))
      | _ => Undefined
      end
  | LONEJSON_FIELD_KIND_JSON_VALUE =>
      match c with
      | CJson v => Done (bool_decide (jv_kind v = LONEJSON_JSON_VALUE_NULL))
      | _ => Undefined
      end
  | _ => Done false
  end.

(** [*text == '\0'] *)
Definition text_empty (text : bytes) : run bool :=
  match text with
  | c :: _ => Done (c =? 0)
  | [] => Undefined
  end.

(** The [switch] under [LONEJSON_FIELD_OMIT_EMPTY]; [nested] answers
    [!lonejson__map_has_serialized_fields(field->submap, ptr)]. *)
Definition empty_for_omit (nested : run bool) (field : lonejson_field) (c : cell R) : run bool :=
  match kind field, c with
  | LONEJSON_FIELD_KIND_STRING, CPointer text =>
      if decide (storage field = LONEJSON_STORAGE_DYNAMIC) then
        match text with
        | None => Done true
        | Some text => text_empty text
        end
      else Undefined
  | LONEJSON_FIELD_KIND_STRING, CChars text =>
      if decide (storage field = LONEJSON_STORAGE_DYNAMIC) then Undefined
      else if fixed_capacity field =? 0 then Done true
      else text_empty text
  | LONEJSON_FIELD_KIND_STRING_STREAM, CSpooled v
  | LONEJSON_FIELD_KIND_BASE64_STREAM, CSpooled v => Done (lonejson_spooled_size (Some v) =? 0)
  | LONEJSON_FIELD_KIND_OBJECT, CStruct _ => nested
  | LONEJSON_FIELD_KIND_STRING_ARRAY, CStrings items => Done (zlen items =? 0)
  | LONEJSON_FIELD_KIND_I64_ARRAY, CI64s items => Done (zlen items =? 0)
  | LONEJSON_FIELD_KIND_U64_ARRAY, CU64s items => Done (zlen items =? 0)
  | LONEJSON_FIELD_KIND_F64_ARRAY, CF64s items => Done (zlen items =? 0)
  | LONEJSON_FIELD_KIND_BOOL_ARRAY, CBools items => Done (zlen items =? 0)
  | LONEJSON_FIELD_KIND_OBJECT_ARRAY, CStructs items => Done (zlen items =? 0)
  | LONEJSON_FIELD_KIND_STRING, _ | LONEJSON_FIELD_KIND_STRING_STREAM, _
  | LONEJSON_FIELD_KIND_BASE64_STREAM, _ | LONEJSON_FIELD_KIND_OBJECT, _
  | LONEJSON_FIELD_KIND_STRING_ARRAY, _ | LONEJSON_FIELD_KIND_I64_ARRAY, _
  | LONEJSON_FIELD_KIND_U64_ARRAY, _ | LONEJSON_FIELD_KIND_F64_ARRAY, _
  | LONEJSON_FIELD_KIND_BOOL_ARRAY, _ | LONEJSON_FIELD_KIND_OBJECT_ARRAY, _ => Undefined
  | _, _ => Done false
  end.

(** The branch of a field that is present. *)
Definition present_empty (nested : run bool) (field : lonejson_field) (c : cell R) : run bool :=
  let omit_empty := has_flag LONEJSON_FIELD_OMIT_EMPTY field in
  let omit_null := omit_empty || has_flag LONEJSON_FIELD_OMIT_NULL field in
  if negb omit_null && negb omit_empty then Done false
  else
    is_null ← (if omit_null then null_for_omit field c else Done false);
    if (is_null : bool) then Done true
    else if omit_empty then empty_for_omit nested field c
    else Done false.

(** [lonejson__map_has_serialized_fields] over [empty], the answer for a field. *)
Fixpoint has_serialized_fields (empty : lonejson_field → run bool) (fs : list lonejson_field) :
    run bool :=
  match fs with
  | [] => Done false
  | field :: fs =>
      e ← empty field;
      if negb e then Done true else has_serialized_fields empty fs
  end.

(** [lonejson__field_is_empty_for_omit], with the struct the member is in. *)
Definition empty_member (value : lonejson_field → cell R → run bool) (base : record R)
    (field : lonejson_field) : run bool :=
  present ← lonejson__field_presence_is_set base field;
  if (present : bool) then with_member (struct_offset field) (value field) base else Done true.

Fixpoint empty_value (field : lonejson_field) (c : cell R) {struct c} : run bool :=
  present_empty
    (match c, submap field with
     | CStruct members, Some p =>
         has ← has_serialized_fields
                 (λ f, present ← lonejson__field_presence_is_set members f;
                       if (present : bool) then with_member (struct_offset f) (empty_value f) members
                       else Done true)
                 (fields (maps p));
         Done (negb has)
     | _, _ => Done true
     end) field c.

Definition lonejson__field_is_empty_for_omit (base : record R) (field : lonejson_field) : run bool :=
  empty_member empty_value base field.

Definition lonejson__map_has_serialized_fields (map : option map_ptr) (src : record R) : run bool :=
  match map with
  | None => Done false
  | Some p => has_serialized_fields (lonejson__field_is_empty_for_omit src) (fields (maps p))
  end.

Definition lonejson__field_should_omit (base : record R) (field : lonejson_field) : run bool :=
  if has_flag LONEJSON_FIELD_REQUIRED field then Done false
  else lonejson__field_is_empty_for_omit base field.

(** *** Rewinding *)

(** [json_rewindable] is the probe of an embedded value's handle. *)
Variable json_rewindable : lonejson_json_value R → bool.

Definition all_rewindable {A} (test : A → run bool) : list A → run bool :=
  fix go l :=
    match l with
    | [] => Done true
    | a :: l => r ← test a; if (r : bool) then go l else Done false
    end.

Fixpoint lonejson__field_is_rewindable_for_serialize (field : lonejson_field) (c : cell R) {struct c} :
    run bool :=
  let rewindable_fields members :=
    all_rewindable
      (λ f, omitted ← lonejson__field_should_omit members f;
            if (omitted : bool) then Done true
            else with_member (struct_offset f) (lonejson__field_is_rewindable_for_serialize f) members) in
  match kind field with
  | LONEJSON_FIELD_KIND_STRING_SOURCE | LONEJSON_FIELD_KIND_BASE64_SOURCE =>
      match c with CSource v => Done (lonejson_source_is_rewindable (Some v)) | _ => Undefined end
  | LONEJSON_FIELD_KIND_JSON_VALUE =>
      match c with CJson v => Done (json_rewindable v) | _ => Undefined end
  | LONEJSON_FIELD_KIND_OBJECT =>
      match c with
      | CStruct members =>
          match submap field with
          | Some p => rewindable_fields members (fields (maps p))
          | None => Done false
          end
      | _ => Undefined
      end
  | LONEJSON_FIELD_KIND_OBJECT_ARRAY =>
      match c with
      | CStructs items =>
          all_rewindable
            (λ members,
               match submap field with
               | Some p => rewindable_fields members (fields (maps p))
               | None => Done false
               end) items
      | _ => Undefined
      end
  | _ => Done true
  end.

Definition lonejson__map_is_rewindable_for_serialize (map : option map_ptr) (src : record R) :
    run bool :=
  match map with
  | None => Done false
  | Some p =>
      all_rewindable
        (λ f, omitted ← lonejson__field_should_omit src f;
              if (omitted : bool) then Done true
              else with_member (struct_offset f) (lonejson__field_is_rewindable_for_serialize f) src)
        (fields (maps p))
  end.
End records.
