(* ===== verification/MappingProps.v ===== *)
(** * MappingProps: which maps the analysis accepts

    The analysis of [src/impl/20_parser_map.h] descends into submaps and cuts off at
    those it is inside of.  It ends on every finite set of maps, also on cyclic
    ones, and it accepts a map exactly when all fields of all maps reached from it
    are in bounds ([layout_valid_iff]). *)

From stdpp Require Import base numbers list strings relations.
From Stdlib Require Import ZArith Lia Bool.
From S2P Require Import Prelude Runtime SerializerIo Mapping.

Section layout.
#[local] Set Default Proof Using "Type*".
Context (sizeof : lonejson_field_kind → Z) (maps : map_ptr → lonejson_map).
#[local] Abbreviation size := (lonejson__field_storage_size sizeof maps).
#[local] Abbreviation has := has_flag.

(** ** Specification *)

(** A field lies inside its struct, a presence flag is that of a scalar and lies
    inside too, and the flags do not contradict each other. *)
Record field_fits (m : lonejson_map) (f : lonejson_field) : Prop := {
  fits_size : 0 < size f;
  fits_struct : struct_offset f + size f ≤ struct_size m;
  fits_presence : has LONEJSON_FIELD_HAS_PRESENCE f = true →
    kind_accepts_presence f = true ∧ presence_offset f + 4 ≤ struct_size m;
  fits_null : has LONEJSON_FIELD_ACCEPT_NULL f = true → has LONEJSON_FIELD_HAS_PRESENCE f = true;
  fits_required : has LONEJSON_FIELD_REQUIRED f = true →
    has (Z.lor LONEJSON_FIELD_OMIT_NULL
           (Z.lor LONEJSON_FIELD_OMIT_EMPTY
              (Z.lor LONEJSON_FIELD_HAS_PRESENCE LONEJSON_FIELD_ACCEPT_NULL))) f = false
}.

Lemma field_invalid_fits m f :
  0 ≤ size f → (field_invalid sizeof maps m f = false ↔ field_fits m f).
Proof.
  intros Hs. unfold field_invalid. split.
  - rewrite !orb_false_iff, !andb_false_iff, !orb_false_iff, !negb_false_iff.
    intros (((((H1 & H2) & H3) & H4) & H5) & H6). split; [lia|lia| | |].
    + intros Hp. destruct H4 as [H4|((H4 & H4') & H4'')]; [congruence|]. split; [done|lia].
    + intros Hn. destruct H5 as [H5|[H5 _]]; [congruence|done].
    + intros Hr. destruct H6 as [H6|H6]; [congruence|done].
  - intros [H1 H2 H3 H4 H5].
    rewrite !orb_false_iff, !andb_false_iff, !orb_false_iff, !negb_false_iff.
    split_and!; [lia|lia|lia|..].
    + destruct (has LONEJSON_FIELD_HAS_PRESENCE f); [right|by left]. destruct (H3 eq_refl). split_and!; [lia|lia|done].
    + destruct (has LONEJSON_FIELD_ACCEPT_NULL f) eqn:E; [right|by left]. specialize (H4 eq_refl).
      by destruct (H3 H4).
    + destruct (has LONEJSON_FIELD_REQUIRED f); [right|by left]. by apply H5.
Qed.

(** [p] has an object field, or an array of objects, of the map [q]. *)
Definition edge (p q : map_ptr) : Prop := ∃ f, f ∈ fields (maps p) ∧ field_descends f = Some q.

Definition map_fits (q : map_ptr) : Prop := Forall (field_fits (maps q)) (fields (maps q)).

(** ** Reachability that avoids the maps on the stack *)

Definition avoiding (stack : list map_ptr) (p q : map_ptr) : Prop := edge p q ∧ q ∉ stack.

(** The last visit to the start of a path. *)
Lemma avoiding_last stack p q :
  rtc (avoiding stack) p q →
  p = q ∨ ∃ p', edge p p' ∧ ¬ (p' ∈ p :: stack) ∧ rtc (avoiding (p :: stack)) p' q.
Proof.
  revert q. apply rtc_ind_r; [by left|]. intros x q Hx [He Hq] IH.
  destruct (decide (p = q)) as [->|Hne]; [by left|]. right.
  assert (q ∉ (p :: stack)) as Hq' by (rewrite not_elem_of_cons; split; [congruence|done]).
  destruct IH as [->|(p' & Hp & Hp' & Hr)].
  - exists q. split_and!; [done..|apply rtc_refl].
  - exists p'. split_and!; [done..|]. eapply rtc_r; [exact Hr|]. by split.
Qed.

Lemma avoiding_weaken stack p x q : rtc (avoiding (x :: stack)) p q → rtc (avoiding stack) p q.
Proof.
  apply rtc_subrel. intros a b [He Hb]. split; [done|]. intros H. apply Hb. by right.
Qed.

(** ** The loop over the fields *)

Section loop.
Context (sub : map_ptr → run lonejson__map_analysis) (m : lonejson_map).
#[local] Abbreviation loop := (analyze_fields sizeof maps sub m).

Lemma analyze_fields_total fs i acc :
  (∀ f q, f ∈ fs → field_descends f = Some q → ∃ a, sub q = Done a) → ∃ a, loop fs i acc = Done a.
Proof.
  revert i acc. induction fs as [|f fs IH]; intros i acc Hsub; [by eexists|]. cbn [analyze_fields].
  destruct (field_invalid _ _ _ _); [by eexists|]. destruct (field_allocates f) as [al ad].
  assert (∀ i acc, ∃ a, loop fs i acc = Done a) as Hfs
    by (intros; apply IH; intros g q Hg; apply Hsub; by right).
  destruct (field_descends f) as [q|] eqn:Ed; [|apply Hfs].
  destruct (Hsub f q) as [s ->]; [by left|done|]. rewrite run_bind_done.
  destruct (an_valid s); cbn [negb]; [apply Hfs|by eexists].
Qed.

(** The fields are accepted when each is, and each submap. *)
Definition accepts (f : lonejson_field) : Prop :=
  field_invalid sizeof maps m f = false
  ∧ ∀ q, field_descends f = Some q → ∃ s, sub q = Done s ∧ an_valid s = true.

Lemma analyze_fields_iff fs i acc a :
  loop fs i acc = Done a → an_valid acc = true → (an_valid a = true ↔ Forall accepts fs).
Proof.
  revert i acc. induction fs as [|f fs IH]; intros i acc H Hacc; revert H; cbn [analyze_fields].
  { intros [= <-]. by split. }
  rewrite Forall_cons. unfold accepts at 1.
  destruct (field_invalid _ _ _ _) eqn:Ei; [intros [= <-]; split; [done|by intros [[? _] _]]|].
  destruct (field_allocates f) as [al ad]. destruct (field_descends f) as [q|] eqn:Ed.
  - destruct (sub q) as [s| |] eqn:Es; [|done..]. rewrite run_bind_done. destruct (an_valid s) eqn:Ev; cbn [negb].
    + intros H. rewrite (IH _ _ H Hacc). split; [|by intros [_ ?]]. intros Hf. split; [|done].
      split; [done|]. intros q' [= <-]. eauto.
    + intros [= <-]. split; [done|]. intros [[_ H] _]. destruct (H q eq_refl) as (s' & Hs' & ?). congruence.
  - intros H. rewrite (IH _ _ H Hacc). split; [|by intros [_ ?]]. intros Hf. by split.
Qed.
End loop.

(** ** The descent *)

#[local] Abbreviation analyze := (lonejson__analyze_map_with_stack sizeof maps).

(** The submap analysis inside [stack]. *)
Definition analyze_sub (fuel : nat) (stack : list map_ptr) (p : map_ptr) : run lonejson__map_analysis :=
  if lonejson__map_analysis_stack_contains stack p then Done lonejson__recursive_submap_analysis
  else analyze fuel p stack.

Lemma analyze_S fuel p parent :
  analyze (S fuel) p parent
  = analyze_fields sizeof maps (analyze_sub fuel (p :: parent)) (maps p) (fields (maps p)) 0
      (mk_analysis true false (if 64 <? zlen (fields (maps p)) then UINT64_MAX else 0)).
Proof. done. Qed.

Context (Hsize : ∀ p f, f ∈ fields (maps p) → 0 ≤ size f).

Lemma map_fits_valid p f : map_fits p → f ∈ fields (maps p) → field_invalid sizeof maps (maps p) f = false.
Proof. unfold map_fits. rewrite Forall_forall. intros H Hf. apply field_invalid_fits; eauto. Qed.

(** Every frame is another map of [universe]; the map on top is accepted when all that is
    reached without going through the frames below fits. *)
Lemma analyze_spec universe fuel p parent :
  (∀ p q, p ∈ universe → edge p q → q ∈ universe) →
  p ∈ universe → parent ⊆ universe → NoDup (p :: parent) → (length universe < fuel + length parent)%nat →
  ∃ a, analyze fuel p parent = Done a
    ∧ (an_valid a = true ↔ ∀ q, rtc (avoiding parent) p q → map_fits q).
Proof.
  intros Hclosed. revert p parent. induction fuel as [|fuel IH]; intros p parent Hp Hparent Hdup Hlen.
  { assert (p :: parent ⊆+ universe) as H%submseteq_length.
    { apply NoDup_submseteq; [done|]. intros x [->|?]%elem_of_cons; [done|by apply Hparent]. }
    cbn in H. lia. }
  assert (∀ f q, f ∈ fields (maps p) → field_descends f = Some q → q ∉ (p :: parent) →
    ∃ s, analyze fuel q (p :: parent) = Done s
      ∧ (an_valid s = true ↔ ∀ q', rtc (avoiding (p :: parent)) q q' → map_fits q')) as Hsub.
  { intros f q Hf Hq Hin. apply IH; [eapply Hclosed; [exact Hp|by exists f]| |by apply NoDup_cons|cbn; lia].
    intros x [->|?]%elem_of_cons; [done|by apply Hparent]. }
  assert (∀ f q, f ∈ fields (maps p) → field_descends f = Some q →
    ∃ s, analyze_sub fuel (p :: parent) q = Done s) as Htotal.
  { intros f q Hf Hq. unfold analyze_sub, lonejson__map_analysis_stack_contains.
    case_bool_decide as Hin; [by eexists|]. destruct (Hsub f q Hf Hq Hin) as (s & Hs & _). eauto. }
  rewrite analyze_S.
  edestruct analyze_fields_total as [a Ha]; [exact Htotal|]. rewrite Ha. exists a. split; [done|].
  rewrite (analyze_fields_iff _ _ _ _ _ _ Ha eq_refl), Forall_forall. clear Ha. split.
  - intros Hall q [<-|(p' & (f & Hf & Hd) & Hp' & Hr)]%avoiding_last.
    + apply Forall_forall. intros f Hf. apply field_invalid_fits; [by eapply Hsize|]. by apply Hall.
    + destruct (Hall f Hf) as [_ Hs]. destruct (Hs p' Hd) as (s & Hs' & Hv). unfold analyze_sub in Hs'.
      unfold lonejson__map_analysis_stack_contains in Hs'. rewrite bool_decide_false in Hs' by done.
      destruct (Hsub f p' Hf Hd Hp') as (s2 & Hs2 & Hiff). apply Hiff; [congruence|done].
  - intros Hall f Hf. split; [apply map_fits_valid; [apply Hall, rtc_refl|done]|]. intros q Hd.
    unfold analyze_sub, lonejson__map_analysis_stack_contains. case_bool_decide as Hin; [by eexists|].
    destruct (Hsub f q Hf Hd Hin) as (s & Hs & Hiff). exists s. split; [done|]. apply Hiff.
    intros q' Hq'. apply Hall. eapply rtc_l; [|by eapply avoiding_weaken].
    split; [by exists f|]. intros H. apply Hin. by right.
Qed.

(** C8: the analysis of a map ends on every finite set of maps, however they refer to
    each other, within as many frames as there are maps; and it accepts the map
    exactly when every field of every map reached from it lies inside its struct, with
    its presence flag, and with flags that agree. *)
Theorem layout_valid_iff universe fuel p :
  (∀ p q, p ∈ universe → edge p q → q ∈ universe) → p ∈ universe → (length universe < fuel)%nat →
  ∃ valid, lonejson__map_layout_is_valid sizeof maps fuel (Some p) = Done valid
    ∧ (valid = true ↔ ∀ q, rtc edge p q → map_fits q).
Proof.
  intros Hclosed Hp Hlen. cbn [lonejson__map_layout_is_valid]. unfold lonejson__analyze_map.
  destruct (analyze_spec universe fuel p [] Hclosed Hp) as (a & -> & Ha).
  - intros x Hx. by apply not_elem_of_nil in Hx.
  - apply NoDup_singleton.
  - cbn. lia.
  - rewrite run_bind_done. exists (an_valid a). split; [done|]. rewrite Ha.
    split; intros H q Hq; apply H; (eapply rtc_subrel; [|exact Hq]).
    + intros x y He. split; [done|]. apply not_elem_of_nil.
    + by intros x y [He _].
Qed.
End layout.

(** ** Two maps that refer to each other

    A tree of nodes: a node has an array of children, and a child a node. *)

Definition node_field (offset : Z) (k : lonejson_field_kind) (sub : map_ptr) : lonejson_field :=
  mk_field [] offset k LONEJSON_STORAGE_DYNAMIC LONEJSON_OVERFLOW_FAIL 0 0 0 (Some sub) 0.

Definition node_maps (p : map_ptr) : lonejson_map :=
  match p with
  | O => mk_map 24 [node_field 0 LONEJSON_FIELD_KIND_OBJECT_ARRAY 1%nat]
  | _ => mk_map 32 [node_field 0 LONEJSON_FIELD_KIND_OBJECT 0%nat; node_field 24 LONEJSON_FIELD_KIND_I64 0%nat]
  end.

Lemma layout_valid_iff_witness :
  ∃ valid, lonejson__map_layout_is_valid (λ _, 24) node_maps 3 (Some 0%nat) = Done valid
    ∧ (valid = true ↔ ∀ q, rtc (edge node_maps) 0%nat q → map_fits (λ _, 24) node_maps q).
Proof.
  apply (layout_valid_iff (λ _, 24) node_maps) with (universe := [0%nat; 1%nat]).
  - intros [|p] f Hf; cbn in Hf; rewrite ?elem_of_cons in Hf;
      repeat destruct Hf as [->|Hf]; try (by apply not_elem_of_nil in Hf); vm_compute; discriminate.
  - intros [|p] q _ (f & Hf & Hd); cbn in Hf; rewrite ?elem_of_cons in Hf;
      repeat destruct Hf as [->|Hf]; try (by apply not_elem_of_nil in Hf); cbn in Hd; simplify_eq;
      rewrite !elem_of_cons; auto.
  - by left.
  - cbn. lia.
Defined.
