(* ===== verification/Serializer.v ===== *)
(** * Serializer: records as JSON text

    Models [src/impl/24_serializer.h], the walk over a record by its map, and the
    entry points of it in [src/impl/30_api.h].  The source has three copies of the
    compact walk: over any sink, over a fixed buffer and over a growing buffer.
    They differ in the emit functions they call and in the statuses at which they
    return; here they are one walk over a table of these ([emitters]), instantiated
    three times. *)

From stdpp Require Import base numbers list strings.
From Stdlib Require Import ZArith Lia Bool SpecFloat.
From S2P Require Import Prelude Runtime ByteBuffer Base64 F64 Number Source Spooled JsonGrammar JsonCursor Transcode SerializerIo Mapping.

(** ** Emission with streams open

    An emitter may open a path; it carries the number of open streams, and may read
    through a cursor, so that it need not return. *)

Definition emitter (U : Type) : Type :=
  U → error_ptr → Z → run (lonejson_status * U * error_ptr * Z).

Section emitter.
Context {U : Type}.

(** A function that only calls the sink. *)
Definition lift (m : callback U) : emitter U := λ u e n,
  let '(st, u, e) := m u e in Done (st, u, e, n).

Definition emit_nothing : emitter U := lift emit_ok.

(** [status = m; if (stop(status)) return status; k] *)
Definition emit_then (stop : lonejson_status → bool) (m k : emitter U) : emitter U := λ u e n,
  '(st, u, e, n) ← m u e n;
  if stop st then Done (st, u, e, n) else k u e n.

(** [return lonejson__set_error(error, code, <position of error>, message)] *)
Definition fail_in_place (code : lonejson_status) (message : string) : emitter U :=
  lift (λ u e, let '(st, e) := set_error_in_place e code message in (st, u, e)).

(** An undefined access. *)
Definition undefined : emitter U := λ _ _ _, Undefined.
End emitter.

(** ** Scalars *)

Section scalars.
Context {U : Type} (sink : lonejson_sink_fn U).

Definition lonejson__emit_f64_value (value : f64) : callback U :=
  let '(written, buf) := lonejson__format_f64_text 64 value in
  lonejson__emit sink (take (Z.to_nat written) buf).

Definition lonejson__emit_u64_value (value : Z) : callback U :=
  lonejson__emit sink (format_digits 20 value []).

Definition lonejson__emit_i64_value (value : Z) : callback U :=
  if value <? 0 then
    emit_seq status_fails (lonejson__emit_cstr sink ["-"%ch])
      (lonejson__emit_u64_value (u64 (u64 (- (value + 1)) + 1)))
  else lonejson__emit_u64_value (u64 value).
End scalars.

Definition lonejson__buffer_emit_f64_value_exact (value : f64) : callback lonejson_buffer_sink :=
  let '(written, buf) := lonejson__format_f64_text 64 value in
  lonejson__buffer_emit_exact (take (Z.to_nat written) buf).

Definition lonejson__buffer_emit_u64_value_exact (value : Z) : callback lonejson_buffer_sink :=
  lonejson__buffer_emit_exact (format_digits 20 value []).

Definition lonejson__buffer_emit_i64_value_exact (value : Z) : callback lonejson_buffer_sink :=
  if value <? 0 then
    emit_seq status_not_ok (lonejson__buffer_emit_cstr_exact ["-"%ch])
      (lonejson__buffer_emit_u64_value_exact (u64 (u64 (- (value + 1)) + 1)))
  else lonejson__buffer_emit_u64_value_exact (u64 value).

(** ** Streamed text and base64

    The loops of [lonejson__serialize_spooled_text], [..._base64] and of their source
    versions: [read] fills the buffer of 4096 bytes from a cursor, [close] is what is
    done to the cursor before returning. *)

Section streams.
Context {U : Type} (sink : lonejson_sink_fn U).
Context {C : Type} (read : C → run (lonejson_read_result * bytes * C)) (close : C → Z → Z).
Context (message : string).

(** [close; return m] *)
Definition closing (cursor : C) (m : emitter U) : emitter U := λ u e n, m u e (close cursor n).

(** [status = m; if (fails) { close; return status; } k] *)
Definition or_close (cursor : C) (m k : emitter U) : emitter U := λ u e n,
  '(st, u, e, n) ← m u e n;
  if status_fails st then Done (st, u, e, close cursor n) else k u e n.

(** The branch [if (chunk.error_code != 0)]. *)
Definition stream_error (cursor : C) (code : Z) : emitter U :=
  closing cursor (lift (λ u e,
    let '(st, e) := lonejson__set_error (set_system_errno e code) LONEJSON_STATUS_IO_ERROR 0 0 0
                      message in
    (st, u, e))).

Fixpoint text_loop (fuel : nat) (cursor : C) : emitter U := λ u e n,
  match fuel with
  | O => Out_of_fuel
  | S fuel =>
      '(chunk, buffer, cursor) ← read cursor;
      if negb (error_code chunk =? 0) then stream_error cursor (error_code chunk) u e n
      else
        or_close cursor
          (if negb (bytes_read chunk =? 0) then lift (lonejson__emit_escaped_fragment sink buffer)
           else emit_nothing)
          (if eof chunk then closing cursor (lift (lonejson__emit_cstr sink [34]))
           else text_loop fuel cursor) u e n
  end.

Definition lonejson__emit_base64_bytes (data : bytes) : callback U := λ u e,
  lonejson_base64_encode_sink (Some data) (zlen data) LONEJSON_BASE64_STANDARD (Some sink) u e.

(** [while (offset + 3u <= chunk.bytes_read)]; [k] gets what is left. *)
Fixpoint triples_loop (cursor : C) (data : bytes) (k : bytes → emitter U) : emitter U :=
  match data with
  | a :: b :: c :: rest =>
      or_close cursor (lift (lonejson__emit_base64_bytes [a; b; c])) (triples_loop cursor rest k)
  | _ => k data
  end.

(** One chunk: the carry is filled up to three bytes, full groups are emitted, the
    rest is the new carry. *)
Definition base64_chunk (cursor : C) (carry data : bytes) (k : bytes → emitter U) : emitter U :=
  let fill := if zlen carry =? 0 then 0%nat else Z.to_nat (3 - zlen carry) in
  let carry := carry ++ take fill data in
  let data := drop fill data in
  if zlen carry =? 3 then
    or_close cursor (lift (lonejson__emit_base64_bytes carry)) (triples_loop cursor data k)
  else triples_loop cursor data (λ rest, k (carry ++ rest)).

(** What follows the loop: the stream is closed already. *)
Definition base64_end (carry : bytes) : emitter U :=
  emit_then status_fails
    (if negb (zlen carry =? 0) then lift (lonejson__emit_base64_bytes carry) else emit_nothing)
    (lift (lonejson__emit_cstr sink [34])).

Fixpoint base64_loop (fuel : nat) (cursor : C) (carry : bytes) : emitter U := λ u e n,
  match fuel with
  | O => Out_of_fuel
  | S fuel =>
      '(chunk, buffer, cursor) ← read cursor;
      if negb (error_code chunk =? 0) then stream_error cursor (error_code chunk) u e n
      else
        base64_chunk cursor carry buffer
          (λ carry, if eof chunk then closing cursor (base64_end carry)
                    else base64_loop fuel cursor carry) u e n
  end.
End streams.

Section spooled.
Context {U : Type} (sink : lonejson_sink_fn U) (fuel : nat).

Definition spooled_read (cursor : lonejson_spooled) :
    run (lonejson_read_result * bytes * lonejson_spooled) :=
  Done (lonejson_spooled_read cursor 4096).
Definition spooled_close (cursor : lonejson_spooled) (n : Z) : Z := n.

(** [cursor = *value; status = lonejson_spooled_rewind(&cursor, error); ...] *)
Definition over_spooled (value : lonejson_spooled) (k : lonejson_spooled → emitter U) : emitter U :=
  emit_then status_fails (lift (lonejson__emit_cstr sink [34]))
    (λ u e n,
       match lonejson_spooled_rewind (Some value) e with
       | (LONEJSON_STATUS_OK, Some cursor, e) => k cursor u e n
       | (status, _, e) => Done (status, u, e, n)
       end).

Definition lonejson__serialize_spooled_text (value : lonejson_spooled) : emitter U :=
  over_spooled value (text_loop sink spooled_read spooled_close "failed to read spooled text" fuel).

Definition lonejson__serialize_spooled_base64 (value : lonejson_spooled) : emitter U :=
  over_spooled value (λ cursor,
    base64_loop sink spooled_read spooled_close "failed to read spooled bytes" fuel cursor []).
End spooled.

Section sources.
Context {U : Type} (sink : lonejson_sink_fn U) (fopen : bytes → c_file + Z) (fuel : nat).

Definition source_read (cursor : lonejson__source_cursor) :
    run (lonejson_read_result * bytes * lonejson__source_cursor) :=
  lonejson__source_cursor_read cursor 4096.
Definition source_close (cursor : lonejson__source_cursor) (n : Z) : Z :=
  snd (lonejson__source_cursor_close cursor n).

Definition over_source (value : lonejson_source) (k : lonejson__source_cursor → emitter U) :
    emitter U :=
  if decide (src_kind value = LONEJSON_SOURCE_NONE) then lift (lonejson__emit_cstr sink (c_str "null"))
  else λ u e n,
    '(status, cursor, e, n) ← lonejson__source_cursor_open fopen value e n;
    if decide (status ≠ LONEJSON_STATUS_OK) then Done (status, u, e, n)
    else or_close source_close cursor (lift (lonejson__emit_cstr sink [34])) (k cursor) u e n.

Definition lonejson__serialize_source_text (value : lonejson_source) : emitter U :=
  over_source value (text_loop sink source_read source_close "failed to read source text" fuel).

Definition lonejson__serialize_source_base64 (value : lonejson_source) : emitter U :=
  over_source value (λ cursor,
    base64_loop sink source_read source_close "failed to read source bytes" fuel cursor []).
End sources.

(** ** The walk over a record *)

(** What the copies of the compact walk differ in: the statuses at which they
    return, the emit functions, and the sink the streams are given. *)
Record emitters (U : Type) := mk_emitters {
  em_stop : lonejson_status → bool;
  em_cstr : bytes → callback U;
  em_string : bytes → callback U;
  em_len : bytes → callback U;
  em_i64 : Z → callback U;
  em_u64 : Z → callback U;
  em_f64 : f64 → callback U;
  em_sink : lonejson_sink_fn U
}.
Arguments em_stop {U}. Arguments em_cstr {U}. Arguments em_string {U}. Arguments em_len {U}.
Arguments em_i64 {U}. Arguments em_u64 {U}. Arguments em_f64 {U}. Arguments em_sink {U}.

(** Over any sink. *)
Definition sink_emitters {U} (sink : lonejson_sink_fn U) : emitters U :=
  mk_emitters U status_fails (lonejson__emit_cstr sink) (lonejson__emit_escaped_string sink)
    (lonejson__emit_escaped_len sink) (lonejson__emit_i64_value sink) (lonejson__emit_u64_value sink)
    (lonejson__emit_f64_value sink) sink.

(** [..._buffer_exact] *)
Definition exact_emitters : emitters lonejson_buffer_sink :=
  mk_emitters _ status_not_ok lonejson__buffer_emit_cstr_exact
    lonejson__buffer_emit_escaped_string_exact lonejson__buffer_emit_escaped_len_exact
    lonejson__buffer_emit_i64_value_exact lonejson__buffer_emit_u64_value_exact
    lonejson__buffer_emit_f64_value_exact lonejson__sink_buffer_exact.

(** [..._buffer_grow] *)
Definition grow_emitters : emitters lonejson_buffer_sink :=
  mk_emitters _ status_not_ok lonejson__buffer_emit_cstr_grow
    (lonejson__emit_escaped_string lonejson__sink_grow) (lonejson__emit_escaped_len lonejson__sink_grow)
    (lonejson__emit_i64_value lonejson__sink_grow) (lonejson__emit_u64_value lonejson__sink_grow)
    (lonejson__emit_f64_value lonejson__sink_grow) lonejson__sink_grow.

Definition lonejson__serialize_parse_only_field_error {U} (field : lonejson_field) : emitter U :=
  fail_in_place LONEJSON_STATUS_TYPE_MISMATCH "field '%s' is parse-only and cannot be serialized".

Section walk.
Context {R U : Type} `{!SharedHeap U}.
Context (maps : map_ptr → lonejson_map) (fopen : bytes → c_file + Z) (fuel : nat).

Section values.
Context (em : emitters U).
#[local] Abbreviation sequence := (emit_then (em_stop em)).
#[local] Abbreviation cstr text := (lift (em_cstr em text)).

(** [case LONEJSON_FIELD_KIND_F64], also of an array element. *)
Definition f64_value (message : string) (value : f64) : emitter U :=
  if negb (lonejson__is_finite_f64 value) then fail_in_place LONEJSON_STATUS_TYPE_MISMATCH message
  else lift (em_f64 em value).

(** [lonejson__json_transcode(ptr, sink, user, error, pretty, base_depth)] *)
Definition json_value (pretty : bool) (base_depth : Z) (value : lonejson_json_value R) : emitter U :=
  λ u e n, lonejson__json_transcode (em_sink em) fopen fuel (Some value) u e pretty base_depth n.

Definition bool_text (b : bool) : bytes := if b then c_str "true" else c_str "false".

(** The scalar cases, the same in the compact and the pretty walk; [json] emits an
    embedded value. *)
Definition scalar_value (json : lonejson_json_value R → emitter U) (field : lonejson_field)
    (c : cell R) : emitter U :=
  match kind field, c with
  | LONEJSON_FIELD_KIND_STRING, CPointer text =>
      if decide (storage field = LONEJSON_STORAGE_DYNAMIC) then
        match text with
        | None => cstr (c_str "null")
        | Some text => lift (em_string em text)
        end
      else undefined
  | LONEJSON_FIELD_KIND_STRING, CChars text =>
      if decide (storage field = LONEJSON_STORAGE_DYNAMIC) then undefined
      else lift (em_string em text)
  | LONEJSON_FIELD_KIND_STRING_STREAM, CSpooled v =>
      lonejson__serialize_spooled_text (em_sink em) fuel v
  | LONEJSON_FIELD_KIND_BASE64_STREAM, CSpooled v =>
      lonejson__serialize_spooled_base64 (em_sink em) fuel v
  | LONEJSON_FIELD_KIND_STRING_SOURCE, CSource v =>
      lonejson__serialize_source_text (em_sink em) fopen fuel v
  | LONEJSON_FIELD_KIND_BASE64_SOURCE, CSource v =>
      lonejson__serialize_source_base64 (em_sink em) fopen fuel v
  | LONEJSON_FIELD_KIND_JSON_VALUE, CJson v => json v
  | LONEJSON_FIELD_KIND_I64, CI64 v => lift (em_i64 em v)
  | LONEJSON_FIELD_KIND_U64, CU64 v => lift (em_u64 em v)
  | LONEJSON_FIELD_KIND_F64, CF64 v => f64_value "non-finite double cannot be serialized" v
  | LONEJSON_FIELD_KIND_BOOL, CBool v => cstr (bool_text v)
  | LONEJSON_FIELD_KIND_STRING_ARRAY_STREAM, _ | LONEJSON_FIELD_KIND_MAPPED_ARRAY_STREAM, _ =>
      lonejson__serialize_parse_only_field_error field
  | _, _ => undefined
  end.

(** *** Compact *)

(** [for (i = 0; i < arr->count; ++i)], up to the closing bracket. *)
Definition elements_loop {A} (emit : A → emitter U) : bool → list A → emitter U :=
  fix go first items :=
    match items with
    | [] => cstr ["]"%ch]
    | item :: items =>
        sequence (if (first : bool) then emit_nothing else cstr [","%ch])
          (sequence (emit item) (go false items))
    end.

Definition compact_array {A} (emit : A → emitter U) (items : list A) : emitter U :=
  sequence (cstr ["["%ch]) (elements_loop emit true items).

(** [for (i = 0; i < map->field_count; ++i)] of the map functions; [emitted] says
    whether the counter is not zero. *)
Definition fields_loop (value : lonejson_field → emitter U) (omit : lonejson_field → run bool) :
    bool → list lonejson_field → emitter U :=
  fix go emitted fs :=
    match fs with
    | [] => cstr ["}"%ch]
    | field :: fs => λ u e n,
        omitted ← omit field;
        if (omitted : bool) then go emitted fs u e n
        else
          sequence (if (emitted : bool) then cstr [","%ch] else emit_nothing)
            (sequence (lift (em_len em (json_key field)))
              (sequence (cstr [":"%ch])
                (sequence (value field) (go true fs)))) u e n
    end.

(** [field_cptr] and the call for the value. *)
Definition member_value (value : lonejson_field → cell R → emitter U) (src : record R)
    (field : lonejson_field) : emitter U := λ u e n,
  with_member (struct_offset field) (λ c, value field c u e n) src.

Definition array_value (field : lonejson_field) (c : cell R)
    (structs : list (list (Z * cell R)) → emitter U) : emitter U :=
  match kind field, c with
  | LONEJSON_FIELD_KIND_STRING_ARRAY, CStrings items =>
      compact_array (λ s, lift (em_string em (default [0] s))) items
  | LONEJSON_FIELD_KIND_I64_ARRAY, CI64s items => compact_array (λ v, lift (em_i64 em v)) items
  | LONEJSON_FIELD_KIND_U64_ARRAY, CU64s items => compact_array (λ v, lift (em_u64 em v)) items
  | LONEJSON_FIELD_KIND_F64_ARRAY, CF64s items =>
      compact_array (f64_value "non-finite double array element cannot be serialized") items
  | LONEJSON_FIELD_KIND_BOOL_ARRAY, CBools items => compact_array (λ v, cstr (bool_text v)) items
  | LONEJSON_FIELD_KIND_OBJECT_ARRAY, CStructs items => structs items
  | _, _ => scalar_value (json_value false 0) field c
  end.

Fixpoint serialize_value (field : lonejson_field) (c : cell R) {struct c} : emitter U :=
  let map_of members :=
    match submap field with
    | None => undefined
    | Some p =>
        sequence (cstr ["{"%ch])
          (fields_loop
             (λ f u e n, with_member (struct_offset f) (λ c, serialize_value f c u e n) members)
             (lonejson__field_should_omit maps members) false (fields (maps p)))
    end in
  match kind field, c with
  | LONEJSON_FIELD_KIND_OBJECT, CStruct members => map_of members
  | _, CStructs items => array_value field c (λ _, compact_array map_of items)
  | _, _ => array_value field c (λ _, undefined)
  end.

(** The map is not NULL. *)
Definition serialize_map (map : map_ptr) (src : record R) : emitter U :=
  sequence (cstr ["{"%ch])
    (fields_loop (member_value serialize_value src) (lonejson__field_should_omit maps src) false
       (fields (maps map))).
End values.

(** *** Indented *)

Section pretty.
Context (sink : lonejson_sink_fn U).
#[local] Abbreviation em := (sink_emitters sink).
#[local] Abbreviation sequence := (emit_then status_fails).
#[local] Abbreviation cstr text := (lift (lonejson__emit_cstr sink text)).

(** The blocks of 64 spaces and the rest. *)
Fixpoint indent_blocks (fuel : nat) (spaces : Z) : emitter U :=
  match fuel with
  | O => λ _ _ _, Out_of_fuel
  | S fuel =>
      if 64 <? spaces then
        sequence (lift (lonejson__emit sink (replicate 64 32))) (indent_blocks fuel (spaces - 64))
      else if negb (spaces =? 0) then lift (lonejson__emit sink (replicate (Z.to_nat spaces) 32))
      else emit_nothing
  end.

(** [state->pretty] and [state->depth] are arguments. *)
Definition lonejson__emit_pretty_indent (pretty : bool) (depth : Z) : emitter U :=
  if negb pretty then emit_nothing
  else if SIZE_MAX / 2 <? depth then
    lift (λ u e,
      let '(st, e) := lonejson__set_error e LONEJSON_STATUS_OVERFLOW 0 0 0
                        "JSON indentation depth is too large" in
      (st, u, e))
  else
    let spaces := depth * 2 in
    if spaces <=? 64 then lift (lonejson__emit sink (10 :: replicate (Z.to_nat spaces) 32))
    else
      sequence (lift (lonejson__emit sink (10 :: replicate 64 32)))
        (indent_blocks (S (Z.to_nat spaces)) (spaces - 64)).

Definition pretty_elements {A} (pretty : bool) (depth : Z) (emit : A → emitter U) :
    bool → list A → emitter U :=
  fix go first items :=
    match items with
    | [] => sequence (lonejson__emit_pretty_indent pretty depth) (cstr ["]"%ch])
    | item :: items =>
        sequence (if (first : bool) then emit_nothing else cstr [","%ch])
          (sequence (lonejson__emit_pretty_indent pretty (depth + 1))
            (sequence (emit item) (go false items)))
    end.

Definition pretty_array {A} (pretty : bool) (depth : Z) (emit : A → emitter U) (items : list A) :
    emitter U :=
  sequence (cstr ["["%ch])
    (match items with
     | [] => cstr ["]"%ch]
     | _ => pretty_elements pretty depth emit true items
     end).

(** [value] is called with the depth already increased. *)
Definition pretty_fields (pretty : bool) (depth : Z) (value : lonejson_field → emitter U)
    (omit : lonejson_field → run bool) : bool → list lonejson_field → emitter U :=
  fix go emitted fs :=
    match fs with
    | [] =>
        sequence (if (pretty && emitted)%bool then lonejson__emit_pretty_indent pretty depth else emit_nothing)
          (cstr ["}"%ch])
    | field :: fs => λ u e n,
        omitted ← omit field;
        if (omitted : bool) then go emitted fs u e n
        else
          sequence (if (emitted : bool) then cstr [","%ch] else emit_nothing)
            (sequence (if pretty then lonejson__emit_pretty_indent pretty (depth + 1) else emit_nothing)
              (sequence (lift (lonejson__emit_escaped_len sink (json_key field)))
                (sequence (cstr (if pretty then [":"%ch; 32] else [":"%ch]))
                  (sequence (value field) (go true fs))))) u e n
    end.

Definition pretty_array_value (pretty : bool) (depth : Z) (field : lonejson_field) (c : cell R)
    (structs : list (list (Z * cell R)) → emitter U) : emitter U :=
  match kind field, c with
  | LONEJSON_FIELD_KIND_STRING_ARRAY, CStrings items =>
      pretty_array pretty depth (λ s, lift (lonejson__emit_escaped_string sink (default [0] s))) items
  | LONEJSON_FIELD_KIND_I64_ARRAY, CI64s items =>
      pretty_array pretty depth (λ v, lift (lonejson__emit_i64_value sink v)) items
  | LONEJSON_FIELD_KIND_U64_ARRAY, CU64s items =>
      pretty_array pretty depth (λ v, lift (lonejson__emit_u64_value sink v)) items
  | LONEJSON_FIELD_KIND_F64_ARRAY, CF64s items =>
      pretty_array pretty depth
        (f64_value em "non-finite double array element cannot be serialized") items
  | LONEJSON_FIELD_KIND_BOOL_ARRAY, CBools items =>
      pretty_array pretty depth (λ v, cstr (bool_text v)) items
  | LONEJSON_FIELD_KIND_OBJECT_ARRAY, CStructs items => structs items
  | _, _ => scalar_value em (json_value em true (u64 (depth + 1))) field c
  end.

Fixpoint lonejson__serialize_value_pretty (pretty : bool) (depth : Z) (field : lonejson_field)
    (c : cell R) {struct c} : emitter U :=
  let map_of depth members :=
    match submap field with
    | None => undefined
    | Some p =>
        sequence (cstr ["{"%ch])
          (pretty_fields pretty depth
             (λ f u e n, with_member (struct_offset f)
                (λ c, lonejson__serialize_value_pretty pretty (depth + 1) f c u e n) members)
             (lonejson__field_should_omit maps members) false (fields (maps p)))
    end in
  match kind field, c with
  | LONEJSON_FIELD_KIND_OBJECT, CStruct members => map_of depth members
  | _, CStructs items =>
      pretty_array_value pretty depth field c
        (λ _, pretty_array pretty depth (map_of (depth + 1)) items)
  | _, _ => pretty_array_value pretty depth field c (λ _, undefined)
  end.

Definition lonejson__serialize_map_pretty (pretty : bool) (depth : Z) (map : map_ptr)
    (src : record R) : emitter U :=
  sequence (cstr ["{"%ch])
    (pretty_fields pretty depth (member_value (lonejson__serialize_value_pretty pretty (depth + 1)) src)
       (lonejson__field_should_omit maps src) false (fields (maps map))).
End pretty.
End walk.

(** ** Entry points *)

(** [wo_valid_allocator] is the test of the configured allocator: all callbacks or
    none; [wo_allocator] is the one it resolves to. *)
Record lonejson__write_options := mk_write_options {
  wo_overflow_policy : lonejson_overflow_policy;
  wo_pretty : bool;
  wo_valid_allocator : bool;
  wo_allocator : lonejson_allocator;
  wo_max_output_bytes : Z
}.

Definition LONEJSON_WRITE_MAX_OUTPUT_BYTES : Z := 8 * 1024 * 1024.

(** [default_allocator] is the process-wide one. *)
Definition lonejson__default_write_options (default_allocator : lonejson_allocator) :
    lonejson__write_options :=
  mk_write_options LONEJSON_OVERFLOW_FAIL false true default_allocator LONEJSON_WRITE_MAX_OUTPUT_BYTES.

Definition lonejson__write_max_output_bytes (options : lonejson__write_options) : Z :=
  if negb (wo_max_output_bytes options =? 0) then wo_max_output_bytes options
  else LONEJSON_WRITE_MAX_OUTPUT_BYTES.

(** [ob_data] is [None] for NULL, and the bytes up to and with the terminator
    otherwise. *)
Record lonejson_owned_buffer := mk_owned_buffer {
  ob_data : option bytes;
  ob_len : Z;
  ob_alloc_size : Z;
  ob_allocator : lonejson_allocator
}.

Definition lonejson_owned_buffer_init (allocator : lonejson_allocator) : lonejson_owned_buffer :=
  mk_owned_buffer None 0 0 allocator.

(** The handle goes back to the default allocator; what stays in [ob_allocator] is the
    account of the allocator the block is returned to. *)
Definition lonejson_owned_buffer_free (buffer : lonejson_owned_buffer) : lonejson_owned_buffer :=
  lonejson_owned_buffer_init
    (lonejson__buffer_free (ob_allocator buffer) (bool_decide (ob_data buffer = None))
       (ob_alloc_size buffer)).

Section api.
Context {R : Type}.
Context (sizeof : lonejson_field_kind → Z) (maps : map_ptr → lonejson_map).
Context (fopen : bytes → c_file + Z) (fuel : nat).

(** [return lonejson__set_error(error, code, 0u, 0u, 0u, message)] *)
Definition argument_error {U} (message : string) : emitter U :=
  lift (λ u e,
    let '(st, e) := lonejson__set_error e LONEJSON_STATUS_INVALID_ARGUMENT 0 0 0 message in (st, u, e)).

(** The checks of the map and the source, and [lonejson__clear_error(error)]. *)
Definition checked_source {U} (map : option map_ptr) (src : option (record R))
    (k : map_ptr → record R → emitter U) : emitter U :=
  match map, src with
  | Some map, Some src => λ u e n,
      valid ← lonejson__map_layout_is_valid sizeof maps fuel (Some map);
      if negb valid then argument_error "invalid map layout" u e n
      else k map src u (lonejson__clear_error e) n
  | _, _ => argument_error "map, source, and sink are required"
  end.

(** The copies of the walk. *)
Definition lonejson__serialize_value_compact {U} `{!SharedHeap U} (sink : lonejson_sink_fn U)
    (field : lonejson_field) (c : cell R) : emitter U :=
  serialize_value maps fopen fuel (sink_emitters sink) field c.
Definition lonejson__serialize_value_compact_buffer_exact (field : lonejson_field) (c : cell R) :
    emitter lonejson_buffer_sink :=
  serialize_value maps fopen fuel exact_emitters field c.
Definition lonejson__serialize_value_compact_buffer_grow (field : lonejson_field) (c : cell R) :
    emitter lonejson_buffer_sink :=
  serialize_value maps fopen fuel grow_emitters field c.

Definition lonejson__serialize_map_compact {U} `{!SharedHeap U} (sink : lonejson_sink_fn U)
    (map : map_ptr) (src : record R) : emitter U :=
  serialize_map maps fopen fuel (sink_emitters sink) map src.
Definition lonejson__serialize_map_compact_buffer_exact (map : map_ptr) (src : record R) :
    emitter lonejson_buffer_sink :=
  serialize_map maps fopen fuel exact_emitters map src.
Definition lonejson__serialize_map_compact_buffer_grow (map : map_ptr) (src : record R) :
    emitter lonejson_buffer_sink :=
  serialize_map maps fopen fuel grow_emitters map src.

(** The sink is not NULL. *)
Definition lonejson__serialize_sink_with_options {U} `{!SharedHeap U} (map : option map_ptr)
    (src : option (record R)) (sink : lonejson_sink_fn U) (pretty : bool) : emitter U :=
  checked_source map src (λ map src,
    if pretty then lonejson__serialize_map_pretty maps fopen fuel sink true 0 map src
    else lonejson__serialize_map_compact sink map src).

(** The sink over the caller's buffer, and over nothing yet. *)
Definition fixed_sink (capacity : Z) (options : lonejson__write_options) : lonejson_buffer_sink :=
  mk_buffer_sink false [] capacity 0 0 0 (wo_overflow_policy options) false (wo_allocator options).
Definition growing_sink (options : lonejson__write_options) : lonejson_buffer_sink :=
  mk_buffer_sink true [] 0 0 0 (lonejson__write_max_output_bytes options) LONEJSON_OVERFLOW_FAIL false
    (wo_allocator options).

(** [sink.buffer[...] = '\\0'] and what follows: the status, and what is written: the
    buffer up to its terminator, and [needed]. *)
Definition buffer_result (policy : lonejson_overflow_policy)
    (r : lonejson_status * lonejson_buffer_sink * error_ptr * Z) :
    lonejson_status * option (bytes * Z) * error_ptr * Z :=
  let '(status, sink, e, n) := r in
  let text :=
    if bs_length sink <? bs_capacity sink then bs_written sink
    else take (Z.to_nat (bs_capacity sink - 1)) (bs_written sink) in
  let status :=
    if decide (status = LONEJSON_STATUS_OK ∧ bs_truncated sink = true
               ∧ policy = LONEJSON_OVERFLOW_TRUNCATE) then LONEJSON_STATUS_TRUNCATED
    else status in
  (status, Some (text ++ [0], bs_needed sink), e, n).

(** [capacity] is that of the caller's buffer, which is not NULL. *)
Definition lonejson__serialize_buffer_with_options (map : option map_ptr) (src : option (record R))
    (capacity : Z) (options : lonejson__write_options) (e : error_ptr) (n : Z) :
    run (lonejson_status * option (bytes * Z) * error_ptr * Z) :=
  if capacity =? 0 then
    let '(st, e) := lonejson__set_error e LONEJSON_STATUS_INVALID_ARGUMENT 0 0 0
                      "output buffer and capacity are required" in
    Done (st, None, e, n)
  else
    let policy := wo_overflow_policy options in
    let fail := bool_decide (policy = LONEJSON_OVERFLOW_FAIL) in
    r ← (if fail && negb (wo_pretty options) then
           checked_source map src lonejson__serialize_map_compact_buffer_exact
         else
           lonejson__serialize_sink_with_options map src
             (if fail then lonejson__sink_buffer_exact else lonejson__sink_buffer)
             (wo_pretty options)) (fixed_sink capacity options) e n;
    Done (buffer_result policy r).

(** What follows the walk of the owned variants. *)
Definition owned_result (r : lonejson_status * lonejson_buffer_sink * error_ptr * Z) :
    lonejson_status * lonejson_owned_buffer * error_ptr * Z :=
  let '(status, sink, e, n) := r in
  if status_fails status then
    (status, lonejson_owned_buffer_init
               (lonejson__buffer_free (bs_allocator sink) (bs_null sink) (bs_alloc_size sink)), e, n)
  else
    (status, mk_owned_buffer (if bs_null sink then None else Some (bs_written sink ++ [0]))
               (bs_length sink) (bs_alloc_size sink) (bs_allocator sink), e, n).

(** [out] is not NULL; the account in it is that of the configured allocator from the
    start. *)
Definition lonejson__serialize_owned_with_options (map : option map_ptr) (src : option (record R))
    (options : lonejson__write_options) (e : error_ptr) (n : Z) :
    run (lonejson_status * lonejson_owned_buffer * error_ptr * Z) :=
  if negb (wo_valid_allocator options) then
    let '(st, e) := lonejson__set_error e LONEJSON_STATUS_INVALID_ARGUMENT 0 0 0
                      "allocator must provide either all callbacks or none" in
    Done (st, lonejson_owned_buffer_init (wo_allocator options), e, n)
  else
    r ← (if negb (wo_pretty options) then
           checked_source map src lonejson__serialize_map_compact_buffer_grow
         else
           lonejson__serialize_sink_with_options map src lonejson__sink_grow true)
          (growing_sink options) e n;
    Done (owned_result r).

(** *** Lines *)

(** [records] are the structs at [base + i * stride]; [emit] writes one, [newline] the
    newline. *)
Definition records_loop {U} (stop : lonejson_status → bool) (emit : record R → emitter U)
    (newline : emitter U) : list (record R) → emitter U :=
  fix go records :=
    match records with
    | [] => emit_nothing
    | src :: records => emit_then stop (emit src) (emit_then stop newline (go records))
    end.

Definition lonejson__serialize_jsonl_records {U} `{!SharedHeap U} (sink : lonejson_sink_fn U)
    (pretty : bool) (map : map_ptr) (records : list (record R)) : emitter U :=
  records_loop status_fails (lonejson__serialize_map_pretty maps fopen fuel sink pretty 0 map)
    (lift (λ u e, sink u [10] e)) records.

Definition lonejson__serialize_jsonl_records_compact {U} `{!SharedHeap U} (sink : lonejson_sink_fn U)
    (map : map_ptr) (records : list (record R)) : emitter U :=
  records_loop status_fails (lonejson__serialize_map_compact sink map)
    (lift (λ u e, sink u [10] e)) records.

(** The checks before the loop; [items] is [None] for NULL. *)
Definition checked_lines {U} (validate : bool) (map : option map_ptr)
    (items : option (list (record R))) (count stride : Z)
    (k : map_ptr → list (record R) → emitter U) : emitter U :=
  match map with
  | None => argument_error "map and sink are required"
  | Some map =>
      if negb (count =? 0) && bool_decide (items = None) then
        argument_error "items are required when count is non-zero"
      else if negb (stride =? 0) && (stride <? struct_size (maps map)) then
        argument_error "stride must be at least map->struct_size"
      else λ u e n,
        valid ← (if validate then lonejson__map_layout_is_valid sizeof maps fuel (Some map) else Done true);
        if negb valid then argument_error "invalid map layout" u e n
        else k map (take (Z.to_nat count) (default [] items)) u (lonejson__clear_error e) n
  end.

(** No check of the layout here. *)
Definition lonejson__serialize_jsonl_sink_with_options {U} `{!SharedHeap U} (map : option map_ptr)
    (items : option (list (record R))) (count stride : Z) (sink : lonejson_sink_fn U) (pretty : bool) :
    emitter U :=
  checked_lines false map items count stride (λ map records,
    if pretty then lonejson__serialize_jsonl_records sink true map records
    else lonejson__serialize_jsonl_records_compact sink map records).

Definition lonejson__serialize_jsonl_buffer_with_options (map : option map_ptr)
    (items : option (list (record R))) (count stride capacity : Z) (options : lonejson__write_options)
    (e : error_ptr) (n : Z) : run (lonejson_status * option (bytes * Z) * error_ptr * Z) :=
  if capacity =? 0 then
    let '(st, e) := lonejson__set_error e LONEJSON_STATUS_INVALID_ARGUMENT 0 0 0
                      "output buffer and capacity are required" in
    Done (st, None, e, n)
  else
    let policy := wo_overflow_policy options in
    let fail := bool_decide (policy = LONEJSON_OVERFLOW_FAIL) in
    r ← (if fail && negb (wo_pretty options) then
           checked_lines true map items count stride (λ map,
             records_loop status_not_ok (lonejson__serialize_map_compact_buffer_exact map)
               (lift (lonejson__buffer_emit_exact [10])))
         else
           lonejson__serialize_jsonl_sink_with_options map items count stride
             (if fail then lonejson__sink_buffer_exact else lonejson__sink_buffer)
             (wo_pretty options)) (fixed_sink capacity options) e n;
    Done (buffer_result policy r).

Definition lonejson__serialize_jsonl_owned_with_options (map : option map_ptr)
    (items : option (list (record R))) (count stride : Z) (options : lonejson__write_options)
    (e : error_ptr) (n : Z) : run (lonejson_status * lonejson_owned_buffer * error_ptr * Z) :=
  if negb (wo_valid_allocator options) then
    let '(st, e) := lonejson__set_error e LONEJSON_STATUS_INVALID_ARGUMENT 0 0 0
                      "allocator must provide either all callbacks or none" in
    Done (st, lonejson_owned_buffer_init (wo_allocator options), e, n)
  else
    r ← (if negb (wo_pretty options) then
           checked_lines true map items count stride (λ map,
             records_loop status_not_ok (lonejson__serialize_map_compact_buffer_grow map)
               (lift (lonejson__buffer_emit_grow [10])))
         else
           lonejson__serialize_jsonl_sink_with_options map items count stride lonejson__sink_grow true)
          (growing_sink options) e n;
    Done (owned_result r).

(** *** Streams and paths *)

Definition lonejson__serialize_filep_with_options (map : option map_ptr) (src : option (record R))
    (fp : option out_file) (pretty : bool) (e : error_ptr) (n : Z) :
    run (lonejson_status * option out_file * error_ptr * Z) :=
  match fp with
  | None =>
      let '(st, e) := lonejson__set_error e LONEJSON_STATUS_INVALID_ARGUMENT 0 0 0
                        "file pointer is required" in
      Done (st, None, e, n)
  | Some fp =>
      '(st, fp, e, n) ← lonejson__serialize_sink_with_options map src lonejson__sink_file pretty fp e n;
      Done (st, Some fp, e, n)
  end.

(** [create] is [fopen(path, "wb")]: the stream, or its [errno].  The result of
    [fclose] is not looked at. *)
Definition lonejson__serialize_path_with_options (create : bytes → out_file + Z)
    (map : option map_ptr) (src : option (record R)) (path : option bytes) (pretty : bool)
    (e : error_ptr) (n : Z) : run (lonejson_status * option out_file * error_ptr * Z) :=
  match path with
  | None =>
      let '(st, e) := lonejson__set_error e LONEJSON_STATUS_INVALID_ARGUMENT 0 0 0 "path is required" in
      Done (st, None, e, n)
  | Some path =>
      match create path with
      | inr errno =>
          let '(st, e) := lonejson__set_error (set_system_errno e errno) LONEJSON_STATUS_IO_ERROR 0 0 0
                            "failed to open '%s' for writing" in
          Done (st, None, e, n)
      | inl fp =>
          '(st, fp, e, n) ← lonejson__serialize_filep_with_options map src (Some fp) pretty e (n + 1);
          Done (st, fp, e, n - 1)
      end
  end.
End api.

(** [lonejson_owned_buffer_sink]: a sink that grows an owned buffer. *)
Fixpoint double_cap (fuel : nat) (next_cap required : Z) : Z :=
  match fuel with
  | O => next_cap
  | S fuel =>
      if next_cap <? required then
        let doubled := u64 (next_cap * 2) in
        if doubled <=? next_cap then required else double_cap fuel doubled required
      else next_cap
  end.

Definition ob_append (data : bytes) (b : lonejson_owned_buffer) : lonejson_owned_buffer :=
  mk_owned_buffer (Some (take (Z.to_nat (ob_len b)) (default [] (ob_data b)) ++ data ++ [0]))
    (ob_len b + zlen data) (ob_alloc_size b) (ob_allocator b).

Definition lonejson_owned_buffer_sink : lonejson_sink_fn lonejson_owned_buffer := λ buffer data e,
  let fail code message := let '(st, e) := lonejson__set_error e code 0 0 0 message in (st, buffer, e) in
  if zlen data =? 0 then (LONEJSON_STATUS_OK, buffer, e)
  else
    let required := u64 (ob_len buffer + zlen data + 1) in
    if required <=? ob_len buffer then
      fail LONEJSON_STATUS_OVERFLOW "owned buffer sink size overflow"%string
    else if ob_alloc_size buffer <? required then
      let next_cap := double_cap 64 (if negb (ob_alloc_size buffer =? 0) then ob_alloc_size buffer else 64)
                        required in
      let '(next, a) := lonejson__buffer_realloc (ob_allocator buffer)
                          (bool_decide (ob_data buffer = None)) (ob_alloc_size buffer) next_cap in
      if negb next then
        let '(st, e) := lonejson__set_error e LONEJSON_STATUS_ALLOCATION_FAILED 0 0 0
                          "failed to grow owned buffer sink" in
        (st, mk_owned_buffer (ob_data buffer) (ob_len buffer) (ob_alloc_size buffer) a, e)
      else
        (LONEJSON_STATUS_OK,
         ob_append data (mk_owned_buffer (ob_data buffer) (ob_len buffer) next_cap a), e)
    else (LONEJSON_STATUS_OK, ob_append data buffer, e).
