(* ===== verification/SerializerLogic.v ===== *)
(** * SerializerLogic: what an emitter writes, whatever consumes it

    The serializers of [src/impl/24_serializer.h] write to a sink that may accept,
    truncate or refuse what it is given.  A consumer is described by an invariant
    of what it was given so far and by the states in which it passes or refuses
    ([Consumer]); [writes m t] says that an emitter gives it the text [t], or is
    rejected when there is none.  The rules follow the way emitters are composed;
    the scalars, the escaped strings and the streamed text and base64 are
    proved here for every consumer. *)

From stdpp Require Import base numbers list strings.
From Stdlib Require Import ZArith Lia Bool SpecFloat.
From S2P Require Import Prelude Runtime Source Base64 Number F64 F64Props JsonGrammar Writer WriterSpec WriterNumber SerializerIo Serializer.

(** ** Consumers *)

(** An error object in which nothing is recorded, as after
    [lonejson__clear_error]; NULL is one. *)
Definition calm (e : error_ptr) : Prop := lonejson__clear_error e = e.

(** [Inv u out]: the consumer was given [out].  [Passes st p]: it accepts with the
    status [st] when the output becomes [p].  [Refused st u p]: it refused, at the
    latest after [p]. *)
Class Consumer {U : Type} (Inv : U → bytes → Prop) (Passes : lonejson_status → bytes → Prop)
    (Refused : lonejson_status → U → bytes → Prop) := {
  passes_ok : ∀ p, Passes LONEJSON_STATUS_OK p;
  passes_on : ∀ st p, Passes st p → status_fails st = false;
  passes_more : ∀ st p d, Passes st p → Passes st (p ++ d);
  refused_fails : ∀ st u p, Refused st u p → status_fails st = true;
  refused_more : ∀ st u p d, Refused st u p → Refused st u (p ++ d)
}.

(** A test after which an emitter returns: it stops at every failure, and not at
    a status the consumer passes with. *)
Class StopTest (Passes : lonejson_status → bytes → Prop) (stop : lonejson_status → bool) := {
  stop_fails : ∀ st, status_fails st = true → stop st = true;
  stop_passes : ∀ st p, Passes st p → stop st = false
}.

(** What serializing answers when a value has no JSON text. *)
Definition unserializable (st : lonejson_status) : Prop :=
  st = LONEJSON_STATUS_TYPE_MISMATCH ∨ st = LONEJSON_STATUS_INVALID_JSON ∨ st = LONEJSON_STATUS_IO_ERROR.

Lemma unserializable_fails st : unserializable st → status_fails st = true.
Proof. by intros [->|[->| ->]]. Qed.

(** Two texts in a row, if both exist. *)
Definition both (t1 t2 : option bytes) : option bytes :=
  d1 ← t1; d2 ← t2; Some (d1 ++ d2).

Lemma both_some d1 d2 : both (Some d1) (Some d2) = Some (d1 ++ d2).
Proof. done. Qed.
Lemma both_assoc t1 t2 t3 : both (both t1 t2) t3 = both t1 (both t2 t3).
Proof. destruct t1, t2, t3; try done. cbn. by rewrite app_assoc. Qed.
Lemma both_none t : both t None = None.
Proof. by destruct t. Qed.

Lemma zlen_cons_nonzero {A} (x : A) l : (zlen (x :: l) =? 0) = false.
Proof. rewrite zlen_cons. pose proof (zlen_nonneg l). lia. Qed.

(** The decimal text of an integer. *)
Definition decimal_text (v : Z) : bytes :=
  if v <? 0 then "-"%ch :: format_digits 20 (- v) [] else format_digits 20 v [].

Section logic.
#[local] Set Default Proof Using "Type*".
Context {U : Type} (Inv : U → bytes → Prop) (Passes : lonejson_status → bytes → Prop)
  (Refused : lonejson_status → U → bytes → Prop) `{!Consumer Inv Passes Refused}.

Definition accepted (d out : bytes) (st : lonejson_status) (u : U) (e e' : error_ptr) : Prop :=
  (Passes st (out ++ d) ∧ e' = e ∧ Inv u (out ++ d)) ∨ Refused st u (out ++ d).

Definition outcome (t : option bytes) (out : bytes) (st : lonejson_status) (u : U)
    (e e' : error_ptr) : Prop :=
  match t with
  | Some d => accepted d out st u e e'
  | None => ∃ p, unserializable st ∧ Inv u (out ++ p) ∨ Refused st u (out ++ p)
  end.

(** A function of the sink gives it [d]. *)
Definition delivers (m : callback U) (d : bytes) : Prop := ∀ u e out,
  Inv u out → calm e →
  let '(st, u', e') := m u e in accepted d out st u' e e'.

(** An emitter gives [t] and turns [n] open streams into [f n]. *)
Definition leads (m : emitter U) (f : Z → Z) (t : option bytes) : Prop := ∀ u e n out,
  Inv u out → calm e →
  ∃ st u' e', m u e n = Done (st, u', e', f n) ∧ outcome t out st u' e e'.

Definition writes (m : emitter U) (t : option bytes) : Prop := leads m id t.

#[export] Instance status_fails_stop : StopTest Passes status_fails.
Proof. split; [done|]. apply passes_on. Qed.

(** *** Composition *)

Lemma accepted_mono d1 d2 out st u e e' :
  Refused st u (out ++ d1) → accepted (d1 ++ d2) out st u e e'.
Proof. intros H. right. rewrite app_assoc. by apply refused_more. Qed.

Lemma outcome_failed d t out st u e e' :
  Refused st u (out ++ d) → outcome (both (Some d) t) out st u e e'.
Proof. intros H. destruct t as [d2|]; [by apply accepted_mono|]. eexists. by right. Qed.

Lemma outcome_next d t out st u e e' :
  outcome t (out ++ d) st u e e' → outcome (both (Some d) t) out st u e e'.
Proof.
  destruct t as [d2|]; [unfold outcome, accepted; cbn; by rewrite <- app_assoc|].
  intros [p H]. exists (d ++ p). by rewrite app_assoc.
Qed.

Lemma outcome_stops t out st u e e' :
  outcome t out st u e e' →
  (status_fails st = true ∧ ∀ t2, outcome (both t t2) out st u e e')
  ∨ (∃ d, t = Some d ∧ Passes st (out ++ d) ∧ e' = e ∧ Inv u (out ++ d)).
Proof.
  destruct t as [d|]; [intros [H|H]|intros [p H]].
  - right. by exists d.
  - left. split; [by eapply refused_fails|]. intros t2. by apply outcome_failed.
  - left. split; [|intros t2; by exists p].
    destruct H as [[Hu _]|H]; [by apply unserializable_fails|by eapply refused_fails].
Qed.

Lemma delivers_seq (stop : lonejson_status → bool) m k d1 d2 :
  StopTest Passes stop → delivers m d1 → delivers k d2 → delivers (emit_seq stop m k) (d1 ++ d2).
Proof.
  intros Hs Hm Hk u e out Hi Hc. specialize (Hm u e out Hi Hc). unfold emit_seq.
  destruct (m u e) as [[st u1] e1]. destruct Hm as [(Hp & -> & Hi1)|Hr].
  - rewrite (stop_passes st _ Hp). specialize (Hk u1 e _ Hi1 Hc). destruct (k u1 e) as [[st2 u2] e2].
    unfold accepted in *. by rewrite <- app_assoc in Hk.
  - rewrite (stop_fails st) by by eapply refused_fails. by apply accepted_mono.
Qed.

Lemma delivers_ok : delivers emit_ok [].
Proof. intros u e out Hi _. left. rewrite app_nil_r. split_and!; [apply passes_ok|done..]. Qed.

Lemma writes_lift m d : delivers m d → writes (lift m) (Some d).
Proof.
  intros Hm u e n out Hi Hc. specialize (Hm u e out Hi Hc). unfold lift.
  destruct (m u e) as [[st u1] e1]. by eexists _, _, _.
Qed.

Lemma writes_ext m k t : (∀ u e n, m u e n = k u e n) → writes k t → writes m t.
Proof. intros H Hk u e n out Hi Hc. rewrite H. by apply Hk. Qed.

Lemma writes_nothing : writes emit_nothing (Some []).
Proof. apply writes_lift, delivers_ok. Qed.

(** The second part only matters when the first can be written. *)
Lemma writes_then_some (stop : lonejson_status → bool) m k t1 t2 :
  StopTest Passes stop → writes m t1 → (is_Some t1 → writes k t2) →
  writes (emit_then stop m k) (both t1 t2).
Proof.
  intros Hs Hm Hk u e n out Hi Hc. destruct (Hm u e n out Hi Hc) as (st & u1 & e1 & H & Ho).
  unfold emit_then. rewrite H, run_bind_done. cbn [id].
  destruct (outcome_stops _ _ _ _ _ _ Ho) as [[Hf Hno]|(d & -> & Hp & -> & Hi1)].
  - rewrite (stop_fails st) by done. by eexists _, _, _.
  - rewrite (stop_passes st _ Hp).
    destruct (Hk ltac:(by eexists) u1 e n _ Hi1 Hc) as (st2 & u2 & e2 & -> & Ho2).
    eexists _, _, _. split; [done|]. by apply outcome_next.
Qed.

Lemma writes_then (stop : lonejson_status → bool) m k t1 t2 :
  StopTest Passes stop → writes m t1 → writes k t2 → writes (emit_then stop m k) (both t1 t2).
Proof. intros. by apply writes_then_some. Qed.

Lemma writes_fail code message : unserializable code → writes (fail_in_place code message) None.
Proof.
  intros Hu u e n out Hi _. unfold fail_in_place, lift, set_error_in_place.
  destruct e; cbn; (eexists _, _, _; split; [reflexivity|]; exists []; left; by rewrite app_nil_r).
Qed.

Lemma leads_or_close {C} (close : C → Z → Z) c m k f t1 t2 :
  (∀ n, close c n = f n) → writes m t1 → leads k f t2 → leads (or_close close c m k) f (both t1 t2).
Proof.
  intros Hf Hm Hk u e n out Hi Hc. destruct (Hm u e n out Hi Hc) as (st & u1 & e1 & H & Ho).
  unfold or_close. rewrite H, run_bind_done. cbn [id].
  destruct (outcome_stops _ _ _ _ _ _ Ho) as [[Hst Hno]|(d & -> & Hp & -> & Hi1)].
  - rewrite Hst, Hf. by eexists _, _, _.
  - rewrite (stop_passes (stop := status_fails) st _ Hp).
    destruct (Hk u1 e n _ Hi1 Hc) as (st2 & u2 & e2 & -> & Ho2).
    eexists _, _, _. split; [done|]. by apply outcome_next.
Qed.

Lemma leads_closing {C} (close : C → Z → Z) c m f t :
  (∀ n, close c n = f n) → writes m t → leads (closing close c m) f t.
Proof. intros Hf Hm u e n out Hi Hc. unfold closing. rewrite Hf. by apply Hm. Qed.

Lemma leads_if (b : bool) m k f t : leads m f t → leads k f t → leads (if b then m else k) f t.
Proof. by destruct b. Qed.

(** *** Escaped strings *)

Lemma escape_sequence_item b :
  is_byte b → item_bytes (escape b) = if needs_no_escape b then [b] else escape_sequence b.
Proof.
  intros Hb. unfold escape, needs_no_escape. destruct (_ && _ && _) eqn:E; [done|].
  unfold escape_sequence. repeat match goal with |- context [if b =? ?n then _ else _] =>
    destruct (b =? n) eqn:?; [by cbn|] end.
  replace (b <? 32) with true by lia. done.
Qed.

Lemma escape_loop_delivers emit (stop : lonejson_status → bool) run text :
  StopTest Passes stop → (∀ d, delivers (emit d) d) → is_bytes text →
  delivers (escape_loop emit stop run text) (run ++ items_bytes (escaped text)).
Proof.
  intros Hs He Ht. revert run. induction Ht as [|b text Hb Ht IH]; intros run; cbn [escape_loop].
  - change (items_bytes (escaped [])) with (@nil Z). destruct run as [|r run]; [apply delivers_ok|].
    rewrite zlen_cons_nonzero.
    apply delivers_seq; [done|apply He|apply delivers_ok].
  - assert (items_bytes (escaped (b :: text)) = item_bytes (escape b) ++ items_bytes (escaped text)) as ->
      by done.
    rewrite escape_sequence_item by done. destruct (needs_no_escape b).
    + rewrite app_assoc. apply IH.
    + assert (∀ d, delivers (if negb (zlen d =? 0) then emit d else emit_ok) d) as Hd.
      { intros [|x d]; [apply delivers_ok|]. rewrite zlen_cons_nonzero. apply He. }
      apply delivers_seq; [done|apply Hd|]. apply delivers_seq; [done|apply Hd|apply (IH [])].
Qed.

Lemma plain_escaped text :
  is_bytes text → forallb needs_no_escape text = true → items_bytes (escaped text) = text.
Proof.
  induction 1 as [|b text Hb _ IH]; [done|]. cbn [forallb]. intros [H1 H2]%andb_prop.
  change (item_bytes (escape b) ++ items_bytes (escaped text) = b :: text).
  rewrite escape_sequence_item, H1, IH by done. done.
Qed.

(** *** Numbers *)

Lemma integer_delivers (emit : bytes → callback U) (stop : lonejson_status → bool) v :
  StopTest Passes stop → (∀ d, delivers (emit d) d) → - 2 ^ 63 ≤ v < 2 ^ 63 →
  delivers (if v <? 0 then
              emit_seq stop (emit ["-"%ch]) (emit (format_digits 20 (u64 (u64 (- (v + 1)) + 1)) []))
            else emit (format_digits 20 (u64 v) []))
    (decimal_text v).
Proof.
  intros Hs He Hv. unfold decimal_text. destruct (v <? 0) eqn:E.
  - rewrite i64_magnitude by lia. by apply (delivers_seq _ _ _ ["-"%ch]).
  - rewrite u64_small; [apply He|]. unfold is_u64. lia.
Qed.

Lemma double_delivers (emit : bytes → callback U) x :
  (∀ d, delivers (emit d) d) → valid_binary 53 1024 x = true →
  delivers (let '(written, buf) := lonejson__format_f64_text 64 x in
            emit (take (Z.to_nat written) buf)) (printf_17g x).
Proof. intros He Hx. rewrite format_f64_printf, take_zlen by done. apply He. Qed.

Section emitted.
Context (sink : lonejson_sink_fn U) (Hsink : ∀ d, delivers (λ u e, sink u d e) d).

Lemma emit_delivers d : delivers (lonejson__emit sink d) d.
Proof.
  unfold lonejson__emit. destruct d as [|b d]; [apply delivers_ok|]. rewrite zlen_cons_nonzero.
  apply Hsink.
Qed.

Lemma fragment_delivers text :
  is_bytes text → delivers (lonejson__emit_escaped_fragment sink text) (items_bytes (escaped text)).
Proof. intros H. apply (escape_loop_delivers _ _ []); [apply _|apply emit_delivers|done]. Qed.

Lemma escaped_bytes_delivers text :
  is_bytes text → delivers (lonejson__emit_escaped_bytes sink text) (quoted (escaped text)).
Proof.
  intros H. unfold lonejson__emit_escaped_bytes, quoted.
  change (34 :: items_bytes (escaped text) ++ [34]) with ([34] ++ items_bytes (escaped text) ++ [34]).
  destruct (forallb _ text) eqn:E;
    (apply delivers_seq; [apply _|apply emit_delivers|]); (apply delivers_seq; [apply _| |apply emit_delivers]).
  - rewrite plain_escaped by done. apply emit_delivers.
  - by apply fragment_delivers.
Qed.

(** *** Base64 *)

#[local] Abbreviation encode := (rfc4648_encode LONEJSON_BASE64_STANDARD).

Lemma base64_delivers d :
  is_bytes d → (0 < length d ≤ 3)%nat → delivers (lonejson__emit_base64_bytes sink d) (encode d).
Proof.
  intros Hb Hd u e out Hi Hc. unfold lonejson__emit_base64_bytes. rewrite encode_sink_ok, Hc by done.
  destruct d as [|a [|b [|c [|]]]]; cbn [length] in Hd; try lia; rewrite !Forall_cons in Hb;
    cbn [encode_sink_loop]; unfold lonejson__base64_emit_quad.
  - change (zlen [a]) with 1. rewrite base64_quad_1 by tauto. by apply Hsink.
  - change (zlen [a; b]) with 2. rewrite base64_quad_2 by tauto. by apply Hsink.
  - rewrite base64_quad_3 by tauto. cbn [rfc4648_encode]. rewrite app_nil_r.
    pose proof (Hsink (group_digits LONEJSON_BASE64_STANDARD (a * 65536 + b * 256 + c)) u e out Hi Hc) as H.
    cbn beta in H. destruct (sink u _ e) as [[st u1] e1]. case_decide as Est; [done|].
    by subst st.
Qed.
End emitted.

(** *** Streams

    A cursor delivers its text in chunks, of which only the last may be empty. *)

Definition chunk_read {C} (read : C → run (lonejson_read_result * bytes * C)) (close : C → Z → Z)
    (Reads : C → bytes → Prop) : Prop := ∀ c s, Reads c s →
  ∃ chunk buffer c' s', read c = Done (chunk, buffer, c')
    ∧ error_code chunk = 0 ∧ bytes_read chunk = zlen buffer ∧ s = buffer ++ s' ∧ Reads c' s'
    ∧ (eof chunk = true → s' = []) ∧ (eof chunk = false → buffer ≠ [])
    ∧ ∀ n, close c' n = close c n.

Section streams.
Context (sink : lonejson_sink_fn U) (Hsink : ∀ d, delivers (λ u e, sink u d e) d).
Context {C : Type} (read : C → run (lonejson_read_result * bytes * C)) (close : C → Z → Z).
Context (Reads : C → bytes → Prop) (Hread : chunk_read read close Reads) (message : string).

Lemma text_leads fuel c s f :
  Reads c s → is_bytes s → (length s < fuel)%nat → (∀ n, close c n = f n) →
  leads (text_loop sink read close message fuel c) f (Some (items_bytes (escaped s) ++ [34])).
Proof.
  revert c s. induction fuel as [|fuel IH]; intros c s Hc Hb Hf Hcl; [lia|].
  destruct (Hread c s Hc) as (chunk & buffer & c' & s' & Hr & He & Hn & -> & Hc' & Heof & Hmore & Hcl').
  intros u e n out Hi Hcalm. cbn [text_loop]. rewrite Hr, run_bind_done, He. cbn [Z.eqb negb].
  apply is_bytes_app in Hb as [Hb1 Hb2]. rewrite escaped_app, items_bytes_app, <- app_assoc, <- both_some.
  revert u e n out Hi Hcalm. apply leads_or_close; [intros; by rewrite Hcl', Hcl| |].
  - rewrite Hn. destruct buffer as [|b buffer]; [apply writes_nothing|]. rewrite zlen_cons_nonzero.
    by apply writes_lift, fragment_delivers.
  - destruct (eof chunk) eqn:E.
    + rewrite (Heof eq_refl). apply leads_closing; [intros; by rewrite Hcl', Hcl|].
      apply writes_lift, emit_delivers, Hsink.
    + apply IH; [done|done| |intros; by rewrite Hcl', Hcl].
      rewrite length_app in Hf. specialize (Hmore eq_refl). destruct buffer; [done|]. cbn in Hf. lia.
Qed.

#[local] Abbreviation encode := (rfc4648_encode LONEJSON_BASE64_STANDARD).

Lemma encode_group a b c l : encode (a :: b :: c :: l) = encode [a; b; c] ++ encode l.
Proof. cbn [rfc4648_encode]. by rewrite app_nil_r. Qed.

Lemma triples_leads c data (k : bytes → emitter U) f s :
  (∀ n, close c n = f n) → is_bytes data →
  (∀ rest, is_bytes rest → (length rest < 3)%nat →
     leads (k rest) f (Some (encode (rest ++ s) ++ [34]))) →
  leads (triples_loop sink close c data k) f (Some (encode (data ++ s) ++ [34])).
Proof.
  intros Hcl Hb Hk. induction data as [|a|a b|a b d l IH] using group_ind; cbn [triples_loop];
    try (apply Hk; [done|simpl; lia]).
  assert (is_bytes [a; b; d] ∧ is_bytes l) as [Hb1 Hb2] by by apply is_bytes_app.
  rewrite <- !app_comm_cons, encode_group, <- app_assoc, <- both_some.
  apply leads_or_close; [done| |by apply IH]. apply writes_lift, base64_delivers; [done..|simpl; lia].
Qed.

Lemma chunk_leads c carry data (k : bytes → emitter U) f s :
  (∀ n, close c n = f n) → is_bytes carry → is_bytes data → (length carry < 3)%nat →
  (∀ rest, is_bytes rest → (length rest < 3)%nat →
     leads (k rest) f (Some (encode (rest ++ s) ++ [34]))) →
  leads (base64_chunk sink close c carry data k) f (Some (encode ((carry ++ data) ++ s) ++ [34])).
Proof.
  intros Hcl Hb1 Hb2 Hlen Hk. unfold base64_chunk.
  set (fill := if zlen carry =? 0 then 0%nat else _).
  assert (is_bytes (take fill data) ∧ is_bytes (drop fill data)) as [Hb3 Hb4].
  { split; [by apply Forall_take|by apply Forall_drop]. }
  assert (is_bytes (carry ++ take fill data)) as Hb5 by (by apply is_bytes_app).
  assert ((carry ++ data) ++ s = (carry ++ take fill data) ++ drop fill data ++ s) as ->.
  { by rewrite <- (take_drop fill data) at 1; rewrite <- !app_assoc. }
  assert (length (carry ++ take fill data) = 3%nat
          ∨ (length (carry ++ take fill data) < 3)%nat
            ∧ (carry ++ take fill data = [] ∨ drop fill data = [])) as Hcases.
  { rewrite length_app, length_take. subst fill. destruct carry as [|x carry];
      [right; rewrite zlen_nil; cbn; split; [lia|by left]|].
    rewrite zlen_cons_nonzero. unfold zlen.
    replace (Z.to_nat (3 - Z.of_nat (length (x :: carry)))) with (3 - length (x :: carry))%nat by lia.
    destruct (decide (3 - length (x :: carry) ≤ length data)%nat); [left; lia|].
    right. split; [lia|]. right. apply drop_ge. lia. }
  destruct Hcases as [H3|[H3 Hnil]].
  - unfold zlen. rewrite H3. cbn [Z.of_nat Z.eqb].
    destruct (carry ++ take fill data) as [|x [|y [|z [|]]]] eqn:Eg; try discriminate.
    change ([x; y; z] ++ drop fill data ++ s) with (x :: y :: z :: drop fill data ++ s).
    rewrite encode_group, <- app_assoc, <- both_some.
    apply leads_or_close; [done| |by apply triples_leads].
    apply writes_lift, base64_delivers; [done..|simpl; lia].
  - replace (zlen (carry ++ take fill data) =? 3) with false by (unfold zlen; lia).
    destruct Hnil as [E|E]; rewrite E.
    + cbn [app]. by apply triples_leads.
    + cbn [triples_loop app]. rewrite app_nil_r. by apply Hk.
Qed.

Lemma base64_end_writes carry :
  is_bytes carry → (length carry < 3)%nat →
  writes (base64_end sink carry) (Some (encode carry ++ [34])).
Proof.
  intros Hb Hc. unfold base64_end. rewrite <- both_some. apply writes_then; [apply _| |].
  - destruct carry as [|x carry]; [apply writes_nothing|]. rewrite zlen_cons_nonzero.
    apply writes_lift, base64_delivers; [done..|simpl in *; lia].
  - apply writes_lift, emit_delivers, Hsink.
Qed.

Lemma base64_leads fuel c carry s f :
  Reads c s → is_bytes carry → is_bytes s → (length carry < 3)%nat → (length s < fuel)%nat →
  (∀ n, close c n = f n) →
  leads (base64_loop sink read close message fuel c carry) f (Some (encode (carry ++ s) ++ [34])).
Proof.
  revert c carry s. induction fuel as [|fuel IH]; intros c carry s Hc Hb0 Hb Hlen Hf Hcl; [lia|].
  destruct (Hread c s Hc) as (chunk & buffer & c' & s' & Hr & He & Hn & -> & Hc' & Heof & Hmore & Hcl').
  intros u e n out Hi Hcalm. cbn [base64_loop]. rewrite Hr, run_bind_done, He. cbn [Z.eqb negb].
  apply is_bytes_app in Hb as [Hb1 Hb2]. rewrite app_assoc.
  revert u e n out Hi Hcalm. apply chunk_leads; [intros; by rewrite Hcl', Hcl|done..|].
  intros rest Hbr Hlr. destruct (eof chunk) eqn:E.
  - rewrite (Heof eq_refl), app_nil_r. apply leads_closing; [intros; by rewrite Hcl', Hcl|].
    by apply base64_end_writes.
  - apply IH; [done..| |intros; by rewrite Hcl', Hcl].
    rewrite length_app in Hf. specialize (Hmore eq_refl). destruct buffer; [done|]. cbn in Hf. lia.
Qed.
End streams.
End logic.
