(* ===== verification/SerializerStreams.v ===== *)
(** * SerializerStreams: spooled values and sources as JSON strings

    [lonejson__serialize_spooled_text], [..._base64] and their versions over a source
    ([src/impl/24_serializer.h]) write the content of the handle as one string, for
    every consumer; a source that does not open is an I/O error, and what was
    opened is closed again. *)

From stdpp Require Import base numbers list strings.
From Stdlib Require Import ZArith Lia Bool.
From S2P Require Import Prelude Runtime Source Spooled SpooledProps Base64 JsonGrammar Writer WriterSpec SerializerIo Serializer SerializerLogic.

(** A string that holds base64 text; its characters need no escapes. *)
Definition base64_items (data : bytes) : list str_item :=
  map Plain (rfc4648_encode LONEJSON_BASE64_STANDARD data).

Lemma quoted_base64 data : quoted (base64_items data) = [34] ++ rfc4648_encode LONEJSON_BASE64_STANDARD data ++ [34].
Proof.
  unfold quoted, base64_items. cbn [app]. do 2 f_equal. rewrite <- (app_nil_r (map Plain _)), items_bytes_plain.
  apply app_nil_r.
Qed.

(** ** Spooled values *)

Definition spooled_content (v : lonejson_spooled) : bytes :=
  default [] (sp_memory v) ++ from_option f_data [] (sp_spill_fp v).

(** The value is a byte queue, as [spooled_refines] shows of all that the library
    makes, and it can be read without an I/O error. *)
Definition spool_holds (v : lonejson_spooled) : Prop :=
  zlen (spooled_content v) < 2 ^ 63
  ∧ ∃ limit hard o, 0 ≤ limit ∧ spool_queue limit hard v (spooled_content v, o).

Definition spool_reads (v : lonejson_spooled) (s : bytes) : Prop :=
  ∃ limit hard c o, 0 ≤ limit ∧ spool_queue limit hard v (c, o) ∧ zlen c < 2 ^ 63
                    ∧ s = drop (Z.to_nat o) c.

Lemma spooled_chunks : chunk_read spooled_read spooled_close spool_reads.
Proof.
  intros v s (limit & hard & c & o & Hlimit & H & Hshort & ->). unfold spooled_read.
  destruct (lonejson_spooled_read v 4096) as [[chunk buffer] v'] eqn:Er.
  destruct (read_refines limit hard Hlimit v 4096 chunk buffer v' c o H Hshort ltac:(lia) Er)
    as (Hbr & q & Hq & H').
  assert (0 ≤ o ≤ zlen c) as Ho by apply H.
  apply queue_read_inv in Hq. destruct Hq as (Herr & -> & rest & Hrest & Hnil & Heof).
  eexists chunk, buffer, v', rest. split_and!; [done..| |rewrite Heof|rewrite Heof|done].
  - exists limit, hard, c, (o + zlen buffer). split_and!; [done..|]. unfold zlen.
    rewrite Z2Nat.inj_add, Nat2Z.id by (clear -Ho; lia).
    by rewrite <- drop_drop, Hrest, drop_app_length.
  - intros E%orb_prop. destruct E as [?|E]; [done|]. by apply bool_decide_eq_true in E.
  - intros E%orb_false_elim ->. destruct E as [_ E]. apply bool_decide_eq_false in E.
    by destruct (Hnil eq_refl).
Qed.

(** ** Sources *)

Definition source_opens (s : lonejson_source) : bool :=
  match src_kind s with
  | LONEJSON_SOURCE_FILE => from_option f_seekable false (src_fp s)
  | LONEJSON_SOURCE_FD => from_option f_seekable false (src_fd s)
  | _ => true
  end.

(** The bytes of a source that opens. *)
Definition source_content (fopen : bytes → c_file + Z) (s : lonejson_source) : option bytes :=
  if source_opens s then f_rest <$> source_file fopen s else None.

(** The handle is one a caller may pass, and reading it meets no I/O error. *)
Definition source_holds (fopen : bytes → c_file + Z) (s : lonejson_source) : Prop :=
  source_wf fopen s ∧ ∀ f, source_file fopen s = Some f → f_sound f ∧ is_bytes (f_rest f).

Definition source_reads (c : lonejson__source_cursor) (s : bytes) : Prop :=
  src_kind (sc_source c) ≠ LONEJSON_SOURCE_NONE
  ∧ ∃ f, cursor_file c = Some f ∧ f_sound f ∧ f_rest f = s.

Lemma source_open_content fopen s e n :
  source_holds fopen s → src_kind s ≠ LONEJSON_SOURCE_NONE →
  ∃ st c e' n', lonejson__source_cursor_open fopen s e n = Done (st, c, e', n')
    ∧ match source_content fopen s with
      | Some d => st = LONEJSON_STATUS_OK ∧ e' = e ∧ source_close c n' = n ∧ source_reads c d
      | None => st = LONEJSON_STATUS_IO_ERROR ∧ n' = n
      end.
Proof.
  intros [Hwf Hsound] Hk. destruct s as [k fp fd path]. cbn in Hk.
  unfold source_wf, lonejson__source_cursor_open, source_content, source_opens, source_file, source_error,
    source_close, source_reads, cursor_file in *. cbn [src_kind src_fp src_fd src_path] in *.
  destruct k; [done| | |].
  - destruct Hwf as (f & -> & _). cbn [from_option fmap option_fmap option_map] in *. unfold fseek_start.
    destruct (Hsound _ eq_refl) as [Hf _].
    destruct (f_seekable f); cbn [negb].
    + eexists _, _, _, _. split; [done|]. cbn. split_and!; [done..|]. eexists. by split_and!.
    + destruct e; cbn; eexists _, _, _, _; (split; [reflexivity|]); done.
  - destruct fd as [f|]; cbn [from_option fmap option_fmap option_map] in *.
    2:{ destruct e; cbn; eexists _, _, _, _; (split; [reflexivity|]); done. }
    destruct (Hsound _ eq_refl) as [Hf _]. unfold fseek_start.
    destruct (f_seekable f); cbn [negb].
    + eexists _, _, _, _. split; [done|]. cbn. split_and!; [done..|]. eexists. by split_and!.
    + destruct e; cbn; eexists _, _, _, _; (split; [reflexivity|]); done.
  - destruct (fopen path) as [f|errno]; cbn [fmap option_fmap option_map] in *.
    + destruct (Hsound _ eq_refl) as [Hf _]. eexists _, _, _, _. split; [done|]. cbn.
      split_and!; [done|done|lia|done|]. eexists. by split_and!.
    + destruct e; cbn; eexists _, _, _, _; (split; [reflexivity|]); done.
Qed.

Lemma source_chunks : chunk_read source_read source_close source_reads.
Proof.
  intros c s (Hk & f & Hf & Hs & <-). destruct c as [[k fp fd path] fp' cl ufd].
  unfold cursor_file, source_read, lonejson__source_cursor_read, source_close, source_reads, cursor_file in *.
  cbn in Hk, Hf |- *. rewrite decide_False in Hf by done. rewrite decide_False by done.
  destruct ufd; subst.
  - destruct (fd_read_sound f 4096 Hs ltac:(lia)) as (got & f' & -> & Hs' & Hr & _ & Hnil).
    eexists _, _, _, (f_rest f'). split; [done|]. cbn. rewrite decide_False by done.
    split_and!; [done..|eauto| | |done].
    + intros E. destruct got as [|b got]; [|by rewrite zlen_cons_nonzero in E].
      by rewrite (Hnil eq_refl) in Hr.
    + by intros E ->.
  - destruct (fread_sound f 4096 Hs) as (f' & -> & Hs' & Hr).
    set (got := take (Z.to_nat 4096) (f_rest f)) in *.
    pose proof Hs' as (Hs1 & Hs2 & Hs3). unfold ferror. rewrite Hs2.
    assert (f_rest f = got ++ f_rest f') as Hsplit by (rewrite Hr; symmetry; apply take_drop).
    destruct (zlen got <? 4096) eqn:El; eexists _, _, _, (f_rest f'); (split; [done|]); cbn;
      rewrite decide_False by done; (split_and!; [done..|eauto| | |done]).
    + intros _. rewrite Hr. apply drop_ge. unfold got, zlen in El. rewrite length_take in El.
      apply Z.ltb_lt in El. clear -El. lia.
    + done.
    + done.
    + intros _ Hg. by rewrite Hg in El.
Qed.

Section streams.
#[local] Set Default Proof Using "Type*".
Context {U : Type} (Inv : U → bytes → Prop) (Passes : lonejson_status → bytes → Prop)
  (Refused : lonejson_status → U → bytes → Prop) `{!Consumer Inv Passes Refused}.
Context (sink : lonejson_sink_fn U) (Hsink : ∀ d, delivers Inv Passes Refused (λ u e, sink u d e) d).
Context (fopen : bytes → c_file + Z) (fuel : nat).
#[local] Abbreviation writes := (writes Inv Passes Refused).

Lemma over_spooled_writes v k t :
  spool_holds v →
  (∀ c, spool_reads c (spooled_content v) → writes (k c) t) →
  writes (over_spooled sink v k) (both (Some [34]) t).
Proof.
  intros (Hshort & limit & hard & o & Hlimit & H) Hk. unfold over_spooled.
  apply writes_then; [done|apply _|apply writes_lift; [done|by apply emit_delivers]|].
  intros u e n out Hi Hc. unfold lonejson_spooled_rewind. cbn. pose proof Hc as Hcalm. unfold calm in Hcalm.
  destruct H as (H1 & H2 & H3 & H4 & H5 & H6 & Hspill).
  destruct (sp_spill_fp v) as [f|] eqn:Ef.
  - destruct Hspill as (Hd & Hfault & Herr & Hseek). unfold fseek_start. rewrite Hseek. cbn. rewrite Hcalm.
    apply Hk; [|done..]. eexists limit, hard, _, 0. split_and!; [done| |done|by rewrite drop_0]. cbn.
    split_and!; try done; lia.
  - rewrite Hcalm. apply Hk; [|done..]. eexists limit, hard, _, 0. split_and!; [done| |done|by rewrite drop_0]. cbn. rewrite Ef.
    split_and!; try done; lia.
Qed.

Lemma spooled_text_writes v :
  spool_holds v → is_bytes (spooled_content v) → (length (spooled_content v) < fuel)%nat →
  writes (lonejson__serialize_spooled_text sink fuel v) (Some (quoted (escaped (spooled_content v)))).
Proof.
  intros Hv Hb Hf. apply (over_spooled_writes v _ (Some _) Hv). intros c Hc.
  eapply (text_leads Inv Passes Refused sink Hsink _ _ _ spooled_chunks); done.
Qed.

Lemma spooled_base64_writes v :
  spool_holds v → is_bytes (spooled_content v) → (length (spooled_content v) < fuel)%nat →
  writes (lonejson__serialize_spooled_base64 sink fuel v) (Some (quoted (base64_items (spooled_content v)))).
Proof.
  intros Hv Hb Hf. rewrite quoted_base64. apply (over_spooled_writes v _ (Some _) Hv). intros c Hc.
  eapply (base64_leads Inv Passes Refused sink Hsink _ _ _ spooled_chunks _ _ _ []); try done.
  cbn. lia.
Qed.

(** What a source is written as: [null], a string, or nothing. *)
Definition source_text (string_of : bytes → list str_item) (s : lonejson_source) : option bytes :=
  if decide (src_kind s = LONEJSON_SOURCE_NONE) then Some (c_str "null")
  else quoted ∘ string_of <$> source_content fopen s.

Lemma over_source_writes s k string_of :
  source_holds fopen s →
  (∀ c d, source_content fopen s = Some d → source_reads c d →
     ∃ t, quoted (string_of d) = [34] ++ t ∧ leads Inv Passes Refused (k c) (source_close c) (Some t)) →
  writes (over_source sink fopen s k) (source_text string_of s).
Proof.
  intros Hs Hk. unfold over_source, source_text.
  destruct (decide (src_kind s = _)) as [E|E]; [apply writes_lift; [done|by apply emit_delivers]|].
  intros u e n out Hi Hc. destruct (source_open_content fopen s e n Hs E) as (st & c & e' & n' & -> & H).
  rewrite run_bind_done. destruct (source_content fopen s) as [d|].
  - destruct H as (-> & -> & <- & Hr). rewrite decide_False by auto.
    destruct (Hk c d eq_refl Hr) as (t & Ht & Hl). cbn [fmap option_fmap option_map compose]. rewrite Ht, <- both_some.
    assert (leads Inv Passes Refused (or_close source_close c (lift (lonejson__emit_cstr sink [34])) (k c))
              (source_close c) (both (Some [34]) (Some t))) as Hw; [|intros; by apply Hw].
    apply leads_or_close; [done|done|apply writes_lift; [done|by apply emit_delivers]|done].
  - destruct H as (-> & ->). rewrite decide_True by done. eexists _, _, _. split; [done|]. exists []. left.
    rewrite app_nil_r. split; [by do 2 right|done].
Qed.

(** The stream fits the fuel. *)
Definition source_fits (s : lonejson_source) : Prop := (source_left fopen s < fuel)%nat.

Lemma source_content_fits s d :
  source_holds fopen s → source_fits s → source_content fopen s = Some d → is_bytes d ∧ (length d < fuel)%nat.
Proof.
  unfold source_fits, source_left, source_content. intros [_ Hs] Hf. destruct (source_opens s); [|done].
  destruct (source_file fopen s) as [f|]; [|done]. cbn. intros [= <-]. split; [by apply Hs|done].
Qed.

Lemma source_text_writes s :
  source_holds fopen s → source_fits s →
  writes (lonejson__serialize_source_text sink fopen fuel s) (source_text escaped s).
Proof.
  intros Hs Hf. apply over_source_writes; [done|]. intros c d Hd Hr.
  destruct (source_content_fits s d Hs Hf Hd). eexists. split; [done|].
  by eapply (text_leads Inv Passes Refused sink Hsink _ _ _ source_chunks).
Qed.

Lemma source_base64_writes s :
  source_holds fopen s → source_fits s →
  writes (lonejson__serialize_source_base64 sink fopen fuel s) (source_text base64_items s).
Proof.
  intros Hs Hf. apply over_source_writes; [done|]. intros c d Hd Hr.
  destruct (source_content_fits s d Hs Hf Hd). eexists. split; [apply quoted_base64|].
  eapply (base64_leads Inv Passes Refused sink Hsink _ _ _ source_chunks _ _ _ []); try done.
  cbn. lia.
Qed.
End streams.
