(* ===== verification/SerializerSpec.v ===== *)
(** * SerializerSpec: the document a record stands for

    The specification of the serializers ([src/impl/24_serializer.h]): the tree of a
    record, its JSON value and its text, compact or indented.  The tree follows
    the map: omitted fields are left out, strings are C strings, integers and
    doubles are decimal, spooled values and sources are read to the end, and an
    embedded JSON value is the document behind its handle.  A record has no tree
    when a value cannot be written: a double that is not finite, a field that is
    for parsing only, a source that does not open, an embedded text that is no
    JSON. *)

From stdpp Require Import base numbers list strings.
From Stdlib Require Import ZArith Lia Bool SpecFloat.
From S2P Require Import Prelude Runtime Source Spooled Unicode Number F64 JsonGrammar JsonCursor Writer WriterSpec SerializerIo Mapping Serializer SerializerLogic SerializerStreams.

(** ** Trees

    An embedded value is kept apart: its text is indented one level deeper than
    its place in the tree. *)

#[warnings="-register-all"]
Inductive tree :=
| TLeaf (v : json)
| TEmbedded (v : json)
| TArr (elements : list tree)
| TObj (members : list (list str_item * tree)).

Section tree_ind.
Context (P : tree → Prop) (Hleaf : ∀ v, P (TLeaf v)) (Hembedded : ∀ v, P (TEmbedded v))
  (Harr : ∀ ts, Forall P ts → P (TArr ts)) (Hobj : ∀ ms, Forall (λ m, P (snd m)) ms → P (TObj ms)).

Fixpoint tree_rect_nested (t : tree) : P t :=
  match t with
  | TLeaf v => Hleaf v
  | TEmbedded v => Hembedded v
  | TArr ts =>
      Harr ts ((fix go ts : Forall P ts :=
                  match ts with
                  | [] => Forall_nil_2 P
                  | t :: ts => @Forall_cons_2 _ P t ts (tree_rect_nested t) (go ts)
                  end) ts)
  | TObj ms =>
      Hobj ms ((fix go ms : Forall (λ m, P (snd m)) ms :=
                  match ms with
                  | [] => Forall_nil_2 (λ m, P (snd m))
                  | m :: ms => @Forall_cons_2 _ (λ m, P (snd m)) m ms (tree_rect_nested (snd m)) (go ms)
                  end) ms)
  end.
End tree_ind.

(** The JSON value. *)
Fixpoint tree_json (t : tree) : json :=
  match t with
  | TLeaf v | TEmbedded v => v
  | TArr ts => JArr (map tree_json ts)
  | TObj ms => JObj (map (λ m, (fst m, tree_json (snd m))) ms)
  end.

(** The text, of a tree at the depth [d]. *)
Section text.
Context (pretty : bool).

(** What follows the opening bracket of an array whose elements have these texts. *)
Fixpoint sequence_text (d : Z) (close : Z) (first : bool) (texts : list bytes) : bytes :=
  match texts with
  | [] => (if first then [] else line_break pretty d) ++ [close]
  | t :: texts =>
      (if first then [] else [","%ch]) ++ line_break pretty (d + 1) ++ t ++ sequence_text d close false texts
  end.

Definition member_text (key : list str_item) (text : bytes) : bytes := quoted key ++ colon pretty ++ text.

Fixpoint tree_text (d : Z) (t : tree) : bytes :=
  match t with
  | TLeaf v => render pretty d v
  | TEmbedded v => render pretty (d + 1) v
  | TArr ts => "["%ch :: sequence_text d "]"%ch true (map (tree_text (d + 1)) ts)
  | TObj ms =>
      "{"%ch :: sequence_text d "}"%ch true (map (λ m, member_text (fst m) (tree_text (d + 1) (snd m))) ms)
  end.
End text.

(** ** The tree of a record *)

(** Elements in order, up to the first that has none. *)
Definition try_map {A B} (f : A → run (option B)) : list A → run (option (list B)) :=
  fix go l :=
    match l with
    | [] => Done (Some [])
    | a :: l =>
        b ← f a;
        match b with
        | None => Done None
        | Some b => bs ← go l; Done (option_map (cons b) bs)
        end
    end.

Section record_tree.
Context {R : Type} (maps : map_ptr → lonejson_map) (fopen : bytes → c_file + Z).
(** The document behind the handle of an embedded value, if it is one. *)
Context (document : lonejson_json_value R → option json).

Definition string_leaf (text : bytes) : tree := TLeaf (JStr (escaped (c_string text))).
Definition integer_leaf (v : Z) : tree := TLeaf (JNum (decimal_text v)).
Definition double_leaf (v : f64) : option tree :=
  if lonejson__is_finite_f64 v then Some (TLeaf (JNum (printf_17g v))) else None.

Definition source_leaf (string_of : bytes → list str_item) (s : lonejson_source) : option tree :=
  if decide (src_kind s = LONEJSON_SOURCE_NONE) then Some (TLeaf JNull)
  else option_map (λ d, TLeaf (JStr (string_of d))) (source_content fopen s).

Definition scalar_tree (field : lonejson_field) (c : cell R) : run (option tree) :=
  match kind field, c with
  | LONEJSON_FIELD_KIND_STRING, CPointer text =>
      if decide (storage field = LONEJSON_STORAGE_DYNAMIC)
      then Done (Some (from_option string_leaf (TLeaf JNull) text)) else Undefined
  | LONEJSON_FIELD_KIND_STRING, CChars text =>
      if decide (storage field = LONEJSON_STORAGE_DYNAMIC) then Undefined else Done (Some (string_leaf text))
  | LONEJSON_FIELD_KIND_STRING_STREAM, CSpooled v => Done (Some (TLeaf (JStr (escaped (spooled_content v)))))
  | LONEJSON_FIELD_KIND_BASE64_STREAM, CSpooled v => Done (Some (TLeaf (JStr (base64_items (spooled_content v)))))
  | LONEJSON_FIELD_KIND_STRING_SOURCE, CSource v => Done (source_leaf escaped v)
  | LONEJSON_FIELD_KIND_BASE64_SOURCE, CSource v => Done (source_leaf base64_items v)
  | LONEJSON_FIELD_KIND_JSON_VALUE, CJson v => Done (option_map TEmbedded (document v))
  | LONEJSON_FIELD_KIND_I64, CI64 v | LONEJSON_FIELD_KIND_U64, CU64 v => Done (Some (integer_leaf v))
  | LONEJSON_FIELD_KIND_F64, CF64 v => Done (double_leaf v)
  | LONEJSON_FIELD_KIND_BOOL, CBool v => Done (Some (TLeaf (JBool v)))
  | LONEJSON_FIELD_KIND_STRING_ARRAY_STREAM, _ | LONEJSON_FIELD_KIND_MAPPED_ARRAY_STREAM, _ => Done None
  | _, _ => Undefined
  end.

Definition array_of {A} (element : A → run (option tree)) (items : list A) : run (option tree) :=
  ts ← try_map element items; Done (option_map TArr ts).

(** A value that is no struct; [structs] is the case of an array of them. *)
Definition array_tree (field : lonejson_field) (c : cell R) (structs : run (option tree)) :
    run (option tree) :=
  match kind field, c with
  | LONEJSON_FIELD_KIND_STRING_ARRAY, CStrings items =>
      array_of (λ s, Done (Some (string_leaf (default [0] s)))) items
  | LONEJSON_FIELD_KIND_I64_ARRAY, CI64s items | LONEJSON_FIELD_KIND_U64_ARRAY, CU64s items =>
      array_of (λ v, Done (Some (integer_leaf v))) items
  | LONEJSON_FIELD_KIND_F64_ARRAY, CF64s items => array_of (λ v, Done (double_leaf v)) items
  | LONEJSON_FIELD_KIND_BOOL_ARRAY, CBools items => array_of (λ v, Done (Some (TLeaf (JBool v)))) items
  | LONEJSON_FIELD_KIND_OBJECT_ARRAY, CStructs _ => structs
  | _, _ => scalar_tree field c
  end.

(** The members of an object: the fields that are not omitted. *)
Fixpoint fields_tree (value : lonejson_field → run (option tree)) (omit : lonejson_field → run bool)
    (fs : list lonejson_field) : run (option (list (list str_item * tree))) :=
  match fs with
  | [] => Done (Some [])
  | field :: fs =>
      omitted ← omit field;
      if (omitted : bool) then fields_tree value omit fs
      else
        t ← value field;
        match t with
        | None => Done None
        | Some t => ms ← fields_tree value omit fs; Done (option_map (cons (escaped (json_key field), t)) ms)
        end
  end.

Definition object_of (value : lonejson_field → cell R → run (option tree)) (map : option map_ptr)
    (members : record R) : run (option tree) :=
  match map with
  | None => Undefined
  | Some p =>
      ms ← fields_tree (λ f, with_member (struct_offset f) (value f) members)
             (lonejson__field_should_omit maps members) (fields (maps p));
      Done (option_map TObj ms)
  end.

Fixpoint value_tree (field : lonejson_field) (c : cell R) {struct c} : run (option tree) :=
  match kind field, c with
  | LONEJSON_FIELD_KIND_OBJECT, CStruct members => object_of value_tree (submap field) members
  | _, CStructs items => array_tree field c (array_of (object_of value_tree (submap field)) items)
  | _, _ => array_tree field c Undefined
  end.

Definition record_tree (map : map_ptr) (src : record R) : run (option tree) :=
  object_of value_tree (Some map) src.
End record_tree.

(** ** The text of a tree is its JSON value

    Whatever the indentation. *)

(** Every JSON value in the tree has a text, and every key is one. *)
Fixpoint tree_ok (t : tree) : Prop :=
  match t with
  | TLeaf v | TEmbedded v => ∃ s, json_text v s
  | TArr ts => (fix all ts := match ts with [] => True | t :: ts => tree_ok t ∧ all ts end) ts
  | TObj ms =>
      (fix all ms := match ms with [] => True | (k, t) :: ms => (Forall item_ok k ∧ tree_ok t) ∧ all ms end) ms
  end.

Lemma tree_ok_arr ts : tree_ok (TArr ts) ↔ Forall tree_ok ts.
Proof. induction ts as [|t ts IH]; [done|]. rewrite Forall_cons, <- IH. done. Qed.

Lemma tree_ok_obj ms : tree_ok (TObj ms) ↔ Forall (λ m, Forall item_ok (fst m) ∧ tree_ok (snd m)) ms.
Proof. induction ms as [|[k t] ms IH]; [done|]. rewrite Forall_cons, <- IH. done. Qed.

Section tree_text.
Context (pretty : bool).

Lemma sequence_elements d first vs ts :
  Forall2 json_text vs ts → elements_text first vs (sequence_text pretty d "]"%ch first ts) [].
Proof.
  intros H. revert first. induction H as [|v t vs ts Ht _ IH]; intros first.
  - exists (if first then [] else line_break pretty d). split; [|done].
    destruct first; [apply ws_nil|apply line_break_ws].
  - destruct (elements_text_cons v t (line_break pretty (d + 1)) vs _ [] (line_break_ws _ _) Ht (IH false))
      as (t' & He & Heq).
    exists [], t'. split; [apply ws_nil|]. split; [done|]. cbn [sequence_text]. rewrite Heq. by destruct first.
Qed.

Lemma sequence_members d first ms (ts : list bytes) :
  Forall2 (λ m t, ∃ t', t = member_text pretty (fst m) t' ∧ Forall item_ok (fst m) ∧ json_text (snd m) t') ms ts →
  members_text first ms (sequence_text pretty d "}"%ch first ts) [].
Proof.
  intros H. revert first. induction H as [|[k v] t ms ts (t' & -> & Hk & Ht) _ IH]; intros first.
  - exists (if first then [] else line_break pretty d). split; [|done].
    destruct first; [apply ws_nil|apply line_break_ws].
  - cbn [fst snd] in *. destruct (colon_split pretty) as (w & Hw & Hc).
    destruct (members_text_cons k v t' (line_break pretty (d + 1)) [] w ms _ [] (line_break_ws _ _) Hk
                ws_nil Hw Ht (IH false)) as (u & Hu & Heq).
    exists [], u. split; [apply ws_nil|]. split; [done|]. cbn [sequence_text]. unfold member_text.
    rewrite Hc. destruct first; cbn [app]; rewrite <- Heq; repeat (rewrite <- ?app_assoc; cbn [app]); done.
Qed.

Lemma tree_text_json t d : tree_ok t → json_text (tree_json t) (tree_text pretty d t).
Proof.
  revert d. induction t as [v|v|ts IH|ms IH] using tree_rect_nested; intros d.
  - intros [s Hs]. by eapply render_is_text.
  - intros [s Hs]. by eapply render_is_text.
  - rewrite tree_ok_arr. intros Hok. cbn [tree_json tree_text].
    destruct (arr_text (map tree_json ts) (sequence_text pretty d "]"%ch true (map (tree_text pretty (d + 1)) ts)) [])
      as (t & Ht & Heq); [|by rewrite app_nil_r in Heq; rewrite Heq].
    apply sequence_elements. induction IH as [|t ts Ht _ IH']; [done|].
    apply Forall_cons in Hok as [Hok Hoks]. cbn [map]. constructor; [by apply Ht|by apply IH'].
  - rewrite tree_ok_obj. intros Hok. cbn [tree_json tree_text].
    destruct (obj_text (map (λ m, (fst m, tree_json (snd m))) ms)
                (sequence_text pretty d "}"%ch true
                   (map (λ m, member_text pretty (fst m) (tree_text pretty (d + 1) (snd m))) ms)) [])
      as (t & Ht & Heq); [|by rewrite app_nil_r in Heq; rewrite Heq].
    apply sequence_members. induction IH as [|[k t] ms Ht _ IH']; [done|].
    rewrite Forall_cons in Hok. destruct Hok as [[Hk Hok] Hoks]. cbn [map fst snd] in *.
    constructor; [|by apply IH']. eexists. split; [done|]. split; [done|]. by apply Ht.
Qed.
End tree_text.

(** Compact, it is the compact rendering. *)
Lemma tree_text_compact t d : tree_text false d t = render false 0 (tree_json t).
Proof.
  revert d. induction t as [v|v|ts IH|ms IH] using tree_rect_nested; intros d.
  - apply render_compact_depth.
  - apply render_compact_depth.
  - cbn [tree_json tree_text]. rewrite render_arr. f_equal. generalize true.
    induction IH as [|t ts Ht _ IH']; intros first; [done|].
    cbn [map sequence_text]. rewrite render_elements_cons, Ht, (render_compact_depth _ (0 + 1)), IH'. done.
  - cbn [tree_json tree_text]. rewrite render_obj. f_equal. generalize true.
    induction IH as [|[k t] ms Ht _ IH']; intros first; [done|]. cbn [map sequence_text fst snd] in *.
    rewrite render_members_cons. unfold member_text. rewrite Ht, (render_compact_depth _ (0 + 1)), IH'.
    by rewrite <- !app_assoc.
Qed.
