(* ===== verification/SerializerWalk.v ===== *)
(** * SerializerWalk: the serializers write the tree of a record

    The compact walk over any table of emitters and the indented walk over a sink
    ([src/impl/24_serializer.h]) give a consumer the text of the record's tree, or
    are rejected when it has none ([map_writes], [map_pretty_writes]). *)

From stdpp Require Import base numbers list strings.
From Stdlib Require Import ZArith Lia Bool SpecFloat.
From S2P Require Import Prelude Runtime Source Spooled Number F64 JsonGrammar JsonCursor Transcode Writer WriterSpec WriterNumber SerializerIo Mapping Serializer SerializerLogic SerializerStreams SerializerSpec.

(** A property of every element, in a form structural recursion can use. *)
Definition every {A} (P : A → Prop) : list A → Prop :=
  fix go l := match l with [] => True | a :: l => P a ∧ go l end.

Lemma every_Forall {A} (P : A → Prop) l : every P l ↔ Forall P l.
Proof. induction l as [|a l IH]; [done|]. rewrite Forall_cons, <- IH. done. Qed.

(** ** Induction over cells *)

Section cell_ind.
Context {R : Type} (P : cell R → Prop).
Context (Hstruct : ∀ ms, Forall (λ m, P (snd m)) ms → P (CStruct ms))
  (Hstructs : ∀ items, Forall (Forall (λ m, P (snd m))) items → P (CStructs items))
  (Hflat : ∀ c, (∀ ms, c ≠ CStruct ms) → (∀ items, c ≠ CStructs items) → P c).

Fixpoint cell_rect_nested (c : cell R) : P c :=
  let members := fix go (ms : list (Z * cell R)) : Forall (λ m, P (snd m)) ms :=
    match ms with
    | [] => Forall_nil_2 _
    | m :: ms => @Forall_cons_2 _ (λ m, P (snd m)) m ms (cell_rect_nested (snd m)) (go ms)
    end in
  match c with
  | CStruct ms => Hstruct ms (members ms)
  | CStructs items =>
      Hstructs items ((fix go items : Forall (Forall (λ m, P (snd m))) items :=
        match items with
        | [] => Forall_nil_2 _
        | ms :: items => @Forall_cons_2 _ (Forall (λ m, P (snd m))) ms items (members ms) (go items)
        end) items)
  | c => Hflat c ltac:(done) ltac:(done)
  end.
End cell_ind.

Lemma with_member_cons {R A} o (k : cell R → run A) o' c ms :
  with_member o k ((o', c) :: ms) = if o' =? o then k c else with_member o k ms.
Proof. done. Qed.

(** Reading a member that is there. *)
Lemma with_member_inv {R A} o (k : cell R → run A) ms a :
  with_member o k ms = Done a →
  ∃ m, m ∈ ms ∧ k (snd m) = Done a ∧ ∀ B (k' : cell R → run B), with_member o k' ms = k' (snd m).
Proof.
  induction ms as [|[o' c] ms IH]; [done|]. rewrite with_member_cons. destruct (o' =? o) eqn:E.
  - intros H. exists (o', c). split_and!; [by left|done|]. intros B k'. by rewrite with_member_cons, E.
  - intros (m & Hin & Hk & Hall)%IH. exists m. split_and!; [by right|done|]. intros B k'.
    rewrite with_member_cons, E. apply Hall.
Qed.

Lemma bind_done {A B} (m : run A) (f : A → run B) b :
  (m ≫= f) = Done b → ∃ a, m = Done a ∧ f a = Done b.
Proof. destruct m; [by eauto|done|done]. Qed.

(** ** Emitter tables *)

Class Emits {U} (Inv : U → bytes → Prop) (Passes : lonejson_status → bytes → Prop)
    (Refused : lonejson_status → U → bytes → Prop) (em : emitters U) := {
  em_stops :: StopTest Passes (em_stop em);
  em_cstr_ok : ∀ d, delivers Inv Passes Refused (em_cstr em d) d;
  em_string_ok : ∀ t, is_bytes t →
    delivers Inv Passes Refused (em_string em t) (quoted (escaped (c_string t)));
  em_len_ok : ∀ t, is_bytes t → delivers Inv Passes Refused (em_len em t) (quoted (escaped t));
  em_i64_ok : ∀ v, - 2 ^ 63 ≤ v < 2 ^ 63 → delivers Inv Passes Refused (em_i64 em v) (decimal_text v);
  em_u64_ok : ∀ v, 0 ≤ v < 2 ^ 64 → delivers Inv Passes Refused (em_u64 em v) (decimal_text v);
  em_f64_ok : ∀ v, valid_binary 53 1024 v = true →
    delivers Inv Passes Refused (em_f64 em v) (printf_17g v);
  em_sink_ok : ∀ d, delivers Inv Passes Refused (λ u e, em_sink em u d e) d
}.

Lemma c_string_bytes t : is_bytes t → is_bytes (c_string t).
Proof.
  unfold c_string. induction 1 as [|b t Hb _ IH]; [done|]. cbn [take_while].
  destruct (negb _); [by constructor|done].
Qed.

(** The table over a sink that takes what it is given. *)
Lemma sink_emits {U} (Inv : U → bytes → Prop) Passes Refused `{!Consumer Inv Passes Refused}
    (sink : lonejson_sink_fn U) :
  (∀ d, delivers Inv Passes Refused (λ u e, sink u d e) d) →
  Emits Inv Passes Refused (sink_emitters sink).
Proof.
  intros Hs. pose proof (emit_delivers Inv Passes Refused sink Hs) as He. split; cbn.
  - apply _.
  - apply He.
  - intros t Ht. by apply escaped_bytes_delivers, c_string_bytes.
  - intros t Ht. by apply escaped_bytes_delivers.
  - intros v Hv. unfold lonejson__emit_i64_value. by apply integer_delivers; [|apply _|apply He|].
  - intros v Hv. unfold lonejson__emit_u64_value, decimal_text. replace (v <? 0) with false by lia. apply He.
  - intros v Hv. by apply double_delivers; [|apply He|].
  - done.
Qed.

Section walk.
#[local] Set Default Proof Using "Type*".
Context {R U : Type} `{!SharedHeap U} (Inv : U → bytes → Prop) (Passes : lonejson_status → bytes → Prop)
  (Refused : lonejson_status → U → bytes → Prop) `{!Consumer Inv Passes Refused}.
Context (maps : map_ptr → lonejson_map) (fopen : bytes → c_file + Z) (fuel : nat).
Context (document : lonejson_json_value R → option json).
#[local] Abbreviation writes := (writes Inv Passes Refused).
Implicit Types (c : cell R) (field : lonejson_field) (t : option tree).

(** Keys are byte strings. *)
Context (Hkeys : ∀ p f, f ∈ fields (maps p) → is_bytes (json_key f)).

(** What is needed of the handles and numbers in a cell: an embedded value is
    [embeddable] at the depth its text is written at. *)
Context (embeddable : Z → lonejson_json_value R → Prop).

Definition double_cell (v : f64) : Prop := valid_binary 53 1024 v = true.

Definition depth_fits (d : Z) : Prop := 0 ≤ d < 2 ^ 62.

Fixpoint cell_ok (d : Z) (c : cell R) : Prop :=
  depth_fits d ∧
  match c with
  | CPointer text => is_bytes (default [] text)
  | CChars text => is_bytes text
  | CSpooled v => spool_holds v ∧ is_bytes (spooled_content v) ∧ (length (spooled_content v) < fuel)%nat
  | CSource v => source_holds fopen v ∧ source_fits fopen fuel v
  | CJson v => embeddable (d + 1) v
  | CI64 v => - 2 ^ 63 ≤ v < 2 ^ 63
  | CU64 v => 0 ≤ v < 2 ^ 64
  | CF64 v => double_cell v
  | CStruct ms => every (λ m, cell_ok (d + 1) (snd m)) ms
  | CStrings items => Forall (λ s, is_bytes (default [] s)) items
  | CI64s items => Forall (λ v, - 2 ^ 63 ≤ v < 2 ^ 63) items
  | CU64s items => Forall (λ v, 0 ≤ v < 2 ^ 64) items
  | CF64s items => Forall double_cell items
  | CStructs items => every (every (λ m, cell_ok (d + 2) (snd m))) items
  | CBool _ | CInt _ | CBools _ | CParseOnly => True
  end.

Lemma cell_ok_depth d c : cell_ok d c → depth_fits d.
Proof. by destruct c; intros []. Qed.

(** *** What both walks share *)

Lemma members_apply (ok : Z → cell R → Prop) (P : Z → cell R → Prop) d (ms : record R) :
  Forall (λ m, ∀ d, ok d (snd m) → P d (snd m)) ms → every (λ m, ok d (snd m)) ms →
  Forall (λ m, P d (snd m)) ms.
Proof using.
  rewrite every_Forall, !Forall_forall. intros H1 H2 m Hin. by apply H1; [|apply H2].
Qed.

(** A sequence, one after the other: [go] is the loop of the walk, [pre] what it
    writes before an element. *)
Lemma sequence_writes {A} pretty d close (emit : A → emitter U) (text_of : A → run (option bytes))
    (go : bool → list A → emitter U) items texts first :
  (∀ first, writes (go first []) (Some ((if first then [] else line_break pretty d) ++ [close]))) →
  (∀ first a items ta trest, writes (emit a) ta → (is_Some ta → writes (go false items) trest) →
     writes (go first (a :: items))
       (both (Some ((if first then [] else [","%ch]) ++ line_break pretty (d + 1))) (both ta trest))) →
  Forall (λ a, ∀ ta, text_of a = Done ta → writes (emit a) ta) items →
  try_map text_of items = Done texts →
  writes (go first items) (sequence_text pretty d close first <$> texts).
Proof.
  intros Hend Hgo He. revert texts first. induction He as [|a items Ha _ IH]; intros texts first.
  { intros [= <-]. apply Hend. }
  cbn [try_map]. intros (ta & Hta & H)%bind_done.
  assert (∃ trest, sequence_text pretty d close first <$> texts
                   = both (Some ((if first then [] else [","%ch]) ++ line_break pretty (d + 1))) (both ta trest)
                   ∧ (is_Some ta → writes (go false items) trest)) as (trest & -> & Hrest).
  { destruct ta as [ta|]; [|injection H as <-; exists None; split; [done|by intros []]].
    apply bind_done in H as (ts & Hts & [= <-]). exists (sequence_text pretty d close false <$> ts).
    split; [|intros _; by apply IH]. destruct ts as [ts|]; [|done]. cbn. by rewrite <- !app_assoc. }
  by apply Hgo; [apply Ha|].
Qed.

Lemma try_map_text {A} (tree_of : A → run (option tree)) (f : tree → bytes) items
    (ts : option (list tree)) :
  try_map tree_of items = Done ts →
  try_map (λ a, ta ← tree_of a; Done (option_map f ta)) items = Done (option_map (map f) ts).
Proof.
  revert ts. induction items as [|a items IH]; intros ts; [by intros [= <-]|]. cbn [try_map].
  intros (ta & -> & H)%bind_done. rewrite run_bind_done. cbn [option_map]. destruct ta as [ta|]; [|by simplify_eq].
  apply bind_done in H as (ts' & Hts & [= <-]). rewrite (IH _ Hts), run_bind_done.
  by destruct ts'.
Qed.

(** A walk of the fields: [emitted] says that a member was written already. *)
Lemma fields_write pretty d (value : lonejson_field → emitter U) (tree_of : lonejson_field → run (option tree))
    (omit : lonejson_field → run bool) (go : bool → list lonejson_field → emitter U) fs ms emitted :
  (∀ emitted, writes (go emitted []) (Some ((if emitted then line_break pretty d else []) ++ ["}"%ch]))) →
  (∀ emitted f fs text, omit f = Done true → writes (go emitted fs) text → writes (go emitted (f :: fs)) text) →
  (∀ emitted f fs ta trest, omit f = Done false → is_bytes (json_key f) →
     writes (value f) ta → (is_Some ta → writes (go true fs) trest) →
     writes (go emitted (f :: fs))
       (both (Some ((if emitted then [","%ch] else []) ++ line_break pretty (d + 1)
                    ++ quoted (escaped (json_key f)) ++ colon pretty)) (both ta trest))) →
  Forall (λ f, is_bytes (json_key f)
               ∧ ∀ ta, tree_of f = Done ta → writes (value f) (tree_text pretty (d + 1) <$> ta)) fs →
  fields_tree tree_of omit fs = Done ms →
  writes (go emitted fs)
    ((λ ms, sequence_text pretty d "}"%ch (negb emitted)
              (map (λ m, member_text pretty (fst m) (tree_text pretty (d + 1) (snd m))) ms)) <$> ms).
Proof.
  intros Hend Hskip Hgo He. revert ms emitted. induction He as [|f fs [Hk Hf] _ IH]; intros ms emitted.
  { intros [= <-]. specialize (Hend emitted). by destruct emitted. }
  cbn [fields_tree]. intros (omitted & Ho & H)%bind_done. destruct omitted; [by apply Hskip, IH|].
  apply bind_done in H as (ta & Hta & H).
  assert (∃ trest, (λ ms, sequence_text pretty d "}"%ch (negb emitted)
              (map (λ m, member_text pretty (fst m) (tree_text pretty (d + 1) (snd m))) ms)) <$> ms
     = both (Some ((if emitted then [","%ch] else []) ++ line_break pretty (d + 1)
                    ++ quoted (escaped (json_key f)) ++ colon pretty)) (both (tree_text pretty (d + 1) <$> ta) trest)
     ∧ (is_Some ta → writes (go true fs) trest)) as (trest & -> & Hrest).
  { destruct ta as [ta|]; [|injection H as <-; exists None; split; [done|by intros []]].
    apply bind_done in H as (ms' & Hms & [= <-]). eexists. split; [|intros _; by apply IH].
    destruct ms' as [ms'|]; [|done]. cbn. unfold member_text. destruct emitted; cbn; by rewrite <- !app_assoc. }
  apply Hgo; [done|done|by apply Hf|]. intros Hs. apply Hrest. by destruct ta; [|destruct Hs].
Qed.

(** A member by its offset. *)
Lemma member_writes (value : cell R → emitter U) (tree_of : cell R → run (option tree)) f members o t :
  (∀ m t, m ∈ members → tree_of (snd m) = Done t → writes (value (snd m)) (f <$> t)) →
  with_member o tree_of members = Done t →
  writes (λ u e n, with_member o (λ c, value c u e n) members) (f <$> t).
Proof.
  intros Hv (m & Hin & Ht & Hall)%with_member_inv u e n out Hi Hc. rewrite Hall. by eapply Hv.
Qed.

(** *** Scalars *)

Section scalars.
Context (em : emitters U) `{!Emits Inv Passes Refused em}.

Lemma cstr_writes d : writes (lift (em_cstr em d)) (Some d).
Proof. by apply writes_lift, em_cstr_ok. Qed.

Lemma bool_writes b : writes (lift (em_cstr em (bool_text b))) (Some (render false 0 (JBool b))).
Proof. destruct b; apply cstr_writes. Qed.

Lemma string_writes text p d :
  is_bytes text → writes (lift (em_string em text)) (Some (tree_text p d (string_leaf text))).
Proof. intros. by apply writes_lift, em_string_ok. Qed.

Lemma double_writes message v p d :
  double_cell v → writes (f64_value em message v) (tree_text p d <$> double_leaf v).
Proof.
  intros Hv. unfold f64_value, double_leaf. destruct (lonejson__is_finite_f64 v); cbn [negb].
  - by apply writes_lift, em_f64_ok.
  - apply writes_fail; [done|]. by left.
Qed.

Lemma source_leaf_text string_of s p d :
  tree_text p d <$> source_leaf fopen string_of s = source_text fopen string_of s.
Proof.
  unfold source_leaf, source_text. destruct (decide _); [done|]. by destruct (source_content fopen s).
Qed.

Lemma scalar_writes (json : lonejson_json_value R → emitter U) p d field c t :
  (∀ v, embeddable (d + 1) v → writes (json v) (render p (d + 1) <$> document v)) →
  cell_ok d c → scalar_tree fopen document field c = Done t →
  writes (scalar_value fopen fuel em json field c) (tree_text p d <$> t).
Proof.
  intros Hj Hc. pose proof (em_sink_ok (em := em)) as Hs. unfold scalar_tree, scalar_value.
  destruct (kind field); try (by intros [=]).
  all: try (intros [= <-]; apply writes_fail; [done|]; by left).
  all: destruct c; try (by intros [=]); destruct Hc as [Hd Hc].
  all: try case_decide; intros [= <-].
  - destruct text as [text|]; [by apply string_writes|apply cstr_writes].
  - by apply string_writes.
  - destruct Hc as (? & ? & ?). by apply spooled_text_writes.
  - destruct Hc as (? & ? & ?). by apply spooled_base64_writes.
  - rewrite source_leaf_text. destruct Hc. by apply source_text_writes.
  - rewrite source_leaf_text. destruct Hc. by apply source_base64_writes.
  - specialize (Hj value Hc). by destruct (document value).
  - by apply writes_lift, em_i64_ok.
  - by apply writes_lift, em_u64_ok.
  - by apply double_writes.
  - apply bool_writes.
Qed.

(** *** Arrays *)

(** The cases of [array_value] and [pretty_array_value], over the array loop. *)
Definition array_cases (arr : ∀ A, (A → emitter U) → list A → emitter U)
    (json : lonejson_json_value R → emitter U) (field : lonejson_field) (c : cell R)
    (structs : list (record R) → emitter U) : emitter U :=
  match kind field, c with
  | LONEJSON_FIELD_KIND_STRING_ARRAY, CStrings items => arr _ (λ s, lift (em_string em (default [0] s))) items
  | LONEJSON_FIELD_KIND_I64_ARRAY, CI64s items => arr _ (λ v, lift (em_i64 em v)) items
  | LONEJSON_FIELD_KIND_U64_ARRAY, CU64s items => arr _ (λ v, lift (em_u64 em v)) items
  | LONEJSON_FIELD_KIND_F64_ARRAY, CF64s items =>
      arr _ (f64_value em "non-finite double array element cannot be serialized") items
  | LONEJSON_FIELD_KIND_BOOL_ARRAY, CBools items => arr _ (λ v, lift (em_cstr em (bool_text v))) items
  | LONEJSON_FIELD_KIND_OBJECT_ARRAY, CStructs items => structs items
  | _, _ => scalar_value fopen fuel em json field c
  end.

(** [arr] writes its elements, which are one level deeper. *)
Definition array_loop (pretty : bool) (d : Z) (arr : ∀ A, (A → emitter U) → list A → emitter U) : Prop :=
  ∀ A emit (tree_of : A → run (option tree)) items t,
    Forall (λ a, ∀ ta, tree_of a = Done ta → writes (emit a) (tree_text pretty (d + 1) <$> ta)) items →
    array_of tree_of items = Done t → writes (arr A emit items) (tree_text pretty d <$> t).

Lemma array_writes arr json pretty d field c structs structs_tree t :
  array_loop pretty d arr →
  (∀ v, embeddable (d + 1) v → writes (json v) (render pretty (d + 1) <$> document v)) →
  cell_ok d c →
  (∀ items t, c = CStructs items → structs_tree = Done t → writes (structs items) (tree_text pretty d <$> t)) →
  array_tree fopen document field c structs_tree = Done t →
  writes (array_cases arr json field c structs) (tree_text pretty d <$> t).
Proof.
  intros Harr Hj Hc Hs H. pose proof (scalar_writes json pretty d field c t Hj Hc) as Hscalar.
  unfold array_tree, array_cases in *. destruct (kind field); try by apply Hscalar.
  all: destruct c; try by apply Hscalar.
  all: destruct Hc as [_ Hc]; try (eapply Harr; [|exact H]; eapply Forall_impl; [exact Hc|]; cbn; intros a Ha ta [= <-]).
  - apply string_writes. by destruct a; [|repeat constructor].
  - by apply writes_lift, em_i64_ok.
  - by apply writes_lift, em_u64_ok.
  - by apply double_writes.
  - eapply Harr; [|exact H]. apply Forall_forall. intros b _ ta [= <-]. apply bool_writes.
  - by eapply Hs.
Qed.
End scalars.

(** ** The compact walk *)

Section compact.
Context (em : emitters U) `{!Emits Inv Passes Refused em}.
Context (Htranscode : ∀ d v, embeddable d v →
  writes (json_value fopen fuel em false 0 v) (render false 0 <$> document v)).

Lemma compact_loop d : array_loop false d (λ A, compact_array em).
Proof.
  intros A emit tree_of items t He (ts & Hts & [= <-])%bind_done. unfold compact_array.
  replace (_ <$> _) with
    (both (Some ["["%ch]) (sequence_text false d "]"%ch true <$> option_map (map (tree_text false (d + 1))) ts))
    by by destruct ts.
  apply writes_then; [done|apply _|by apply cstr_writes|].
  eapply (sequence_writes false d "]"%ch emit _ (elements_loop em emit)); [| | |by apply try_map_text].
  - intros first. destruct first; by apply cstr_writes.
  - intros first a rest ta trest Ha Hrest. cbn [elements_loop].
    apply writes_then; [done|apply _|destruct first; [by apply writes_nothing|by apply cstr_writes]|].
    by apply writes_then_some; [done|apply _|..].
  - eapply Forall_impl; [exact He|]. cbn. intros a Ha ta (ta' & Hta & [= <-])%bind_done. by apply Ha.
Qed.

Definition compact_claim (d : Z) (c : cell R) : Prop := ∀ field t,
  value_tree maps fopen document field c = Done t →
  writes (serialize_value maps fopen fuel em field c) (tree_text false d <$> t).

Lemma compact_object d p members t :
  Forall (λ m, compact_claim (d + 1) (snd m)) members →
  object_of maps (value_tree maps fopen document) (Some p) members = Done t →
  writes (serialize_map maps fopen fuel em p members) (tree_text false d <$> t).
Proof.
  intros Hm (ms & Hms & [= <-])%bind_done. unfold serialize_map.
  replace (_ <$> _) with
    (both (Some ["{"%ch])
       ((λ ms, sequence_text false d "}"%ch (negb false)
              (map (λ m, member_text false (fst m) (tree_text false (d + 1) (snd m))) ms)) <$> ms))
    by by destruct ms.
  apply writes_then; [done|apply _|by apply cstr_writes|].
  eapply (fields_write false d (member_value (serialize_value maps fopen fuel em) members) _ _
            (fields_loop em (member_value (serialize_value maps fopen fuel em) members)
               (lonejson__field_should_omit maps members))); [| | | |exact Hms].
  - intros emitted. by destruct emitted; apply cstr_writes.
  - intros emitted f fs text Ho. apply writes_ext; [done|]. intros u e n. cbn [fields_loop].
    by rewrite Ho, run_bind_done.
  - intros emitted f fs ta trest Ho Hk Hv Hrest. eapply writes_ext; [done| |].
    { intros u e n. cbn [fields_loop]. by rewrite Ho, run_bind_done. }
    change (line_break false (d + 1)) with (@nil Z). rewrite app_nil_l.
    rewrite <- both_some, <- both_some, !both_assoc.
    apply writes_then; [done|apply _|destruct emitted; [by apply cstr_writes|by apply writes_nothing]|].
    apply writes_then; [done|apply _|by apply writes_lift, em_len_ok|].
    apply writes_then; [done|apply _|by apply cstr_writes|].
    by apply writes_then_some; [done|apply _|..].
  - apply Forall_forall. intros f Hf. split; [by eapply Hkeys|]. intros ta Hta.
    eapply member_writes; [|exact Hta]. intros m t' Hin Ht'. rewrite Forall_forall in Hm. by apply Hm.
Qed.

Lemma value_writes d c : cell_ok d c → compact_claim d c.
Proof.
  assert (∀ d v, embeddable d v → writes (json_value fopen fuel em false 0 v) (render false d <$> document v)) as Hj.
  { intros d' v Hv. specialize (Htranscode d' v Hv). destruct (document v) as [j|]; [|done].
    cbn. by rewrite render_compact_depth. }
  revert d. induction c as [ms IH|items IH|c Hn1 Hn2] using cell_rect_nested; intros d Hc field t Ht.
  - pose proof (array_writes em _ _ false d field (CStruct ms) (λ _, undefined) Undefined t
                  (compact_loop d) (Hj (d + 1)) Hc) as Harr.
    destruct Hc as [_ Hc]. apply every_Forall in Hc.
    cbn [value_tree] in Ht. cbn [serialize_value]. destruct (kind field); try (by apply Harr).
    destruct (submap field) as [p|]; [|done]. eapply (compact_object d p ms); [|exact Ht].
    by apply (members_apply cell_ok compact_claim _ _ IH), every_Forall.
  - pose proof (array_writes em _ _ false d field (CStructs items)
                  (λ _, compact_array em (λ members, match submap field with
                                                     | None => undefined
                                                     | Some p => serialize_map maps fopen fuel em p members
                                                     end) items)
                  (array_of (object_of maps (value_tree maps fopen document) (submap field)) items) t
                  (compact_loop d) (Hj (d + 1)) Hc) as Harr.
    destruct Hc as [_ Hc]. apply every_Forall in Hc.
    replace (serialize_value maps fopen fuel em field (CStructs items)) with
      (array_cases em (λ A, compact_array em) (json_value fopen fuel em false 0) field (CStructs items)
         (λ _, compact_array em (λ members, match submap field with
                                            | None => undefined
                                            | Some p => serialize_map maps fopen fuel em p members
                                            end) items)) by (cbn; by destruct (kind field)).
    apply Harr; [|cbn in Ht |- *; by destruct (kind field)].
    intros items' t' [= <-] Ht'. eapply (compact_loop d); [|exact Ht'].
    apply Forall_forall. intros members Hin ta Hta. rewrite Forall_forall in IH, Hc.
    destruct (submap field) as [p|]; [|done]. eapply (compact_object (d + 1) p members); [|exact Hta].
    apply (members_apply cell_ok compact_claim _ _ (IH members Hin)). replace (d + 1 + 1) with (d + 2) by lia.
    by apply Hc.
  - replace (serialize_value maps fopen fuel em field c) with
      (array_cases em (λ A, compact_array em) (json_value fopen fuel em false 0) field c (λ _, undefined))
      by (destruct c; try (by edestruct Hn1); try (by edestruct Hn2); cbn; unfold array_cases, array_value;
          by destruct (kind field)).
    apply (array_writes em (λ A, compact_array em) _ false d field c _ Undefined t
             (compact_loop d) (Hj (d + 1)) Hc); [by intros items t' ->; destruct (Hn2 items)|].
    destruct c; try (by edestruct Hn1); try (by edestruct Hn2); cbn in Ht |- *; by destruct (kind field).
Qed.
End compact.

(** ** The indented walk *)

Section pretty.
Context (sink : lonejson_sink_fn U) (Hsink : ∀ d, delivers Inv Passes Refused (λ u e, sink u d e) d).
#[local] Abbreviation em := (sink_emitters sink).
#[local] Instance sink_table : Emits Inv Passes Refused em := sink_emits Inv Passes Refused sink Hsink.
Context (Htranscode : ∀ d v, embeddable d v → 0 ≤ d →
  writes (json_value fopen fuel em true d v) (render true d <$> document v)).

Lemma emit_writes d : writes (lift (lonejson__emit sink d)) (Some d).
Proof. by apply writes_lift, emit_delivers. Qed.

Lemma indent_blocks_writes n spaces :
  0 ≤ spaces → (Z.to_nat spaces < n)%nat →
  writes (indent_blocks sink n spaces) (Some (replicate (Z.to_nat spaces) 32)).
Proof.
  revert spaces. induction n as [|n IH]; intros spaces Hs Hn; [lia|]. cbn [indent_blocks].
  destruct (64 <? spaces) eqn:E.
  - replace (replicate (Z.to_nat spaces) 32) with (replicate 64 32 ++ replicate (Z.to_nat (spaces - 64)) 32).
    2:{ rewrite <- replicate_add. f_equal. lia. }
    rewrite <- both_some. apply writes_then; [done|apply _|apply emit_writes|apply IH; lia].
  - destruct (spaces =? 0) eqn:E0; cbn [negb]; [|apply emit_writes].
    replace spaces with 0 by lia. by apply writes_nothing.
Qed.

Lemma pretty_indent_writes d :
  0 ≤ d < 2 ^ 62 + 2 → writes (lonejson__emit_pretty_indent sink true d) (Some (line_break true d)).
Proof.
  intros Hd. unfold lonejson__emit_pretty_indent, line_break, indent. cbn [negb].
  change (SIZE_MAX / 2) with 9223372036854775807. replace (9223372036854775807 <? d) with false by lia.
  rewrite (Z.mul_comm 2 d). destruct (d * 2 <=? 64) eqn:E; [apply emit_writes|].
  replace (10 :: replicate (Z.to_nat (d * 2)) 32) with
    ((10 :: replicate 64 32) ++ replicate (Z.to_nat (d * 2 - 64)) 32).
  2:{ cbn [app]. f_equal. rewrite <- replicate_add. f_equal. lia. }
  rewrite <- both_some. apply writes_then; [done|apply _|apply emit_writes|apply indent_blocks_writes; lia].
Qed.

Lemma pretty_loop d : 0 ≤ d < 2 ^ 62 + 1 → array_loop true d (λ A, pretty_array sink true d).
Proof.
  intros Hd A emit tree_of items t He (ts & Hts & [= <-])%bind_done.
  set (go := λ (first : bool) (items : list A),
         match items with
         | [] => if first then lift (em_cstr em ["]"%ch]) else pretty_elements sink true d emit first []
         | _ => pretty_elements sink true d emit first items
         end).
  replace (pretty_array sink true d emit items) with
    (emit_then status_fails (lift (em_cstr em ["["%ch])) (go true items)) by by destruct items.
  replace (_ <$> _) with
    (both (Some ["["%ch]) (sequence_text true d "]"%ch true <$> option_map (map (tree_text true (d + 1))) ts))
    by by destruct ts.
  apply writes_then; [done|apply _|by apply (cstr_writes em)|].
  eapply (sequence_writes true d "]"%ch emit _ go); [| | |by apply try_map_text].
  - intros first. destruct first; [by apply (cstr_writes em)|]. cbn [go pretty_elements]. rewrite <- both_some.
    apply writes_then; [done|apply _|apply pretty_indent_writes; lia|by apply (cstr_writes em)].
  - intros first a rest ta trest Ha Hrest. cbn [go pretty_elements].
    replace (pretty_elements sink true d emit false rest) with (go false rest) by by destruct rest.
    rewrite <- both_some, both_assoc.
    apply writes_then; [done|apply _|destruct first; [by apply writes_nothing|by apply (cstr_writes em)]|].
    apply writes_then; [done|apply _|apply pretty_indent_writes; lia|].
    by apply writes_then_some; [done|apply _|..].
  - eapply Forall_impl; [exact He|]. cbn. intros a Ha ta (ta' & Hta & [= <-])%bind_done. by apply Ha.
Qed.

Definition pretty_claim (d : Z) (c : cell R) : Prop := ∀ field t,
  value_tree maps fopen document field c = Done t →
  writes (lonejson__serialize_value_pretty maps fopen fuel sink true d field c) (tree_text true d <$> t).

Lemma pretty_object d p members t :
  0 ≤ d < 2 ^ 62 + 1 →
  Forall (λ m, pretty_claim (d + 1) (snd m)) members →
  object_of maps (value_tree maps fopen document) (Some p) members = Done t →
  writes (lonejson__serialize_map_pretty maps fopen fuel sink true d p members) (tree_text true d <$> t).
Proof.
  intros Hd Hm (ms & Hms & [= <-])%bind_done. unfold lonejson__serialize_map_pretty.
  replace (_ <$> _) with
    (both (Some ["{"%ch])
       ((λ ms, sequence_text true d "}"%ch (negb false)
              (map (λ m, member_text true (fst m) (tree_text true (d + 1) (snd m))) ms)) <$> ms))
    by by destruct ms.
  apply writes_then; [done|apply _|by apply (cstr_writes em)|].
  set (value := member_value (lonejson__serialize_value_pretty maps fopen fuel sink true (d + 1)) members).
  eapply (fields_write true d value _ _
            (pretty_fields sink true d value (lonejson__field_should_omit maps members))); [| | | |exact Hms].
  - intros emitted. cbn [pretty_fields andb]. rewrite <- both_some.
    apply writes_then; [done|apply _| |by apply (cstr_writes em)].
    destruct emitted; [apply pretty_indent_writes; lia|by apply writes_nothing].
  - intros emitted f fs text Ho. apply writes_ext; [done|]. intros u e n. cbn [pretty_fields].
    by rewrite Ho, run_bind_done.
  - intros emitted f fs ta trest Ho Hk Hv Hrest. eapply writes_ext; [done| |].
    { intros u e n. cbn [pretty_fields]. by rewrite Ho, run_bind_done. }
    rewrite <- both_some, <- both_some, <- both_some, !both_assoc.
    apply writes_then; [done|apply _|destruct emitted; [by apply (cstr_writes em)|by apply writes_nothing]|].
    apply writes_then; [done|apply _|apply pretty_indent_writes; lia|].
    apply writes_then; [done|apply _|by apply writes_lift, (em_len_ok (em := em))|].
    apply writes_then; [done|apply _|by apply (cstr_writes em)|].
    by apply writes_then_some; [done|apply _|..].
  - apply Forall_forall. intros f Hf. split; [by eapply Hkeys|]. intros ta Hta.
    eapply member_writes; [|exact Hta]. intros m t' Hin Ht'. rewrite Forall_forall in Hm. by apply Hm.
Qed.

Lemma pretty_value_writes d c : cell_ok d c → pretty_claim d c.
Proof.
  revert d. induction c as [ms IH|items IH|c Hn1 Hn2] using cell_rect_nested; intros d Hc field t Ht.
  all: pose proof (cell_ok_depth _ _ Hc) as Hd; unfold depth_fits in Hd.
  all: assert (pretty_array_loop := pretty_loop d ltac:(lia)).
  all: assert (∀ v, embeddable (d + 1) v →
         writes (json_value fopen fuel em true (u64 (d + 1)) v) (render true (d + 1) <$> document v)) as Hj
    by (intros v Hv; rewrite u64_small by (unfold is_u64; lia); apply Htranscode; [done|lia]).
  - pose proof (array_writes em (λ A, pretty_array sink true d) _ true d field (CStruct ms) (λ _, undefined) Undefined t
                  pretty_array_loop Hj Hc) as Harr.
    destruct Hc as [_ Hc]. apply every_Forall in Hc.
    cbn [value_tree] in Ht. cbn [lonejson__serialize_value_pretty]. destruct (kind field); try (by apply Harr).
    destruct (submap field) as [p|]; [|done]. eapply (pretty_object d p ms); [lia| |exact Ht].
    by apply (members_apply cell_ok pretty_claim _ _ IH), every_Forall.
  - set (elements := pretty_array sink true d (λ members, match submap field with
             | None => undefined
             | Some p => lonejson__serialize_map_pretty maps fopen fuel sink true (d + 1) p members
             end) items).
    pose proof (array_writes em (λ A, pretty_array sink true d) _ true d field (CStructs items)
                  (λ _, elements)
                  (array_of (object_of maps (value_tree maps fopen document) (submap field)) items) t
                  pretty_array_loop Hj Hc) as Harr.
    destruct Hc as [_ Hc]. apply every_Forall in Hc.
    replace (lonejson__serialize_value_pretty maps fopen fuel sink true d field (CStructs items)) with
      (array_cases em (λ A, pretty_array sink true d) (json_value fopen fuel em true (u64 (d + 1))) field
         (CStructs items) (λ _, elements)) by (cbn; by destruct (kind field)).
    apply Harr; [|cbn in Ht |- *; by destruct (kind field)].
    intros items' t' [= <-] Ht'. eapply pretty_array_loop; [|exact Ht'].
    apply Forall_forall. intros members Hin ta Hta. rewrite Forall_forall in IH, Hc.
    destruct (submap field) as [p|]; [|done]. eapply (pretty_object (d + 1) p members); [lia| |exact Hta].
    apply (members_apply cell_ok pretty_claim _ _ (IH members Hin)). replace (d + 1 + 1) with (d + 2) by lia.
    by apply Hc.
  - replace (lonejson__serialize_value_pretty maps fopen fuel sink true d field c) with
      (array_cases em (λ A, pretty_array sink true d) (json_value fopen fuel em true (u64 (d + 1))) field c
         (λ _, undefined))
      by (destruct c; try (by edestruct Hn1); try (by edestruct Hn2); cbn; unfold array_cases, pretty_array_value;
          by destruct (kind field)).
    apply (array_writes em (λ A, pretty_array sink true d) _ true d field c _ Undefined t
             pretty_array_loop Hj Hc); [by intros items t' ->; destruct (Hn2 items)|].
    destruct c; try (by edestruct Hn1); try (by edestruct Hn2); cbn in Ht |- *; by destruct (kind field).
Qed.
End pretty.

(** ** Whole records *)

(** Every member of the record, at its depth. *)
Definition record_ok (d : Z) (src : record R) : Prop := Forall (λ m, cell_ok d (snd m)) src.

Lemma map_writes em `{!Emits Inv Passes Refused em} p src t :
  (∀ d v, embeddable d v → writes (json_value fopen fuel em false 0 v) (render false 0 <$> document v)) →
  record_ok 1 src → record_tree maps fopen document p src = Done t →
  writes (serialize_map maps fopen fuel em p src) (tree_text false 0 <$> t).
Proof.
  intros Hj Hs. apply compact_object; [done..|]. eapply Forall_impl; [exact Hs|]. cbn.
  intros m Hm. by apply value_writes.
Qed.

Lemma map_pretty_writes sink p src t :
  (∀ d, delivers Inv Passes Refused (λ u e, sink u d e) d) →
  (∀ d v, embeddable d v → 0 ≤ d →
     writes (json_value fopen fuel (sink_emitters sink) true d v) (render true d <$> document v)) →
  record_ok 1 src → record_tree maps fopen document p src = Done t →
  writes (lonejson__serialize_map_pretty maps fopen fuel sink true 0 p src) (tree_text true 0 <$> t).
Proof.
  intros Hs Hj Hok. apply pretty_object; [done|done|lia|]. eapply Forall_impl; [exact Hok|]. cbn.
  intros m Hm. by apply pretty_value_writes.
Qed.
End walk.
