(* ===== verification/SerializerTrees.v ===== *)
(** * SerializerTrees: the trees of records are JSON values

    Every tree of a record that may be serialized is well formed: its numbers are
    JSON numbers, its strings and keys are escaped ([record_tree_ok]), so its text
    denotes its JSON value ([tree_text_json]). *)

From stdpp Require Import base numbers list strings.
From Stdlib Require Import ZArith Lia Bool SpecFloat.
From S2P Require Import Prelude Runtime Source Spooled Base64 Number F64 F64Props JsonGrammar JsonCursor Writer WriterSpec WriterNumber SerializerIo Mapping Serializer SerializerLogic SerializerStreams SerializerSpec SerializerWalk.

(** ** Leaves *)

Lemma decimal_number v : - 2 ^ 63 ≤ v < 2 ^ 64 → json_number (decimal_text v).
Proof.
  intros Hv. unfold decimal_text. destruct (v <? 0) eqn:E.
  - apply json_int_minus. by apply (format_u64_spec (- v)); lia.
  - apply json_int_number. by apply (format_u64_spec v); lia.
Qed.

(** The alphabet needs no escapes. *)
Lemma digit_plain v k : 0 ≤ k < 64 → is_plain (digit v k) = true.
Proof.
  intros Hk. assert (Forall (λ k, is_plain (digit v k) = true) (seqZ 0 64)) as H
    by (destruct v; apply (bool_decide_unpack _); vm_compute; exact I).
  rewrite Forall_forall in H. apply H, elem_of_seqZ. lia.
Qed.

Lemma group_plain v n : 0 ≤ n < 2 ^ 24 → Forall (λ b, is_plain b = true) (group_digits v n).
Proof.
  intros Hn. unfold group_digits.
  repeat apply Forall_cons_2; [..|done]; apply digit_plain; try (apply Z.mod_pos_bound; lia).
  split; [apply Z.div_pos; lia|]. apply Z.div_lt_upper_bound; lia.
Qed.

Lemma padding_plain v k : Forall (λ b, is_plain b = true) (padding_of v k).
Proof.
  unfold padding_of. destruct (lonejson__base64_is_raw v); [done|]. by induction k; constructor.
Qed.

Lemma base64_plain v data : is_bytes data → Forall (λ b, is_plain b = true) (rfc4648_encode v data).
Proof.
  induction data as [|a|a b|a b c l IH] using group_ind; cbn [rfc4648_encode]; [done|..];
    rewrite !Forall_cons; unfold is_byte; intros H; destruct_and? H;
    apply Forall_app; split; auto using padding_plain; try apply Forall_take; apply group_plain; lia.
Qed.

Lemma base64_items_ok data : is_bytes data → Forall item_ok (base64_items data).
Proof. intros H. apply Forall_map. eapply Forall_impl; [by apply base64_plain|done]. Qed.

Lemma leaf_string_ok items : Forall item_ok items → tree_ok (TLeaf (JStr items)).
Proof. intros H. eexists. by constructor. Qed.

Lemma leaf_bool_ok b : tree_ok (TLeaf (JBool b)).
Proof. destruct b; eexists; constructor. Qed.

(** ** Lists of trees *)

Lemma try_map_all {A} (tree_of : A → run (option tree)) items ts :
  try_map tree_of items = Done (Some ts) → Forall (λ a, ∀ t, tree_of a = Done (Some t) → tree_ok t) items →
  Forall tree_ok ts.
Proof.
  intros H Hall. revert ts H. induction Hall as [|a items Ha _ IH]; intros ts; [by intros [= <-]|].
  cbn [try_map]. intros ([t|] & Ht & H)%bind_done; [|done].
  apply bind_done in H as ([ts'|] & Hts & [= <-]). constructor; [by apply Ha|by apply IH].
Qed.

Lemma array_of_ok {A} (tree_of : A → run (option tree)) items t :
  array_of tree_of items = Done (Some t) → Forall (λ a, ∀ t, tree_of a = Done (Some t) → tree_ok t) items →
  tree_ok t.
Proof.
  unfold array_of. intros ([ts|] & Hts & [= <-])%bind_done Hall. apply tree_ok_arr.
  by eapply try_map_all.
Qed.

Lemma fields_tree_all tree_of omit fs ms :
  fields_tree tree_of omit fs = Done (Some ms) →
  Forall (λ f, is_bytes (json_key f) ∧ ∀ t, tree_of f = Done (Some t) → tree_ok t) fs →
  Forall (λ m, Forall item_ok (fst m) ∧ tree_ok (snd m)) ms.
Proof.
  intros H Hall. revert ms H. induction Hall as [|f fs [Hk Hf] _ IH]; intros ms; [by intros [= <-]|].
  cbn [fields_tree]. intros ([] & _ & H)%bind_done; [by apply IH|].
  apply bind_done in H as ([t|] & Ht & H); [|done].
  apply bind_done in H as ([ms'|] & Hms & [= <-]).
  constructor; [|by apply IH]. split; [by apply escaped_ok|by apply Hf].
Qed.

(** ** Records *)

Section record.
#[local] Set Default Proof Using "Type*".
Context {R : Type} (maps : map_ptr → lonejson_map) (fopen : bytes → c_file + Z) (fuel : nat).
Context (document : lonejson_json_value R → option json) (embeddable : Z → lonejson_json_value R → Prop).
Context (Hkeys : ∀ p f, f ∈ fields (maps p) → is_bytes (json_key f)).
Context (Hdocument : ∀ d v j, embeddable d v → document v = Some j → ∃ s, json_text j s).
#[local] Abbreviation cell_ok := (cell_ok fopen fuel embeddable).
#[local] Abbreviation value_tree := (value_tree maps fopen document).
Implicit Types (c : cell R) (field : lonejson_field).

Lemma string_leaf_ok text : is_bytes text → tree_ok (string_leaf text).
Proof. intros. by apply leaf_string_ok, escaped_ok, c_string_bytes. Qed.

Lemma integer_leaf_ok v : - 2 ^ 63 ≤ v < 2 ^ 64 → tree_ok (integer_leaf v).
Proof. intros. eexists. by constructor; apply decimal_number. Qed.

Lemma double_leaf_ok v t : double_cell v → double_leaf v = Some t → tree_ok t.
Proof.
  unfold double_leaf. destruct (lonejson__is_finite_f64 v) eqn:E; [|done]. intros Hv [= <-]. eexists.
  constructor. by apply printf_number, finite_valid.
Qed.

Lemma source_leaf_ok string_of s t :
  (∀ d, is_bytes d → Forall item_ok (string_of d)) →
  source_holds fopen s → source_fits fopen fuel s → source_leaf fopen string_of s = Some t → tree_ok t.
Proof.
  intros Hof Hs Hf. unfold source_leaf. destruct (decide _); [intros [= <-]; eexists; constructor|].
  destruct (source_content fopen s) as [d|] eqn:E; [|done]. intros [= <-].
  by eapply leaf_string_ok, Hof, source_content_fits.
Qed.

Lemma scalar_tree_ok d field c t :
  cell_ok d c → scalar_tree fopen document field c = Done (Some t) → tree_ok t.
Proof.
  unfold scalar_tree. intros Hc. destruct (kind field); try by intros [=].
  all: destruct c; try (by intros [=]); destruct Hc as [_ Hc]; try case_decide; try by intros [=].
  - intros [= <-]. destruct text; [by apply string_leaf_ok|eexists; constructor].
  - intros [= <-]. by apply string_leaf_ok.
  - intros [= <-]. by apply leaf_string_ok, escaped_ok, Hc.
  - intros [= <-]. apply leaf_string_ok, base64_items_ok, Hc.
  - intros [= H]. destruct Hc. by eapply (source_leaf_ok escaped); [apply escaped_ok|..].
  - intros [= H]. destruct Hc. by eapply (source_leaf_ok base64_items); [apply base64_items_ok|..].
  - destruct (document value) as [j|] eqn:E; [|done]. intros [= <-]. by eapply Hdocument.
  - intros [= <-]. apply integer_leaf_ok. lia.
  - intros [= <-]. apply integer_leaf_ok. lia.
  - intros [= H]. by eapply double_leaf_ok.
  - intros [= <-]. apply leaf_bool_ok.
Qed.

Lemma array_tree_ok d field c structs t :
  cell_ok d c → (∀ items t, c = CStructs items → structs = Done (Some t) → tree_ok t) →
  array_tree fopen document field c structs = Done (Some t) → tree_ok t.
Proof.
  intros Hc Hs H. pose proof (scalar_tree_ok d field c t Hc) as Hscalar.
  unfold array_tree in H. destruct (kind field); try by apply Hscalar.
  all: destruct c; try (by apply Hscalar); destruct Hc as [_ Hc]; try by eapply Hs.
  all: eapply array_of_ok; [exact H|]; try (eapply Forall_impl; [exact Hc|]); cbn.
  - intros s Hb t0 [= <-]. apply string_leaf_ok. by destruct s; [|repeat constructor].
  - intros v Hv t0 [= <-]. apply integer_leaf_ok. lia.
  - intros v Hv t0 [= <-]. apply integer_leaf_ok. lia.
  - intros v Hv t0 [= Ht]. by eapply double_leaf_ok.
  - apply Forall_forall. intros b _ t0 [= <-]. apply leaf_bool_ok.
Qed.

Definition tree_claim (d : Z) (c : cell R) : Prop := ∀ field t,
  value_tree field c = Done (Some t) → tree_ok t.

Lemma object_ok d submap (members : record R) t :
  Forall (λ m, tree_claim d (snd m)) members →
  object_of maps value_tree submap members = Done (Some t) → tree_ok t.
Proof.
  intros Hm. unfold object_of. destruct submap as [p|]; [|done].
  intros ([ms|] & Hms & [= <-])%bind_done. apply tree_ok_obj.
  eapply fields_tree_all; [exact Hms|]. apply Forall_forall. intros f Hf. split; [by eapply Hkeys|].
  intros t0 (m & Hin & Ht & _)%with_member_inv. rewrite Forall_forall in Hm. by eapply Hm.
Qed.

Lemma value_tree_ok d c : cell_ok d c → tree_claim d c.
Proof.
  revert d. induction c as [ms IH|items IH|c Hn1 Hn2] using cell_rect_nested; intros d Hc field t Ht.
  - pose proof (array_tree_ok d field (CStruct ms) Undefined t Hc) as Harr.
    destruct Hc as [_ Hc]. apply every_Forall in Hc. cbn [SerializerSpec.value_tree] in Ht.
    destruct (kind field); try by apply Harr.
    eapply (object_ok (d + 1)); [|exact Ht]. by apply (members_apply _ tree_claim _ _ IH), every_Forall.
  - eapply (array_tree_ok d field (CStructs items)); [done| |cbn in Ht; by destruct (kind field)].
    destruct Hc as [_ Hc]. apply every_Forall in Hc. intros items' t' [= <-] Ht'.
    eapply array_of_ok; [exact Ht'|]. apply Forall_forall. intros members Hin t0 Ht0.
    rewrite Forall_forall in IH, Hc. eapply (object_ok (d + 2)); [|exact Ht0].
    apply (members_apply _ tree_claim _ _ (IH members Hin)). by apply Hc.
  - eapply (array_tree_ok d field c Undefined); [done|by intros items t' ->; destruct (Hn2 items)|].
    destruct c; try (by edestruct Hn1); try (by edestruct Hn2); cbn in Ht; by destruct (kind field).
Qed.

Lemma record_tree_ok d p src t :
  record_ok fopen fuel embeddable d src → record_tree maps fopen document p src = Done (Some t) → tree_ok t.
Proof.
  intros Hs. apply (object_ok d). eapply Forall_impl; [exact Hs|]. cbn. intros m. apply value_tree_ok.
Qed.
End record.
