(* ===== verification/SerializerSinks.v ===== *)
(** * SerializerSinks: the consumers of the serializers

    The sinks the serializers are run with ([src/impl/23_serializer_io.h]) as
    consumers in the sense of [SerializerLogic]: a sink without a limit, the
    caller's buffer with its two policies, and the growing buffer.  Embedded JSON
    values reach a consumer through the transcoder, whose output on any consumer
    is known from [TranscodeSim]. *)

From stdpp Require Import base numbers list strings.
From Stdlib Require Import ZArith Lia Bool SpecFloat.
From S2P Require Import Prelude Runtime Heap ByteBuffer Source Unicode Number F64 JsonGrammar JsonCursor Walker Transcode TranscodeSpec TranscodeFrame TranscodeSim Writer WriterSpec SerializerIo Mapping Serializer SerializerLogic SerializerStreams SerializerSpec SerializerWalk.

(** ** Embedded values *)

(** The handle of an embedded value that the transcoder can be run on, indented or
    not, at a depth: [null], a captured text that is copied, or a text to parse.
    [document] is what it stands for. *)
Definition embeddable {R} (fopen : bytes → c_file + Z) (fuel : nat)
    (document : lonejson_json_value R → option json) (pretty : bool) (base : Z)
    (v : lonejson_json_value R) : Prop :=
  never_fails (jv_allocator v)
  ∧ (jv_kind v = LONEJSON_JSON_VALUE_NULL ∧ document v = Some JNull
     ∨ jv_kind v = LONEJSON_JSON_VALUE_BUFFER ∧ pretty = false
       ∧ (∃ d, document v = Some d ∧ (∃ s, json_text d s) ∧ take (Z.to_nat (jv_len v)) (default [] (jv_json v)) = render false 0 d)
     ∨ (pretty = true ∨ jv_kind v ≠ LONEJSON_JSON_VALUE_BUFFER)
       ∧ ∃ s, handle_text fopen v s ∧ is_bytes s ∧ transcodable base s ∧ (ref_fuel s ≤ fuel)%nat
              ∧ document v = ref_document s).

Section consumer.
#[local] Set Default Proof Using "Type*".
Context {U : Type} (Inv : U → bytes → Prop) (Passes : lonejson_status → bytes → Prop)
  (Refused : lonejson_status → U → bytes → Prop) `{!Consumer Inv Passes Refused}.
Context (sink : lonejson_sink_fn U).

(** The sink treats its consumer as described, whatever the error object holds. *)
Definition takes : Prop := ∀ u d e out,
  Inv u out → let '(st, u', e') := sink u d e in accepted Inv Passes Refused d out st u' e e'.

Context (Htakes : takes).

Lemma takes_delivers d : delivers Inv Passes Refused (λ u e, sink u d e) d.
Proof. intros u e out Hi _. by apply Htakes. Qed.

(** The consumer under the transcoder, whose allocator never fails. *)
Lemma consumer_collects :
  Collector sink (λ u a out _, Inv u out ∧ never_fails a) Passes (λ st u a p _, Refused st u p ∧ never_fails a).
Proof.
  constructor.
  - apply passes_on.
  - apply passes_more.
  - intros st u a p _ [H _]. by eapply refused_fails.
  - intros u a out _ d e [Hi Ha]. pose proof (Htakes u d e out Hi) as H.
    destruct (sink u d e) as [[st u'] e']. destruct H as [(Hp & -> & Hi')|Hr]; [by left|by right].
  - intros u a out on_stack old n [Hi Ha] Hn. unfold heap_of, put_heap. cbn.
    destruct (owned_realloc_ok a on_stack old n) as (a' & -> & Ha'); done.
  - intros u a out on_stack old [Hi Ha]. unfold heap_of, put_heap. cbn. split; [done|].
    by apply owned_free_never_fails.
  - intros st u a p on_stack old [Hi Ha]. unfold heap_of, put_heap. cbn. split; [done|].
    by apply owned_free_never_fails.
Qed.

#[local] Instance any_growth : Growth sink (λ _ _, True).
Proof. by split. Qed.
#[local] Instance collected_grows : Growth collect_sink prefix.
Proof using.
  split; [apply _| |done]. intros u d e. cbn. by apply prefix_app_r.
Qed.

Lemma embedded_writes {R} fopen fuel document pretty base (v : lonejson_json_value R) :
  embeddable fopen fuel document pretty base v →
  writes Inv Passes Refused
    (λ u e n, lonejson__json_transcode sink fopen fuel (Some v) u e pretty base n)
    (render pretty base <$> document v).
Proof.
  intros (Ha & Hv) u e n out Hi Hc. unfold lonejson__json_transcode.
  destruct Hv as [(Hk & ->)|[(Hk & -> & d & -> & _ & Ht)|(Hk & s & Ht & Hb & Htr & Hf & ->)]].
  - rewrite decide_True by done. pose proof (Htakes u (c_str "null") e out Hi) as H.
    destruct (sink u _ e) as [[st u'] e']. by eexists _, _, _.
  - rewrite decide_False by (by rewrite Hk). rewrite bool_decide_true by done. cbn [negb andb].
    rewrite Ht. pose proof (Htakes u (render false 0 d) e out Hi) as H.
    destruct (sink u _ e) as [[st u'] e']. eexists _, _, _. split; [done|]. cbn.
    by rewrite render_compact_depth.
  - rewrite decide_False by (intros E; unfold handle_text in Ht; by rewrite E in Ht).
    replace (negb pretty && _) with false.
    2:{ symmetry. apply andb_false_iff. destruct Hk as [->|Hk]; [by left|right]. by apply bool_decide_eq_false_2. }
    destruct (open_handle_text fopen v s e n Ht Hb (proj1 Htr)) as (c & n' & -> & Hcr & Hn).
    rewrite run_bind_done, decide_False by auto.
    pose proof (sim_transcode sink _ _ _ (Collector0 := consumer_collects) fuel c (jv_allocator v)
      fresh_allocator u out e pretty base (conj Hi Ha) fresh_never_fails) as Hsim.
    pose proof (transcode_cursor_document collect_sink fuel c fresh_allocator out e pretty base s Hcr
      fresh_never_fails Htr Hf) as Href. unfold transcoded, rejected in Href. unfold sim_run in Hsim.
    destruct (lonejson__json_transcode_cursor sink fuel (Some c) _ u e pretty base) as [[st io]| |] eqn:Er.
    2-3: exfalso; rewrite Hsim in Href; destruct (ref_document s); [by destruct Href as (? & ? & _)|by destruct Href as (? & ?)].
    rewrite run_bind_done. eexists st, (io_user io), (io_error io). split.
    { do 2 f_equal. rewrite cursor_close_closes.
      destruct (transcode_frame sink (λ _ _, True) _ _ _ _ _ _ _ _ _ Er) as [-> _]. exact Hn. }
    destruct Hsim as [(p & (Hr & _) & Hp)|(st2 & ioc & Hr & Hst & Hio)].
    + destruct (ref_document s) as [d|].
      2:{ destruct Href as (io' & Href). destruct (Hp _ _ Href) as [q Hq].
          destruct (transcode_frame collect_sink prefix _ _ _ _ _ _ _ _ _ Href) as [_ [q2 Hq2]]. cbn in Hq2.
          exists q2. right. rewrite <- Hq2, Hq. by apply refused_more. }
      destruct Href as (io' & Href & _ & Ho). right. specialize (Hp _ _ Href) as [q Hq]. cbn in Ho.
      rewrite <- Ho, Hq. by apply refused_more.
    + destruct Hio as [cu u' out' e' p b dd t l a a2 h pc lg pb [Hi' _] _]. cbn [io_user io_error] in *.
      destruct (ref_document s) as [d|].
      * destruct Href as (io' & Href & He & Ho). rewrite Hr in Href. injection Href as -> <-. cbn in He, Ho.
        subst e' out'. left. split_and!; [|done|done]. destruct Hst as [->|[Hp _]]; [apply passes_ok|exact Hp].
      * destruct (transcode_frame collect_sink prefix _ _ _ _ _ _ _ _ _ Hr) as [_ [q Hq]]. cbn in Hq. subst out'.
        destruct Href as (io' & Href). rewrite Hr in Href. injection Href as -> <-. exists q. left.
        split; [|done]. destruct Hst as [->|[_ ?]]; [by right; left|done].
Qed.
End consumer.

(** ** A sink without a limit *)

Definition passes_only_ok (st : lonejson_status) (_ : bytes) : Prop := st = LONEJSON_STATUS_OK.

Section lossless.
Context {U : Type} (sink : lonejson_sink_fn U) `{!LosslessSink sink}.

Definition lossless_inv (u : U) (out : bytes) : Prop := sink_out sink u = out.
Definition never_refused (_ : lonejson_status) (_ : U) (_ : bytes) : Prop := False.

#[export] Instance lossless_consumer : Consumer lossless_inv passes_only_ok never_refused.
Proof. by split; try by intros st ? ->. Qed.

Lemma lossless_takes : takes lossless_inv passes_only_ok never_refused sink.
Proof.
  intros u d e out <-. destruct (sink_lossless sink u d e) as (u' & -> & Ho). by left.
Qed.
End lossless.

(** ** The caller's buffer *)

Section fixed.
#[local] Set Default Proof Using "Type*".
Context (c : Z) (Hc : 0 < c ≤ SIZE_MAX).
Implicit Types (s : lonejson_buffer_sink).

(** *** With the policy [FAIL] *)

Definition exact_inv s (out : bytes) : Prop :=
  bs_written s = out ∧ bs_capacity s = c ∧ bs_needed s = zlen out ∧ zlen out < c ∧ bs_truncated s = false.

(** Refused at [q]: the buffer keeps a shorter text, and [needed] counts up to [q]. *)
Definition exact_refused (st : lonejson_status) s (p : bytes) : Prop :=
  st = LONEJSON_STATUS_OVERFLOW ∧ bs_capacity s = c ∧ bs_truncated s = true
  ∧ zlen (bs_written s) < c ∧ bs_written s `prefix_of` p
  ∧ ∃ q, q `prefix_of` p ∧ c ≤ zlen q ∧ bs_needed s = u64 (zlen q).

#[export] Instance exact_consumer : Consumer exact_inv passes_only_ok exact_refused.
Proof using.
  split.
  - done.
  - by intros st p ->.
  - done.
  - by intros st s p (-> & _).
  - intros st s p d (H1 & H2 & H3 & H4 & H5 & q & H6 & H7 & H8). split_and!; [done..|by apply prefix_app_r|].
    exists q. split_and!; [by apply prefix_app_r|done..].
Qed.

Lemma exact_takes : takes exact_inv passes_only_ok exact_refused lonejson__sink_buffer_exact.
Proof.
  intros s d e out (Hw & Hcap & Hn & Hlen & Htr). unfold lonejson__sink_buffer_exact, bs_writable, bs_available, bs_length.
  rewrite Hw, Hcap. pose proof (zlen_nonneg out). pose proof (zlen_nonneg d).
  replace (zlen out <? c) with true by lia. replace (0 <? c - zlen out) with true by lia.
  destruct (c - zlen out - 1 <? zlen d) eqn:E.
  - unfold set_error_in_place. destruct e as [e|]; right;
      (split_and!; [done|done|done|cbn; by rewrite Hw|cbn; rewrite Hw; by apply prefix_app_r|]);
      (exists (out ++ d); rewrite zlen_app; split_and!; [done|lia|cbn; by rewrite Hn]).
  - assert (u64 (zlen out + zlen d) = zlen (out ++ d)) as Hu
      by (rewrite zlen_app; apply u64_small; unfold is_u64; lia).
    destruct d as [|b d]; [left; rewrite app_nil_r in *; split_and!; try done; cbn; by rewrite Hn, Hu|].
    rewrite zlen_cons_nonzero. left. unfold exact_inv. split_and!; try done; cbn; rewrite ?Hw, ?Hn, ?Hu; try done.
    rewrite zlen_app. lia.
Qed.

(** *** Truncating *)

Context (policy : lonejson_overflow_policy) (Hpolicy : policy ≠ LONEJSON_OVERFLOW_FAIL).

Definition truncating_inv s (out : bytes) : Prop :=
  bs_written s = take (Z.to_nat (c - 1)) out ∧ bs_capacity s = c ∧ bs_needed s = u64 (zlen out)
  ∧ bs_truncated s = (c <=? zlen out) ∧ bs_policy s = policy.

Definition truncating_passes (st : lonejson_status) (p : bytes) : Prop :=
  st = LONEJSON_STATUS_OK ∨ st = LONEJSON_STATUS_TRUNCATED ∧ policy = LONEJSON_OVERFLOW_TRUNCATE ∧ c ≤ zlen p.

#[export] Instance truncating_consumer : Consumer truncating_inv truncating_passes never_refused.
Proof using.
  split.
  - by left.
  - by intros st p [->|[-> _]].
  - intros st p d [->|(-> & H1 & H2)]; [by left|right]. split_and!; [done..|].
    rewrite zlen_app. pose proof (zlen_nonneg d). lia.
  - done.
  - done.
Qed.

Lemma truncating_takes : takes truncating_inv truncating_passes never_refused lonejson__sink_buffer.
Proof.
  intros s d e out (Hw & Hcap & Hn & Htr & Hp). unfold lonejson__sink_buffer, bs_writable, bs_available, bs_length.
  set (k := Z.min (c - 1) (zlen out)).
  assert (zlen (bs_written s) = k) as Hk by (rewrite Hw; unfold zlen, k; rewrite length_take; unfold zlen; lia).
  rewrite Hk, Hcap. pose proof (zlen_nonneg out). pose proof (zlen_nonneg d).
  replace (k <? c) with true by lia. replace (0 <? c - k) with true by lia.
  replace (u64 (bs_needed s + zlen d)) with (u64 (zlen (out ++ d))) by (by rewrite Hn, u64_add_l, zlen_app).
  set (copy := if zlen d <? c - k - 1 then zlen d else c - k - 1).
  assert (take (Z.to_nat (c - 1)) (out ++ d) = take (Z.to_nat (c - 1)) out ++ take (Z.to_nat copy) d) as Htake.
  { rewrite take_app. f_equal. destruct (zlen d <? c - k - 1) eqn:E; unfold copy, k, zlen in *.
    - rewrite !take_ge by lia. done.
    - f_equal. lia. }
  set (s1 := if 0 <? copy then _ else _).
  assert (bs_written s1 = take (Z.to_nat (c - 1)) (out ++ d) ∧ bs_capacity s1 = c
          ∧ bs_needed s1 = u64 (zlen (out ++ d)) ∧ bs_truncated s1 = bs_truncated s ∧ bs_policy s1 = policy)
    as (Hw1 & Hc1 & Hn1 & Ht1 & Hp1).
  { rewrite Htake. subst s1. destruct (0 <? copy) eqn:E; cbn; rewrite ?Hw; split_and!; try done.
    replace (Z.to_nat copy) with 0%nat by lia. by rewrite app_nil_r. }
  destruct (c - k - 1 <? zlen d) eqn:E.
  - cbn [bs_set_truncated bs_policy]. rewrite Hp1, decide_False by done.
    assert (c ≤ zlen (out ++ d)) as Hfull by (rewrite zlen_app; unfold k in *; lia).
    left. split; [|split; [done|]].
    + destruct (decide (policy = LONEJSON_OVERFLOW_TRUNCATE)); [right; by split_and!|by left].
    + split_and!; cbn; [done..| |done]. lia.
  - left. split; [by left|]. split; [done|]. split_and!; [done..| |done]. rewrite Ht1, Htr, zlen_app.
    unfold k in *. lia.
Qed.
End fixed.

(** ** The growing buffer

    [m] is the limit on the output; the heap was [a0] before the buffer. *)

Section growing.
#[local] Set Default Proof Using "Type*".
Context (m : Z) (a0 : lonejson_allocator) (Hm : 0 < m < SIZE_MAX).
Implicit Types (s : lonejson_buffer_sink).

Definition growing_block s : Prop :=
  bs_max_bytes s = m ∧ 0 ≤ bs_capacity s ≤ SIZE_MAX ∧ bs_alloc_size s = bs_capacity s
  ∧ (if bs_null s then bs_capacity s = 0 ∧ bs_written s = [] else zlen (bs_written s) < bs_capacity s)
  ∧ same_callbacks a0 (bs_allocator s)
  ∧ live_blocks (bs_allocator s) = shift (one_if (negb (bs_null s))) (live_blocks a0).

Definition growing_inv s (out : bytes) : Prop := growing_block s ∧ bs_written s = out ∧ zlen out ≤ m.

Definition growing_refused (st : lonejson_status) s (p : bytes) : Prop :=
  (st = LONEJSON_STATUS_OVERFLOW ∧ m < zlen p ∨ st = LONEJSON_STATUS_ALLOCATION_FAILED ∧ ¬ never_fails a0)
  ∧ growing_block s.

#[export] Instance growing_consumer : Consumer growing_inv passes_only_ok growing_refused.
Proof using.
  split.
  - done.
  - by intros st p ->.
  - done.
  - by intros st s p [[[-> _]|[-> _]] _].
  - intros st s p d [[[-> Hp]|?] Hb]; (split; [|done]); [left|by right]. split; [done|].
    rewrite zlen_app. pose proof (zlen_nonneg d). lia.
Qed.

(** Making room for [n] bytes more and the terminator. *)
Lemma grow_block_spec s out n e :
  growing_inv s out → 0 < n → zlen out + n ≤ m → bs_capacity s < zlen out + n + 1 →
  let '(st, s', e') := grow_block s (zlen out + n + 1) e in
  (st = LONEJSON_STATUS_OK ∧ e' = e ∧ bs_null s' = false ∧ growing_inv s' out ∧ zlen out + n + 1 ≤ bs_capacity s')
  ∨ (st = LONEJSON_STATUS_ALLOCATION_FAILED ∧ ¬ never_fails a0 ∧ growing_block s').
Proof.
  intros ((Hmax & Hcap & Hsize & Hnull & Hcb & Hlive) & Hw & Hlen) Hn Hfit Hroom.
  unfold grow_block. rewrite Hmax. replace (negb (m =? 0)) with true by lia.
  rewrite (u64_small (m + 1)) by (unfold is_u64; lia). replace (m + 1 =? 0) with false by lia. cbn [andb negb].
  unfold grow_next_cap. pose proof (zlen_nonneg out).
  destruct (grow_cap_64 (if bs_capacity s =? 0 then 2048 else bs_capacity s) (zlen out + n + 1)) as [Hg1 Hg2];
    [case_if; lia|lia|].
  set (k := grow_cap 64 _ _) in *. set (k' := if m + 1 <? k then m + 1 else k).
  assert (zlen out + n + 1 ≤ k' ≤ SIZE_MAX) as Hk' by (subst k'; case_if; lia).
  pose proof (buffer_realloc_blocks (bs_allocator s) (bs_null s) (bs_alloc_size s) k') as Hr.
  destruct (lonejson__buffer_realloc _ _ _ k') as [ok a]. destruct Hr as (Hcb' & Hl' & Hfail).
  assert (same_callbacks a0 a) as Hcb2 by by eapply same_callbacks_trans.
  destruct ok; cbn [negb].
  - left. split_and!; [done|done|done| |cbn; lia]. split; [|done].
    split_and!; cbn; try done; try lia.
    + rewrite Hw. lia.
    + rewrite Hl', Hlive, shift_shift. f_equal. by destruct (bs_null s).
  - destruct (lonejson__set_error _ _ _ _ _ _) as [st e'] eqn:Es.
    assert (st = LONEJSON_STATUS_ALLOCATION_FAILED) as ->.
    { apply (f_equal fst) in Es. by rewrite set_error_fst in Es. }
    right. split; [done|]. split.
    + intros Ha. apply Hfail; [done|]. by eapply same_callbacks_never_fails.
    + split_and!; cbn; try done; try lia. rewrite Hl', Hlive, shift_shift. f_equal. by destruct (bs_null s).
Qed.

(** The tests before the growth. *)
Lemma grow_refused_spec s out d :
  growing_inv s out →
  match grow_refused s (zlen d) with
  | Some _ => m < zlen (out ++ d)
  | None => zlen out + zlen d ≤ m
  end.
Proof.
  intros ((Hmax & _) & Hw & Hlen). unfold grow_refused, bs_length. rewrite Hw, Hmax, zlen_app.
  pose proof (zlen_nonneg out). pose proof (zlen_nonneg d).
  replace (negb (m =? 0)) with true by lia. cbn [andb]. repeat case_if; lia.
Qed.

Lemma growing_put s out d :
  growing_inv s out → bs_null s = false → zlen out + zlen d + 1 ≤ bs_capacity s → zlen out + zlen d ≤ m →
  growing_inv (bs_put s d) (out ++ d).
Proof.
  intros ((Hmax & Hcap & Hsize & Hnull & Hcb & Hlive) & Hw & Hlen) Hn Hroom Hfit. rewrite Hn in *.
  split; [|split; [cbn; by rewrite Hw|rewrite zlen_app; lia]].
  split_and!; cbn; rewrite ?Hn; try done; try lia. rewrite Hw, zlen_app. lia.
Qed.

Lemma growing_needed n s out : growing_inv s out → growing_inv (bs_set_needed n s) out.
Proof. done. Qed.

(** The growth, whichever of the two functions asks for it, and the copy. *)
Lemma grow_and_put s out d e (k : lonejson_buffer_sink → lonejson_buffer_sink) :
  growing_inv s out → d ≠ [] → zlen out + zlen d ≤ m → (∀ s out, growing_inv s out → growing_inv (k s) out) →
  let '(st, s', e') :=
    let '(st, s, e) := if bs_capacity s <? bs_length s + zlen d + 1
                       then grow_block s (bs_length s + zlen d + 1) e else (LONEJSON_STATUS_OK, s, e) in
    if decide (st ≠ LONEJSON_STATUS_OK) then (st, s, e) else (LONEJSON_STATUS_OK, k (bs_put s d), e) in
  accepted growing_inv passes_only_ok growing_refused d out st s' e e'.
Proof.
  intros Hi Hd Hfit Hk. assert (0 < zlen d) as Hpos.
  { destruct d as [|b d]; [done|]. rewrite zlen_cons. pose proof (zlen_nonneg d). lia. }
  unfold bs_length. assert (bs_written s = out) as -> by apply Hi.
  destruct (bs_capacity s <? zlen out + zlen d + 1) eqn:E.
  - pose proof (grow_block_spec s out (zlen d) e Hi Hpos Hfit ltac:(lia)) as H.
    destruct (grow_block s _ e) as [[st s1] e1].
    destruct H as [(-> & -> & Hn & Hi1 & Hroom)|(-> & Ha & Hb)].
    + rewrite decide_False by auto. left. split; [done|]. split; [done|]. by apply Hk, growing_put.
    + rewrite decide_True by done. right. split; [by right|done].
  - rewrite decide_False by auto. left. split; [done|]. split; [done|]. apply Hk, growing_put; [done| |lia|done].
    destruct Hi as ((_ & _ & _ & Hn & _) & _). destruct (bs_null s); [|done].
    pose proof (zlen_nonneg out). destruct Hn as [Hn _]. lia.
Qed.

Lemma growing_takes : takes growing_inv passes_only_ok growing_refused lonejson__sink_grow.
Proof.
  intros s d e out Hi. unfold lonejson__sink_grow. destruct d as [|b d]; [left; rewrite app_nil_r; by split_and!|].
  rewrite zlen_cons_nonzero. pose proof (grow_refused_spec s out (b :: d) Hi) as Hr.
  destruct (grow_refused s (zlen (b :: d))) as [message|].
  - unfold set_error_in_place. destruct e as [e|]; right; (split; [by left|by apply Hi]).
  - apply (grow_and_put s out (b :: d) e (λ s, bs_set_needed (bs_length s) s)); [done|done|done|].
    intros s' out'. apply growing_needed.
Qed.

Lemma buffer_emit_grow_takes : takes growing_inv passes_only_ok growing_refused (λ s d e, lonejson__buffer_emit_grow d s e).
Proof.
  intros s d e out Hi. unfold lonejson__buffer_emit_grow. set (s1 := bs_set_needed _ s).
  assert (growing_inv s1 out) as Hi1 by by apply growing_needed.
  destruct d as [|b d]; [left; rewrite app_nil_r; by split_and!|].
  rewrite zlen_cons_nonzero. unfold lonejson__buffer_reserve_grow.
  pose proof (grow_refused_spec s1 out (b :: d) Hi1) as Hr.
  destruct (grow_refused s1 (zlen (b :: d))) as [message|].
  - unfold set_error_in_place. destruct e as [e|]; right; (split; [by left|by apply Hi1]).
  - pose proof (grow_and_put s1 out (b :: d) e id Hi1 ltac:(done) Hr ltac:(done)) as H.
    cbv zeta in H |- *. rewrite (Z.leb_antisym (bs_capacity s1)).
    by destruct (bs_capacity s1 <? bs_length s1 + zlen (b :: d) + 1).
Qed.
End growing.

(** ** The buffer copies of the walk *)

Lemma exact_emits c (Hc : 0 < c ≤ SIZE_MAX) :
  Emits (exact_inv c) passes_only_ok (exact_refused c) exact_emitters.
Proof.
  pose proof (takes_delivers _ _ _ _ (exact_takes c Hc)) as Hs.
  assert (∀ d, delivers (exact_inv c) passes_only_ok (exact_refused c) (lonejson__buffer_emit_exact d) d) as He
    by exact Hs.
  assert (StopTest passes_only_ok status_not_ok) as Hst by (split; [by intros []|by intros st p ->]).
  assert (∀ t, is_bytes t → delivers (exact_inv c) passes_only_ok (exact_refused c)
            (lonejson__buffer_emit_escaped_bytes_exact t) (quoted (escaped t))) as Hesc.
  { intros t Ht. unfold lonejson__buffer_emit_escaped_bytes_exact, quoted.
    apply (delivers_seq _ _ _ _ _ _ [34]); [exact Hst|apply He|].
    apply (delivers_seq _ _ _); [exact Hst| |apply He].
    exact (escape_loop_delivers _ _ _ _ _ [] t Hst He Ht). }
  split; cbn.
  - done.
  - apply He.
  - intros t Ht. by apply Hesc, c_string_bytes.
  - done.
  - intros v Hv. unfold lonejson__buffer_emit_i64_value_exact. by apply (integer_delivers _ _ _).
  - intros v Hv. unfold lonejson__buffer_emit_u64_value_exact, decimal_text.
    replace (v <? 0) with false by lia. apply He.
  - intros v Hv. by apply (double_delivers _ _ _).
  - apply Hs.
Qed.

Lemma grow_emits m a0 (Hm : 0 < m < SIZE_MAX) :
  Emits (growing_inv m a0) passes_only_ok (growing_refused m a0) grow_emitters.
Proof.
  pose proof (takes_delivers _ _ _ _ (growing_takes m a0 Hm)) as Hs.
  destruct (sink_emits _ _ _ lonejson__sink_grow Hs) as [_ _ H3 H4 H5 H6 H7 H8]. cbn in *.
  split; cbn; try done.
  - split; [by intros []|by intros st p ->].
  - apply (takes_delivers _ _ _ _ (buffer_emit_grow_takes m a0 Hm)).
Qed.
