(* ===== verification/SerializerProps.v ===== *)
(** * SerializerProps: what the serializing entry points return

    The entry points over a sink, a caller's buffer and an owned buffer
    ([src/impl/30_api.h]), for one record and for lines of records.  The text they
    produce is that of the records' trees ([SerializerSpec]), which is JSON; a
    record without a tree is refused. *)

From stdpp Require Import base numbers list strings.
From Stdlib Require Import ZArith Lia Bool SpecFloat.
From S2P Require Import Prelude Runtime Heap ByteBuffer Source Spooled Base64 Unicode Number F64 JsonGrammar JsonCursor Transcode TranscodeSpec Writer WriterSpec SerializerIo Mapping Serializer SerializerLogic SerializerStreams SerializerSpec SerializerWalk SerializerTrees SerializerSinks.

(** ** Answers *)

(** A buffer of [c] bytes with the policy [FAIL]: the whole text, or a prefix of it.
    Without a text, [sure] was written before the walk was rejected, or does not fit. *)
Definition exact_answer (c : Z) (sure : bytes) (text : option bytes) (e e' : error_ptr)
    (st : lonejson_status) (written : option (bytes * Z)) : Prop :=
  ∃ kept needed, written = Some (kept ++ [0], needed) ∧ zlen kept < c ∧
  match text with
  | Some d =>
      if zlen d <? c then st = LONEJSON_STATUS_OK ∧ kept = d ∧ needed = zlen d ∧ e' = lonejson__clear_error e
      else st = LONEJSON_STATUS_OVERFLOW ∧ kept `prefix_of` d
           ∧ ∃ q, q `prefix_of` d ∧ c ≤ zlen q ∧ needed = u64 (zlen q)
  | None =>
      unserializable st ∧ sure `prefix_of` kept ∧ needed = zlen kept
      ∨ st = LONEJSON_STATUS_OVERFLOW ∧ (kept `prefix_of` sure ∨ sure `prefix_of` kept)
  end.

(** One with another policy: what fits, and the length of the whole; the error
    object is cleared when all of it fits.  (When the text is cut, lonejson.h wants
    [truncated] set in the error object; nothing is stated of it.)  Without a text,
    what fits of [sure] and of the part written before the walk was rejected. *)
Definition truncated_answer (c : Z) (policy : lonejson_overflow_policy) (sure : bytes)
    (text : option bytes) (e e' : error_ptr) (st : lonejson_status) (written : option (bytes * Z)) : Prop :=
  ∃ kept needed, written = Some (kept ++ [0], needed) ∧ zlen kept < c ∧
  match text with
  | Some d =>
      kept = take (Z.to_nat (c - 1)) d ∧ needed = u64 (zlen d)
      ∧ (zlen d < c → e' = lonejson__clear_error e)
      ∧ st = (if (c <=? zlen d) && bool_decide (policy = LONEJSON_OVERFLOW_TRUNCATE)
              then LONEJSON_STATUS_TRUNCATED else LONEJSON_STATUS_OK)
  | None =>
      unserializable st
      ∧ ∃ p, kept = take (Z.to_nat (c - 1)) (sure ++ p) ∧ needed = u64 (zlen (sure ++ p))
  end.

(** An owned buffer of at most [m] bytes from the heap [a]: the text, or nothing; no
    block is lost. *)
Definition owned_answer (m : Z) (a : lonejson_allocator) (text : option bytes) (e e' : error_ptr)
    (st : lonejson_status) (b : lonejson_owned_buffer) : Prop :=
  let too_long d := st = LONEJSON_STATUS_OVERFLOW ∧ m < zlen d in
  let no_memory := st = LONEJSON_STATUS_ALLOCATION_FAILED ∧ ¬ never_fails a in
  let nothing := ob_data b = None ∧ ob_len b = 0 ∧ ob_alloc_size b = 0 in
  live_blocks (ob_allocator b) = shift (one_if (bool_decide (is_Some (ob_data b)))) (live_blocks a)
  ∧ live_blocks (ob_allocator (lonejson_owned_buffer_free b)) = live_blocks a
  ∧ match text with
    | Some d =>
        st = LONEJSON_STATUS_OK ∧ zlen d ≤ m ∧ ob_len b = zlen d ∧ e' = lonejson__clear_error e
          ∧ (d ≠ [] → ob_data b = Some (d ++ [0]) ∧ zlen d < ob_alloc_size b)
        ∨ (too_long d ∨ no_memory) ∧ nothing
    | None => (unserializable st ∨ st = LONEJSON_STATUS_OVERFLOW ∨ no_memory) ∧ nothing
    end.

Lemma clear_calm e : calm (lonejson__clear_error e).
Proof. apply clear_error_idem. Qed.

(** What an emitter gives that is sure to give [sure] even when it has no text. *)
Definition outcome_after {U} (Inv : U → bytes → Prop) (Passes : lonejson_status → bytes → Prop)
    (Refused : lonejson_status → U → bytes → Prop) (sure : bytes) (text : option bytes) (out : bytes) :
    lonejson_status → U → error_ptr → error_ptr → Prop :=
  outcome Inv Passes Refused text (match text with Some _ => out | None => out ++ sure end).

Definition writes_after {U} (Inv : U → bytes → Prop) (Passes : lonejson_status → bytes → Prop)
    (Refused : lonejson_status → U → bytes → Prop) (m : emitter U) (sure : bytes)
    (text : option bytes) : Prop :=
  ∀ u e n out, Inv u out → calm e →
  ∃ st u' e', m u e n = Done (st, u', e', n) ∧ outcome_after Inv Passes Refused sure text out st u' e e'.

(** A call that clears the error and then gives its consumer [text]. *)
Definition ends {U} (Inv : U → bytes → Prop) (Passes : lonejson_status → bytes → Prop)
    (Refused : lonejson_status → U → bytes → Prop) (m : emitter U) (sure : bytes)
    (text : option bytes) : Prop :=
  ∀ u e n out, Inv u out →
  ∃ st u' e', m u e n = Done (st, u', e', n)
    ∧ outcome_after Inv Passes Refused sure text out st u' (lonejson__clear_error e) e'.

Lemma writes_after_nil {U} Inv Passes Refused (m : emitter U) text :
  writes Inv Passes Refused m text → writes_after Inv Passes Refused m [] text.
Proof.
  intros Hm u e n out Hi Hc. destruct (Hm u e n out Hi Hc) as (st & u' & e' & H & Ho).
  exists st, u', e'. split; [exact H|]. unfold outcome_after. rewrite app_nil_r. by destruct text.
Qed.

(** A part that is written in full, and one after it. *)
Lemma writes_after_then {U} Inv Passes Refused `{!Consumer (U := U) Inv Passes Refused}
    (stop : lonejson_status → bool) m k d sure text :
  StopTest Passes stop → writes Inv Passes Refused m (Some d) → writes_after Inv Passes Refused k sure text →
  writes_after Inv Passes Refused (emit_then stop m k) (d ++ sure) (both (Some d) text).
Proof.
  intros Hs Hm Hk u e n out Hi Hc. destruct (Hm u e n out Hi Hc) as (st & u1 & e1 & H & Ho).
  unfold emit_then. rewrite H, run_bind_done. cbn [id]. destruct Ho as [(Hp & -> & Hi1)|Hr].
  - rewrite (stop_passes st _ Hp). destruct (Hk u1 e n _ Hi1 Hc) as (st2 & u2 & e2 & -> & Ho2).
    eexists _, _, _. split; [done|]. unfold outcome_after in *.
    destruct text as [d2|]; [by apply outcome_next|]. cbn. by rewrite app_assoc.
  - rewrite (stop_fails st) by by eapply refused_fails. eexists _, _, _. split; [done|].
    unfold outcome_after. destruct text as [d2|]; [by apply accepted_mono|].
    exists []. right. rewrite app_nil_r, app_assoc. by apply refused_more.
Qed.

Section answers.
Context (options : lonejson__write_options) (e e' : error_ptr) (n : Z) (sure : bytes) (text : option bytes)
  (st : lonejson_status) (s : lonejson_buffer_sink).

Lemma fixed_written c : 0 < c → bs_capacity s = c → zlen (bs_written s) < c →
  (if bs_length s <? bs_capacity s then bs_written s
   else take (Z.to_nat (bs_capacity s - 1)) (bs_written s)) = bs_written s.
Proof. intros Hc -> Hw. unfold bs_length. by replace (_ <? c) with true by lia. Qed.

Lemma exact_start c : 0 < c → exact_inv c (fixed_sink c options) [].
Proof. intros Hc. split_and!; try done. Qed.

Lemma exact_result c :
  0 < c ≤ SIZE_MAX →
  outcome_after (exact_inv c) passes_only_ok (exact_refused c) sure text [] st s (lonejson__clear_error e) e' →
  let '(st', w, e'', n') := buffer_result LONEJSON_OVERFLOW_FAIL (st, s, e', n) in
  n' = n ∧ exact_answer c sure text e e'' st' w.
Proof.
  intros Hc Ho. unfold buffer_result. rewrite decide_False by (intros (_ & _ & ?); done).
  split; [done|]. unfold exact_answer.
  assert (∀ out, exact_inv c s out → bs_written s = out ∧ zlen out < c ∧ bs_needed s = zlen out ∧ bs_capacity s = c)
    as Hinv by (by intros out (-> & ? & ? & ? & _)).
  unfold outcome_after, outcome, accepted in Ho. destruct text as [d|]; cbn [app] in Ho.
  - destruct Ho as [(-> & -> & Hi)|(-> & Hcap & _ & Hw & Hp & q & Hq & Hcq & Hn)].
    + destruct (Hinv _ Hi) as (Hw & Hlen & Hn & Hcap). rewrite (fixed_written c) by (rewrite ?Hw; lia).
      exists d, (zlen d). rewrite Hw, Hn. replace (zlen d <? c) with true by lia. by split_and!.
    + rewrite (fixed_written c) by lia. eexists _, _. split; [done|]. split; [done|].
      assert (zlen q ≤ zlen d) by (destruct Hq as [r ->]; rewrite zlen_app; pose proof (zlen_nonneg r); lia).
      replace (zlen d <? c) with false by lia. split; [done|]. split; [done|]. eauto.
  - destruct Ho as [p [[Hu Hi]|(-> & Hcap & _ & Hw & Hp & _)]].
    + destruct (Hinv _ Hi) as (Hw & Hlen & Hn & Hcap). rewrite (fixed_written c) by (rewrite ?Hw; lia).
      eexists _, _. split; [done|]. rewrite Hw. split; [done|left].
      split_and!; [done|by exists p|done].
    + rewrite (fixed_written c) by lia. eexists _, _. split; [done|]. split; [done|right].
      split; [done|]. eapply prefix_weak_total; [exact Hp|by exists p].
Qed.

Lemma truncating_start c :
  0 < c → truncating_inv c (wo_overflow_policy options) (fixed_sink c options) [].
Proof.
  intros Hc. unfold truncating_inv. cbn. change (zlen []) with 0.
  replace (c <=? 0) with false by lia. by rewrite take_nil.
Qed.

Lemma truncating_result c policy :
  0 < c ≤ SIZE_MAX → policy ≠ LONEJSON_OVERFLOW_FAIL →
  outcome_after (truncating_inv c policy) (truncating_passes c policy) never_refused sure text [] st s (lonejson__clear_error e) e' →
  let '(st', w, e'', n') := buffer_result policy (st, s, e', n) in
  n' = n ∧ truncated_answer c policy sure text e e'' st' w.
Proof.
  intros Hc Hpol Ho. unfold buffer_result.
  assert (∀ out, truncating_inv c policy s out →
    (if bs_length s <? bs_capacity s then bs_written s
     else take (Z.to_nat (bs_capacity s - 1)) (bs_written s)) = take (Z.to_nat (c - 1)) out
    ∧ bs_needed s = u64 (zlen out) ∧ bs_truncated s = (c <=? zlen out) ∧ zlen (take (Z.to_nat (c - 1)) out) < c)
    as Hinv.
  { intros out (Hw & Hcap & Hn & Ht & _).
    assert (zlen (take (Z.to_nat (c - 1)) out) < c) by (unfold zlen; rewrite length_take; lia).
    split_and!; try done. rewrite <- Hw. apply (fixed_written c); [lia|done|by rewrite Hw]. }
  unfold truncated_answer. unfold outcome_after, outcome, accepted in Ho. destruct text as [d|]; cbn [app] in Ho.
  - destruct Ho as [(Hp & -> & Hi)|[]]. destruct (Hinv _ Hi) as (-> & Hn & Ht & Hlen). split; [done|].
    eexists _, _. split; [done|]. split; [done|]. rewrite Hn, Ht. split_and!; [done..|].
    destruct (c <=? zlen d) eqn:E; cbn [andb]; destruct Hp as [->|(-> & -> & Hl)]; try lia.
    + destruct (bool_decide_reflect (policy = LONEJSON_OVERFLOW_TRUNCATE)) as [->|Hp].
      * by rewrite decide_True by done.
      * by rewrite decide_False by (intros (_ & _ & ?); done).
    + by rewrite decide_False by (intros (? & _); done).
    + by rewrite decide_False by (intros (_ & ? & _); done).
  - destruct Ho as [p [[Hu Hi]|[]]]. destruct (Hinv _ Hi) as (-> & Hn & Ht & Hlen). split; [done|].
    eexists _, _. split; [done|]. split; [done|].
    rewrite decide_False by (intros (-> & _); by apply unserializable_fails in Hu).
    split; [done|]. by exists p.
Qed.

Lemma growing_start m :
  0 < m → m = lonejson__write_max_output_bytes options →
  growing_inv m (wo_allocator options) (growing_sink options) [].
Proof.
  intros Hm ->. split; [|split; [done|rewrite zlen_nil; lia]]. unfold growing_block. cbn. split_and!; try done.
  by rewrite shift_0.
Qed.

(** A block that is freed, or never was. *)
Lemma growing_freed m a :
  growing_block m a s →
  live_blocks (lonejson__buffer_free (bs_allocator s) (bs_null s) (bs_alloc_size s)) = live_blocks a.
Proof.
  intros (_ & _ & _ & _ & _ & Hl). destruct (buffer_free_blocks (bs_allocator s) (bs_null s) (bs_alloc_size s))
    as [_ ->]. rewrite Hl, shift_shift. etrans; [|apply shift_0]. apply shift_blocks. lia.
Qed.

(** A failed walk leaves no block. *)
Lemma growing_failed m a : growing_block m a s → status_fails st = true →
  let '(st', b, e'', n') := owned_result (st, s, e', n) in
  n' = n ∧ st' = st ∧ e'' = e'
  ∧ live_blocks (ob_allocator b) = shift (one_if (bool_decide (is_Some (ob_data b)))) (live_blocks a)
  ∧ live_blocks (ob_allocator (lonejson_owned_buffer_free b)) = live_blocks a
  ∧ ob_data b = None ∧ ob_len b = 0 ∧ ob_alloc_size b = 0.
Proof.
  intros Hb Hf. unfold owned_result. rewrite Hf. cbn. rewrite (growing_freed m a Hb), shift_0. by split_and!.
Qed.

Lemma growing_result m a :
  outcome_after (growing_inv m a) passes_only_ok (growing_refused m a) sure text [] st s (lonejson__clear_error e) e' →
  let '(st', b, e'', n') := owned_result (st, s, e', n) in n' = n ∧ owned_answer m a text e e'' st' b.
Proof.
  intros Ho. unfold outcome_after, outcome, accepted in Ho. destruct (status_fails st) eqn:Hf.
  - assert (growing_block m a s ∧ match text with
      | Some d => st = LONEJSON_STATUS_OVERFLOW ∧ m < zlen d
                  ∨ st = LONEJSON_STATUS_ALLOCATION_FAILED ∧ ¬ never_fails a
      | None => unserializable st ∨ st = LONEJSON_STATUS_OVERFLOW
                ∨ st = LONEJSON_STATUS_ALLOCATION_FAILED ∧ ¬ never_fails a
      end) as [Hb Hst].
    { destruct text as [d|].
      - destruct Ho as [(-> & _)|[Hr Hb]]; [done|]. by split.
      - destruct Ho as [p [[Hu [Hb _]]|[Hr Hb]]]; (split; [done|]); [by left|]. right.
        destruct Hr as [[-> _]|Hr]; [by left|by right]. }
    pose proof (growing_failed m a Hb Hf) as Hres.
    destruct (owned_result (st, s, e', n)) as [[[st' b] e''] n'].
    destruct Hres as (-> & -> & -> & H1 & H2 & H3). split; [done|]. split; [done|]. split; [done|].
    destruct text; [right|]; by split.
  - unfold owned_result. rewrite Hf. destruct text as [d|]; cbn [app] in Ho.
    2:{ destruct Ho as [p [[Hu _]|Hr]]; [by rewrite unserializable_fails in Hf|].
        by rewrite (refused_fails st s _ Hr) in Hf. }
    destruct Ho as [(-> & -> & Hb & Hw & Hlen)|Hr]; [|by rewrite (refused_fails st s _ Hr) in Hf].
    split; [done|]. pose proof (growing_freed m a Hb) as Hfree. destruct Hb as (_ & _ & Hsize & Hnull & _ & Hlive).
    unfold owned_answer. cbn. rewrite Hlive.
    destruct (bs_null s) eqn:En; cbn in Hfree |- *; (split; [done|]); (split; [done|]); left.
    + destruct Hnull as [_ Hnil]. rewrite Hnil in Hw. subst d. unfold bs_length. rewrite Hnil. by split_and!.
    + unfold bs_length. rewrite Hw in *. split_and!; try done. intros _. rewrite Hsize. split_and!; [done|lia].
Qed.
End answers.

(** What follows the walk. *)

Lemma fixed_answer options c m sure text e n :
  0 < c ≤ SIZE_MAX →
  (wo_overflow_policy options = LONEJSON_OVERFLOW_FAIL → ends (exact_inv c) passes_only_ok (exact_refused c) m sure text) →
  (wo_overflow_policy options ≠ LONEJSON_OVERFLOW_FAIL →
   ends (truncating_inv c (wo_overflow_policy options)) (truncating_passes c (wo_overflow_policy options))
     never_refused m sure text) →
  ∃ st w e', (r ← m (fixed_sink c options) e n; Done (buffer_result (wo_overflow_policy options) r))
             = Done (st, w, e', n)
    ∧ (if bool_decide (wo_overflow_policy options = LONEJSON_OVERFLOW_FAIL) then exact_answer c
       else truncated_answer c (wo_overflow_policy options)) sure text e e' st w.
Proof.
  intros Hc Hexact Htrunc. case_bool_decide as Hp.
  - destruct (Hexact Hp (fixed_sink c options) e n [] (exact_start options c (proj1 Hc))) as (st & u & e' & -> & Ho).
    rewrite run_bind_done, Hp. pose proof (exact_result e e' n sure text st u c Hc Ho) as H.
    destruct (buffer_result _ _) as [[[st' w] e''] n']. destruct H as [-> H]. by eexists _, _, _.
  - destruct (Htrunc Hp (fixed_sink c options) e n [] (truncating_start options c (proj1 Hc))) as (st & u & e' & -> & Ho).
    rewrite run_bind_done. pose proof (truncating_result e e' n sure text st u c _ Hc Hp Ho) as H.
    destruct (buffer_result _ _) as [[[st' w] e''] n']. destruct H as [-> H]. by eexists _, _, _.
Qed.

Lemma grown_answer options m max sure text e n :
  max = lonejson__write_max_output_bytes options → 0 < max →
  ends (growing_inv max (wo_allocator options)) passes_only_ok (growing_refused max (wo_allocator options)) m sure text →
  ∃ st b e', (r ← m (growing_sink options) e n; Done (owned_result r)) = Done (st, b, e', n)
    ∧ owned_answer max (wo_allocator options) text e e' st b.
Proof.
  intros Hmax Hpos Hm. destruct (Hm (growing_sink options) e n [] (growing_start options max Hpos Hmax))
    as (st & u & e' & -> & Ho).
  rewrite run_bind_done. pose proof (growing_result e e' n sure text st u max (wo_allocator options) Ho) as H.
  destruct (owned_result _) as [[[st' b] e''] n']. destruct H as [-> H]. by eexists _, _, _.
Qed.

(** ** The entry points *)

Section api.
#[local] Set Default Proof Using "Type*".
Context {R : Type} (sizeof : lonejson_field_kind → Z) (maps : map_ptr → lonejson_map).
Context (fopen : bytes → c_file + Z) (fuel : nat) (document : lonejson_json_value R → option json).

(** A map the library accepts, with keys that are byte strings. *)
Definition valid_map (p : map_ptr) : Prop :=
  lonejson__map_layout_is_valid sizeof maps fuel (Some p) = Done true
  ∧ ∀ p f, f ∈ fields (maps p) → is_bytes (json_key f).

(** An embedded value is transcoded at its depth, or at depth 0 when compact. *)
Definition embedded_ok (pretty : bool) (d : Z) : lonejson_json_value R → Prop :=
  embeddable fopen fuel document pretty (if pretty then d else 0).

(** A record whose members hold what a caller may put there, and its tree. *)
Definition record_fits (pretty : bool) (p : map_ptr) (src : record R) (t : option tree) : Prop :=
  record_ok fopen fuel (embedded_ok pretty) 1 src ∧ record_tree maps fopen document p src = Done t.

(** Records one after the other, each on a line. *)
Fixpoint lines_text (pretty : bool) (ts : list (option tree)) : option bytes :=
  match ts with
  | [] => Some []
  | t :: ts => both (tree_text pretty 0 <$> t) (both (Some [10]) (lines_text pretty ts))
  end.

(** The lines before the first record without a tree. *)
Fixpoint lines_before (pretty : bool) (ts : list (option tree)) : bytes :=
  match ts with
  | Some t :: ts => tree_text pretty 0 t ++ [10] ++ lines_before pretty ts
  | _ => []
  end.

Lemma embedded_json pretty d v j :
  embedded_ok pretty d v → document v = Some j → ∃ s, json_text j s.
Proof.
  intros (_ & [(_ & ->)|[(_ & _ & d' & -> & Hs & _)|(_ & s & _ & _ & _ & _ & ->)]]).
  - intros [= <-]. eexists. constructor.
  - by intros [= <-].
  - intros (w1 & s' & w2 & _ & _ & Hs & _)%ref_document_iff. eauto.
Qed.

Lemma fits_tree_ok pretty p src t :
  valid_map p → record_fits pretty p src (Some t) → tree_ok t.
Proof.
  intros [_ Hk] [Hs Ht]. eapply (record_tree_ok maps fopen fuel document (embedded_ok pretty) Hk); [|done..].
  intros. by eapply embedded_json.
Qed.

(** *** The walks *)

Section walks.
Context {U : Type} (Inv : U → bytes → Prop) (Passes : lonejson_status → bytes → Prop)
  (Refused : lonejson_status → U → bytes → Prop) `{!Consumer Inv Passes Refused}.
#[local] Abbreviation writes := (writes Inv Passes Refused).
#[local] Abbreviation writes_after := (writes_after Inv Passes Refused).
#[local] Abbreviation ends := (ends Inv Passes Refused).

Lemma table_writes em `{!Emits Inv Passes Refused em} p src t :
  takes Inv Passes Refused (em_sink em) → valid_map p → record_fits false p src t →
  writes (serialize_map maps fopen fuel em p src) (tree_text false 0 <$> t).
Proof.
  intros Htakes [_ Hk] [Hs Ht]. eapply (map_writes Inv Passes Refused maps fopen fuel document Hk (embedded_ok false));
    [apply _| |done|done].
  intros d v Hv. by apply embedded_writes.
Qed.

Lemma sink_writes sink pretty p src t :
  takes Inv Passes Refused sink → valid_map p → record_fits pretty p src t →
  writes (if pretty then lonejson__serialize_map_pretty maps fopen fuel sink true 0 p src
          else lonejson__serialize_map_compact maps fopen fuel sink p src) (tree_text pretty 0 <$> t).
Proof.
  intros Htakes Hm Hf. pose proof (takes_delivers _ _ _ _ Htakes) as Hd. destruct pretty.
  - destruct Hm as [_ Hk], Hf as [Hs Ht].
    apply (map_pretty_writes Inv Passes Refused maps fopen fuel document Hk (embedded_ok true)); [done| |done|done].
    intros d v Hv _. by apply embedded_writes.
  - apply table_writes; [by apply sink_emits|done..].
Qed.

Lemma checked_source_ends (k : map_ptr → record R → emitter U) p src t :
  valid_map p → writes (k p src) t → ends (checked_source sizeof maps fuel (Some p) (Some src) k) [] t.
Proof.
  intros [Hl _] Hk%writes_after_nil u e n out Hi. cbn [checked_source]. rewrite Hl, run_bind_done. by apply Hk, clear_calm.
Qed.

(** Lines: [write] does one record. *)
Lemma records_writes (stop : lonejson_status → bool) (emit : record R → emitter U) newline pretty records ts :
  StopTest Passes stop → writes newline (Some [10]) →
  Forall2 (λ src t, writes (emit src) (tree_text pretty 0 <$> t)) records ts →
  writes_after (records_loop stop emit newline records) (lines_before pretty ts) (lines_text pretty ts).
Proof.
  intros Hst Hn. induction 1 as [|src [t|] records ts Hs _ IH].
  - apply writes_after_nil, (writes_nothing _ _ _).
  - cbn [records_loop lines_text lines_before]. apply (writes_after_then _ _ _); [done..|].
    by apply (writes_after_then _ _ _).
  - intros u e n out Hi Hc. destruct (Hs u e n out Hi Hc) as (st & u1 & e1 & H & Ho).
    cbn [records_loop]. unfold emit_then at 1. rewrite H, run_bind_done. cbn [id].
    destruct (outcome_stops _ _ _ _ _ _ _ _ _ Ho) as [[Hf _]|(? & ? & _)]; [|done].
    rewrite (stop_fails st Hf). eexists _, _, _. split; [done|].
    unfold outcome_after. cbn [lines_before lines_text]. by rewrite app_nil_r.
Qed.

Lemma checked_lines_ends validate (k : map_ptr → list (record R) → emitter U) p items count stride sure t :
  valid_map p → (stride = 0 ∨ struct_size (maps p) ≤ stride) →
  writes_after (k p (take (Z.to_nat count) items)) sure t →
  ends (checked_lines sizeof maps fuel validate (Some p) (Some items) count stride k) sure t.
Proof.
  intros [Hl _] Hstride Hk u e n out Hi. unfold checked_lines. rewrite bool_decide_false, andb_false_r by done.
  replace (negb (stride =? 0) && (stride <? struct_size (maps p))) with false by lia.
  replace (if validate then _ else _) with (Done true) by by destruct validate.
  rewrite run_bind_done. by apply Hk, clear_calm.
Qed.

Lemma serialize_sink_ends sink pretty p src t :
  takes Inv Passes Refused sink → valid_map p → record_fits pretty p src t →
  ends (lonejson__serialize_sink_with_options sizeof maps fopen fuel (Some p) (Some src) sink pretty)
    [] (tree_text pretty 0 <$> t).
Proof. intros Ht Hm Hf. apply checked_source_ends; [done|]. by apply sink_writes. Qed.

Lemma sink_line_writes sink : takes Inv Passes Refused sink → writes (lift (λ u e, sink u [10] e)) (Some [10]).
Proof. intros Ht. apply (writes_lift _ _ _). by apply takes_delivers. Qed.

Lemma jsonl_sink_ends sink pretty p items count stride ts :
  takes Inv Passes Refused sink → valid_map p → (stride = 0 ∨ struct_size (maps p) ≤ stride) →
  Forall2 (record_fits pretty p) (take (Z.to_nat count) items) ts →
  ends (lonejson__serialize_jsonl_sink_with_options sizeof maps fopen fuel (Some p) (Some items) count stride
          sink pretty) (lines_before pretty ts) (lines_text pretty ts).
Proof.
  intros Ht Hm Hstride Hf. apply checked_lines_ends; [done..|].
  pose proof (λ src t, sink_writes sink pretty p src t Ht Hm) as Hw.
  destruct pretty; (apply records_writes; [apply _|by apply sink_line_writes|]); by eapply Forall2_impl.
Qed.
End walks.

(** C5: serializing a record to a sink without a limit appends exactly the text of
    its tree, compact or indented, with the error object cleared and every stream
    closed; a record without a tree is answered by a failure.  The text is JSON for
    the record's value, and the compact text is its one compact rendering. *)
Theorem serialize_sink_text {U} (sink : lonejson_sink_fn U) `{!LosslessSink sink} pretty p src t u e n :
  valid_map p → record_fits pretty p src t →
  ∃ st u' e', lonejson__serialize_sink_with_options sizeof maps fopen fuel (Some p) (Some src) sink pretty u e n
              = Done (st, u', e', n)
    ∧ match t with
      | Some t =>
          st = LONEJSON_STATUS_OK ∧ e' = lonejson__clear_error e
          ∧ sink_out sink u' = sink_out sink u ++ tree_text pretty 0 t
          ∧ json_text (tree_json t) (tree_text pretty 0 t)
          ∧ (pretty = false → tree_text pretty 0 t = render false 0 (tree_json t))
      | None => unserializable st ∧ ∃ p, sink_out sink u' = sink_out sink u ++ p
      end.
Proof.
  intros Hm Hf.
  destruct (serialize_sink_ends _ _ _ sink pretty p src t (lossless_takes sink) Hm Hf u e n _ eq_refl)
    as (st & u' & e' & H & Ho).
  exists st, u', e'. split; [exact H|]. unfold outcome_after, outcome, accepted, lossless_inv in Ho.
  destruct t as [t|]; cbn [fmap option_fmap option_map] in Ho.
  - destruct Ho as [(-> & -> & Hw)|[]]. split_and!; [done..| |].
    + apply tree_text_json. by eapply fits_tree_ok.
    + intros ->. apply tree_text_compact.
  - rewrite app_nil_r in Ho. destruct Ho as [d [[Hu Hw]|[]]]. eauto.
Qed.

(** C10: serializing into a caller's buffer.  With the policy [FAIL] the buffer gets
    the whole text with its terminator and [needed] is its length, when it fits;
    otherwise the answer is [OVERFLOW] and the buffer holds a prefix.  With the other
    policies it gets the first [capacity - 1] bytes, [needed] is the length of the
    whole text, and the status is [TRUNCATED] when the text was cut and the policy
    asks for it.  When the whole text fits the error object is cleared; when it was
    cut under a permissive policy nothing is stated of the error object, which the
    code leaves without the documented [truncated] flag.  The terminator is always
    inside the buffer, and every stream is closed. *)
Theorem serialize_buffer_text options p src t c e n :
  0 < c ≤ SIZE_MAX → valid_map p → record_fits (wo_pretty options) p src t →
  ∃ st w e', lonejson__serialize_buffer_with_options sizeof maps fopen fuel (Some p) (Some src) c options e n
             = Done (st, w, e', n)
    ∧ (if bool_decide (wo_overflow_policy options = LONEJSON_OVERFLOW_FAIL) then exact_answer c
       else truncated_answer c (wo_overflow_policy options)) [] (tree_text (wo_pretty options) 0 <$> t) e e' st w.
Proof.
  intros Hc Hm Hf. unfold lonejson__serialize_buffer_with_options. replace (c =? 0) with false by lia.
  apply fixed_answer; [done|intros Hp; rewrite bool_decide_true by done|intros Hp; rewrite bool_decide_false by done];
    cbn [andb]; [destruct (wo_pretty options); cbn [negb]|].
  - apply (serialize_sink_ends _ _ _); [by apply exact_takes|done..].
  - apply (checked_source_ends _ _ _); [done|].
    apply (table_writes _ _ _); [by apply exact_emits|by apply exact_takes|done..].
  - apply (serialize_sink_ends _ _ _); [by apply truncating_takes|done..].
Qed.

(** C11: serializing into an owned buffer, under any allocator.  The buffer is the
    whole text and its terminator unless the text is longer than the configured
    maximum or the allocator refused; then, and when the record has no tree, there
    is no buffer.  Whatever happens no block is lost: as many live blocks as before,
    and the buffer's, which freeing it gives back. *)
Theorem serialize_owned_text options p src t e n :
  wo_valid_allocator options = true → 0 < lonejson__write_max_output_bytes options < SIZE_MAX →
  valid_map p → record_fits (wo_pretty options) p src t →
  ∃ st b e', lonejson__serialize_owned_with_options sizeof maps fopen fuel (Some p) (Some src) options e n
             = Done (st, b, e', n)
    ∧ owned_answer (lonejson__write_max_output_bytes options) (wo_allocator options)
        (tree_text (wo_pretty options) 0 <$> t) e e' st b.
Proof.
  intros Ha Hmax Hm Hf. unfold lonejson__serialize_owned_with_options. rewrite Ha. cbn [negb].
  apply (grown_answer _ _ _ []); [done|lia|]. destruct (wo_pretty options); cbn [negb].
  - apply (serialize_sink_ends _ _ _); [by apply growing_takes|done..].
  - apply (checked_source_ends _ _ _); [done|].
    apply (table_writes _ _ _); [by apply grow_emits|by apply growing_takes|done..].
Qed.

(** C25: JSON lines.  Serializing an array of records gives each record's text and a
    newline, in order, under the same rules in a caller's buffer and in an owned
    buffer.  When a record has no tree the call fails; a caller's buffer has then
    been given the lines of all the records before the first such record, in full or
    as far as they fit, and there is no owned buffer. *)
Theorem serialize_lines_text options p items count stride ts c e n :
  0 < c ≤ SIZE_MAX → wo_valid_allocator options = true →
  0 < lonejson__write_max_output_bytes options < SIZE_MAX →
  valid_map p → (stride = 0 ∨ struct_size (maps p) ≤ stride) →
  Forall2 (record_fits (wo_pretty options) p) (take (Z.to_nat count) items) ts →
  (∃ st w e', lonejson__serialize_jsonl_buffer_with_options sizeof maps fopen fuel (Some p) (Some items) count stride
                c options e n = Done (st, w, e', n)
     ∧ (if bool_decide (wo_overflow_policy options = LONEJSON_OVERFLOW_FAIL) then exact_answer c
        else truncated_answer c (wo_overflow_policy options)) (lines_before (wo_pretty options) ts)
         (lines_text (wo_pretty options) ts) e e' st w)
  ∧ (∃ st b e', lonejson__serialize_jsonl_owned_with_options sizeof maps fopen fuel (Some p) (Some items) count stride
                  options e n = Done (st, b, e', n)
     ∧ owned_answer (lonejson__write_max_output_bytes options) (wo_allocator options)
         (lines_text (wo_pretty options) ts) e e' st b).
Proof.
  intros Hc Ha Hmax Hm Hstride Hf. split.
  - unfold lonejson__serialize_jsonl_buffer_with_options. replace (c =? 0) with false by lia.
    apply fixed_answer; [done|intros Hp; rewrite bool_decide_true by done|intros Hp; rewrite bool_decide_false by done];
      cbn [andb]; [destruct (wo_pretty options); cbn [negb]|].
    + apply (jsonl_sink_ends _ _ _); [by apply exact_takes|done..].
    + apply (checked_lines_ends _ _ _); [done..|]. apply (records_writes _ _ _); [by split; [intros []|intros st d ->]|..].
      * apply (writes_lift _ _ _). by apply (takes_delivers _ _ _ _ (exact_takes c Hc)).
      * eapply Forall2_impl; [exact Hf|]. intros src t Hst.
        apply (table_writes _ _ _); [by apply exact_emits|by apply exact_takes|done..].
    + apply (jsonl_sink_ends _ _ _); [by apply truncating_takes|done..].
  - unfold lonejson__serialize_jsonl_owned_with_options. rewrite Ha. cbn [negb].
    apply (grown_answer _ _ _ (lines_before (wo_pretty options) ts)); [done|lia|]. destruct (wo_pretty options); cbn [negb].
    + apply (jsonl_sink_ends _ _ _); [by apply growing_takes|done..].
    + apply (checked_lines_ends _ _ _); [done..|]. apply (records_writes _ _ _); [by split; [intros []|intros st d ->]|..].
      * apply (writes_lift _ _ _). by apply (takes_delivers _ _ _ _ (buffer_emit_grow_takes _ _ Hmax)).
      * eapply Forall2_impl; [exact Hf|]. intros src t Hst.
        apply (table_writes _ _ _); [by apply grow_emits|by apply growing_takes|done..].
Qed.
End api.

(** ** A record

    Two maps: the second is that of the nested objects. *)

Definition demo_field (key : string) (offset : Z) (k : lonejson_field_kind) (sub : option map_ptr) : lonejson_field :=
  mk_field (c_str key) offset k LONEJSON_STORAGE_DYNAMIC LONEJSON_OVERFLOW_FAIL 0 0 0 sub 0.

Definition demo_fields : list lonejson_field :=
  [demo_field "name" 0 LONEJSON_FIELD_KIND_STRING None;
   demo_field "n" 8 LONEJSON_FIELD_KIND_I64 None;
   demo_field "ratio" 16 LONEJSON_FIELD_KIND_F64 None;
   demo_field "at" 24 LONEJSON_FIELD_KIND_OBJECT (Some 1%nat);
   demo_field "all" 32 LONEJSON_FIELD_KIND_OBJECT_ARRAY (Some 1%nat);
   demo_field "more" 56 LONEJSON_FIELD_KIND_JSON_VALUE None].

Definition demo_maps (p : map_ptr) : lonejson_map :=
  match p with
  | O => mk_map 128 demo_fields
  | _ => mk_map 8 [demo_field "x" 0 LONEJSON_FIELD_KIND_U64 None]
  end.

Definition demo_sizeof (_ : lonejson_field_kind) : Z := 24.
Definition demo_nofile (_ : bytes) : c_file + Z := inr 2.
Definition demo_document (_ : lonejson_json_value unit) : option json := Some JNull.

Definition demo_record : record unit :=
  [(0, CPointer (Some (c_str "a b" ++ [10; 0]))); (8, CI64 (-7));
   (16, CF64 (S754_finite false 6755399441055744 (-52)));
   (24, CStruct [(0, CU64 5)]); (32, CStructs [[(0, CU64 6)]; [(0, CU64 7)]]);
   (56, CJson (mk_json_value LONEJSON_JSON_VALUE_NULL None 0 0 None None None None fresh_allocator))].

Definition demo_leaf (n : string) : tree := TLeaf (JNum (c_str n)).
Definition demo_tree : tree :=
  let key s := map Plain (c_str s) in
  let at_x n := TObj [(key "x"%string, demo_leaf n)] in
  TObj [(key "name"%string, TLeaf (JStr (key "a b"%string ++ [Esc "n"%ch])));
        (key "n"%string, demo_leaf "-7"); (key "ratio"%string, demo_leaf "1.5");
        (key "at"%string, at_x "5"%string); (key "all"%string, TArr [at_x "6"%string; at_x "7"%string]);
        (key "more"%string, TEmbedded JNull)].

Example demo_compact :
  tree_text false 0 demo_tree
  = map (λ b, if b =? 39 then 34 else b)
      (c_str "{'name':'a b\n','n':-7,'ratio':1.5,'at':{'x':5},'all':[{'x':6},{'x':7}],'more':null}").
Proof. vm_compute. reflexivity. Qed.

Lemma demo_map : valid_map demo_sizeof demo_maps 100 0%nat.
Proof.
  split; [vm_compute; reflexivity|]. intros [|p] f Hf; cbn [demo_maps fields] in Hf.
  - assert (Forall (λ f, is_bytes (json_key f)) demo_fields) as H
      by (apply (bool_decide_unpack _); vm_compute; exact I).
    rewrite Forall_forall in H. by apply H.
  - apply list_elem_of_singleton in Hf as ->. apply (bool_decide_unpack _). vm_compute. exact I.
Qed.

Lemma demo_fits pretty : record_fits demo_maps demo_nofile 100 demo_document pretty 0%nat demo_record (Some demo_tree).
Proof.
  split; [|vm_compute; reflexivity].
  repeat (apply Forall_cons_2); [..|done].
  all: cbn; (split; [unfold depth_fits; lia|]).
  - apply (bool_decide_unpack _). vm_compute. exact I.
  - lia.
  - vm_compute. reflexivity.
  - unfold depth_fits. lia.
  - unfold depth_fits. lia.
  - split; [exact fresh_never_fails|]. by left.
Qed.

Definition demo_options (policy : lonejson_overflow_policy) (pretty : bool) : lonejson__write_options :=
  mk_write_options policy pretty true fresh_allocator 0.

Lemma serialize_sink_text_witness :
  ∃ st u' e', lonejson__serialize_sink_with_options demo_sizeof demo_maps demo_nofile 100 (Some 0%nat)
                (Some demo_record) collect_sink true [] None 0 = Done (st, u', e', 0)
    ∧ (st = LONEJSON_STATUS_OK ∧ e' = None
       ∧ u' = tree_text true 0 demo_tree
       ∧ json_text (tree_json demo_tree) (tree_text true 0 demo_tree)
       ∧ (true = false → tree_text true 0 demo_tree = render false 0 (tree_json demo_tree))).
Proof.
  exact (serialize_sink_text demo_sizeof demo_maps demo_nofile 100 demo_document collect_sink true 0%nat
    demo_record (Some demo_tree) [] None 0 demo_map (demo_fits true)).
Defined.

Lemma serialize_buffer_text_witness :
  ∃ st w e', lonejson__serialize_buffer_with_options demo_sizeof demo_maps demo_nofile 100 (Some 0%nat)
               (Some demo_record) 10 (demo_options LONEJSON_OVERFLOW_TRUNCATE false) None 0 = Done (st, w, e', 0)
    ∧ truncated_answer 10 LONEJSON_OVERFLOW_TRUNCATE [] (Some (tree_text false 0 demo_tree)) None e' st w.
Proof.
  destruct (serialize_buffer_text demo_sizeof demo_maps demo_nofile 100 demo_document
    (demo_options LONEJSON_OVERFLOW_TRUNCATE false) 0%nat demo_record (Some demo_tree) 10 None 0)
    as (st & w & e' & H & Ha); [split; [reflexivity|discriminate]|exact demo_map|apply demo_fits|].
  exists st, w, e'. split; [exact H|]. rewrite bool_decide_false in Ha by discriminate. exact Ha.
Defined.

Lemma serialize_owned_text_witness :
  ∃ st b e', lonejson__serialize_owned_with_options demo_sizeof demo_maps demo_nofile 100 (Some 0%nat)
               (Some demo_record) (demo_options LONEJSON_OVERFLOW_FAIL true) None 0 = Done (st, b, e', 0)
    ∧ owned_answer LONEJSON_WRITE_MAX_OUTPUT_BYTES fresh_allocator (Some (tree_text true 0 demo_tree)) None e' st b.
Proof.
  apply (serialize_owned_text demo_sizeof demo_maps demo_nofile 100 demo_document
    (demo_options LONEJSON_OVERFLOW_FAIL true) 0%nat demo_record (Some demo_tree) None 0).
  - reflexivity.
  - split; reflexivity.
  - exact demo_map.
  - apply demo_fits.
Defined.

Lemma serialize_lines_text_witness :
  ∃ st w e', lonejson__serialize_jsonl_buffer_with_options demo_sizeof demo_maps demo_nofile 100 (Some 0%nat)
               (Some [demo_record; demo_record]) 2 128 1000 (demo_options LONEJSON_OVERFLOW_FAIL false) None 0
             = Done (st, w, e', 0)
    ∧ exact_answer 1000 (lines_before false [Some demo_tree; Some demo_tree])
        (lines_text false [Some demo_tree; Some demo_tree]) None e' st w.
Proof.
  destruct (serialize_lines_text demo_sizeof demo_maps demo_nofile 100 demo_document
    (demo_options LONEJSON_OVERFLOW_FAIL false) 0%nat [demo_record; demo_record] 2 128
    [Some demo_tree; Some demo_tree] 1000 None 0) as [(st & w & e' & H & Ha) _];
    [split; [reflexivity|discriminate]|reflexivity|split; reflexivity|exact demo_map|right; discriminate| |].
  - repeat (apply Forall2_cons_2; [apply (demo_fits false)|]). apply Forall2_nil_2.
  - exists st, w, e'. split; [exact H|]. rewrite bool_decide_true in Ha by reflexivity. exact Ha.
Defined.

(** ** Observations *)

(** The text is cut silently, and the error object does not tell: its [truncated]
    flag stays clear. *)
Lemma silent_truncation_unmarked :
  let r := lonejson__serialize_buffer_with_options demo_sizeof demo_maps demo_nofile 100 (Some 0%nat)
             (Some demo_record) 10 (demo_options LONEJSON_OVERFLOW_TRUNCATE_SILENT false) (Some error_zero) 0 in
  match r with
  | Done (st, Some (w, needed), Some e, _) =>
      st = LONEJSON_STATUS_OK ∧ zlen w = 10 ∧ 10 < needed ∧ truncated e = false
  | _ => False
  end.
Proof. vm_compute. by split_and!. Qed.
