(* ===== verification/WriterLogic.v ===== *)
(** * WriterLogic: reasoning about writer calls

    [runs inv m s u Q]: from writer state [s] and sink user [u], whatever the error
    object, the step [m] keeps the invariant [inv] of the sink's user and ends with
    a status, a state and a user that satisfy [Q].  One rule per construct of
    [Writer]. *)

From stdpp Require Import base numbers list strings.
From Stdlib Require Import ZArith Lia Bool.
From S2P Require Import Prelude Runtime ByteBuffer Writer.

(** What the writer needs of its sink.  A call takes all the bytes ([OK]), or
    takes nothing and says so ([TRUNCATED]), or fails, which it may only when
    [may_fail] holds.  A [ready] sink does not say [TRUNCATED]; an unblocked sink
    is ready, and still ready after one byte.  In sink mode every sink counts as
    unblocked, so the interface leaves out the sinks that say [TRUNCATED] there:
    the repetition of a call is documented for generators only. *)
Class WriterSink {U : Type} (sink : lonejson_sink_fn U) (blocked : U → bool)
    (mode : lonejson__writer_mode) (may_fail : Prop) := {
  sink_inv : U → Prop;
  taken : U → bytes;
  ready : U → Prop;
  sink_step : ∀ u d e,
    sink_inv u →
    let '(st, u', _) := sink u d (Some e) in
    sink_inv u' ∧
    ((st = LONEJSON_STATUS_OK ∧ taken u' = taken u ++ d)
    ∨ (st = LONEJSON_STATUS_TRUNCATED ∧ ¬ ready u ∧ taken u' = taken u)
    ∨ (status_fails st = true ∧ may_fail));
  unblocked_ready : ∀ u, (mode = LONEJSON__WRITER_MODE_GENERATOR → blocked u = false) → ready u;
  unblocked_byte : ∀ u b e,
    sink_inv u →
    (mode = LONEJSON__WRITER_MODE_GENERATOR → blocked u = false) →
    let '(st, u', _) := sink u [b] (Some e) in st = LONEJSON_STATUS_OK → ready u'
}.
Arguments sink_inv {U} sink {blocked mode may_fail _} _.
Arguments taken {U} sink {blocked mode may_fail _} _.
Arguments ready {U} sink {blocked mode may_fail _} _.

Section logic.
Context {U : Type} {inv : U → Prop}.
Implicit Types (s : lonejson__writer_state) (u : U).

#[local] Abbreviation W := (step lonejson_writer U).
#[local] Abbreviation post := (lonejson_status → lonejson__writer_state → U → Prop).

Definition runs (m : W) s u (Q : post) : Prop :=
  ∀ c, w_state (self c) = Some s → user c = u → inv u →
  inv (user (snd (m c))) ∧ ∃ s', w_state (self (snd (m c))) = Some s' ∧ Q (fst (m c)) s' (user (snd (m c))).

Lemma runs_mono m s u (Q Q' : post) :
  runs m s u Q → (∀ st s' u', Q st s' u' → Q' st s' u') → runs m s u Q'.
Proof.
  intros H HQ c Hs Hu Hi. destruct (H c Hs Hu Hi) as (? & s' & ? & ?). split; [done|]. exists s'. auto.
Qed.

Lemma runs_ok s u (Q : post) : Q LONEJSON_STATUS_OK s u → runs ok s u Q.
Proof. intros H c Hs <- Hi. split; [done|]. by exists s. Qed.

Lemma runs_seq m k s u (Q : post) :
  runs m s u (λ st s' u', if decide (st = LONEJSON_STATUS_OK) then runs k s' u' Q else Q st s' u') →
  runs (m &> k) s u Q.
Proof.
  intros H c Hs Hu Hi. destruct (H c Hs Hu Hi) as (Hi' & s' & Hs' & HQ). unfold and_then.
  destruct (m c) as [st c']. cbn [fst snd] in *. destruct (decide (st = LONEJSON_STATUS_OK)); [by apply HQ|].
  split; [done|]. by exists s'.
Qed.

Lemma runs_update f s u (Q : post) : Q LONEJSON_STATUS_OK (f s) u → runs (update f) s u Q.
Proof. intros H c Hs <- Hi. split; [done|]. cbn. rewrite Hs. by eexists. Qed.

Lemma runs_with_state k s u (Q : post) : runs (k s) s u Q → runs (with_state k) s u Q.
Proof. intros H c Hs Hu. unfold with_state. rewrite Hs. by apply H. Qed.

Lemma runs_set_error st m s u (Q : post) : Q st s u → runs (lonejson__writer_set_error st m) s u Q.
Proof.
  intros H c Hs <- Hi. unfold lonejson__writer_set_error, fail_with. destruct (error c); cbn.
  all: split; [done|]; by exists s.
Qed.

Lemma runs_refuse b st m k s u (Q : post) :
  (b = true → Q st s u) → (b = false → runs k s u Q) → runs (refuse b st m k) s u Q.
Proof. destruct b; intros H1 H2; cbn; [apply runs_set_error|]; auto. Qed.

Lemma runs_unless_blocked (blocked : U → bool) mode k s u (Q : post) :
  ws_mode s = mode →
  ((mode = LONEJSON__WRITER_MODE_GENERATOR → blocked u = false) → runs k s u Q) →
  Q LONEJSON_STATUS_TRUNCATED s u →
  runs (unless_blocked blocked k) s u Q.
Proof.
  intros Hm Hk HQ c Hs Hu Hi. unfold unless_blocked, lonejson__writer_output_blocked. rewrite Hs, Hm, Hu.
  destruct mode.
  - by apply Hk.
  - destruct (blocked u) eqn:E; [|by apply Hk]. subst u. split; [done|]. exists s. by subst.
Qed.

End logic.
Arguments runs {U} inv m s u Q.

Section emit.
Context {U : Type} (sink : lonejson_sink_fn U) (blocked : U → bool).
Context (mode : lonejson__writer_mode) (may_fail : Prop) `{!WriterSink sink blocked mode may_fail}.
Implicit Types (s : lonejson__writer_state) (u : U).

#[local] Abbreviation post := (lonejson_status → lonejson__writer_state → U → Prop).
#[local] Abbreviation runs := (runs (sink_inv sink)).
#[local] Abbreviation taken := (taken sink).
#[local] Abbreviation ready := (ready sink).

#[local] Set Default Proof Using "Type*".

(** Emitting a chunk. *)
Lemma runs_emit d s u (Q : post) :
  (∀ u', taken u' = taken u ++ d → Q LONEJSON_STATUS_OK s u') →
  (∀ u', ¬ ready u → taken u' = taken u → Q LONEJSON_STATUS_TRUNCATED s u') →
  (∀ st u', status_fails st = true → may_fail → Q st (set_failed s) u') →
  runs (lonejson__writer_emit sink d) s u Q.
Proof.
  intros Hok Ht Hf c Hs <- Hi. unfold lonejson__writer_emit.
  destruct (zlen d =? 0) eqn:E0.
  { split; [done|]. exists s. split; [done|]. apply Hok.
    assert (d = []) as -> by (destruct d; [done|rewrite zlen_cons in E0; pose proof (zlen_nonneg d); lia]).
    by rewrite app_nil_r. }
  unfold with_state. rewrite Hs. pose proof (sink_step (user c) d (default (w_error (self c)) (error c)) Hi) as H.
  destruct (sink (user c) d _) as [[st u'] e']. destruct H as [Hi' H].
  assert (Q st (if status_fails st then set_failed s else s) u') as HQ.
  { destruct H as [[-> H]|[(-> & Hr & H)|[Hst Hm]]]; cbn; [by apply Hok|by apply Ht|].
    rewrite Hst. by apply Hf. }
  destruct (error c); cbn; (split; [done|]); eexists; (split; [done|]); exact HQ.
Qed.

(** Emitting a chunk into a ready sink. *)
Lemma runs_emit_ready d s u (Q : post) :
  ready u →
  (∀ u', taken u' = taken u ++ d → Q LONEJSON_STATUS_OK s u') →
  (∀ st u', status_fails st = true → may_fail → Q st (set_failed s) u') →
  runs (lonejson__writer_emit sink d) s u Q.
Proof. intros Hr Hok Hf. apply runs_emit; [done| |done]. intros u' Hn. done. Qed.

(** A byte into an unblocked sink leaves it ready. *)
Lemma runs_emit_byte b s u (Q : post) :
  (mode = LONEJSON__WRITER_MODE_GENERATOR → blocked u = false) →
  (∀ u', taken u' = taken u ++ [b] → ready u' → Q LONEJSON_STATUS_OK s u') →
  (∀ st u', status_fails st = true → may_fail → Q st (set_failed s) u') →
  runs (lonejson__writer_emit sink [b]) s u Q.
Proof.
  intros Hb Hok Hf c Hs <- Hi. unfold lonejson__writer_emit. change (zlen [b] =? 0) with false.
  cbv iota. unfold with_state. rewrite Hs.
  pose proof (sink_step (user c) [b] (default (w_error (self c)) (error c)) Hi) as H.
  pose proof (unblocked_byte (user c) b (default (w_error (self c)) (error c)) Hi Hb) as H1.
  pose proof (unblocked_ready (user c) Hb) as Hr.
  destruct (sink (user c) [b] _) as [[st u'] e']. destruct H as [Hi' H].
  assert (Q st (if status_fails st then set_failed s else s) u') as HQ.
  { destruct H as [[-> H]|[(-> & Hn & H)|[Hst Hm]]]; cbn; [by apply Hok; auto|done|].
    rewrite Hst. by apply Hf. }
  destruct (error c); cbn; (split; [done|]); eexists; (split; [done|]); exact HQ.
Qed.

(** The event loop: byte by byte, it takes [text] of the bytes it has written;
    [off] is where it stands. *)
Lemma runs_event_loop emit_byte (text : Z → bytes) (rest : bytes) s u (Q : post) :
  ws_mode s = mode →
  (∀ b, emit_byte b = lonejson__writer_emit sink (text b)) →
  (∀ n u', (n ≤ length rest)%nat →
     taken u' = taken u ++ flat_map text (take n rest) →
     let s' := Nat.iter n advance_event s in
     (n = length rest → Q LONEJSON_STATUS_OK s' u')
     ∧ Q LONEJSON_STATUS_TRUNCATED s' u'
     ∧ (∀ st u'', status_fails st = true → may_fail → Q st (set_failed s') u'')) →
  runs (emit_event_loop blocked emit_byte rest) s u Q.
Proof.
  intros Hm Hb. revert s u Hm. induction rest as [|b rest IH]; intros s u Hm HQ.
  { cbn. apply runs_ok. apply (HQ 0%nat u); [done|by rewrite app_nil_r|done]. }
  cbn [emit_event_loop]. assert (taken u = taken u ++ flat_map text (take 0 (b :: rest))) as H0
    by (by rewrite app_nil_r).
  destruct (HQ 0%nat u ltac:(lia) H0) as (_ & Ht & Hf). apply (runs_unless_blocked blocked mode); [done| |done].
  intros Hun. apply runs_seq. rewrite Hb. apply runs_emit_ready; [by apply unblocked_ready| |].
  2:{ intros st u' Hst Hmay. rewrite decide_False by (by intros ->). by apply Hf. }
  intros u' Hu'. rewrite decide_True by done. apply runs_seq, runs_update. rewrite decide_True by done.
  apply IH; [done|]. intros n u2 Hn Hu2 s'.
  destruct (HQ (S n) u2) as (H1 & H2 & H3); [simpl; lia| |].
  { rewrite Hu2, Hu'. cbn. by rewrite <- app_assoc. }
  replace (Nat.iter (S n) advance_event s) with s' in *
    by (unfold s'; by rewrite <- Nat.iter_succ_r).
  split_and!; [|done|done]. intros ->. by apply H1.
Qed.
End emit.
