(* ===== verification/WriterRefine.v ===== *)
(** * WriterRefine: the writer follows the builder

    [idle B s u]: between events, the state [s] and the output of the sink are
    those of the builder [B].  [mid o B s u]: the event [o] has begun on [B] and
    was blocked.  Every call takes [idle B] or [mid o B] to [idle B'] with
    [apply_op o B = Some B'], or stays blocked in [o], or reports a failure that
    the builder, the sink or the allocator explains ([op_runs]). *)

From stdpp Require Import base numbers list strings.
From Stdlib Require Import ZArith Lia Bool.
From S2P Require Import Prelude Runtime ByteBuffer Number JsonGrammar Writer WriterLogic WriterSpec.

(** One API call. *)
Definition exec {U} (sink : lonejson_sink_fn U) (blocked : U → bool) (o : writer_op) :
    step lonejson_writer U :=
  match o with
  | Begin_object => lonejson_writer_begin_object sink blocked
  | End_object => lonejson_writer_end_object sink
  | Begin_array => lonejson_writer_begin_array sink blocked
  | End_array => lonejson_writer_end_array sink
  | Key a key => lonejson_writer_key sink blocked (Some (Ref_caller a, key))
  | String a data => lonejson_writer_string sink blocked (Some (Ref_caller a, data))
  | String_begin => lonejson_writer_string_begin sink blocked
  | String_chunk a data => lonejson_writer_string_chunk sink blocked (Some (Ref_caller a, data))
  | String_end => lonejson_writer_string_end sink
  | Number_text a text => lonejson_writer_number_text sink blocked (Some (Ref_caller a, text))
  | Number_begin => lonejson_writer_number_begin sink blocked
  | Number_chunk a text => lonejson_writer_number_chunk (Some (Ref_caller a, text))
  | Number_end => lonejson_writer_number_end sink blocked
  | I64 v => lonejson_writer_i64 sink blocked v
  | U64 v => lonejson_writer_u64 sink blocked v
  | Double v => lonejson_writer_f64 sink blocked v
  | Bool v => lonejson_writer_bool sink blocked v
  | Null => lonejson_writer_null sink blocked
  end.

(** ** States of the writer *)

Definition b2z (b : bool) : Z := if b then 1 else 0.

(** The frame of an open container; [child]: one of its values is being written. *)
Definition frame_of (child : bool) (p : partial) : lonejson__writer_frame :=
  match p with
  | PObj ms k =>
      mk_frame LONEJSON__WRITER_FRAME_OBJECT (zlen ms + b2z child)
        (bool_decide (is_Some k) && negb child)
  | PArr vs => mk_frame LONEJSON__WRITER_FRAME_ARRAY (zlen vs + b2z child) false
  end.

Definition frames_of (stack : list partial) (child : bool) : list lonejson__writer_frame :=
  match stack with
  | [] => []
  | p :: rest => frame_of child p :: (frame_of true <$> rest)
  end.

Definition root_of (B : built) : bool :=
  negb (bool_decide (b_stack B = [])) || negb (bool_decide (b_root B = None)) || scalar_open B.

Definition string_of (B : built) : bool :=
  match b_scalar B with
  | In_string _ => true
  | _ => false
  end.
Definition number_of (B : built) : bool :=
  match b_scalar B with
  | In_number _ => true
  | _ => false
  end.

(** The number of children a container has. *)
Definition children (p : partial) : Z :=
  match p with
  | PObj ms _ => zlen ms
  | PArr vs => zlen vs
  end.

(** The counters of the machine do not wrap. *)
Definition fits (B : built) : Prop :=
  zlen (b_stack B) < 2 ^ 60 ∧ Forall (λ p, children p < 2 ^ 60) (b_stack B).

Section refine.
Context {U : Type} (sink : lonejson_sink_fn U) (blocked : U → bool).
Context (mode : lonejson__writer_mode) (may_fail : Prop) `{!WriterSink sink blocked mode may_fail}.
(** The limit of numbers, and what the sink was given before. *)
Context (limit : Z) (Hlimit : 0 ≤ limit < SIZE_MAX) (pre : bytes).
#[local] Set Default Proof Using "Type*".
Implicit Types (s : lonejson__writer_state) (u : U) (B : built) (ev : writer_event).

#[local] Abbreviation runs := (WriterLogic.runs (sink_inv sink)).
#[local] Abbreviation post := (lonejson_status → lonejson__writer_state → U → Prop).

Definition out u : bytes := pre ++ taken sink u.

Inductive shape (frames : list lonejson__writer_frame) (root str num : bool) ev
    (nb : lonejson__byte_buffer) : lonejson__writer_state → Prop :=
| shape_intro a capacity :
    zlen frames ≤ capacity → (never_fails a ∨ may_fail) → buffer_wf nb →
    shape frames root str num ev nb
      (mk_writer_state mode a frames capacity root false str num ev false false nb limit).

(** The number buffer holds the number of the builder. *)
Definition number_held B (nb : lonejson__byte_buffer) : Prop :=
  ∀ t, b_scalar B = In_number t → contents nb = t.

(** The state of a writer on [B]; [opened]: the next value has begun. *)
Definition on B (opened : bool) ev s : Prop :=
  ∃ nb, shape (frames_of (b_stack B) (opened || scalar_open B)) (opened || root_of B)
          (string_of B) (number_of B) ev nb s ∧ number_held B nb.

Definition idle B s u : Prop := on B false no_event s ∧ out u = built_text B.

(** How far a key or string has come: the phases of its event. *)
Definition string_progress (sep data : bytes) (phase off : Z) (text : bytes) : Prop :=
  (phase = 0 ∧ off = 0 ∧ text = [])
  ∨ (phase = 1 ∧ off = 0 ∧ text = sep)
  ∨ (phase = 2 ∧ ∃ n, off = Z.of_nat n ∧ (n ≤ length data)%nat
                      ∧ text = sep ++ 34 :: items_bytes (escaped (take n data)))
  ∨ (phase = 3 ∧ off = zlen data ∧ text = sep ++ 34 :: items_bytes (escaped data)).

(** How far a token has come. *)
Definition token_progress (sep token : bytes) (phase off : Z) (text : bytes) : Prop :=
  (phase = 0 ∧ off = 0 ∧ text = [])
  ∨ (phase = 1 ∧ ∃ n, off = Z.of_nat n ∧ (n ≤ length token)%nat ∧ text = sep ++ take n token).

Definition begun (phase : Z) : bool := negb (phase =? 0).

(** A key that was blocked. *)
Definition mid_key (a : Z) (key : bytes) B s u : Prop :=
  ∃ phase off text,
    on B false (mk_event LONEJSON__WRITER_EVENT_KEY (Ref_caller a) key off phase) s
    ∧ out u = built_text B ++ text ∧ b_scalar B = No_scalar
    ∧ match b_stack B with
      | PObj ms None :: _ => string_progress (comma_after ms) key phase off text
      | _ => phase = 0 ∧ off = 0 ∧ text = []
      end.

(** A value that was blocked: its event, and its progress. *)
Definition mid_value (kind : lonejson__writer_event_kind) (ref : data_ref) (data : bytes)
    (progress : Z → Z → bytes → Prop) B s u : Prop :=
  ∃ phase off text,
    on B (begun phase) (mk_event kind ref data off phase) s
    ∧ out u = built_text B ++ text ∧ progress phase off text
    ∧ b_scalar B = No_scalar ∧ (begun phase = true → can_value B = true).

Definition mid_token (kind : lonejson__writer_event_kind) (ref : data_ref) (token : bytes) B s u : Prop :=
  mid_value kind ref token (token_progress (value_sep (b_stack B)) token) B s u.

(** A chunk of an open string, and the end of a number. *)
Definition mid_chunk (a : Z) (data : bytes) B s u : Prop :=
  ∃ l n, b_scalar B = In_string l ∧ (n ≤ length data)%nat
    ∧ on B false (mk_event LONEJSON__WRITER_EVENT_STRING_CHUNK (Ref_caller a) data (Z.of_nat n) 0) s
    ∧ out u = built_text B ++ items_bytes (escaped (take n data)).

Definition mid_number_end B s u : Prop :=
  ∃ t n, b_scalar B = In_number t ∧ (n ≤ length t)%nat ∧ lonejson__is_valid_json_number t = true
    ∧ on B false (mk_event LONEJSON__WRITER_EVENT_BYTES Ref_number t (Z.of_nat n) 1) s
    ∧ out u = built_text B ++ take n t.

Definition mid (o : writer_op) B s u : Prop :=
  let scalar token := mid_token LONEJSON__WRITER_EVENT_SCALAR_BYTES Ref_event_buffer token B s u in
  match o with
  | Key a key => mid_key a key B s u
  | String a data =>
      mid_value LONEJSON__WRITER_EVENT_STRING (Ref_caller a) data
        (string_progress (value_sep (b_stack B)) data) B s u
  | String_chunk a data => mid_chunk a data B s u
  | Number_text a text => mid_token LONEJSON__WRITER_EVENT_BYTES (Ref_caller a) text B s u
  | Number_end => mid_number_end B s u
  | I64 v => scalar (lonejson__writer_format_i64 v)
  | U64 v => scalar (lonejson__writer_format_u64 v)
  | Double v => scalar (writer_f64_text v)
  | Bool v => scalar (if v then c_str "true" else c_str "false")
  | Null => scalar (c_str "null")
  | _ => False
  end.

(** A number longer than the limit. *)
Definition too_long (o : writer_op) B : Prop :=
  match o, b_scalar B with
  | Number_chunk _ t', In_number t => limit < zlen t + zlen t'
  | _, _ => False
  end.

Definition call_outcome (o : writer_op) B : post := λ st s' u',
  match st with
  | LONEJSON_STATUS_OK => ∃ B', apply_op o B = Some B' ∧ idle B' s' u'
  | LONEJSON_STATUS_TRUNCATED => idle B s' u' ∨ mid o B s' u'
  | _ => apply_op o B = None ∨ may_fail ∨ too_long o B
  end.

Lemma outcome_fails o B st s u :
  status_fails st = true → apply_op o B = None ∨ may_fail ∨ too_long o B → call_outcome o B st s u.
Proof. intros Hst H. by destruct st. Qed.

Lemma outcome_may_fail o B st s u : status_fails st = true → may_fail → call_outcome o B st s u.
Proof. intros Hst H. apply outcome_fails; auto. Qed.
(** *** The parts of a call *)

#[local] Abbreviation unblocked_is_ready :=
  (unblocked_ready (sink := sink) (blocked := blocked) (mode := mode) (may_fail := may_fail)).
#[local] Abbreviation emit_byte_runs := (runs_emit_byte sink blocked mode may_fail).
#[local] Abbreviation emit_ready_runs := (runs_emit_ready sink blocked mode may_fail).
#[local] Abbreviation emit_runs := (runs_emit sink blocked mode may_fail).
#[local] Abbreviation unless_runs := (runs_unless_blocked (inv := sink_inv sink) blocked mode).

(** A failing status ends a sequence. *)
Lemma fails_not_ok st : status_fails st = true → st ≠ LONEJSON_STATUS_OK.
Proof. by intros H ->. Qed.

Lemma built_text_stack B :
  b_scalar B = No_scalar → can_value B = true → built_text B = stack_text (b_stack B).
Proof.
  unfold can_value, built_text. intros -> H. destruct (b_stack B).
  - destruct (b_root B); [|done]. by rewrite andb_false_r in H.
  - cbn [stack_text]. by rewrite app_nil_r.
Qed.

Lemma frames_of_child p rest : frames_of (p :: rest) true = frame_of true p :: (frame_of true <$> rest).
Proof. done. Qed.

(** [before_value] announces a value, with the separator it needs. *)
Lemma runs_before_value B ev nb s u (Q : post) :
  b_scalar B = No_scalar → fits B →
  shape (frames_of (b_stack B) false) (root_of B) false false ev nb s →
  out u = built_text B →
  Q LONEJSON_STATUS_TRUNCATED s u →
  (∀ st s', status_fails st = true → can_value B = false ∨ may_fail → ∀ u', Q st s' u') →
  (∀ s' u', can_value B = true → shape (frames_of (b_stack B) true) true false false ev nb s' →
     ready sink u' → out u' = stack_text (b_stack B) ++ value_sep (b_stack B) →
     Q LONEJSON_STATUS_OK s' u') →
  runs (lonejson__writer_before_value sink blocked) s u Q.
Proof.
  intros Hsc (_ & Hfit) Hs Hout Ht Hf Hok. assert (ws_mode s = mode) as Hm by (by destruct Hs).
  destruct Hs as [a cap Hcap Ha Hnb]. apply runs_with_state.
  do 5 (apply runs_refuse; [done|intros _]). apply unless_runs; [done| |done].
  intros Hun. pose proof (unblocked_is_ready u Hun) as Hready.
  assert (can_value B = true → out u = stack_text (b_stack B)) as Htext.
  { intros Hcv. by rewrite Hout, built_text_stack. }
  unfold can_value, scalar_open, root_of, scalar_open in *. rewrite Hsc in *. cbn [negb andb] in *.
  rewrite orb_false_r in *.
  destruct (b_stack B) as [|p rest] eqn:Est; cbn [lonejson__writer_top ws_frames frames_of head].
  - cbn in *. apply runs_refuse; cbn [ws_root_written].
    + intros Hr. apply Hf; [done|]. left. by destruct (bool_decide (b_root B = None)).
    + intros Hr. apply runs_update. apply Hok.
      * by destruct (bool_decide (b_root B = None)).
      * by constructor.
      * done.
      * apply Htext. by destruct (bool_decide (b_root B = None)).
  - apply Forall_cons in Hfit as [Hp _]. destruct p as [ms k|vs]; cbn [frame_of frame_kind] in *.
    + apply runs_refuse; cbn [after_key b2z].
      * intros Hk. apply Hf; [done|]. left. by destruct k.
      * intros Hk. apply runs_update. destruct k as [k|]; [|done]. apply Hok; [done| |done|by rewrite app_nil_r, Htext].
        cbn. rewrite u64_small by (unfold is_u64; cbn in Hp; pose proof (zlen_nonneg ms); lia).
        replace (zlen ms + 0 + 1) with (zlen ms + 1) by lia. by constructor.
    + cbn [frame_values b2z after_key]. apply runs_seq.
      assert (∀ s' u', ws_mode s' = mode → s' = mk_writer_state mode a
          (mk_frame LONEJSON__WRITER_FRAME_ARRAY (zlen vs + 0) false :: (frame_of true <$> rest)) cap
          true false false false ev false false nb limit → ready sink u' →
          out u' = stack_text (PArr vs :: rest) ++ comma_after vs →
          runs (update (set_top (mk_frame LONEJSON__WRITER_FRAME_ARRAY (u64 (zlen vs + 0 + 1)) false)))
            s' u' Q) as Hfin.
      { intros s' u' _ -> Hr' Ho. apply runs_update. apply Hok; [done| |done|done]. cbn.
        rewrite u64_small by (unfold is_u64; cbn in Hp; pose proof (zlen_nonneg vs); lia).
        replace (zlen vs + 0 + 1) with (zlen vs + 1) by lia. by constructor. }
      destruct vs as [|v vs].
      * cbn [negb zlen length Z.eqb Z.add Z.of_nat]. apply runs_ok. rewrite decide_True by done.
        apply Hfin; [done|done|done|]. by rewrite app_nil_r, Htext.
      * replace (negb (zlen (v :: vs) + 0 =? 0)) with true
          by (rewrite zlen_cons; pose proof (zlen_nonneg vs); lia).
        apply emit_byte_runs; [done| |].
        -- intros u' Hu' Hr'. rewrite decide_True by done. apply Hfin; [done|done|done|].
           unfold out in *. rewrite Hu', app_assoc, Htext by done. done.
        -- intros st u' Hst Hmay. rewrite decide_False by (by apply fails_not_ok). apply Hf; auto.
Qed.
(** An event begins, or is resumed. *)
Lemma runs_begin_event kind ref data frames root str ev nb s u (Q : post) :
  shape frames root str false ev nb s →
  ev = no_event ∨ (event_kind ev = kind ∧ event_ref ev = ref ∧ event_data ev = data
                   ∧ kind ≠ LONEJSON__WRITER_EVENT_NONE) →
  (∀ s' ev', (ev = no_event ∧ ev' = mk_event kind ref data 0 0 ∨ ev ≠ no_event ∧ ev' = ev) →
     shape frames root str false ev' nb s' → Q LONEJSON_STATUS_OK s' u) →
  runs (lonejson__writer_begin_event kind ref data) s u Q.
Proof.
  intros Hs Hev HQ. destruct Hs as [a cap Hcap Ha Hnb]. apply runs_with_state, runs_seq.
  apply runs_with_state. do 3 (apply runs_refuse; [done|intros _]). apply runs_ok.
  rewrite decide_True by done. apply runs_with_state. cbn [ws_event].
  destruct Hev as [->|(Hk & Hr & Hd & Hnone)].
  - cbn [no_event event_kind]. rewrite bool_decide_true by done. apply runs_update.
    eapply HQ; [by left|by constructor].
  - rewrite bool_decide_false by congruence. cbn [negb]. apply runs_refuse.
    + rewrite Hk, Hr, Hd, !bool_decide_true by done. by rewrite Z.eqb_refl.
    + intros _. apply runs_ok. eapply HQ; [right; split; [|done]|by constructor].
      intros ->. cbn in Hk. congruence.
Qed.

Definition advanced ev (n : nat) : writer_event :=
  mk_event (event_kind ev) (event_ref ev) (event_data ev) (event_off ev + Z.of_nat n) (event_phase ev).

Lemma shape_advance frames root str num ev nb s n :
  shape frames root str num ev nb s →
  shape frames root str num (advanced ev n) nb (Nat.iter n advance_event s).
Proof.
  intros H. induction n as [|n IH].
  - unfold advanced. rewrite Z.add_0_r. by destruct ev.
  - rewrite Nat.iter_succ. destruct IH as [a cap ? ? ?].
    unfold advance_event, set_event, advanced. cbn.
    replace (event_off ev + Z.of_nat n + 1) with (event_off ev + Z.of_nat (S n)) by lia. by constructor.
Qed.

Lemma shape_clear frames root str num ev nb s :
  shape frames root str num ev nb s →
  shape frames root str num no_event nb (lonejson__writer_clear_event s).
Proof. intros []. by constructor. Qed.

Lemma shape_phase frames root str num ev nb s n :
  shape frames root str num ev nb s →
  shape frames root str num
    (mk_event (event_kind ev) (event_ref ev) (event_data ev) (event_off ev) n) nb (set_phase n s).
Proof. intros []. by constructor. Qed.

(** The loop over the rest of an event's data. *)
Lemma runs_event_data emit_byte (text : Z → bytes) kind ref data phase n frames root str num nb s u
    (Q : post) :
  (∀ b, emit_byte b = lonejson__writer_emit sink (text b)) →
  (n ≤ length data)%nat →
  shape frames root str num (mk_event kind ref data (Z.of_nat n) phase) nb s →
  (∀ m s' u', (n ≤ m ≤ length data)%nat →
     shape frames root str num (mk_event kind ref data (Z.of_nat m) phase) nb s' →
     out u' = out u ++ flat_map text (take (m - n) (drop n data)) →
     (m = length data → Q LONEJSON_STATUS_OK s' u') ∧ Q LONEJSON_STATUS_TRUNCATED s' u') →
  (∀ st s' u', status_fails st = true → may_fail → Q st s' u') →
  runs (with_state (λ s, emit_event_loop blocked emit_byte (event_rest (ws_event s)))) s u Q.
Proof.
  intros Hb Hn Hs HQ Hf. apply runs_with_state.
  assert (event_rest (ws_event s) = drop n data) as ->.
  { destruct Hs. unfold event_rest. cbn. by rewrite Nat2Z.id. }
  apply (runs_event_loop sink blocked mode may_fail emit_byte text); [by destruct Hs|done|].
  intros m u' Hm Hu' s'. rewrite length_drop in Hm.
  pose proof (shape_advance _ _ _ _ _ _ _ m Hs) as Hs'. fold s' in Hs'.
  unfold advanced in Hs'. cbn in Hs'. rewrite <- Nat2Z.inj_add in Hs'.
  destruct (HQ (n + m)%nat s' u') as [H1 H2]; [lia|done| |].
  { unfold out. rewrite Hu', <- app_assoc. by replace (n + m - n)%nat with m by lia. }
  split_and!; [|done|by intros; apply Hf]. rewrite length_drop. intros. apply H1. lia.
Qed.



(** *** Values complete *)

Lemma frames_add_value v B :
  can_value B = true → frames_of (b_stack (add_value v B)) false = frames_of (b_stack B) true.
Proof.
  unfold can_value, add_value. destruct B as [root [|[ms [k|]|vs] rest] sc]; cbn; try done.
  - intros _. rewrite zlen_app. change (zlen [(k, v)]) with 1. by rewrite Z.add_0_r.
  - by rewrite andb_false_r.
  - intros _. rewrite zlen_app. change (zlen [v]) with 1. by rewrite Z.add_0_r.
Qed.

Lemma add_value_flags v B :
  can_value B = true →
  b_scalar (add_value v B) = No_scalar ∧ root_of (add_value v B) = true.
Proof.
  unfold can_value, add_value, root_of. destruct B as [root [|[ms [k|]|vs] rest] sc]; cbn; try done.
  by rewrite andb_false_r.
Qed.

Lemma can_value_scalar B : can_value B = true → b_scalar B = No_scalar.
Proof. unfold can_value, scalar_open. by destruct (b_scalar B). Qed.

(** When the value's text is out, the builder has the value. *)
Lemma value_done v B nb s u :
  can_value B = true →
  shape (frames_of (b_stack B) true) true false false no_event nb s →
  out u = stack_text (b_stack B) ++ value_sep (b_stack B) ++ render false 0 v →
  idle (add_value v B) s u.
Proof.
  intros Hcv Hs Ho. destruct (add_value_flags v B Hcv) as [Hsc Hr]. split.
  - exists nb. unfold scalar_open, string_of, number_of, number_held. rewrite Hsc, Hr.
    cbn [orb]. by rewrite (frames_add_value v B Hcv).
  - rewrite Ho, add_value_text; [done|]. pose proof (can_value_scalar B Hcv) as H.
    destruct B as [r st sc]. cbn in *. by subst.
Qed.
(** *** Values written as one event *)

(** The first phase of a value's event: [before_value], if it has not run. *)
Lemma runs_event_before_value kind ref data (progress : Z → Z → bytes → Prop) B s u (Q : post) :
  mid_value kind ref data progress B s u → fits B →
  (∀ phase off text, progress phase off text → phase = 0 → off = 0 ∧ text = []) →
  (∀ phase off text, progress phase off text → 0 ≤ phase) →
  progress 1 0 (value_sep (b_stack B)) →
  (∀ s' u', mid_value kind ref data progress B s' u' → Q LONEJSON_STATUS_TRUNCATED s' u') →
  (∀ st s' u', status_fails st = true → can_value B = false ∨ may_fail → Q st s' u') →
  (∀ phase off text s' u', on B true (mk_event kind ref data off phase) s' →
     out u' = stack_text (b_stack B) ++ text → progress phase off text → 1 ≤ phase →
     can_value B = true → Q LONEJSON_STATUS_OK s' u') →
  runs (event_before_value sink blocked) s u Q.
Proof.
  intros (phase & off & text & (nb & Hs & Hnb) & Hout & Hp & Hsc & Hbegun) Hfit Hzero Hpos Hone Ht Hf Hok.
  apply runs_with_state. assert (event_phase (ws_event s) = phase) as -> by (by destruct Hs).
  specialize (Hpos _ _ _ Hp). destruct (phase =? 0) eqn:E.
  - assert (phase = 0) as -> by lia. destruct (Hzero _ _ _ Hp eq_refl) as [-> ->].
    rewrite app_nil_r in Hout. unfold begun, scalar_open, string_of, number_of in Hs. rewrite Hsc in Hs.
    cbn in Hs. apply runs_seq. apply (runs_before_value B (mk_event kind ref data 0 0) nb); try done.
    + rewrite decide_False by done. apply Ht. exists 0, 0, []. rewrite app_nil_r.
      split_and!; try done. exists nb. unfold scalar_open, string_of, number_of. by rewrite Hsc.
    + intros st s' Hst Hc u'. rewrite decide_False by (by apply fails_not_ok). by apply Hf.
    + intros s' u' Hcv Hs' _ Ho. rewrite decide_True by done. apply runs_update.
      eapply (Hok 1 0 (value_sep (b_stack B))); [|done|done|done|done].
      exists nb. unfold string_of, number_of. rewrite Hsc. split; [|done].
      apply (shape_phase _ _ _ _ _ _ _ 1) in Hs'. exact Hs'.
  - apply runs_ok. assert (begun phase = true) as Hb by (by unfold begun; rewrite E).
    specialize (Hbegun Hb). rewrite Hb in Hs. eapply Hok; [|by rewrite built_text_stack in Hout|done|lia|done].
    exists nb. by split.
Qed.

Lemma runs_token kind ref token v B s u (Q : post) :
  render false 0 v = token → mid_token kind ref token B s u → fits B →
  (∀ s' u', idle (add_value v B) s' u' → can_value B = true → Q LONEJSON_STATUS_OK s' u') →
  (∀ s' u', mid_token kind ref token B s' u' → Q LONEJSON_STATUS_TRUNCATED s' u') →
  (∀ st s' u', status_fails st = true → can_value B = false ∨ may_fail → Q st s' u') →
  runs (event_before_value sink blocked &>
        lonejson__writer_emit_bytes_event sink blocked &> update lonejson__writer_clear_event) s u Q.
Proof.
  intros Hv Hmid Hfit Hok Ht Hf. apply runs_seq.
  apply (runs_event_before_value kind ref token (token_progress (value_sep (b_stack B)) token) B); try done.
  - intros phase off text [(_ & -> & ->)|(-> & _)]; [done|lia].
  - intros phase off text [(-> & _)|(-> & _)]; lia.
  - right. split; [done|]. exists 0%nat. rewrite app_nil_r. split_and!; [done|lia|done].
  - intros st s' u' Hst H. rewrite decide_False by (by apply fails_not_ok). by apply Hf.
  - intros phase off text s' u' (nb & Hs' & Hnb) Ho Hp Hge Hcv. rewrite decide_True by done.
    destruct Hp as [(-> & _)|(-> & n & -> & Hn & ->)]; [lia|]. pose proof (can_value_scalar B Hcv) as Hsc.
    cbn [orb] in Hs'. apply runs_seq.
    eapply (runs_event_data (λ b, lonejson__writer_emit sink [b]) (λ b, [b])); [done|exact Hn|exact Hs'| |].
    + intros m s2 u2 Hm Hs2 Ho2. rewrite flat_map_single in Ho2.
      assert (out u2 = stack_text (b_stack B) ++ value_sep (b_stack B) ++ take m token) as Ho3.
      { rewrite Ho2, Ho, <- !app_assoc, take_take_drop by lia. done. }
      split.
      * intros ->. rewrite decide_True by done. apply runs_update. apply Hok; [|done].
        eapply (value_done v B nb); [done| |by rewrite Ho3, firstn_all, Hv].
        unfold string_of, number_of in Hs2. rewrite Hsc in Hs2. by eapply shape_clear.
      * rewrite decide_False by done. apply Ht. exists 1, (Z.of_nat m), (value_sep (b_stack B) ++ take m token).
        split_and!; [by exists nb|by rewrite built_text_stack|right; split; [done|]; exists m|done|done].
        split_and!; [done|lia|done].
    + intros st s2 u2 Hst Hmay. rewrite decide_False by (by apply fails_not_ok). apply Hf; auto.
Qed.

(** Starting an event from an idle writer. *)
Lemma runs_idle_event kind ref data B s u (Q : post) :
  idle B s u →
  (number_of B = true → ∀ st, status_fails st = true → Q st s u) →
  (number_of B = false → ∀ s', on B false (mk_event kind ref data 0 0) s' → Q LONEJSON_STATUS_OK s' u) →
  runs (lonejson__writer_begin_event kind ref data) s u Q.
Proof.
  intros [(nb & Hs & Hnb) Hout] Hf Hok. destruct (number_of B) eqn:Enum.
  - apply runs_with_state, runs_seq, runs_with_state. destruct Hs as [a cap ? ? ?].
    do 2 (apply runs_refuse; [done|intros _]). apply runs_refuse; [|done]. intros _.
    rewrite decide_False by done. by apply Hf.
  - eapply runs_begin_event; [exact Hs|by left|]. intros s' ev' [[_ ->]|[? _]] Hs'; [|done].
    apply Hok; [done|]. exists nb. by rewrite Enum.
Qed.

Lemma begin_event_resumes kind ref data B opened off phase s u (Q : post) :
  kind ≠ LONEJSON__WRITER_EVENT_NONE → number_of B = false →
  on B opened (mk_event kind ref data off phase) s →
  (∀ s', on B opened (mk_event kind ref data off phase) s' → Q LONEJSON_STATUS_OK s' u) →
  runs (lonejson__writer_begin_event kind ref data) s u Q.
Proof.
  intros Hk Hnum (nb & Hs & Hnb) Hok. rewrite Hnum in Hs.
  eapply runs_begin_event; [exact Hs|by right|]. intros s' ev' [[Hev _]|[_ ->]] Hs'.
  { exfalso. by injection Hev. }
  apply Hok. exists nb. by rewrite Hnum.
Qed.

(** The event of a value, new or resumed, up to its [before_value]. *)
Lemma runs_value_event kind ref data (progress : Z → Z → bytes → Prop) k B s u (Q : post) :
  kind ≠ LONEJSON__WRITER_EVENT_NONE → progress 0 0 [] →
  idle B s u ∨ mid_value kind ref data progress B s u →
  (can_value B = false → ∀ st s' u', status_fails st = true → Q st s' u') →
  (∀ s', mid_value kind ref data progress B s' u → runs (event_before_value sink blocked &> k) s' u Q) →
  runs (lonejson__writer_begin_event kind ref data &> event_before_value sink blocked &> k) s u Q.
Proof.
  intros Hkind Hp0 Hstart Hf Hk. apply runs_seq. destruct Hstart as [Hidle|Hmid].
  - apply (runs_idle_event kind ref data B); [done| |].
    + intros Hnum st Hst. rewrite decide_False by (by apply fails_not_ok). apply Hf; [|done].
      unfold number_of in Hnum. unfold can_value, scalar_open. by destruct (b_scalar B).
    + intros Hnum s' Hon. rewrite decide_True by done. destruct Hidle as [_ Hout].
      destruct (b_scalar B) as [|l|t] eqn:Esc; [| |by unfold number_of in Hnum; rewrite Esc in Hnum].
      * apply Hk. exists 0, 0, []. rewrite app_nil_r. by split_and!.
      * destruct Hon as (nb & Hs' & _). apply runs_seq, runs_with_state.
        assert (event_phase (ws_event s') = 0) as -> by (by destruct Hs').
        apply runs_seq, runs_with_state. destruct Hs' as [a cap ? ? ?].
        do 2 (apply runs_refuse; [done|intros _]). apply runs_refuse.
        -- intros _. rewrite !decide_False by done. apply Hf; [|done].
           unfold can_value, scalar_open. by rewrite Esc.
        -- unfold string_of. by rewrite Esc.
  - pose proof Hmid as (phase & off & text & Hon & Hout & Hp & Hsc & Hb).
    eapply begin_event_resumes; [done| |exact Hon|].
    + unfold number_of. by rewrite Hsc.
    + intros s' Hon'. rewrite decide_True by done. apply Hk. exists phase, off, text. by split_and!.
Qed.

(** A scalar call, new or resumed. *)
Lemma runs_scalar token v B s u (Q : post) :
  render false 0 v = token → zlen token ≤ 64 →
  idle B s u ∨ mid_token LONEJSON__WRITER_EVENT_SCALAR_BYTES Ref_event_buffer token B s u → fits B →
  (∀ s' u', idle (add_value v B) s' u' → can_value B = true → Q LONEJSON_STATUS_OK s' u') →
  (∀ s' u', mid_token LONEJSON__WRITER_EVENT_SCALAR_BYTES Ref_event_buffer token B s' u' →
     Q LONEJSON_STATUS_TRUNCATED s' u') →
  (∀ st s' u', status_fails st = true → can_value B = false ∨ may_fail → Q st s' u') →
  runs (lonejson__writer_emit_scalar_bytes sink blocked token) s u Q.
Proof.
  intros Hv Hlen Hstart Hfit Hok Ht Hf. apply runs_with_state. apply runs_refuse; [intros; lia|intros _].
  destruct Hstart as [Hidle|Hmid].
  - assert (event_kind (ws_event s) = LONEJSON__WRITER_EVENT_NONE) as ->
      by (destruct Hidle as [(nb & Hs & _) _]; by destruct Hs).
    rewrite decide_False by done. rewrite decide_True by auto.
    eapply (runs_value_event _ _ _ (token_progress (value_sep (b_stack B)) token)); [done|by left|by left| |].
    + intros Hcv st s' u' Hst. apply Hf; auto.
    + intros s' Hmid. by eapply runs_token.
  - pose proof Hmid as (phase & off & text & (nb & Hs & Hnb) & _).
    assert (ws_event s = mk_event LONEJSON__WRITER_EVENT_SCALAR_BYTES Ref_event_buffer token off phase)
      as Hev by (by destruct Hs). rewrite Hev. cbn [event_kind event_data].
    rewrite !decide_True by auto. apply runs_seq. apply runs_refuse; [by rewrite bool_decide_true|].
    intros _. apply runs_ok. rewrite decide_True by done. by eapply runs_token.
Qed.

(** *** Keys and strings *)

Lemma runs_in_phase n k frames root str num ev nb s u (Q : post) :
  shape frames root str num ev nb s →
  (event_phase ev = n → runs k s u Q) → (event_phase ev ≠ n → Q LONEJSON_STATUS_OK s u) →
  runs (in_phase n k) s u Q.
Proof.
  intros Hs H1 H2. apply runs_with_state. assert (ws_event s = ev) as -> by (by destruct Hs).
  destruct (event_phase ev =? n) eqn:E; [apply H1|apply runs_ok, H2]; lia.
Qed.




(** The opening quote and the escaped data, from wherever the event stands. *)
Lemma runs_quote_data kind ref data sep base frames root str num nb phase off text k s u (Q : post) :
  1 ≤ phase → string_progress sep data phase off text →
  shape frames root str num (mk_event kind ref data off phase) nb s → out u = base ++ text →
  (∀ phase' off' text' s' u', 1 ≤ phase' → string_progress sep data phase' off' text' →
     shape frames root str num (mk_event kind ref data off' phase') nb s' →
     out u' = base ++ text' → Q LONEJSON_STATUS_TRUNCATED s' u') →
  (∀ st s' u', status_fails st = true → may_fail → Q st s' u') →
  (∀ s' u', shape frames root str num (mk_event kind ref data (zlen data) 3) nb s' →
     out u' = base ++ sep ++ 34 :: items_bytes (escaped data) → runs k s' u' Q) →
  runs (in_phase 1 (unless_blocked blocked (lonejson__writer_emit_cstr sink [34] &> update (set_phase 2))) &>
        in_phase 2 (lonejson__writer_emit_escaped_event sink blocked &> update (set_phase 3)) &> k) s u Q.
Proof.
  intros Hge Hp Hs Ho Ht Hf Hk.
  (* from the second phase on *)
  assert (∀ off text s u, string_progress sep data 2 off text →
    shape frames root str num (mk_event kind ref data off 2) nb s → out u = base ++ text →
    runs (in_phase 2 (lonejson__writer_emit_escaped_event sink blocked &> update (set_phase 3)) &> k) s u Q)
    as Hdata.
  { clear Hge Hp Hs Ho. intros off2 text2 s2 u2 Hp Hs Ho. apply runs_seq.
    eapply runs_in_phase; [exact Hs|intros _|done].
    destruct Hp as [(? & _)|[(? & _)|[(_ & n & -> & Hn & ->)|(? & _)]]]; [lia|lia| |lia].
    apply runs_seq. unfold lonejson__writer_emit_escaped_event.
    eapply (runs_event_data _ (λ b, item_bytes (escape b))); [apply emit_byte_escape|exact Hn|exact Hs| |].
    - intros m s3 u3 Hm Hs3 Ho3. rewrite flat_map_escape in Ho3.
      assert (out u3 = base ++ sep ++ 34 :: items_bytes (escaped (take m data))) as Ho4.
      { rewrite Ho3, Ho, <- !app_assoc. cbn [app]. by rewrite escaped_take_drop by lia. }
      split.
      + intros ->. rewrite decide_True by done. apply runs_update. rewrite decide_True by done.
        apply Hk; [|by rewrite Ho4, firstn_all]. by apply (shape_phase _ _ _ _ _ _ _ 3) in Hs3.
      + rewrite decide_False by done. rewrite decide_False by done.
        eapply (Ht 2); [lia| |exact Hs3|exact Ho4]. right; right; left. split; [done|]. exists m.
        split_and!; [done|lia|done].
    - intros st s3 u3 Hst Hmay. rewrite !decide_False by (by apply fails_not_ok). by apply Hf. }
  assert (ws_mode s = mode) as Hm by (by destruct Hs).
  pose proof Hp as [(-> & _)|[(-> & -> & ->)|[(-> & _)|(-> & -> & ->)]]]; [lia| | |]; apply runs_seq;
    (eapply runs_in_phase; [exact Hs| |]); cbn [event_phase]; try done.
  - intros _. apply unless_runs; [done| |].
    + intros Hun. apply runs_seq. apply emit_byte_runs; [done| |].
      * intros u' Hu' _. rewrite decide_True by done. apply runs_update. rewrite decide_True by done.
        apply (Hdata 0 (sep ++ [34])).
        -- right; right; left. split; [done|]. exists 0%nat. cbn. split_and!; [done|lia|done].
        -- by apply (shape_phase _ _ _ _ _ _ _ 2) in Hs.
        -- unfold out in *. rewrite Hu', app_assoc, Ho. by rewrite <- app_assoc.
      * intros st u' Hst Hmay. rewrite !decide_False by (by apply fails_not_ok). by apply Hf.
    + rewrite decide_False by done. by apply (Ht 1 0 sep).
  - intros _. rewrite decide_True by done. by eapply Hdata.
  - intros _. rewrite decide_True by done. apply runs_seq.
    eapply runs_in_phase; [exact Hs|done|]. intros _. rewrite decide_True by done. by apply Hk.
Qed.

(** A string call, new or resumed. *)
Lemma runs_string a data B s u :
  idle B s u ∨ mid (String a data) B s u → fits B →
  runs (exec sink blocked (String a data)) s u (call_outcome (String a data) B).
Proof.
  intros Hstart Hfit. cbn [exec lonejson_writer_string].
  set (kind := LONEJSON__WRITER_EVENT_STRING). set (ref := Ref_caller a).
  assert (can_value B = false → apply_op (String a data) B = None) as Hnone by (cbn; by intros ->).
  assert (∀ s u, mid (String a data) B s u →
    runs (event_before_value sink blocked &>
      in_phase 1 (unless_blocked blocked (lonejson__writer_emit_cstr sink [34] &> update (set_phase 2))) &>
      in_phase 2 (lonejson__writer_emit_escaped_event sink blocked &> update (set_phase 3)) &>
      unless_blocked blocked (lonejson__writer_emit_cstr sink [34]) &>
      update lonejson__writer_clear_event) s u (call_outcome (String a data) B)) as Hrest.
  { clear Hstart s u. intros s u Hmid. apply runs_seq.
    apply (runs_event_before_value kind ref data (string_progress (value_sep (b_stack B)) data) B); try done.
    - intros phase off text [(_ & -> & ->)|[(-> & _)|[(-> & _)|(-> & _)]]]; done.
    - intros phase off text [(-> & _)|[(-> & _)|[(-> & _)|(-> & _)]]]; lia.
    - right; left. done.
    - intros s' u' H. rewrite decide_False by done. by right.
    - intros st s' u' Hst [H|H]; rewrite decide_False by (by apply fails_not_ok);
        apply outcome_fails; auto.
    - intros phase off text s' u' (nb & Hs' & Hnb) Ho Hp Hge Hcv. rewrite decide_True by done.
      pose proof (can_value_scalar B Hcv) as Hsc. cbn [orb] in Hs'.
      unfold string_of, number_of in Hs'. rewrite Hsc in Hs'.
      assert (∀ phase' off' text' s2 u2, 1 ≤ phase' →
        string_progress (value_sep (b_stack B)) data phase' off' text' →
        shape (frames_of (b_stack B) true) true false false (mk_event kind ref data off' phase') nb s2 →
        out u2 = stack_text (b_stack B) ++ text' →
        call_outcome (String a data) B LONEJSON_STATUS_TRUNCATED s2 u2) as Hblock.
      { intros phase' off' text' s2 u2 Hge' Hp' Hs2 Ho2. right. exists phase', off', text'.
        assert (begun phase' = true) as -> by (unfold begun; lia).
        split_and!; [|by rewrite built_text_stack|done|done|done].
        exists nb. unfold string_of, number_of. by rewrite Hsc. }
      eapply runs_quote_data; [exact Hge|exact Hp|exact Hs'|exact Ho|exact Hblock| |].
      + intros st s2 u2 Hst Hmay. by apply outcome_may_fail.
      + intros s2 u2 Hs2 Ho2. apply runs_seq. apply unless_runs; [by destruct Hs2| |].
        * intros Hun. apply emit_byte_runs; [done| |].
          -- intros u3 Hu3 _. rewrite decide_True by done. apply runs_update.
             eexists. split; [cbn; by rewrite Hcv|].
             eapply (value_done _ B nb); [done|by eapply shape_clear|].
             unfold out in *. rewrite Hu3, app_assoc, Ho2. cbn. unfold quoted. by app_norm.
          -- intros st u3 Hst Hmay. rewrite decide_False by (by apply fails_not_ok).
             by apply outcome_may_fail.
        * rewrite decide_False by done. eapply (Hblock 3); [lia| |exact Hs2|exact Ho2].
          right; right; right. done. }
  eapply (runs_value_event _ _ _ (string_progress (value_sep (b_stack B)) data)); [done|by left|done| |].
  - intros Hcv st s' u' Hst. apply outcome_fails; auto.
  - intros s' Hmid. by apply Hrest.
Qed.
End refine.
