(* ===== verification/WriterOps.v ===== *)
(** * WriterOps: every writer call follows the builder

    The remaining operations - containers, keys, pieces of strings, numbers - and
    the summary [op_runs]. *)

From stdpp Require Import base numbers list strings.
From Stdlib Require Import ZArith Lia Bool.
From S2P Require Import Prelude Runtime ByteBuffer Number F64 JsonGrammar Writer WriterNumber WriterLogic WriterSpec WriterRefine.

Section ops.
Context {U : Type} (sink : lonejson_sink_fn U) (blocked : U → bool).
Context (mode : lonejson__writer_mode) (may_fail : Prop) `{!WriterSink sink blocked mode may_fail}.
Context (limit : Z) (Hlimit : 0 ≤ limit < SIZE_MAX) (pre : bytes).
#[local] Set Default Proof Using "Type*".
Implicit Types (s : lonejson__writer_state) (u : U) (B : built) (ev : writer_event).

#[local] Abbreviation runs := (WriterLogic.runs (sink_inv sink)).
#[local] Abbreviation post := (lonejson_status → lonejson__writer_state → U → Prop).
#[local] Abbreviation shape := (WriterRefine.shape mode may_fail limit).
#[local] Abbreviation on := (WriterRefine.on mode may_fail limit).
#[local] Abbreviation out := (WriterRefine.out sink blocked mode may_fail pre).
#[local] Abbreviation idle := (WriterRefine.idle sink blocked mode may_fail limit pre).
#[local] Abbreviation mid := (WriterRefine.mid sink blocked mode may_fail limit pre).
#[local] Abbreviation call_outcome := (WriterRefine.call_outcome sink blocked mode may_fail limit pre).
#[local] Abbreviation emit_runs := (runs_emit sink blocked mode may_fail).
#[local] Abbreviation emit_ready_runs := (runs_emit_ready sink blocked mode may_fail).
#[local] Abbreviation unless_runs := (runs_unless_blocked (inv := sink_inv sink) blocked mode).

(** The call [o], new or resumed. *)
Definition op_ok (o : writer_op) B : Prop :=
  ∀ s u, idle B s u ∨ mid o B s u → runs (exec sink blocked o) s u (call_outcome o B).
#[local] Abbreviation before_runs := (runs_before_value sink blocked mode may_fail limit Hlimit pre).
#[local] Abbreviation fails_out := (WriterRefine.outcome_fails sink blocked mode may_fail limit Hlimit pre).
#[local] Abbreviation value_done := (WriterRefine.value_done sink blocked mode may_fail limit Hlimit pre).

Lemma number_text_ok a text B : fits B → op_ok (Number_text a text) B.
Proof.
  intros Hfit s u Hstart. cbn [exec lonejson_writer_number_text].
  assert (can_value B = false → apply_op (Number_text a text) B = None) as Hnone by (cbn; by intros ->).
  rewrite bool_decide_false by done. cbn [orb].
  destruct (lonejson__is_valid_json_number text) eqn:Ev.
  2:{ assert (∀ st, status_fails st = true → call_outcome (Number_text a text) B st s u) as Hf.
      { intros st Hst. apply fails_out; [done|]. left. cbn. rewrite Ev. by rewrite andb_false_r. }
      destruct (zlen text =? 0); [by apply runs_set_error, Hf|].
      apply runs_refuse; [intros _; by apply Hf|done]. }
  replace (zlen text =? 0) with false.
  2:{ destruct text; [done|]. rewrite zlen_cons. pose proof (zlen_nonneg text). lia. }
  apply runs_refuse; [done|intros _].
  eapply (runs_value_event sink blocked mode may_fail limit Hlimit pre _ _ _
            (token_progress (value_sep (b_stack B)) text)); [done|by left|exact Hstart| |].
  - intros Hcv st s' u' Hst. apply fails_out; auto.
  - intros s' Hmid. eapply (runs_token sink blocked mode may_fail limit Hlimit pre _ _ text (JNum text) B);
      [done|exact Hmid|done| | |].
    + intros s2 u2 Hidle Hcv. eexists. split; [cbn; by rewrite Hcv, Ev|done].
    + intros s2 u2 H2. by right.
    + intros st s2 u2 Hst [H|H]; apply fails_out; auto.
Qed.

Lemma scalar_ok token v o B :
  exec sink blocked o = lonejson__writer_emit_scalar_bytes sink blocked token →
  (∀ s u, mid o B s u = mid_token sink blocked mode may_fail limit pre
                          LONEJSON__WRITER_EVENT_SCALAR_BYTES Ref_event_buffer token B s u) →
  apply_op o B = when (can_value B) (add_value v B) →
  render false 0 v = token → zlen token ≤ 64 → fits B → op_ok o B.
Proof.
  intros Hexec Hmid Happly Hv Hlen Hfit s u Hstart. rewrite Hexec. rewrite Hmid in Hstart.
  eapply (runs_scalar sink blocked mode may_fail limit Hlimit pre token v B); [done..| | |].
  - intros s' u' Hidle Hcv. exists (add_value v B). by rewrite Happly, Hcv.
  - intros s' u' H. right. by rewrite Hmid.
  - intros st s' u' Hst [H|H]; apply fails_out; try done; [left|by right; left].
    by rewrite Happly, H.
Qed.

Lemma writer_f64_short value : zlen (writer_f64_text value) ≤ 63.
Proof. unfold writer_f64_text, snprintf_17g, zlen. rewrite !length_take. lia. Qed.

Lemma double_ok value B : fits B → op_ok (Double value) B.
Proof.
  intros Hfit. pose proof (writer_f64_short value) as Hlen.
  destruct (lonejson__is_finite_f64 value) eqn:Ef.
  - apply (scalar_ok (writer_f64_text value) (JNum (writer_f64_text value))); try done; [|cbn; by rewrite Ef|lia].
    cbn [exec]. unfold lonejson_writer_f64. by rewrite Ef.
  - intros s u _. cbn [exec]. unfold lonejson_writer_f64. rewrite Ef. cbn [negb].
    apply runs_set_error. apply fails_out; [done|]. left. cbn. by rewrite Ef.
Qed.

(** *** Containers *)

Lemma frames_of_true stack : frames_of stack true = frame_of true <$> stack.
Proof. by destruct stack. Qed.

Lemma push_frame_runs kind frames root nb s u (Q : post) :
  shape frames root false false no_event nb s → zlen frames < 2 ^ 60 →
  (∀ s', shape (mk_frame kind 0 false :: frames) root false false no_event nb s' →
     Q LONEJSON_STATUS_OK s' u) →
  (∀ st s', status_fails st = true → may_fail → Q st s' u) →
  runs (lonejson__writer_push_frame kind) s u Q.
Proof.
  intros Hs Hlen Hok Hf. apply runs_with_state. destruct Hs as [a cap Hcap Ha Hnb].
  cbn [ws_frames ws_frame_capacity ws_allocator]. pose proof (zlen_nonneg frames) as H0.
  destruct (zlen frames =? cap) eqn:E.
  - assert (cap = zlen frames) as -> by lia. set (next := if zlen frames =? 0 then 8 else _).
    assert (zlen frames < next) as Hnext.
    { unfold next. destruct (zlen frames =? 0) eqn:?; [lia|]. rewrite u64_small by (unfold is_u64; lia). lia. }
    destruct (lonejson__buffer_realloc a _ _ _) as [[|] a'] eqn:Er; cbn [negb].
    + apply runs_update. apply Hok. constructor; [rewrite zlen_cons; lia| |done].
      destruct Ha as [Ha|Ha]; [left|by right].
      destruct (buffer_realloc_ok a (zlen frames =? 0) (u64 (zlen frames * sizeof_frame))
        (u64 (next * sizeof_frame)) Ha) as (a2 & H2 & Ha2). rewrite Er in H2. by injection H2 as <-.
    + apply runs_seq, runs_update. rewrite decide_True by done. apply runs_set_error. apply Hf; [done|].
      destruct Ha as [Ha|Ha]; [|done].
      destruct (buffer_realloc_ok a (zlen frames =? 0) (u64 (zlen frames * sizeof_frame))
        (u64 (next * sizeof_frame)) Ha) as (a2 & H2 & Ha2). by rewrite Er in H2.
  - apply runs_update. apply Hok. constructor; [rewrite zlen_cons; cbn [ws_frame_capacity]; lia|done|done].
Qed.

Lemma idle_shape B s u :
  idle B s u → b_scalar B = No_scalar →
  ∃ nb, shape (frames_of (b_stack B) false) (root_of B) false false no_event nb s ∧ out u = built_text B.
Proof.
  intros [(nb & Hs & _) Ho] Hsc. exists nb. unfold scalar_open, string_of, number_of in Hs.
  rewrite Hsc in Hs. by split.
Qed.

(** The guards that refuse a call while a string or a number is open. *)
Lemma before_value_runs B s u (Q : post) :
  idle B s u → fits B →
  Q LONEJSON_STATUS_TRUNCATED s u →
  (∀ st s' u', status_fails st = true → can_value B = false ∨ may_fail → Q st s' u') →
  (∀ s' u' nb, can_value B = true → shape (frames_of (b_stack B) true) true false false no_event nb s' →
     ready sink u' → out u' = stack_text (b_stack B) ++ value_sep (b_stack B) →
     Q LONEJSON_STATUS_OK s' u') →
  runs (lonejson__writer_before_value sink blocked) s u Q.
Proof.
  intros Hidle Hfit Ht Hf Hok. destruct (b_scalar B) as [|l|t] eqn:Esc.
  - destruct (idle_shape B s u Hidle Esc) as (nb & Hs & Ho).
    eapply (before_runs B no_event nb); eauto.
  - assert (∀ st s' u', status_fails st = true → Q st s' u') as Hbad.
    { intros. apply Hf; [done|]. left. unfold can_value, scalar_open. by rewrite Esc. }
    destruct Hidle as [(nb & Hs & _) _]. unfold string_of, number_of in Hs. rewrite Esc in Hs.
    apply runs_with_state. destruct Hs as [a cap ? ? ?].
    do 2 (apply runs_refuse; [done|intros _]). apply runs_refuse; [intros _; by apply Hbad|done].
  - assert (∀ st s' u', status_fails st = true → Q st s' u') as Hbad.
    { intros. apply Hf; [done|]. left. unfold can_value, scalar_open. by rewrite Esc. }
    destruct Hidle as [(nb & Hs & _) _]. unfold string_of, number_of in Hs. rewrite Esc in Hs.
    apply runs_with_state. destruct Hs as [a cap ? ? ?].
    do 3 (apply runs_refuse; [done|intros _]). apply runs_refuse; [intros _; by apply Hbad|done].
Qed.

(** Opening a container. *)
Lemma begin_ok o p kind open B :
  exec sink blocked o = (lonejson__writer_before_value sink blocked &>
                         lonejson__writer_emit_cstr sink [open] &> lonejson__writer_push_frame kind) →
  apply_op o B = when (can_value B) (push_partial p B) →
  frame_of false p = mk_frame kind 0 false → partial_text p = [open] →
  (∀ s u, ¬ mid o B s u) → fits B → op_ok o B.
Proof.
  intros Hexec Happly Hframe Htext Hnomid Hfit s u [Hidle|Hmid]; [|by edestruct Hnomid].
  rewrite Hexec. apply runs_seq. apply (before_value_runs B); [done|done| | |].
  - rewrite decide_False by done. by left.
  - intros st s' u' Hst Hc. rewrite decide_False by (by apply fails_not_ok).
    apply fails_out; [done|]. destruct Hc as [Hc|Hc]; [left; by rewrite Happly, Hc|auto].
  - intros s' u' nb Hcv Hs' Hr Ho. rewrite decide_True by done. apply runs_seq.
    apply emit_ready_runs; [done| |].
    2:{ intros st u2 Hst Hmay. rewrite decide_False by (by apply fails_not_ok). apply fails_out; auto. }
    intros u2 Hu2. rewrite decide_True by done. destruct Hfit as [Hlen _].
    eapply push_frame_runs; [exact Hs'| | |].
    + rewrite frames_of_true. unfold zlen in *. by rewrite length_fmap.
    + intros s2 Hs2. exists (push_partial p B). rewrite Happly, Hcv. split; [done|].
      pose proof (can_value_scalar B Hcv) as Hsc. split.
      * exists nb. cbn. rewrite Hframe. rewrite frames_of_true in Hs2. by split.
      * unfold WriterRefine.out in *. rewrite Hu2, app_assoc, Ho. unfold built_text. cbn [push_partial b_stack b_root b_scalar].
        cbn [stack_text]. rewrite Htext. by app_norm.
    + intros st s2 Hst Hmay. apply fails_out; auto.
Qed.
(** The guards of the calls that are not allowed inside a scalar. *)
Lemma guards_runs (k : step lonejson_writer U) B s u (Q : post) :
  idle B s u →
  (scalar_open B = true → ∀ st, status_fails st = true → Q st s u) →
  (b_scalar B = No_scalar → runs k s u Q) →
  runs (refuse_failed s (refuse_value_stream s (refuse_string s (refuse_number s k)))) s u Q.
Proof.
  intros [(nb & Hs & _) _] Hf Hk. unfold string_of, number_of, scalar_open in *.
  destruct Hs as [a cap ? ? ?]. do 2 (apply runs_refuse; [done|intros _]). cbn [ws_string_open].
  destruct (b_scalar B).
  - do 2 (apply runs_refuse; [done|intros _]). by apply Hk.
  - apply runs_refuse; [intros _; by apply Hf|done].
  - apply runs_refuse; [done|intros _]. apply runs_refuse; [intros _; by apply Hf|done].
Qed.

(** A writer whose innermost container was closed. *)
Lemma container_closed v p rest B nb s u :
  b_stack B = p :: rest → built_ok B →
  shape (frame_of true <$> rest) true false false no_event nb s →
  out u = stack_text rest ++ value_sep rest ++ render false 0 v →
  idle (add_value v (mk_built (b_root B) rest No_scalar)) s u.
Proof.
  intros Hst [Hp _] Hs Ho. rewrite Hst in Hp. destruct Hp as [Hacc _].
  eapply (value_done v (mk_built (b_root B) rest No_scalar) nb); [done| |done].
  by rewrite frames_of_true.
Qed.

Lemma pop_shape f frames root str num ev nb s :
  shape (f :: frames) root str num ev nb s → shape frames root str num ev nb (pop_frame s).
Proof.
  intros [a cap Hcap ? ?]. rewrite zlen_cons in Hcap. unfold pop_frame, set_frames. cbn.
  rewrite drop_0. constructor; done || lia.
Qed.

(** The end of [end_object] and [end_array]: the bracket and the pop. *)
Lemma close_runs o v p rest close B s u :
  idle B s u → b_scalar B = No_scalar → built_ok B → b_stack B = p :: rest →
  apply_op o B = Some (add_value v (mk_built (b_root B) rest No_scalar)) →
  partial_text p ++ [close] = render false 0 v →
  runs (lonejson__writer_emit_cstr sink [close] &> update pop_frame) s u (call_outcome o B).
Proof.
  intros Hidle Hsc Hok Hst Happly Htext. destruct (idle_shape B s u Hidle Hsc) as (nb & Hs & Ho).
  apply runs_seq, emit_runs.
  - intros u' Hu'. rewrite decide_True by done. apply runs_update. eexists. split; [exact Happly|].
    eapply (container_closed v p rest B nb); [done|done| |].
    + rewrite Hst in Hs. cbn [frames_of] in Hs. unfold root_of in Hs. rewrite Hst in Hs.
      rewrite bool_decide_false in Hs by done. cbn [negb orb] in Hs. by eapply pop_shape.
    + unfold WriterRefine.out in *. rewrite Hu', app_assoc, Ho. unfold built_text. rewrite Hst, Hsc.
      cbn [stack_text]. rewrite <- Htext. by app_norm.
  - intros u' _ Hu'. rewrite decide_False by done. left. destruct Hidle as [Hon _]. split; [done|].
    unfold WriterRefine.out in *. by rewrite Hu'.
  - intros st u' Hst' Hmay. rewrite decide_False by (by apply fails_not_ok). apply fails_out; auto.
Qed.

Lemma top_frame B s u :
  idle B s u → b_scalar B = No_scalar →
  lonejson__writer_top s = frame_of false <$> head (b_stack B).
Proof.
  intros Hidle Hsc. destruct (idle_shape B s u Hidle Hsc) as (nb & Hs & _).
  unfold lonejson__writer_top. destruct Hs as [a cap ? ? ?]. cbn. by destruct (b_stack B).
Qed.

Lemma end_object_ok B : built_ok B → op_ok End_object B.
Proof.
  intros Hok s u [Hidle|[]]. apply runs_with_state. apply (guards_runs _ B); [done| |].
  { intros Hsc st Hst. apply fails_out; [done|]. left. cbn. destruct (b_stack B) as [|[ms [k|]|vs] rest]; try done.
    by rewrite Hsc. }
  intros Hsc. rewrite (top_frame B s u Hidle Hsc).
  assert (apply_op End_object B = None → ∀ st s' u', status_fails st = true →
    call_outcome End_object B st s' u') as Hnone by (intros; apply fails_out; auto).
  cbn [apply_op] in Hnone. unfold scalar_open in Hnone. rewrite Hsc in Hnone.
  destruct (b_stack B) as [|[ms k|vs] rest] eqn:Est; cbn [fmap option_fmap option_map head frame_of].
  - by apply runs_set_error, Hnone.
  - apply runs_refuse; [done|intros _]. apply runs_refuse; cbn [after_key].
    + intros Hk. destruct k; [|done]. by apply Hnone.
    + intros Hk. destruct k as [k|]; [done|].
      eapply (close_runs _ (JObj ms) (PObj ms None) rest); try done.
      * cbn. unfold scalar_open. by rewrite Est, Hsc.
      * rewrite render_obj_open. done.
  - apply runs_refuse; [intros _; by apply Hnone|done].
Qed.

Lemma end_array_ok B : built_ok B → op_ok End_array B.
Proof.
  intros Hok s u [Hidle|[]]. apply runs_with_state. apply (guards_runs _ B); [done| |].
  { intros Hsc st Hst. apply fails_out; [done|]. left. cbn. destruct (b_stack B) as [|[ms [k|]|vs] rest]; try done.
    by rewrite Hsc. }
  intros Hsc. rewrite (top_frame B s u Hidle Hsc).
  assert (apply_op End_array B = None → ∀ st s' u', status_fails st = true →
    call_outcome End_array B st s' u') as Hnone by (intros; apply fails_out; auto).
  cbn [apply_op] in Hnone. unfold scalar_open in Hnone. rewrite Hsc in Hnone.
  destruct (b_stack B) as [|[ms k|vs] rest] eqn:Est; cbn [fmap option_fmap option_map head frame_of].
  - by apply runs_set_error, Hnone.
  - apply runs_refuse; [intros _; by apply Hnone|done].
  - apply runs_refuse; [done|intros _].
    eapply (close_runs _ (JArr vs) (PArr vs) rest); try done.
    + cbn. unfold scalar_open. by rewrite Est, Hsc.
    + rewrite render_arr_open. done.
Qed.

(** *** Pieces of a string *)

Lemma string_begin_ok B : fits B → op_ok String_begin B.
Proof.
  intros Hfit s u [Hidle|[]]. cbn [exec]. apply runs_seq. apply (before_value_runs B); [done|done| | |].
  - rewrite decide_False by done. by left.
  - intros st s' u' Hst Hc. rewrite decide_False by (by apply fails_not_ok).
    apply fails_out; [done|]. destruct Hc as [Hc|Hc]; [left; cbn; by rewrite Hc|auto].
  - intros s' u' nb Hcv Hs' Hr Ho. rewrite decide_True by done. apply runs_seq.
    apply emit_ready_runs; [done| |].
    2:{ intros st u2 Hst Hmay. rewrite decide_False by (by apply fails_not_ok). apply fails_out; auto. }
    intros u2 Hu2. rewrite decide_True by done. apply runs_update.
    exists (set_scalar (In_string []) B). split; [cbn; by rewrite Hcv|]. split.
    + exists nb. split; [|by intros ? [=]].
      assert (root_of (set_scalar (In_string []) B) = true) as -> by (unfold root_of; by rewrite orb_true_r).
      destruct Hs' as [a cap ? ? ?]. by constructor.
    + unfold WriterRefine.out in *. rewrite Hu2, app_assoc, Ho. unfold built_text, set_scalar.
      cbn [b_stack b_root b_scalar].
      assert (b_stack B = [] → b_root B = None) as Hroot.
      { intros H. unfold can_value in Hcv. rewrite H in Hcv. destruct (b_root B); [|done].
        by rewrite andb_false_r in Hcv. }
      destruct (b_stack B) as [|p rest]; [rewrite Hroot by done|]; by app_norm.
Qed.

(** The text of an open scalar. *)
Definition scalar_text (sep : bytes) (o : open_scalar) : bytes :=
  match o with
  | No_scalar => []
  | In_string l => sep ++ 34 :: items_bytes l
  | In_number _ => sep
  end.

Lemma built_text_open B :
  built_ok B → scalar_open B = true →
  built_text B = stack_text (b_stack B) ++ scalar_text (value_sep (b_stack B)) (b_scalar B).
Proof.
  intros [_ Hacc] Hsc. specialize (Hacc Hsc). unfold built_text.
  destruct (b_stack B) as [|p rest]; [|by destruct (b_scalar B)].
  unfold accepts, can_value in Hacc. cbn in Hacc. apply bool_decide_eq_true_1 in Hacc. rewrite Hacc.
  by destruct (b_scalar B).
Qed.

Lemma on_scalar o B opened ev s :
  on B opened ev s → scalar_open B = true →
  string_of (set_scalar o B) = string_of B → number_of (set_scalar o B) = number_of B →
  scalar_open (set_scalar o B) = true → (∀ t, o ≠ In_number t) → on (set_scalar o B) opened ev s.
Proof.
  intros (nb & Hs & _) Hsc Hstr Hnum Hsc' Hno. exists nb. rewrite Hstr, Hnum, Hsc'.
  unfold root_of in *. rewrite Hsc in Hs. rewrite Hsc'. rewrite !orb_true_r in *. split; [exact Hs|].
  intros t Ht. by destruct (Hno t).
Qed.

Lemma on_clear B opened ev s : on B opened ev s → on B opened no_event (lonejson__writer_clear_event s).
Proof. intros (nb & Hs & Hnb). exists nb. split; [by eapply shape_clear|done]. Qed.

Lemma on_guard_string B opened ev s (k : step lonejson_writer U) u (Q : post) :
  on B opened ev s →
  (string_of B = false → ∀ st, status_fails st = true → Q st s u) →
  (string_of B = true → runs k s u Q) →
  runs (refuse_failed s (refuse_value_stream s
         (refuse (negb (ws_string_open s)) LONEJSON_STATUS_INVALID_JSON "writer string is not open" k))) s u Q.
Proof.
  intros (nb & Hs & _) Hf Hk. destruct Hs as [a cap ? ? ?].
  do 2 (apply runs_refuse; [done|intros _]). cbn [ws_string_open].
  apply runs_refuse; intros Hb; [apply Hf|apply Hk]; by destruct (string_of B).
Qed.

Lemma string_chunk_ok a data B : built_ok B → op_ok (String_chunk a data) B.
Proof.
  intros Hok s u Hstart. cbn [exec]. apply runs_with_state. set (Q := call_outcome _ B).
  set (ref := Ref_caller a). set (kind := LONEJSON__WRITER_EVENT_STRING_CHUNK).
  (* the loop, from the event standing at [n] *)
  assert (∀ l n s u, b_scalar B = In_string l → (n ≤ length data)%nat →
    on B false (mk_event kind ref data (Z.of_nat n) 0) s →
    out u = built_text B ++ items_bytes (escaped (take n data)) →
    runs (lonejson__writer_emit_escaped_event sink blocked &> update lonejson__writer_clear_event) s u Q)
    as Hloop.
  { clear Hstart s u. intros l n s u Hl Hn (nb & Hs & Hnb) Ho. apply runs_seq.
    unfold lonejson__writer_emit_escaped_event.
    eapply (runs_event_data sink blocked mode may_fail limit Hlimit pre _ (λ b, item_bytes (escape b)));
      [apply emit_byte_escape|exact Hn|exact Hs| |].
    - intros m s2 u2 Hm Hs2 Ho2. rewrite flat_map_escape in Ho2.
      assert (out u2 = built_text B ++ items_bytes (escaped (take m data))) as Ho3.
      { rewrite Ho2, Ho, <- app_assoc. by rewrite escaped_take_drop by lia. }
      split.
      + intros ->. rewrite decide_True by done. apply runs_update.
        assert (scalar_open B = true) as Hsc by (unfold scalar_open; by rewrite Hl).
        exists (set_scalar (In_string (l ++ escaped data)) B). split; [cbn; by rewrite Hl|]. split.
        * eapply on_clear, on_scalar; [exists nb; by split|done| | |done|done].
          -- unfold string_of. by rewrite Hl.
          -- unfold number_of. by rewrite Hl.
        * assert (built_ok (set_scalar (In_string (l ++ escaped data)) B)) as Hok'.
          { eapply (apply_op_ok (String_chunk a data) B); [done|]. cbn. by rewrite Hl. }
          rewrite Ho3, firstn_all, (built_text_open B), (built_text_open (set_scalar _ B)) by done.
          rewrite Hl. cbn. rewrite items_bytes_app. by app_norm.
      + rewrite decide_False by done. right. exists l, m. split_and!; [done|lia| |done].
        by exists nb.
    - intros st s2 u2 Hst Hmay. rewrite decide_False by (by apply fails_not_ok). apply fails_out; auto. }
  destruct Hstart as [Hidle|(l & n & Hl & Hn & Hon & Ho)].
  - pose proof Hidle as [Hon Ho]. eapply on_guard_string; [exact Hon| |].
    + intros Hstr st Hst. apply fails_out; [done|]. left. cbn. unfold string_of in Hstr.
      by destruct (b_scalar B).
    + intros Hstr. apply runs_seq. unfold string_of in Hstr. destruct (b_scalar B) as [|l|t] eqn:Esc; try done.
      eapply (runs_idle_event sink blocked mode may_fail limit Hlimit pre _ _ _ B); [exact Hidle| |].
      * unfold number_of. by rewrite Esc.
      * intros _ s' Hon'. rewrite decide_True by done. apply (Hloop l 0%nat); [done|lia|exact Hon'|].
        by rewrite app_nil_r.
  - eapply on_guard_string; [exact Hon|unfold string_of; by rewrite Hl|]. intros _. apply runs_seq.
    eapply (begin_event_resumes sink blocked mode may_fail limit Hlimit _ _ _ B); [done| |exact Hon|].
    + unfold number_of. by rewrite Hl.
    + intros s' Hon'. rewrite decide_True by done. by apply (Hloop l n).
Qed.

Lemma string_end_ok B : built_ok B → op_ok String_end B.
Proof.
  intros Hok s u [Hidle|[]]. apply runs_with_state. pose proof Hidle as [(nb & Hs & _) Ho].
  unfold string_of, number_of in Hs. apply runs_refuse.
  { intros Hstr. apply fails_out; [done|]. left. cbn. destruct Hs as [? ? ? ? ?]. cbn in Hstr.
    by destruct (b_scalar B). }
  intros Hstr. assert (∃ l, b_scalar B = In_string l) as [l Hl].
  { destruct Hs as [? ? ? ? ?]. cbn in Hstr. destruct (b_scalar B); [done|by eexists|done]. }
  assert (scalar_open B = true) as Hsc by (unfold scalar_open; by rewrite Hl).
  apply runs_seq, emit_runs.
  - intros u' Hu'. rewrite decide_True by done. apply runs_update.
    exists (add_value (JStr l) B). split; [cbn; by rewrite Hl|].
    replace (add_value (JStr l) B) with (add_value (JStr l) (set_scalar No_scalar B)).
    2:{ unfold add_value. cbn. destruct (b_stack B) as [|[ms [k|]|vs] rest] eqn:E; try done.
        destruct Hok as [_ Hacc]. specialize (Hacc Hsc). rewrite E in Hacc. done. }
    destruct Hok as [Hp Hacc]. pose proof (conj Hp Hacc : built_ok B) as Hok.
    eapply (value_done (JStr l) (set_scalar No_scalar B) nb); [by apply Hacc| |].
    + rewrite Hl, Hsc in Hs. unfold root_of in Hs. rewrite Hsc, !orb_true_r in Hs. cbn [orb] in Hs.
      destruct Hs as [? ? ? ? ?]. by constructor.
    + unfold WriterRefine.out in *. rewrite Hu', app_assoc, Ho, built_text_open by done. rewrite Hl. cbn.
      unfold quoted. by app_norm.
  - intros u' _ Hu'. rewrite decide_False by done. left. destruct Hidle as [Hon _]. split; [done|].
    unfold WriterRefine.out in *. by rewrite Hu'.
  - intros st u' Hst Hmay. rewrite decide_False by (by apply fails_not_ok). apply fails_out; auto.
Qed.
(** *** Numbers piece by piece *)

Lemma number_begin_ok B : fits B → op_ok Number_begin B.
Proof.
  intros Hfit s u [Hidle|[]]. cbn [exec]. apply runs_seq. apply (before_value_runs B); [done|done| | |].
  - rewrite decide_False by done. by left.
  - intros st s' u' Hst Hc. rewrite decide_False by (by apply fails_not_ok).
    apply fails_out; [done|]. destruct Hc as [Hc|Hc]; [left; cbn; by rewrite Hc|auto].
  - intros s' u' nb Hcv Hs' Hr Ho. rewrite decide_True by done. apply runs_update.
    exists (set_scalar (In_number []) B). split; [cbn; by rewrite Hcv|]. split.
    + exists (lonejson__byte_reset nb). split; [|by intros ? [= <-]].
      assert (root_of (set_scalar (In_number []) B) = true) as -> by (unfold root_of; by rewrite orb_true_r).
      destruct Hs' as [a cap ? ? ?]. constructor; [done|done|by apply byte_reset_wf].
    + rewrite Ho. unfold built_text, set_scalar. cbn [b_stack b_root b_scalar].
      assert (b_stack B = [] → b_root B = None) as Hroot.
      { intros H. unfold can_value in Hcv. rewrite H in Hcv. destruct (b_root B); [|done].
        by rewrite andb_false_r in Hcv. }
      destruct (b_stack B) as [|p rest]; [by rewrite Hroot|done].
Qed.

Lemma on_guard_number B opened ev s (k : step lonejson_writer U) u (Q : post) :
  on B opened ev s →
  (number_of B = false → ∀ st, status_fails st = true → Q st s u) →
  (number_of B = true → runs k s u Q) →
  runs (refuse (negb (ws_number_open s)) LONEJSON_STATUS_INVALID_JSON "writer number is not open" k) s u Q.
Proof.
  intros (nb & Hs & _) Hf Hk. destruct Hs as [a cap ? ? ?]. cbn [ws_number_open].
  apply runs_refuse; intros Hb; [apply Hf|apply Hk]; by destruct (number_of B).
Qed.

Lemma number_of_true B : number_of B = true → ∃ t, b_scalar B = In_number t.
Proof. unfold number_of. destruct (b_scalar B); [done|done|by eexists]. Qed.

Lemma append_number_runs text frames root str num ev nb s u (Q : post) :
  shape frames root str num ev nb s →
  (∀ s' nb', contents nb' = contents nb ++ text → shape frames root str num ev nb' s' →
     Q LONEJSON_STATUS_OK s' u) →
  (∀ st s', status_fails st = true → may_fail ∨ limit < zlen (contents nb) + zlen text → Q st s' u) →
  runs (append_number text) s u Q.
Proof.
  intros [al cap Hcap Hal Hwf] Hok Hf c Hc <- Hi. unfold append_number, with_state. rewrite Hc.
  cbn [ws_number ws_max_number_bytes ws_allocator].
  set (e := Some (default (w_error (self c)) (error c))).
  assert (is_u64 limit) as Hu by (unfold is_u64; lia).
  destruct (byte_append_outcome nb text limit al e Hwf Hu)
    as [nb' al' Hcont Hwf' _ _ Hnf|e' Hd [Hlt|?]|al' e' Hd Hnf]; [| |lia|].
  - rewrite decide_True by done. destruct (error c); cbn; (split; [done|]); (eexists; split; [done|]);
      (apply (Hok _ nb'); [done|constructor; [done| |done]]; destruct Hal; auto).
  - rewrite decide_False by done. destruct (error c); cbn; (split; [done|]); (eexists; split; [done|]);
      (apply Hf; [done|by right]).
  - rewrite decide_False by done. destruct (error c); cbn; (split; [done|]); (eexists; split; [done|]);
      (apply Hf; [done|left; by destruct Hal]).
Qed.

Lemma number_chunk_ok a text B : built_ok B → op_ok (Number_chunk a text) B.
Proof.
  intros Hok s u [Hidle|[]]. cbn [exec]. apply runs_with_state. pose proof Hidle as [Hon Ho].
  assert (∀ k Q, runs k s u Q →
    runs (refuse_failed s (refuse_value_stream s k)) s u Q) as Hguard.
  { intros k Q Hk. destruct Hon as (nb & Hs & _). destruct Hs as [? ? ? ? ?].
    by do 2 (apply runs_refuse; [done|intros _]). }
  apply Hguard. eapply on_guard_number; [exact Hon| |].
  - intros Hnum st Hst. apply fails_out; [done|]. left. cbn. unfold number_of in Hnum. by destruct (b_scalar B).
  - intros [t Ht]%number_of_true. destruct Hon as (nb & Hs & Hnb). pose proof (Hnb t Ht) as Hcont.
    assert (scalar_open B = true) as Hsc by (unfold scalar_open; by rewrite Ht).
    eapply append_number_runs; [exact Hs| |].
    + intros s' nb' Hc' Hs'. set (B' := set_scalar (In_number (t ++ text)) B).
      assert (apply_op (Number_chunk a text) B = Some B') as Happly by (cbn; by rewrite Ht).
      exists B'. split; [done|]. split.
      * exists nb'. split; [|intros ? [= <-]; by rewrite Hc', Hcont].
        unfold root_of, string_of, number_of, scalar_open in *. rewrite Ht in Hs'. cbn in *.
        rewrite !orb_true_r in *. exact Hs'.
      * rewrite Ho, !built_text_open; [by rewrite Ht|by eapply apply_op_ok|done|done|done].
    + intros st s' Hst Hc. apply fails_out; [done|]. right. destruct Hc as [Hc|Hc]; [by left|right].
      unfold too_long. by rewrite Ht, <- Hcont.
Qed.

Lemma number_end_call_ok B : built_ok B → op_ok Number_end B.
Proof.
  intros Hok s u Hstart. cbn [exec]. apply runs_with_state. set (Q := call_outcome _ B).
  set (kind := LONEJSON__WRITER_EVENT_BYTES).
  assert (∀ t n s u, b_scalar B = In_number t → lonejson__is_valid_json_number t = true →
    (n ≤ length t)%nat → on B false (mk_event kind Ref_number t (Z.of_nat n) 1) s →
    out u = built_text B ++ take n t →
    runs (lonejson__writer_emit_bytes_event sink blocked &>
          update lonejson__writer_clear_event &> update close_number) s u Q) as Hloop.
  { clear Hstart s u. intros t n s u Ht Hv Hn (nb & Hs & Hnb) Ho. apply runs_seq.
    assert (scalar_open B = true) as Hsc by (unfold scalar_open; by rewrite Ht).
    eapply (runs_event_data sink blocked mode may_fail limit Hlimit pre
              (λ b, lonejson__writer_emit sink [b]) (λ b, [b])); [done|exact Hn|exact Hs| |].
    - intros m s2 u2 Hm Hs2 Ho2. rewrite flat_map_single in Ho2.
      assert (out u2 = built_text B ++ take m t) as Ho3.
      { rewrite Ho2, Ho, <- app_assoc, take_take_drop by lia. done. }
      split.
      + intros ->. rewrite decide_True by done. apply runs_seq, runs_update.
        rewrite decide_True by done. apply runs_update. set (B' := set_scalar No_scalar B).
        assert (add_value (JNum t) B = add_value (JNum t) B') as Hadd.
        { unfold add_value, B'. cbn. destruct (b_stack B) as [|[ms [k|]|vs] rest] eqn:E; try done.
          destruct Hok as [_ Hacc]. specialize (Hacc Hsc). rewrite E in Hacc. done. }
        exists (add_value (JNum t) B). split; [cbn; by rewrite Ht, Hv|]. rewrite Hadd.
        eapply (value_done (JNum t) B' (lonejson__byte_reset nb)).
        * by apply Hok.
        * rewrite Hsc in Hs2. unfold root_of, string_of in Hs2. rewrite Hsc, Ht, !orb_true_r in Hs2.
          cbn [orb] in Hs2. destruct Hs2 as [? ? ? ? ?]. constructor; [done|done|by apply byte_reset_wf].
        * rewrite Ho3, firstn_all, built_text_open by done. rewrite Ht. cbn. by rewrite <- app_assoc.
      + rewrite decide_False by done. right. exists t, m. split_and!; [done|lia|done| |done].
        by exists nb.
    - intros st s2 u2 Hst Hmay. rewrite decide_False by (by apply fails_not_ok). apply fails_out; auto. }
  assert (∀ opened ev k, on B opened ev s → runs k s u Q → runs (refuse_failed s k) s u Q) as Hguard.
  { intros opened ev k (nb & Hs & _) Hk. destruct Hs as [? ? ? ? ?].
    by apply runs_refuse; [done|intros _]. }
  destruct Hstart as [Hidle|(t & n & Ht & Hn & Hv & Hon & Ho)].
  - pose proof Hidle as [Hon Ho]. eapply Hguard; [exact Hon|]. eapply on_guard_number; [exact Hon| |].
    + intros Hnum st Hst. apply fails_out; [done|]. left. cbn. unfold number_of in Hnum. by destruct (b_scalar B).
    + intros [t Ht]%number_of_true. destruct Hon as (nb & Hs & Hnb). pose proof (Hnb t Ht) as Hcont.
      assert (contents (ws_number s) = t ∧ ws_event s = no_event) as [-> Hev]
        by (destruct Hs as [? ? ? ? ?]; by split).
      destruct (lonejson__is_valid_json_number t) eqn:Ev.
      2:{ assert (runs (lonejson__writer_fail LONEJSON_STATUS_INVALID_JSON
                          "number text must be a JSON number") s u Q) as Hbad.
          { apply runs_seq, runs_update. rewrite decide_True by done. apply runs_set_error.
            apply fails_out; [done|]. left. cbn. by rewrite Ht, Ev. }
          destruct (_ =? 0); [done|]. done. }
      replace (zlen t =? 0) with false.
      2:{ destruct t; [done|]. rewrite zlen_cons. pose proof (zlen_nonneg t). lia. }
      cbn [negb]. rewrite Hev. cbn [event_kind no_event]. rewrite decide_True by done.
      apply runs_seq, runs_update. rewrite decide_True by done.
      apply (Hloop t 0%nat); [done|done|lia| |by rewrite app_nil_r].
      exists nb. split; [|done]. destruct Hs as [? ? ? ? ?]. by constructor.
  - eapply Hguard; [exact Hon|]. eapply on_guard_number; [exact Hon|unfold number_of; by rewrite Ht|].
    intros _. pose proof Hon as (nb & Hs & Hnb). pose proof (Hnb t Ht) as Hcont.
    assert (contents (ws_number s) = t ∧ ws_event s = mk_event kind Ref_number t (Z.of_nat n) 1)
      as [-> Hev] by (destruct Hs as [? ? ? ? ?]; by split).
    rewrite Hv, Hev. cbn [negb event_kind event_ref event_data].
    replace (zlen t =? 0) with false.
    2:{ destruct t; [done|]. rewrite zlen_cons. pose proof (zlen_nonneg t). lia. }
    rewrite decide_False by done. apply runs_seq. rewrite !bool_decide_true by done. rewrite Z.eqb_refl.
    apply runs_refuse; [done|intros _]. apply runs_ok. rewrite decide_True by done. by apply (Hloop t n).
Qed.

(** *** Keys *)

#[local] Abbreviation key_event := (mk_event LONEJSON__WRITER_EVENT_KEY).
#[local] Abbreviation emit_byte_runs := (runs_emit_byte sink blocked mode may_fail).

Lemma key_start_runs a key B s u (Q : post) :
  on B false (key_event (Ref_caller a) key 0 0) s → out u = built_text B → number_of B = false →
  (b_scalar B = No_scalar → Q LONEJSON_STATUS_TRUNCATED s u) →
  (∀ st s' u', status_fails st = true → apply_op (Key a key) B = None ∨ may_fail → Q st s' u') →
  (∀ ms rest s' u', b_scalar B = No_scalar → b_stack B = PObj ms None :: rest →
     on B false (key_event (Ref_caller a) key 0 1) s' → out u' = built_text B ++ comma_after ms →
     Q LONEJSON_STATUS_OK s' u') →
  runs (key_start sink blocked) s u Q.
Proof.
  intros (nb & Hs & Hnb) Ho Hnum Ht Hf Hok. apply runs_with_state. revert Ht Hf.
  destruct Hs as [al cap Hcap Hal Hwf]. intros Ht Hf. apply runs_refuse; cbn [ws_string_open].
  { intros Hstr. apply Hf; [done|]. left. cbn. unfold string_of, scalar_open in *.
    destruct (b_stack B) as [|[ms [k|]|vs] rest]; try done. by destruct (b_scalar B). }
  intros Hstr. apply runs_refuse; [cbn; by rewrite Hnum|intros _].
  assert (b_scalar B = No_scalar) as Hsc.
  { unfold string_of, number_of in *. by destruct (b_scalar B). }
  apply unless_runs; [done| |by apply Ht]. intros Hun. unfold lonejson__writer_top. cbn [ws_frames].
  assert (scalar_open B = false) as Hno by (unfold scalar_open; by rewrite Hsc).
  rewrite Hno in *. cbn [orb] in *. cbn [apply_op] in Hf. rewrite Hno in Hf.
  destruct (b_stack B) as [|p rest] eqn:Est; cbn [frames_of head].
  { apply runs_set_error, Hf; auto. }
  destruct p as [ms k|vs]; cbn [frame_of frame_kind after_key frame_values b2z].
  2:{ apply runs_refuse; [intros _; apply Hf; auto|done]. }
  apply runs_refuse; [done|intros _]. apply runs_refuse.
  { intros Hk. destruct k as [k|]; [|done]. apply Hf; auto. }
  intros Hk. destruct k as [k|]; [done|]. clear Hk.
  assert (∀ u', out u' = built_text B ++ comma_after ms → runs (update (set_phase 1)) 
    (mk_writer_state mode al (frames_of (PObj ms None :: rest) false) cap (root_of B) false (string_of B)
       (number_of B) (key_event (Ref_caller a) key 0 0) false false nb limit) u' Q) as Hfin.
  { intros u' Ho'. apply runs_update. apply (Hok ms rest); [done|done| |done]. exists nb. split; [|done].
    rewrite Est, Hno. by constructor. }
  apply runs_seq. destruct ms as [|m ms].
  - apply runs_ok. rewrite decide_True by done. apply Hfin. by rewrite Ho, app_nil_r.
  - replace (negb (zlen (m :: ms) + 0 =? 0)) with true
      by (rewrite zlen_cons; pose proof (zlen_nonneg ms); lia).
    apply emit_byte_runs; [done| |].
    + intros u' Hu' _. rewrite decide_True by done. apply Hfin.
      unfold WriterRefine.out in *. by rewrite Hu', app_assoc, Ho.
    + intros st u' Hst Hmay. rewrite decide_False by (by apply fails_not_ok). apply Hf; auto.
Qed.

(** The key is out: the frame awaits its value. *)
Lemma key_done a key ms rest B nb s u :
  b_stack B = PObj ms None :: rest → b_scalar B = No_scalar →
  shape (frames_of (b_stack B) false) (root_of B) false false (key_event (Ref_caller a) key (zlen key) 3) nb s →
  out u = built_text B ++ comma_after ms ++ quoted (escaped key) ++ [":"%ch] →
  call_outcome (Key a key) B LONEJSON_STATUS_OK (lonejson__writer_clear_event (set_after_key s)) u.
Proof.
  intros Hst Hsc Hs Ho. exists (mk_built (b_root B) (PObj ms (Some (escaped key)) :: rest) No_scalar).
  split; [cbn; unfold scalar_open; by rewrite Hst, Hsc|]. split.
  - exists nb. split; [|done]. unfold root_of in Hs. rewrite Hst in Hs. destruct Hs as [al cap ? ? ?].
    unfold set_after_key, set_top. cbn. unfold lonejson__writer_clear_event. cbn. rewrite drop_0.
    by constructor.
  - rewrite Ho. unfold built_text. rewrite Hst, Hsc. cbn. by app_norm.
Qed.

Lemma key_rest_runs a key ms rest B phase off text s u :
  b_stack B = PObj ms None :: rest → b_scalar B = No_scalar →
  1 ≤ phase → string_progress (comma_after ms) key phase off text →
  on B false (key_event (Ref_caller a) key off phase) s → out u = built_text B ++ text →
  runs (in_phase 1 (unless_blocked blocked (lonejson__writer_emit_cstr sink [34] &> update (set_phase 2))) &>
        in_phase 2 (lonejson__writer_emit_escaped_event sink blocked &> update (set_phase 3)) &>
        in_phase 3 (unless_blocked blocked (lonejson__writer_emit_cstr sink [34; ":"%ch])) &>
        update set_after_key &> update lonejson__writer_clear_event) s u (call_outcome (Key a key) B).
Proof.
  intros Hst Hsc Hge Hp (nb & Hs & Hnb) Ho. cbn [orb] in Hs.
  unfold scalar_open, string_of, number_of in Hs. rewrite Hsc in Hs.
  assert (∀ phase' off' text' s' u', 1 ≤ phase' → string_progress (comma_after ms) key phase' off' text' →
    shape (frames_of (b_stack B) false) (root_of B) false false (key_event (Ref_caller a) key off' phase') nb s' →
    out u' = built_text B ++ text' → call_outcome (Key a key) B LONEJSON_STATUS_TRUNCATED s' u') as Hblock.
  { intros phase' off' text' s' u' _ Hp' Hs' Ho'. right. exists phase', off', text'. rewrite Hst.
    split_and!; [|done|done|done]. exists nb. unfold scalar_open, string_of, number_of. rewrite Hst, Hsc in *.
    by split. }
  apply (runs_quote_data sink blocked mode may_fail limit Hlimit pre LONEJSON__WRITER_EVENT_KEY (Ref_caller a) key
           (comma_after ms) (built_text B)
           (frames_of (b_stack B) false) (root_of B) false false nb phase off text);
    [done..|exact Hblock| |].
  - intros st s' u' Hst' Hmay. apply fails_out; auto.
  - intros s' u' Hs' Ho'.
    assert (call_outcome (Key a key) B LONEJSON_STATUS_TRUNCATED s' u') as Hb3.
    { eapply (Hblock 3); [lia| |exact Hs'|exact Ho']. right; right; right. done. }
    apply runs_seq. eapply (runs_in_phase sink blocked mode may_fail limit Hlimit); [exact Hs'| |done]. intros _.
    apply unless_runs; [by destruct Hs'| |by rewrite decide_False].
    intros Hun. apply emit_ready_runs; [by eapply unblocked_ready| |].
    + intros u2 Hu2. rewrite decide_True by done. apply runs_seq, runs_update. rewrite decide_True by done.
      apply runs_update. eapply key_done; [done|done|exact Hs'|].
      unfold WriterRefine.out in *. rewrite Hu2, app_assoc, Ho'. unfold quoted. by app_norm.
    + intros st u2 Hst' Hmay. rewrite decide_False by (by apply fails_not_ok). apply fails_out; auto.
Qed.

Lemma key_ok a key B : op_ok (Key a key) B.
Proof.
  intros s u Hstart. cbn [exec]. apply runs_with_state.
  set (ref := Ref_caller a). set (kind := LONEJSON__WRITER_EVENT_KEY). set (Q := call_outcome _ B).
  assert (∀ opened ev k, on B opened ev s → runs k s u Q →
    runs (refuse_failed s (refuse_value_stream s k)) s u Q) as Hguard.
  { intros opened ev k (nb & Hs & _) Hk. destruct Hs as [? ? ? ? ?].
    by do 2 (apply runs_refuse; [done|intros _]). }
  assert (∀ k s, on B false (key_event ref key 0 0) s → out u = built_text B → number_of B = false →
    (∀ ms rest s' u', b_scalar B = No_scalar → b_stack B = PObj ms None :: rest →
       on B false (key_event ref key 0 1) s' → out u' = built_text B ++ comma_after ms → runs k s' u' Q) →
    runs (in_phase 0 (key_start sink blocked) &> k) s u Q) as Hfirst.
  { clear Hstart Hguard s. intros k s Hon Ho Hnum Hk. apply runs_seq.
    pose proof Hon as (nb & Hs & _). eapply (runs_in_phase sink blocked mode may_fail limit Hlimit); [exact Hs| |done]. intros _.
    apply (key_start_runs a key B); [done..| | |].
    - intros Hsc. rewrite decide_False by done. right. exists 0, 0, []. rewrite app_nil_r.
      split; [done|]. split; [done|]. split; [done|].
      destruct (b_stack B) as [|[ms [k'|]|vs] rest]; try done. by left.
    - intros st s' u' Hst Hc. rewrite decide_False by (by apply fails_not_ok). apply fails_out; [done|].
      destruct Hc; auto.
    - intros ms rest s' u' Hsc Hst Hon' Ho'. rewrite decide_True by done. by eapply Hk. }
  destruct Hstart as [Hidle|(phase & off & text & Hon & Ho & Hsc & Hp)].
  - eapply Hguard; [apply Hidle|]. apply runs_seq.
    apply (runs_idle_event sink blocked mode may_fail limit Hlimit pre _ _ _ B); [done| |].
    + intros Hnum st Hst. rewrite decide_False by (by apply fails_not_ok). apply fails_out; [done|]. left.
      cbn. unfold number_of, scalar_open in *. destruct (b_stack B) as [|[ms [k|]|vs] rest]; try done.
      by destruct (b_scalar B).
    + intros Hnum s' Hon. rewrite decide_True by done. apply Hfirst; [done|apply Hidle|done|].
      intros ms rest s2 u2 Hsc Hst Hon2 Ho2. eapply (key_rest_runs _ _ ms rest); try done. by right; left.
  - eapply Hguard; [exact Hon|]. apply runs_seq.
    assert (number_of B = false) as Hnum by (unfold number_of; by rewrite Hsc).
    eapply (begin_event_resumes sink blocked mode may_fail limit Hlimit _ _ _ B); [done|done|exact Hon|].
    intros s' Hon'. rewrite decide_True by done. destruct (decide (phase = 0)) as [->|Hne].
    + assert (off = 0 ∧ text = []) as [-> ->].
      { destruct (b_stack B) as [|[ms [k|]|vs] rest]; try by destruct Hp as (_ & ? & ?).
        destruct Hp as [(_ & ? & ?)|[(? & _)|[(? & _)|(? & _)]]]; done || lia. }
      rewrite app_nil_r in Ho. apply Hfirst; [done..|].
      intros ms rest s2 u2 _ Hst Hon2 Ho2. eapply (key_rest_runs _ _ ms rest); try done. by right; left.
    + destruct (b_stack B) as [|[ms [k|]|vs] rest] eqn:Hst; try by destruct Hp as (-> & _).
      apply runs_seq. pose proof Hon' as (nb & Hs & _). eapply (runs_in_phase sink blocked mode may_fail limit Hlimit); [exact Hs|done|].
      intros _. rewrite decide_True by done. eapply (key_rest_runs _ _ ms rest); [done|done| |done|done|done].
      destruct Hp as [(-> & _)|[(-> & _)|[(-> & _)|(-> & _)]]]; done || lia.
Qed.

Lemma string_ok a data B : fits B → op_ok (String a data) B.
Proof. intros Hfit s u Hstart. by apply runs_string. Qed.

(** Every call follows the builder. *)
Lemma op_runs o B : built_ok B → fits B → op_ok o B.
Proof.
  intros Hok Hfit. destruct o.
  - by apply (begin_ok _ (PObj [] None) LONEJSON__WRITER_FRAME_OBJECT "{"%ch); try intros ? ? [].
  - by apply end_object_ok.
  - by apply (begin_ok _ (PArr []) LONEJSON__WRITER_FRAME_ARRAY "["%ch); try intros ? ? [].
  - by apply end_array_ok.
  - by apply key_ok.
  - by apply string_ok.
  - by apply string_begin_ok.
  - by apply string_chunk_ok.
  - by apply string_end_ok.
  - by apply number_text_ok.
  - by apply number_begin_ok.
  - by apply number_chunk_ok.
  - by apply number_end_call_ok.
  - pose proof (format_i64_length value). apply (scalar_ok (lonejson__writer_format_i64 value) (JNum (lonejson__writer_format_i64 value))); done || lia.
  - pose proof (format_u64_length value). apply (scalar_ok (lonejson__writer_format_u64 value) (JNum (lonejson__writer_format_u64 value))); done || lia.
  - by apply double_ok.
  - by eapply (scalar_ok (if value then c_str "true" else c_str "false") (JBool value)); destruct value.
  - by eapply (scalar_ok (c_str "null") JNull).
Qed.

(** Finishing an idle writer. *)
Lemma finish_runs B s u :
  idle B s u →
  runs lonejson_writer_finish s u (λ st s' u',
    u' = u ∧
    if decide (st = LONEJSON_STATUS_OK) then ∃ v, B = mk_built (Some v) [] No_scalar
    else status_fails st = true ∧ ∀ v, B ≠ mk_built (Some v) [] No_scalar).
Proof.
  intros [(nb & Hs & _) _]. apply runs_with_state. destruct Hs as [al cap ? ? ?].
  do 2 (apply runs_refuse; [done|intros _]). cbn [ws_string_open ws_number_open].
  unfold string_of, number_of, root_of, scalar_open. destruct B as [root stack sc]; cbn [b_root b_stack b_scalar].
  destruct sc; [|by apply runs_refuse; [|done]|by apply runs_refuse; [done|intros _; apply runs_refuse; [|done]]].
  do 2 (apply runs_refuse; [done|intros _]). cbn [ws_root_written orb].
  apply runs_refuse.
  { intros Hr. split; [done|]. rewrite decide_False by done. split; [done|]. intros v [= -> ->]. done. }
  intros Hr. cbn [ws_frames]. apply runs_refuse.
  { intros Hz. split; [done|]. rewrite decide_False by done. split; [done|]. intros v [= -> ->]. done. }
  intros Hz. apply runs_update. split; [done|]. rewrite decide_True by done.
  destruct stack as [|p rest]; [|cbn in Hz; rewrite zlen_cons in Hz; pose proof (zlen_nonneg (frame_of true <$> rest)); lia].
  destruct root as [v|]; [by exists v|done].
Qed.
End ops.
