(* ===== verification/WriterBlocked.v ===== *)
(** * WriterBlocked: a writer says [TRUNCATED] only when its output is blocked

    [blocks m]: the step [m] keeps the writer's mode, and if it returns
    [TRUNCATED], [lonejson__writer_output_blocked] holds afterwards.  It holds of
    every call, in every state ([exec_blocks]). *)

From stdpp Require Import base numbers list strings.
From Stdlib Require Import ZArith Lia Bool.
From S2P Require Import Prelude Runtime ByteBuffer Number JsonGrammar Writer WriterLogic WriterSpec WriterRefine.

(** An append to the number buffer never says [TRUNCATED]. *)
Lemma append_status b data limit a e :
  fst (fst (fst (lonejson__byte_append b data limit a e))) ≠ LONEJSON_STATUS_TRUNCATED.
Proof.
  unfold lonejson__byte_append. destruct (_ =? 0); [done|]. destruct (_ <? blen b); [by destruct e|].
  destruct (_ || _); [by destruct e|]. unfold lonejson__byte_reserve.
  destruct (_ <? _); [by destruct e|]. destruct (_ <=? _); [done|].
  destruct (lonejson__buffer_realloc _ _ _ _) as [[] ?]; [done|by destruct e].
Qed.

Section blocks.
Context {U : Type} (sink : lonejson_sink_fn U) (blocked : U → bool).
Context (mode : lonejson__writer_mode).

(** What a sink's [TRUNCATED] means. *)
Definition sink_blocks : Prop := ∀ u d e,
  let '(st, u', _) := sink u d (Some e) in
  st = LONEJSON_STATUS_TRUNCATED → mode = LONEJSON__WRITER_MODE_GENERATOR ∧ blocked u' = true.
Context (Hsink : sink_blocks).

#[local] Abbreviation W := (step lonejson_writer U).

Definition mode_of (c : ctx_of lonejson_writer U) : option lonejson__writer_mode :=
  ws_mode <$> w_state (self c).

Definition blocks (m : W) : Prop := ∀ c, mode_of c = Some mode →
  mode_of (snd (m c)) = Some mode
  ∧ (fst (m c) = LONEJSON_STATUS_TRUNCATED → lonejson__writer_output_blocked blocked (snd (m c)) = true).

Lemma blocks_ok : blocks ok.
Proof. by intros c Hc. Qed.

Lemma blocks_seq m k : blocks m → blocks k → blocks (m &> k).
Proof.
  intros Hm Hk c Hc. destruct (Hm c Hc) as [H1 H2]. unfold and_then. destruct (m c) as [st c'].
  cbn [fst snd] in *. destruct (decide (st = LONEJSON_STATUS_OK)); [by apply Hk|by split].
Qed.

Lemma blocks_update f : (∀ s, ws_mode (f s) = ws_mode s) → blocks (update f).
Proof.
  intros Hf c Hc. split; [|done]. unfold mode_of in *. cbn. destruct (w_state (self c)) as [s|]; [|done].
  cbn in *. by rewrite Hf.
Qed.

Lemma blocks_set_error st m : st ≠ LONEJSON_STATUS_TRUNCATED → blocks (lonejson__writer_set_error st m).
Proof.
  intros Hst c Hc. unfold lonejson__writer_set_error, fail_with. destruct (error c); cbn; by split.
Qed.

Lemma blocks_with_state k : (∀ s, blocks (k s)) → blocks (with_state k).
Proof.
  intros Hk c Hc. unfold with_state. destruct (w_state (self c)) as [s|]; [by apply Hk|].
  by apply blocks_set_error.
Qed.

Lemma blocks_refuse b st m k : st ≠ LONEJSON_STATUS_TRUNCATED → blocks k → blocks (refuse b st m k).
Proof. intros Hst Hk. destruct b; [by apply blocks_set_error|done]. Qed.

Lemma blocks_unless k : blocks k → blocks (unless_blocked blocked k).
Proof.
  intros Hk c Hc. unfold unless_blocked. destruct (lonejson__writer_output_blocked blocked c) eqn:E.
  - by split.
  - by apply Hk.
Qed.

Lemma blocks_emit d : blocks (lonejson__writer_emit sink d).
Proof using Hsink.
  intros c Hc. unfold lonejson__writer_emit. destruct (_ =? 0); [by split|].
  unfold with_state, mode_of in *. destruct (w_state (self c)) as [s|] eqn:Es; [|done]. cbn in Hc.
  pose proof (Hsink (user c) d (default (w_error (self c)) (error c))) as H.
  destruct (sink (user c) d _) as [[st u'] e'].
  assert (∀ s', s' = s ∨ s' = set_failed s → ws_mode s' = mode) as Hm.
  { intros s' [-> | ->]; cbn; congruence. }
  destruct (error c); cbn; split.
  1,3: f_equal; apply Hm; destruct (status_fails st); auto.
  all: unfold lonejson__writer_output_blocked; cbn; intros ->; destruct (H eq_refl) as [Hg Hb];
    cbn; injection Hc as ->; by rewrite Hg.
Qed.

Lemma blocks_loop emit_byte rest :
  (∀ b, blocks (emit_byte b)) → blocks (emit_event_loop blocked emit_byte rest).
Proof.
  intros Hb. induction rest as [|b rest IH]; [apply blocks_ok|]. cbn. apply blocks_unless.
  apply blocks_seq; [done|]. apply blocks_seq; [by apply blocks_update|done].
Qed.

Lemma blocks_append text : blocks (append_number text).
Proof.
  intros c Hc. unfold append_number, with_state, mode_of in *.
  destruct (w_state (self c)) as [s|] eqn:Es; [|done].
  pose proof (append_status (ws_number s) text (ws_max_number_bytes s) (ws_allocator s)) as Hnt.
  specialize (Hnt (Some (default (w_error (self c)) (error c)))). cbn in Hc.
  destruct (lonejson__byte_append _ _ _ _ _) as [[[st nb] a'] e']. cbn in Hnt.
  destruct (error c); cbn; (split; [|done]); by destruct (decide (st = LONEJSON_STATUS_OK)).
Qed.
End blocks.

(** One step of the structural proof. *)
Ltac blocks_tac :=
  repeat first
    [ apply blocks_ok
    | apply blocks_seq
    | apply blocks_unless
    | apply blocks_emit; assumption
    | apply blocks_append
    | apply blocks_update; intros; reflexivity
    | apply blocks_refuse; [discriminate|]
    | apply blocks_set_error; discriminate
    | apply blocks_loop; intros
    | apply blocks_with_state; intros
    | progress cbv zeta
    | case_match ].

Section calls.
Context {U : Type} (sink : lonejson_sink_fn U) (blocked : U → bool).
Context (mode : lonejson__writer_mode) (Hsink : sink_blocks sink blocked mode).

Lemma blocks_escape_byte b : blocks blocked mode (lonejson__writer_string_reader_emit_byte sink b).
Proof using Hsink. unfold lonejson__writer_string_reader_emit_byte. blocks_tac. Qed.

Lemma blocks_after_key : blocks blocked mode (update (U := U) set_after_key).
Proof. apply blocks_update. intros s. unfold set_after_key. by case_match. Qed.

(** Every call. *)
Lemma exec_blocks o : blocks blocked mode (exec sink blocked o).
Proof using Hsink.
  destruct o; cbn [exec]; blocks_tac; first [by apply blocks_escape_byte|apply blocks_after_key].
Qed.

Lemma finish_blocks : blocks blocked mode (lonejson_writer_finish (U := U)).
Proof. unfold lonejson_writer_finish. blocks_tac. Qed.
End calls.
