(* ===== verification/WriterSession.v ===== *)
(** * WriterSession: what a sequence of writer calls has produced

    A [session] is a run of accepted calls, each repeated as long as it says
    [TRUNCATED].  The output of a finished session is the document the calls
    describe; a lossless sink and an allocator that does not fail accept every
    legal call. *)

From stdpp Require Import base numbers list strings.
From Stdlib Require Import ZArith Lia Bool SpecFloat.
From S2P Require Import Prelude Runtime ByteBuffer Number F64 JsonGrammar JsonCursor VisitSpec Writer WriterNumber WriterLogic WriterSpec WriterRefine WriterBlocked WriterOps.

(** ** The builder along a session *)

Lemma apply_ops_cons o ops B : apply_ops (o :: ops) B = (apply_op o B ≫= apply_ops ops).
Proof.
  unfold apply_ops. cbn [foldl mbind option_bind]. destruct (apply_op o B) as [B'|]; [done|].
  cbn. induction ops as [|o' ops IH]; [done|]. exact IH.
Qed.

Lemma apply_ops_ok ops B B' : built_ok B → apply_ops ops B = Some B' → built_ok B'.
Proof.
  revert B. induction ops as [|o ops IH]; intros B Hok; [by intros [= <-]|].
  rewrite apply_ops_cons. destruct (apply_op o B) as [B1|] eqn:E; [|done]. cbn.
  apply IH. by eapply apply_op_ok.
Qed.

Lemma built_empty_ok : built_ok built_empty.
Proof. by split. Qed.

(** No container is deeper, or longer, than the number of calls. *)
Definition sized (n : Z) (B : built) : Prop :=
  zlen (b_stack B) ≤ n ∧ Forall (λ p, children p ≤ n) (b_stack B).

Lemma sized_fits n B : sized n B → n < 2 ^ 60 → fits B.
Proof. intros [H1 H2] Hn. split; [lia|]. eapply Forall_impl; [exact H2|]. cbn. lia. Qed.

Lemma sized_mono n m B : sized n B → n ≤ m → sized m B.
Proof. intros [H1 H2] Hn. split; [lia|]. eapply Forall_impl; [exact H2|]. cbn. lia. Qed.

Lemma sized_add n v B : sized n B → sized (n + 1) (add_value v B).
Proof.
  intros [H1 H2]. unfold add_value. destruct B as [root [|[ms [k|]|vs] rest] sc]; cbn in *.
  - split; cbn; [lia|constructor].
  - apply Forall_cons in H2 as [H2 H3]. split; cbn; [rewrite zlen_cons in *; lia|]. constructor.
    + cbn in *. rewrite zlen_app. change (zlen [(k, v)]) with 1. lia.
    + eapply Forall_impl; [exact H3|]. cbn. lia.
  - split; cbn; [lia|]. eapply Forall_impl; [exact H2|]. cbn. lia.
  - apply Forall_cons in H2 as [H2 H3]. split; cbn; [rewrite zlen_cons in *; lia|]. constructor.
    + cbn in *. rewrite zlen_app. change (zlen [v]) with 1. lia.
    + eapply Forall_impl; [exact H3|]. cbn. lia.
Qed.

Lemma sized_drop n root p rest sc sc' : sized n (mk_built root (p :: rest) sc) → sized n (mk_built root rest sc').
Proof.
  intros [H1 H2]. cbn in *. apply Forall_cons in H2 as [_ H2]. rewrite zlen_cons in H1.
  split; cbn; [lia|done].
Qed.

Lemma when_inv b B B' : when b B = Some B' → b = true ∧ B' = B.
Proof. unfold when. destruct b; [|done]. by intros [= <-]. Qed.

Lemma sized_step n o B B' : sized n B → 0 ≤ n → apply_op o B = Some B' → sized (n + 1) B'.
Proof.
  intros Hs Hn.
  assert (∀ b v, when b (add_value v B) = Some B' → sized (n + 1) B') as Hval.
  { intros b v [_ ->]%when_inv. by apply sized_add. }
  assert (∀ b sc, when b (set_scalar sc B) = Some B' → sized (n + 1) B') as Hsc.
  { intros b sc [_ ->]%when_inv. apply (sized_mono n); [done|lia]. }
  assert (∀ b p, children p = 0 → when b (push_partial p B) = Some B' → sized (n + 1) B') as Hpush.
  { intros b p Hp [_ ->]%when_inv. destruct Hs as [H1 H2]. split; cbn; [rewrite zlen_cons; lia|].
    constructor; [lia|]. eapply Forall_impl; [exact H2|]. cbn. lia. }
  destruct o; cbn [apply_op]; try (by apply Hval); try (by apply Hsc); try (by apply Hpush).
  all: destruct B as [root stack sc]; cbn [b_stack b_scalar b_root].
  - destruct stack as [|[ms [k|]|vs] rest]; try done. intros [_ ->]%when_inv.
    eapply sized_add, sized_drop, Hs.
  - destruct stack as [|[ms [k|]|vs] rest]; try done. intros [_ ->]%when_inv.
    eapply sized_add, sized_drop, Hs.
  - destruct stack as [|[ms [k|]|vs] rest]; try done. intros [_ ->]%when_inv.
    apply (sized_mono n); [|lia]. destruct Hs as [H1 H2]. apply Forall_cons in H2 as [H2 H3].
    split; cbn; [done|by constructor].
  - destruct sc; try done. intros [= <-]. apply (Hsc true (In_string (items ++ escaped data))). done.
  - destruct sc; try done. intros [= <-]. by apply (Hval true (JStr items)).
  - destruct sc; try done. intros [= <-]. apply (Hsc true (In_number (text0 ++ text))). done.
  - destruct sc; try done. apply Hval.
Qed.

(** ** The values are values of JSON *)

Definition value_ok (v : json) : Prop := ∃ t, json_text v t.

Definition partial_ok (p : partial) : Prop :=
  match p with
  | PObj ms k => Forall (λ m, Forall item_ok (fst m) ∧ value_ok (snd m)) ms
                 ∧ (∀ l, k = Some l → Forall item_ok l)
  | PArr vs => Forall value_ok vs
  end.

Definition values_ok (B : built) : Prop :=
  (∀ v, b_root B = Some v → value_ok v) ∧ Forall partial_ok (b_stack B)
  ∧ (∀ l, b_scalar B = In_string l → Forall item_ok l).

(** What the C types say of the arguments. *)
Definition op_typed (o : writer_op) : Prop :=
  match o with
  | Key _ data | String _ data | String_chunk _ data => is_bytes data
  | I64 value => - 2 ^ 63 ≤ value < 2 ^ 63
  | U64 value => 0 ≤ value < 2 ^ 64
  | Double value => valid_binary 53 1024 value = true
  | _ => True
  end.

Lemma elements_ok v vs :
  value_ok v → Forall value_ok vs → ∃ t, json_elements (v :: vs) t.
Proof.
  intros [t Ht] Hvs. revert v t Ht. induction Hvs as [|w vs [t2 Ht2] _ IH]; intros v t Ht.
  - eexists. by apply (elements_one [] v t []); try constructor.
  - destruct (IH w t2 Ht2) as [ts Hts]. eexists. by apply (elements_more [] v t [] (w :: vs) ts); try constructor.
Qed.

Lemma members_ok m ms :
  Forall (λ m, Forall item_ok (fst m) ∧ value_ok (snd m)) (m :: ms) → ∃ t, json_members (m :: ms) t.
Proof.
  revert m. induction ms as [|m2 ms IH]; intros [k v]; rewrite Forall_cons; intros [[Hk [t Ht]] H].
  - eexists. by apply (members_one [] k [] [] v t []); try constructor.
  - destruct (IH m2 H) as [ts Hts]. eexists.
    by apply (members_more [] k [] [] v t [] (m2 :: ms) ts); try constructor.
Qed.

Lemma arr_ok vs : Forall value_ok vs → value_ok (JArr vs).
Proof.
  intros H. destruct vs as [|v vs]; [eexists; apply (text_arr_nil []); constructor|].
  apply Forall_cons in H as [Hv Hvs]. destruct (elements_ok v vs Hv Hvs) as [t Ht].
  eexists. by apply text_arr.
Qed.

Lemma obj_ok ms : Forall (λ m, Forall item_ok (fst m) ∧ value_ok (snd m)) ms → value_ok (JObj ms).
Proof.
  intros H. destruct ms as [|m ms]; [eexists; apply (text_obj_nil []); constructor|].
  destruct (members_ok m ms H) as [t Ht]. eexists. by apply text_obj.
Qed.

Lemma num_ok t : json_number t → value_ok (JNum t).
Proof. intros H. eexists. by apply text_num. Qed.

Lemma str_ok l : Forall item_ok l → value_ok (JStr l).
Proof. intros H. eexists. by apply text_str. Qed.

Lemma add_value_values v B : value_ok v → values_ok B → values_ok (add_value v B).
Proof.
  intros Hv (Hr & Hst & Hsc). unfold add_value. destruct B as [root [|[ms [k|]|vs] rest] sc]; cbn in *.
  - split_and!; cbn; [by intros ? [= <-]|done|done].
  - apply Forall_cons in Hst as [[Hms Hk] Hst]. split_and!; cbn; [done| |done].
    constructor; [|done]. split; [|done]. apply Forall_app. split; [done|].
    constructor; [|done]. split; [by apply Hk|done].
  - by split_and!.
  - apply Forall_cons in Hst as [Hvs Hst]. split_and!; cbn; [done| |done].
    constructor; [|done]. apply Forall_app. split; [done|]. by constructor.
Qed.

Lemma values_step o B B' : op_typed o → values_ok B → apply_op o B = Some B' → values_ok B'.
Proof.
  intros Ht Hv.
  assert (∀ b v, value_ok v → when b (add_value v B) = Some B' → values_ok B') as Hval.
  { intros b v Hok [_ ->]%when_inv. by apply add_value_values. }
  pose proof Hv as (Hr & Hst & Hsc).
  destruct o; cbn [apply_op].
  - intros [_ ->]%when_inv. split_and!; cbn; [done|constructor; [by repeat constructor|done]|done].
  - destruct B as [root [|[ms [k|]|vs] rest] sc]; cbn in *; try done. intros [_ ->]%when_inv.
    apply Forall_cons in Hst as [[Hms _] Hst]. apply add_value_values; [by apply obj_ok|by split_and!].
  - intros [_ ->]%when_inv. split_and!; cbn; [done|constructor; [by repeat constructor|done]|done].
  - destruct B as [root [|[ms [k|]|vs] rest] sc]; cbn in *; try done. intros [_ ->]%when_inv.
    apply Forall_cons in Hst as [Hvs Hst]. apply add_value_values; [by apply arr_ok|by split_and!].
  - destruct B as [root [|[ms [k|]|vs] rest] sc]; cbn in *; try done. intros [_ ->]%when_inv.
    apply Forall_cons in Hst as [[Hms _] Hst]. split_and!; cbn; [done| |done].
    constructor; [|done]. split; [done|]. intros l [= <-]. by apply escaped_ok.
  - apply Hval. apply str_ok. by apply escaped_ok.
  - intros [_ ->]%when_inv. split_and!; cbn; [done..|]. by intros l [= <-].
  - destruct (b_scalar B) eqn:E; try done. intros [= <-]. split_and!; cbn; [done..|].
    intros l [= <-]. apply Forall_app. split; [by apply Hsc|by apply escaped_ok].
  - destruct (b_scalar B) eqn:E; try done. intros [= <-]. apply add_value_values; [|done].
    by apply str_ok, Hsc.
  - intros [Hc ->]%when_inv. apply andb_true_iff in Hc as [_ Hn]. apply add_value_values; [|done].
    by apply num_ok, is_valid_json_number_spec.
  - intros [_ ->]%when_inv. split_and!; cbn; done.
  - destruct (b_scalar B) eqn:E; try done. intros [= <-]. split_and!; cbn; done.
  - destruct (b_scalar B) eqn:E; try done. intros [Hn ->]%when_inv. apply add_value_values; [|done].
    by apply num_ok, is_valid_json_number_spec.
  - apply Hval. by apply num_ok, format_i64_number.
  - apply Hval. by apply num_ok, format_u64_number.
  - intros [Hc ->]%when_inv. apply andb_true_iff in Hc as [Hc _]. apply add_value_values; [|done].
    by apply num_ok, writer_f64_number.
  - apply Hval. destruct value; eexists; [apply text_true|apply text_false].
  - apply Hval. eexists. apply text_null.
Qed.

Lemma apply_ops_values ops B B' :
  Forall op_typed ops → values_ok B → apply_ops ops B = Some B' → values_ok B'.
Proof.
  intros Ht. revert B. induction Ht as [|o ops Ho _ IH]; intros B Hv; [by intros [= <-]|].
  rewrite apply_ops_cons. destruct (apply_op o B) as [B1|] eqn:E; [|done]. cbn.
  apply IH. by eapply values_step.
Qed.

(** The finished document is a JSON document. *)
Lemma built_document ops v :
  Forall op_typed ops → apply_ops ops built_empty = Some (mk_built (Some v) [] No_scalar) →
  json_document v (render false 0 v).
Proof.
  intros Ht H. apply apply_ops_values in H as (Hr & _); [|done|by split_and!].
  destruct (Hr v eq_refl) as [t Hv]. exists [], (render false 0 v), [].
  rewrite app_nil_r. split_and!; [done|constructor|by eapply render_is_text|constructor].
Qed.

(** ** Where a writer stands *)

Section standing.
Context {U : Type} (sink : lonejson_sink_fn U) (blocked : U → bool).
Context (mode : lonejson__writer_mode) (may_fail : Prop) `{!WriterSink sink blocked mode may_fail}.
Context (limit : Z) (Hlimit : 0 ≤ limit < SIZE_MAX) (pre : bytes).
#[local] Set Default Proof Using "Type*".

#[local] Abbreviation C := (ctx_of lonejson_writer U).
#[local] Abbreviation idle := (WriterRefine.idle sink blocked mode may_fail limit pre).
#[local] Abbreviation mid := (WriterRefine.mid sink blocked mode may_fail limit pre).

(** The writer of [c] stands at [B], or in the event [o] on [B]. *)
Definition stands (B : built) (c : C) : Prop :=
  ∃ s, w_state (self c) = Some s ∧ sink_inv sink (user c) ∧ idle B s (user c).
Definition in_event (o : writer_op) (B : built) (c : C) : Prop :=
  ∃ s, w_state (self c) = Some s ∧ sink_inv sink (user c) ∧ (idle B s (user c) ∨ mid o B s (user c)).

Lemma stands_in_event o B c : stands B c → in_event o B c.
Proof. intros (s & ? & ? & ?). exists s. auto. Qed.

Lemma mid_taken o B s u u' : taken sink u' = taken sink u → mid o B s u → mid o B s u'.
Proof.
  intros H. unfold mid, mid_token, mid_value, mid_key, mid_chunk, mid_number_end, out. by rewrite H.
Qed.

(** Wherever it stands, it has its mode. *)
Lemma at_mode o B s u : idle B s u ∨ mid o B s u → ws_mode s = mode.
Proof.
  assert (∀ opened ev, on mode may_fail limit B opened ev s → ws_mode s = mode) as Hon.
  { intros opened ev (nb & Hs & _). by destruct Hs. }
  intros [[H _]|H]; [by eapply Hon|]. destruct o; try by destruct H.
  all: try (destruct H as (? & ? & ? & H & _); by eapply Hon).
  - destruct H as (? & ? & _ & _ & H & _). by eapply Hon.
  - destruct H as (? & ? & _ & _ & _ & H & _). by eapply Hon.
Qed.

(** One call. *)
Lemma exec_outcome o B c st c' :
  built_ok B → fits B → in_event o B c → exec sink blocked o c = (st, c') →
  match st with
  | LONEJSON_STATUS_OK => ∃ B', apply_op o B = Some B' ∧ stands B' c'
  | LONEJSON_STATUS_TRUNCATED => in_event o B c'
  | _ => status_fails st = true ∧ (apply_op o B = None ∨ may_fail ∨ too_long limit o B)
  end.
Proof.
  intros Hok Hfit (s & Hs & Hi & Hm) E.
  destruct (op_runs sink blocked mode may_fail limit Hlimit pre o B Hok Hfit s (user c) Hm c Hs eq_refl Hi)
    as (Hi' & s' & Hs' & HQ). rewrite E in *. cbn [fst snd] in *.
  destruct st; cbn in HQ |- *; try by split.
  - destruct HQ as (B' & ? & ?). exists B'. split; [done|]. by exists s'.
  - by exists s'.
Qed.

Lemma finish_outcome B c :
  stands B c →
  let '(st, c') := lonejson_writer_finish c in
  user c' = user c
  ∧ if decide (st = LONEJSON_STATUS_OK) then ∃ v, B = mk_built (Some v) [] No_scalar
    else status_fails st = true ∧ ∀ v, B ≠ mk_built (Some v) [] No_scalar.
Proof.
  intros (s & Hs & Hi & Hidle).
  destruct (finish_runs sink blocked mode may_fail limit Hlimit pre B s (user c) Hidle c Hs eq_refl Hi)
    as (_ & s' & _ & HQ). by destruct (lonejson_writer_finish c) as [st c'].
Qed.

(** A new writer. *)
Lemma init_stands a c :
  self c = lonejson__writer_init mode a limit → never_fails a ∨ may_fail → sink_inv sink (user c) →
  pre ++ taken sink (user c) = [] → stands built_empty c.
Proof.
  intros Hc Ha Hi Hpre. eexists. rewrite Hc. split_and!; [done|done|]. split; [|done].
  exists buffer_empty. split; [|done]. constructor; [done|done|apply buffer_empty_wf].
Qed.
End standing.

(** ** Sessions *)

Section session.
Context {U : Type} (sink : lonejson_sink_fn U) (blocked : U → bool).
(** What may happen to the sink's user between a blocked call and its repetition. *)
Variable turn : U → U → Prop.

#[local] Abbreviation C := (ctx_of lonejson_writer U).

Definition with_user (u : U) (c : C) : C := mk_ctx (self c) u (error c).

Inductive session : list writer_op → C → C → Prop :=
| session_done c : session [] c c
| session_accepted o ops c c1 c2 :
    exec sink blocked o c = (LONEJSON_STATUS_OK, c1) → session ops c1 c2 → session (o :: ops) c c2
| session_blocked o ops c c1 u c2 :
    exec sink blocked o c = (LONEJSON_STATUS_TRUNCATED, c1) → turn (user c1) u →
    session (o :: ops) (with_user u c1) c2 → session (o :: ops) c c2.

(** The calls one after the other, up to the first that is not accepted. *)
Fixpoint run_ops (ops : list writer_op) : step lonejson_writer U :=
  match ops with
  | [] => ok
  | o :: ops => exec sink blocked o &> run_ops ops
  end.

Lemma run_session ops c : fst (run_ops ops c) = LONEJSON_STATUS_OK → session ops c (snd (run_ops ops c)).
Proof.
  revert c. induction ops as [|o ops IH]; intros c; [constructor|]. cbn [run_ops]. unfold and_then.
  destruct (exec sink blocked o c) as [st c1] eqn:E. destruct (decide (st = LONEJSON_STATUS_OK)) as [->|].
  - intros H. eapply session_accepted; [done|by apply IH].
  - cbn. congruence.
Qed.

Context (mode : lonejson__writer_mode) (may_fail : Prop) `{!WriterSink sink blocked mode may_fail}.
Context (limit : Z) (Hlimit : 0 ≤ limit < SIZE_MAX) (pre : bytes).
Hypothesis turn_keeps : ∀ u u',
  turn u u' → sink_inv sink u → sink_inv sink u' ∧ taken sink u' = taken sink u.
#[local] Set Default Proof Using "Type*".

#[local] Abbreviation stands := (stands sink blocked mode may_fail limit pre).
#[local] Abbreviation in_event := (in_event sink blocked mode may_fail limit pre).
#[local] Abbreviation exec_outcome := (exec_outcome sink blocked mode may_fail limit Hlimit pre).

Lemma turn_in_event o B c u : turn (user c) u → in_event o B c → in_event o B (with_user u c).
Proof.
  intros Ht (s & Hs & Hi & Hm). destruct (turn_keeps _ _ Ht Hi) as [Hi' Htk]. exists s.
  split_and!; [done|done|]. destruct Hm as [[Hon Ho]|Hm]; [left|right; by eapply (mid_taken sink blocked mode may_fail limit Hlimit pre)].
  split; [done|]. unfold out in *. cbn [user with_user]. by rewrite Htk.
Qed.

Lemma session_follows ops c c' B n :
  session ops c c' → built_ok B → sized n B → 0 ≤ n → n + zlen ops < 2 ^ 60 →
  match ops with [] => stands B c | o :: _ => in_event o B c end →
  ∃ B', apply_ops ops B = Some B' ∧ built_ok B' ∧ sized (n + zlen ops) B' ∧ stands B' c'.
Proof.
  intros H. revert B n. induction H as [c|o ops c c1 c2 E H IH|o ops c c1 u c2 E Hturn H IH];
    intros B n Hok Hsz Hn Hlen Hst.
  - exists B. change (zlen []) with 0. by rewrite Z.add_0_r.
  - rewrite zlen_cons in *. pose proof (zlen_nonneg ops).
    destruct (exec_outcome o B c LONEJSON_STATUS_OK c1) as (B1 & H1 & Hst1); [done| |done..|].
    { eapply sized_fits; [done|lia]. }
    destruct (IH B1 (n + 1)) as (B' & HB' & ? & ? & ?).
    + by eapply apply_op_ok.
    + by eapply sized_step.
    + lia.
    + lia.
    + destruct ops; [done|by apply (stands_in_event sink blocked mode may_fail limit Hlimit pre)].
    + exists B'. rewrite apply_ops_cons, H1. cbn. replace (n + (zlen ops + 1)) with (n + 1 + zlen ops) by lia.
      by split_and!.
  - apply IH; [done..|]. apply turn_in_event; [done|]. rewrite zlen_cons in *. pose proof (zlen_nonneg ops).
    apply (exec_outcome o B c LONEJSON_STATUS_TRUNCATED c1); [done| |done..].
    eapply sized_fits; [done|lia].
Qed.

End session.
