(* ===== verification/WriterProps.v ===== *)
(** * WriterProps: properties of the writer

    The output of every session is the text of the document its calls describe;
    a writer over a lossless sink accepts the legal calls and refuses the others;
    any document can be written, and is read back. *)

From stdpp Require Import base numbers list strings.
From Stdlib Require Import ZArith Lia Bool SpecFloat.
From S2P Require Import Prelude Runtime ByteBuffer Number F64 JsonGrammar JsonCursor VisitSpec Writer WriterNumber WriterLogic WriterSpec WriterRefine WriterBlocked WriterOps WriterSession.

(** ** Lossless sinks *)

Section lossless.
Context {U : Type} (sink : lonejson_sink_fn U) `{!LosslessSink sink} (blocked : U → bool).
(** What the sink had before. *)
Context (base : bytes).

(** A lossless sink, seen by a writer in sink mode. *)
#[local] Set Default Proof Using "LosslessSink0".
#[export] Program Instance lossless_writer_sink :
  WriterSink sink blocked LONEJSON__WRITER_MODE_SINK False := {|
    sink_inv := λ u, base `prefix_of` sink_out sink u;
    taken := λ u, drop (length base) (sink_out sink u);
    ready := λ _, True
  |}.
Next Obligation.
  intros u d e [k Hk]. destruct (sink_lossless sink u d (Some e)) as (u' & -> & Ho). split.
  - exists (k ++ d). by rewrite Ho, Hk, app_assoc.
  - left. split; [done|]. rewrite Ho, drop_app_le; [done|]. rewrite Hk, length_app. lia.
Qed.
Next Obligation. done. Qed.
Next Obligation.
  intros u b e _ _. by destruct (sink_lossless sink u [b] (Some e)) as (u' & -> & _).
Qed.

Lemma lossless_blocks : sink_blocks sink blocked LONEJSON__WRITER_MODE_SINK.
Proof using LosslessSink0. intros u d e. by destruct (sink_lossless sink u d (Some e)) as (u' & -> & _). Qed.

Context (limit : Z) (Hlimit : 0 ≤ limit < SIZE_MAX).
#[local] Abbreviation stands :=
  (stands sink blocked LONEJSON__WRITER_MODE_SINK False limit []).

Lemma stands_mode B c : stands B c → mode_of c = Some LONEJSON__WRITER_MODE_SINK.
Proof. intros (s & Hs & _ & (nb & Hsh & _) & _). unfold mode_of. rewrite Hs. by destruct Hsh. Qed.

(** A call on a writer that stands at [B]. *)
Lemma lossless_exec o B c :
  built_ok B → fits B → stands B c →
  let '(st, c') := exec sink blocked o c in
  (st = LONEJSON_STATUS_OK ∧ ∃ B', apply_op o B = Some B' ∧ stands B' c')
  ∨ (status_fails st = true ∧ (apply_op o B = None ∨ too_long limit o B)).
Proof using Hlimit LosslessSink0.
  intros Hok Hfit Hst. pose proof (stands_mode B c Hst) as Hm.
  pose proof (exec_blocks sink blocked LONEJSON__WRITER_MODE_SINK lossless_blocks o c Hm) as [Hm' Hb].
  destruct (exec sink blocked o c) as [st c'] eqn:E. cbn [fst snd] in *.
  pose proof (exec_outcome sink blocked LONEJSON__WRITER_MODE_SINK False limit Hlimit []
    o B c st c' Hok Hfit (stands_in_event _ _ _ _ _ Hlimit _ o B c Hst) E) as H.
  destruct st; try (right; split; [done|]; by destruct H as (_ & [H|[[]|H]]); auto).
  - by left.
  - exfalso. specialize (Hb eq_refl). unfold lonejson__writer_output_blocked, mode_of in *.
    destruct (w_state (self c')) as [s|]; [|done]. cbn in Hm'. injection Hm' as Hm'. by rewrite Hm' in Hb.
Qed.

(** The calls of [ops] are legal, one after the other. *)
Fixpoint within (ops : list writer_op) (B : built) : Prop :=
  match ops with
  | [] => True
  | o :: ops => ¬ too_long limit o B ∧ (∀ B', apply_op o B = Some B' → within ops B')
  end.

Lemma lossless_run ops B B' c n :
  built_ok B → sized n B → 0 ≤ n → n + zlen ops < 2 ^ 60 → stands B c →
  apply_ops ops B = Some B' → within ops B →
  ∃ c', run_ops sink blocked ops c = (LONEJSON_STATUS_OK, c') ∧ stands B' c'.
Proof using Hlimit LosslessSink0.
  revert B c n. induction ops as [|o ops IH]; intros B c n Hok Hsz Hn Hlen Hst Happ Hw.
  { injection Happ as ->. by exists c. }
  rewrite apply_ops_cons in Happ. rewrite zlen_cons in Hlen. pose proof (zlen_nonneg ops). destruct Hw as [Hl Hw].
  assert (fits B) as Hfit by (eapply sized_fits; [done|lia]).
  pose proof (lossless_exec o B c Hok Hfit Hst) as H1. cbn [run_ops]. unfold and_then.
  destruct (exec sink blocked o c) as [st c1]. destruct H1 as [(-> & B1 & H1 & Hst1)|(_ & [H1|H1])].
  - rewrite decide_True by done. rewrite H1 in Happ. apply (IH B1 c1 (n + 1)); try done.
    + by eapply apply_op_ok.
    + by eapply sized_step.
    + lia.
    + lia.
    + by apply Hw.
  - by rewrite H1 in Happ.
  - done.
Qed.
End lossless.

(** ** Documents as calls *)

#[warnings="-register-all"]
Inductive doc :=
| DNull
| DBool (b : bool)
| DInt (value : Z)
| DUnsigned (value : Z)
| DDouble (value : f64)
| DNumber (text : bytes)
| DString (data : bytes)
| DArray (elements : list doc)
| DObject (members : list (bytes * doc)).

Section doc_ind.
Context (P : doc → Prop)
  (Hnull : P DNull) (Hbool : ∀ b, P (DBool b)) (Hint : ∀ v, P (DInt v)) (Huns : ∀ v, P (DUnsigned v))
  (Hdouble : ∀ v, P (DDouble v))
  (Hnum : ∀ t, P (DNumber t)) (Hstr : ∀ l, P (DString l))
  (Harr : ∀ vs, Forall P vs → P (DArray vs)) (Hobj : ∀ ms, Forall (λ m, P (snd m)) ms → P (DObject ms)).

Fixpoint doc_rect_nested (d : doc) : P d :=
  match d with
  | DNull => Hnull
  | DBool b => Hbool b
  | DInt v => Hint v
  | DUnsigned v => Huns v
  | DDouble v => Hdouble v
  | DNumber t => Hnum t
  | DString l => Hstr l
  | DArray vs =>
      Harr vs ((fix go vs : Forall P vs :=
                  match vs with
                  | [] => Forall_nil_2 P
                  | v :: vs => @Forall_cons_2 _ P v vs (doc_rect_nested v) (go vs)
                  end) vs)
  | DObject ms =>
      Hobj ms ((fix go ms : Forall (λ m, P (snd m)) ms :=
                  match ms with
                  | [] => Forall_nil_2 (λ m, P (snd m))
                  | m :: ms => @Forall_cons_2 _ (λ m, P (snd m)) m ms (doc_rect_nested (snd m)) (go ms)
                  end) ms)
  end.
End doc_ind.

(** The JSON value a document is. *)
Fixpoint json_of (d : doc) : json :=
  match d with
  | DNull => JNull
  | DBool b => JBool b
  | DInt v => JNum (lonejson__writer_format_i64 v)
  | DUnsigned v => JNum (lonejson__writer_format_u64 v)
  | DDouble v => JNum (writer_f64_text v)
  | DNumber t => JNum t
  | DString data => JStr (escaped data)
  | DArray vs => JArr (map json_of vs)
  | DObject ms => JObj (map (λ m, (escaped (fst m), json_of (snd m))) ms)
  end.

(** The calls that write it, with the caller's data at [a]. *)
Fixpoint events (a : Z) (d : doc) : list writer_op :=
  match d with
  | DNull => [Null]
  | DBool b => [Bool b]
  | DInt v => [I64 v]
  | DUnsigned v => [U64 v]
  | DDouble v => [Double v]
  | DNumber t => [Number_text a t]
  | DString data => [String a data]
  | DArray vs => Begin_array :: flat_map (events a) vs ++ [End_array]
  | DObject ms => Begin_object :: flat_map (λ m, Key a (fst m) :: events a (snd m)) ms ++ [End_object]
  end.

(** What the C types and the API ask of a document. *)
Fixpoint doc_ok (d : doc) : Prop :=
  match d with
  | DNull | DBool _ => True
  | DInt v => - 2 ^ 63 ≤ v < 2 ^ 63
  | DUnsigned v => 0 ≤ v < 2 ^ 64
  | DDouble v => valid_binary 53 1024 v = true ∧ lonejson__is_finite_f64 v = true
  | DNumber t => json_number t
  | DString data => is_bytes data
  | DArray vs => foldr (λ d P, doc_ok d ∧ P) True vs
  | DObject ms => foldr (λ m P, (is_bytes (fst m) ∧ doc_ok (snd m)) ∧ P) True ms
  end.

Lemma apply_ops_app l1 l2 B : apply_ops (l1 ++ l2) B = (apply_ops l1 B ≫= apply_ops l2).
Proof.
  revert B. induction l1 as [|o l1 IH]; intros B; [done|]. cbn [app]. rewrite !apply_ops_cons.
  destruct (apply_op o B) as [B'|]; [apply IH|done].
Qed.

(** A document is one value. *)
Lemma events_value a d B :
  doc_ok d → can_value B = true → apply_ops (events a d) B = Some (add_value (json_of d) B).
Proof.
  revert B. induction d as [|b|v|v|v|t|data|vs IH|ms IH] using doc_rect_nested; intros B Hd Hcv;
    cbn [events json_of doc_ok] in *; rewrite ?apply_ops_cons; cbn [apply_op]; rewrite ?Hcv; try done.
  - destruct Hd as [_ Hf]. by rewrite Hf.
  - apply is_valid_json_number_spec in Hd. by rewrite Hd.
  - cbn [when mbind option_bind]. rewrite apply_ops_app.
    assert (∀ ws, apply_ops (flat_map (events a) vs) (push_partial (PArr ws) B)
                  = Some (push_partial (PArr (ws ++ map json_of vs)) B)) as Hvs.
    { induction IH as [|d vs Hv _ IHvs]; intros ws; cbn [flat_map map]; [by rewrite app_nil_r|].
      cbn [foldr] in Hd. destruct Hd as [Hd Hds]. rewrite apply_ops_app, Hv by done.
      cbn [mbind option_bind]. unfold add_value. cbn [push_partial b_stack b_root].
      specialize (IHvs Hds (ws ++ [json_of d])). unfold push_partial in IHvs.
      rewrite IHvs. by rewrite <- app_assoc. }
    rewrite Hvs. cbn. pose proof (can_value_scalar B Hcv) as Hsc. by destruct B; cbn in *; subst.
  - cbn [when mbind option_bind]. rewrite apply_ops_app.
    assert (∀ ws, apply_ops (flat_map (λ m, Key a (fst m) :: events a (snd m)) ms)
                    (push_partial (PObj ws None) B)
                  = Some (push_partial (PObj (ws ++ map (λ m, (escaped (fst m), json_of (snd m))) ms) None) B))
      as Hms.
    { induction IH as [|[k d] ms Hv _ IHms]; intros ws; cbn [flat_map map fst snd]; [by rewrite app_nil_r|].
      cbn [foldr fst snd] in Hd. destruct Hd as [[_ Hd] Hds].
      rewrite apply_ops_app, apply_ops_cons. cbn [apply_op push_partial b_stack scalar_open b_scalar negb when].
      cbn [mbind option_bind]. rewrite Hv by done.
      cbn [mbind option_bind].
      etrans; [apply (IHms Hds (ws ++ [(escaped k, json_of d)]))|]. by rewrite <- app_assoc. }
    rewrite Hms. cbn. pose proof (can_value_scalar B Hcv) as Hsc. by destruct B; cbn in *; subst.
Qed.

Lemma events_all (P : writer_op → Prop) a d :
  doc_ok d →
  P Null → (∀ b, P (Bool b)) → (∀ v, - 2 ^ 63 ≤ v < 2 ^ 63 → P (I64 v)) → (∀ v, 0 ≤ v < 2 ^ 64 → P (U64 v)) →
  (∀ v, valid_binary 53 1024 v = true → P (Double v)) →
  (∀ t, P (Number_text a t)) → (∀ t, is_bytes t → P (String a t) ∧ P (Key a t)) →
  P Begin_array → P End_array → P Begin_object → P End_object → Forall P (events a d).
Proof.
  intros Hd Hnull Hbool Hi Hu Hdb Hn Hs Hba Hea Hbo Heo. revert Hd.
  induction d as [|b|v|v|v|t|data|vs IH|ms IH] using doc_rect_nested; cbn [events doc_ok]; intros Hd;
    try (constructor; [|done]; auto).
  - apply Hdb, Hd.
  - by apply Hs.
  - constructor; [done|]. apply Forall_app. split; [|by constructor].
    induction IH as [|d vs Hv _ IHvs]; cbn [flat_map]; [done|]. destruct Hd as [Hd Hds].
    apply Forall_app. auto.
  - constructor; [done|]. apply Forall_app. split; [|by constructor].
    induction IH as [|[k d] ms Hv _ IHms]; cbn [flat_map]; [done|]. destruct Hd as [[Hk Hd] Hds].
    constructor; [by apply Hs|]. apply Forall_app. auto.
Qed.

Lemma within_pieces limit ops B :
  Forall (λ o, match o with Number_chunk _ _ => False | _ => True end) ops → within limit ops B.
Proof.
  intros H. revert B. induction H as [|o ops Ho _ IH]; intros B; [done|]. split; [|auto].
  intros Hl. unfold too_long in Hl. by destruct o.
Qed.

(** Escaping is inverse to the reading of strings. *)
Lemma decode_escape b l : is_byte b → decode_items (escape b :: l) = (rest ← decode_items l; Some (b :: rest)).
Proof.
  intros Hb. unfold is_byte in Hb. unfold escape.
  destruct ((32 <=? b) && negb (b =? 34) && negb (b =? 92)) eqn:E; [done|].
  assert (b ∈ 34 :: 92 :: (Z.of_nat <$> seq 0 32)) as Hin.
  { destruct (decide (b = 34)) as [->|]; [by left|]. destruct (decide (b = 92)) as [->|]; [by right; left|].
    right; right. apply list_elem_of_fmap. exists (Z.to_nat b). split; [lia|]. apply elem_of_seq. lia. }
  clear E Hb. revert b Hin. apply Forall_forall. repeat constructor.
Qed.

Lemma decode_escaped data : is_bytes data → decode_items (escaped data) = Some data.
Proof.
  induction 1 as [|b data Hb _ IH]; [done|]. change (escaped (b :: data)) with (escape b :: escaped data).
  rewrite decode_escape by done. by rewrite IH.
Qed.

(** ** Properties *)

(** C6: the output of a writer is the text of the document built so far.  The
    sinks are those of [WriterSink]: in sink mode a sink takes each chunk or
    fails, and never says [TRUNCATED]; in generator mode it may also refuse a
    chunk whole with [TRUNCATED], but not the first byte after the writer saw it
    unblocked.  The allocator may fail, too, when [may_fail] holds.  After any
    sequence of calls that were all accepted, each repeated while it said
    [TRUNCATED] and none having failed: the calls were legal in their order
    (separators, keys before values, one root, brackets in pairs, pieces only in
    open strings and numbers), what the sink has taken is exactly the compact text
    of the values and containers so far, [lonejson_writer_finish] returns [OK] if
    and only if one complete value has been written, and that text is then an RFC
    8259 document denoting the value.  Interrupting a call of a generator and
    repeating it loses and repeats no byte.  ([truncating_sink_repeats] and
    [unclosed_brace_finishes] below show what is outside: a sink that says
    [TRUNCATED] in sink mode, and [finish] after a call that failed.) *)
Theorem session_output {U} (sink : lonejson_sink_fn U) (blocked : U → bool) (turn : U → U → Prop)
    (mode : lonejson__writer_mode) (may_fail : Prop) `{!WriterSink sink blocked mode may_fail}
    limit a ops c c' :
  0 ≤ limit < SIZE_MAX → never_fails a ∨ may_fail →
  (∀ u u', turn u u' → sink_inv sink u → sink_inv sink u' ∧ taken sink u' = taken sink u) →
  self c = lonejson__writer_init mode a limit → sink_inv sink (user c) → taken sink (user c) = [] →
  Forall op_typed ops → zlen ops < 2 ^ 60 →
  session sink blocked turn ops c c' →
  ∃ B, apply_ops ops built_empty = Some B
    ∧ taken sink (user c') = built_text B
    ∧ (fst (lonejson_writer_finish c') = LONEJSON_STATUS_OK ↔ ∃ v, B = mk_built (Some v) [] No_scalar)
    ∧ (∀ v, B = mk_built (Some v) [] No_scalar →
         built_text B = render false 0 v ∧ json_document v (render false 0 v)).
Proof.
  intros Hl Ha Hturn Hc Hi Hempty Hty Hlen H.
  assert (stands sink blocked mode may_fail limit [] built_empty c) as Hst by by eapply init_stands.
  destruct (session_follows sink blocked turn mode may_fail limit Hl [] Hturn ops c c' built_empty 0)
    as (B & HB & _ & _ & Hst'); [done|by split|by split|done|lia| |].
  { destruct ops; [done|by eapply stands_in_event]. }
  exists B. split; [done|]. split; [by destruct Hst' as (s & _ & _ & _ & Ho)|]. split.
  - pose proof (finish_outcome sink blocked mode may_fail limit Hl [] B c' Hst') as Hf.
    destruct (lonejson_writer_finish c') as [st c2]. destruct Hf as [_ Hf]. cbn [fst].
    destruct (decide (st = LONEJSON_STATUS_OK)); [done|]. destruct Hf as [_ Hf].
    split; [done|]. intros [v Hv]. by destruct (Hf v).
  - intros v ->. split; [done|]. by eapply built_document.
Qed.

(** C23: over a sink that takes everything and an allocator that does not fail, a
    writer accepts exactly the legal calls.  After any accepted calls, a further
    call is accepted if and only if it is legal there, apart from a number piece
    that exceeds the number limit; a refused call returns a failure, and no call
    ever says [TRUNCATED]. *)
Theorem writer_accepts_legal_calls {U} (sink : lonejson_sink_fn U) `{!LosslessSink sink}
    (blocked : U → bool) limit a ops B c c' o :
  0 ≤ limit < SIZE_MAX → never_fails a →
  self c = lonejson__writer_init LONEJSON__WRITER_MODE_SINK a limit → zlen ops < 2 ^ 60 - 1 →
  run_ops sink blocked ops c = (LONEJSON_STATUS_OK, c') → apply_ops ops built_empty = Some B →
  let st := fst (exec sink blocked o c') in
  (st = LONEJSON_STATUS_OK → is_Some (apply_op o B))
  ∧ (is_Some (apply_op o B) → ¬ too_long limit o B → st = LONEJSON_STATUS_OK)
  ∧ (st ≠ LONEJSON_STATUS_OK → status_fails st = true).
Proof.
  intros Hl Ha Hc Hlen Hrun HB. set (base := sink_out sink (user c)).
  pose (inst := lossless_writer_sink sink blocked base).
  assert (stands sink blocked LONEJSON__WRITER_MODE_SINK False limit [] built_empty c) as Hst.
  { eapply init_stands; [done|done|by left|by exists []; rewrite app_nil_r|].
    cbn. by rewrite drop_all. }
  pose proof (run_session sink blocked (λ u u', u = u') ops c) as Hs. rewrite Hrun in Hs.
  destruct (session_follows sink blocked (λ u u', u = u') LONEJSON__WRITER_MODE_SINK False limit Hl []
    ltac:(intros ? ? <-; done) ops c c' built_empty 0) as (B' & HB' & Hok & Hsz & Hst');
    [by apply Hs|by split|by split|done|lia| |].
  { destruct ops; [done|by eapply stands_in_event]. }
  rewrite HB in HB'. injection HB' as <-.
  assert (fits B) as Hfit by (eapply sized_fits; [done|lia]).
  pose proof (lossless_exec sink blocked base limit Hl o B c' Hok Hfit Hst') as H.
  destruct (exec sink blocked o c') as [st c2]. cbn [fst].
  destruct H as [(-> & B2 & H2 & _)|(Hst2 & Hno)].
  - split_and!; [by rewrite H2|done|done].
  - split_and!; [by intros ->| |done]. intros [? H2] Hlong. by destruct Hno as [H3|]; [rewrite H3 in H2|].
Qed.

(** C14: every document can be written, and is read back.  For a tree of nulls,
    booleans, integers of 64 bits, finite doubles, number tokens, byte strings, arrays and objects
    of any depth, the calls that describe it and [lonejson_writer_finish] all
    succeed over a lossless sink; what the sink gets is a JSON text that parses to
    that very tree, and the strings and keys in it decode to the bytes given. *)
Theorem document_roundtrip {U} (sink : lonejson_sink_fn U) `{!LosslessSink sink} (blocked : U → bool)
    limit a addr d c :
  0 ≤ limit < SIZE_MAX → never_fails a →
  self c = lonejson__writer_init LONEJSON__WRITER_MODE_SINK a limit →
  doc_ok d → zlen (events addr d) < 2 ^ 60 →
  ∃ text, text = render false 0 (json_of d)
    ∧ (let '(st, c') := (run_ops sink blocked (events addr d) &> lonejson_writer_finish) c in
       st = LONEJSON_STATUS_OK ∧ sink_out sink (user c') = sink_out sink (user c) ++ text)
    ∧ ref_document text = Some (json_of d)
    ∧ (∀ data, is_bytes data → decode_items (escaped data) = Some data).
Proof.
  intros Hl Ha Hc Hd Hlen. eexists. split; [done|]. set (base := sink_out sink (user c)).
  pose (inst := lossless_writer_sink sink blocked base).
  assert (stands sink blocked LONEJSON__WRITER_MODE_SINK False limit [] built_empty c) as Hst.
  { eapply init_stands; [done|done|by left|by exists []; rewrite app_nil_r|].
    cbn. by rewrite drop_all. }
  pose proof (events_value addr d built_empty Hd eq_refl) as HB.
  destruct (lossless_run sink blocked base limit Hl (events addr d) built_empty _ c 0 built_empty_ok
    ltac:(by split) ltac:(done) ltac:(lia) Hst HB) as (c1 & Hrun & Hst1).
  { apply within_pieces. by apply events_all. }
  split; [|split; [|apply decode_escaped]].
  - unfold and_then. rewrite Hrun, decide_True by done.
    pose proof (finish_outcome sink blocked LONEJSON__WRITER_MODE_SINK False limit Hl [] _ c1 Hst1) as Hf.
    destruct (lonejson_writer_finish c1) as [st c2]. destruct Hf as [Hu Hf].
    destruct (decide (st = LONEJSON_STATUS_OK)) as [->|]; [|by destruct Hf as [_ Hf]; destruct (Hf (json_of d))].
    split; [done|]. rewrite Hu. destruct Hst1 as (s & _ & [k Hk] & _ & Ho). cbn in Ho.
    rewrite Hk, drop_app_length in Ho. by rewrite Hk, Ho.
  - apply ref_document_iff. eapply built_document; [|exact HB].
    apply (events_all op_typed addr d Hd); done.
Qed.

(** ** Witnesses *)

Definition demo_doc : doc :=
  DObject
    [(c_str "k", DArray [DInt (- 2 ^ 63); DUnsigned 18446744073709551615; DBool true; DNull]);
     ([34; 10], DString [7; 92; 200]); ([], DNumber (c_str "-1.5e3")); (c_str "d", DDouble (f64_ratio 3 10)); (c_str "o", DObject [])].

Definition demo_writer : ctx_of lonejson_writer bytes :=
  mk_ctx (lonejson__writer_init LONEJSON__WRITER_MODE_SINK fresh_allocator 256) [] (Some error_zero).

#[local] Abbreviation demo_run := (run_ops collect_sink (λ _, false) (events 4096 demo_doc) demo_writer).

Lemma demo_run_ok : fst demo_run = LONEJSON_STATUS_OK.
Proof. vm_compute. reflexivity. Qed.

Lemma demo_doc_ok : doc_ok demo_doc.
Proof.
  cbn. split_and!; try done; try lia.
  all: try (apply (bool_decide_unpack _); vm_compute; exact I).
  apply is_valid_json_number_spec. reflexivity.
Qed.

#[local] Instance op_typed_dec o : Decision (op_typed o).
Proof. destruct o; apply _. Defined.

Lemma demo_typed : Forall op_typed (events 4096 demo_doc).
Proof. apply (bool_decide_unpack _). vm_compute. exact I. Qed.

Lemma session_output_witness :
  ∃ B, apply_ops (events 4096 demo_doc) built_empty = Some B
    ∧ drop 0 (sink_out collect_sink (user (snd demo_run))) = built_text B.
Proof.
  destruct (session_output collect_sink (λ _, false) (λ u u', u = u') LONEJSON__WRITER_MODE_SINK False
    (WriterSink0 := lossless_writer_sink collect_sink (λ _, false) []) 256 fresh_allocator
    (events 4096 demo_doc) demo_writer (snd demo_run)) as (B & HB & Ho & _).
  - split; [discriminate|reflexivity].
  - left. exact fresh_never_fails.
  - intros u u' <- H. split; [exact H|reflexivity].
  - reflexivity.
  - exists []. reflexivity.
  - reflexivity.
  - exact demo_typed.
  - reflexivity.
  - exact (run_session collect_sink (λ _, false) (λ u u', u = u') (events 4096 demo_doc) demo_writer demo_run_ok).
  - exists B. split; [exact HB|exact Ho].
Defined.

Lemma writer_accepts_legal_calls_witness :
  (* a key where a value has to stand, and one more element *)
  let ops := [Begin_object; Key 1 (c_str "a")] in
  let c := snd (run_ops collect_sink (λ _, false) ops demo_writer) in
  status_fails (fst (exec collect_sink (λ _, false) (Key 1 (c_str "b")) c)) = true
  ∧ fst (exec collect_sink (λ _, false) (U64 7) c) = LONEJSON_STATUS_OK.
Proof.
  split.
  - refine (proj2 (proj2 (writer_accepts_legal_calls collect_sink (λ _, false) 256 fresh_allocator
      [Begin_object; Key 1 (c_str "a")] (mk_built None [PObj [] (Some [Plain 97])] No_scalar) demo_writer
      _ (Key 1 (c_str "b")) _ fresh_never_fails _ _ _ _)) _).
    + split; [discriminate|reflexivity].
    + reflexivity.
    + reflexivity.
    + vm_compute. reflexivity.
    + reflexivity.
    + vm_compute. discriminate.
  - refine (proj1 (proj2 (writer_accepts_legal_calls collect_sink (λ _, false) 256 fresh_allocator
      [Begin_object; Key 1 (c_str "a")] (mk_built None [PObj [] (Some [Plain 97])] No_scalar) demo_writer
      _ (U64 7) _ fresh_never_fails _ _ _ _)) _ _).
    + split; [discriminate|reflexivity].
    + reflexivity.
    + reflexivity.
    + vm_compute. reflexivity.
    + reflexivity.
    + eexists. reflexivity.
    + intros [].
Defined.

Lemma document_roundtrip_witness :
  ref_document (render false 0 (json_of demo_doc)) = Some (json_of demo_doc).
Proof.
  refine (ex_ind (λ text H, _) (document_roundtrip collect_sink (λ _, false) 256 fresh_allocator 4096
    demo_doc demo_writer _ fresh_never_fails _ _ _)).
  - destruct H as (-> & _ & H & _). exact H.
  - split; [discriminate|reflexivity].
  - reflexivity.
  - exact demo_doc_ok.
  - reflexivity.
Defined.

(** ** Observations *)

(** An allocator that has run out of memory. *)
Definition no_memory : lonejson_allocator := mk_allocator (λ _ _, false) (λ _ _, false) 0 None.

(** A sink that refuses the first bracket it is offered after a comma, once. *)
Definition truncating_sink : lonejson_sink_fn (bool * bytes) := λ '(refused, out) d e,
  if bool_decide (d = ["["%ch]) && bool_decide (last out = Some ","%ch) && negb refused
  then (LONEJSON_STATUS_TRUNCATED, (true, out), e)
  else (LONEJSON_STATUS_OK, (refused, out ++ d), e).

(** In sink mode the comma is out, and the element counted, before the bracket is
    refused: repeated, the call writes a second comma, and [finish] accepts a
    text that is not JSON. *)
Lemma truncating_sink_repeats :
  let c := mk_ctx (lonejson__writer_init LONEJSON__WRITER_MODE_SINK fresh_allocator 256)
             (false, []) (Some error_zero) in
  let '(st1, c1) := (exec truncating_sink (λ _, false) Begin_array &>
                     exec truncating_sink (λ _, false) Null) c in
  let '(st2, c2) := exec truncating_sink (λ _, false) Begin_array c1 in
  let '(st3, c3) := (exec truncating_sink (λ _, false) Begin_array &>
                     exec truncating_sink (λ _, false) End_array &>
                     exec truncating_sink (λ _, false) End_array &> lonejson_writer_finish) c2 in
  st1 = LONEJSON_STATUS_OK ∧ st2 = LONEJSON_STATUS_TRUNCATED ∧ st3 = LONEJSON_STATUS_OK
  ∧ (user c3).2 = c_str "[null,,[]]".
Proof. vm_compute. by split_and!. Qed.

(** The brace is out before the frame is pushed: when the stack cannot grow,
    [begin_object] reports the failure, yet the writer is not poisoned and
    [finish] accepts the text that consists of the brace alone. *)
Lemma unclosed_brace_finishes :
  let c := mk_ctx (lonejson__writer_init LONEJSON__WRITER_MODE_SINK no_memory 256) [] (Some error_zero) in
  let '(st, c1) := exec collect_sink (λ _, false) Begin_object c in
  let '(st2, c2) := lonejson_writer_finish c1 in
  st = LONEJSON_STATUS_ALLOCATION_FAILED ∧ st2 = LONEJSON_STATUS_OK ∧ user c2 = ["{"%ch].
Proof. vm_compute. by split_and!. Qed.

(** A string refused for want of a key stays the active event: the key that
    would make room for it is refused, too. *)
Lemma refused_event_stays :
  let '(st1, c1) := exec collect_sink (λ _, false) Begin_object demo_writer in
  let '(st2, c2) := exec collect_sink (λ _, false) (String 1 (c_str "x")) c1 in
  let '(st3, c3) := exec collect_sink (λ _, false) (Key 2 (c_str "k")) c2 in
  st1 = LONEJSON_STATUS_OK ∧ st2 = LONEJSON_STATUS_INVALID_JSON
  ∧ st3 = LONEJSON_STATUS_INVALID_ARGUMENT.
Proof. vm_compute. by split_and!. Qed.
