(* ===== verification/WriterGenerator.v ===== *)
(** * WriterGenerator: the writer as a pull source

    Models the writer generator of [src/impl/32_generator_api.h]: a producer
    callback fills the caller's buffer through a writer; what does not fit waits in
    a pending buffer for the next read.  The writer's sink user is the generator
    state. *)

From stdpp Require Import base numbers list strings.
From Stdlib Require Import ZArith Lia Bool.
From S2P Require Import Prelude Runtime ByteBuffer Writer.

(** [g_out] are the [out_length] bytes written to the caller's buffer [out], which
    is not NULL while the producer runs: [lonejson_generator_read] refuses NULL
    unless the capacity is 0, and then there is nothing to fill.  [g_pending] are
    the [pending_len] bytes at [pending]. *)
Record lonejson__writer_generator_state := mk_generator {
  g_allocator : lonejson_allocator;
  g_out : bytes;
  g_out_capacity : Z;
  g_pending : bytes;
  g_pending_off : Z;
  g_pending_alloc : Z;
  g_blocked : bool;
  g_producer_done : bool
}.

Implicit Types g : lonejson__writer_generator_state.

(** *** Assignments *)

Definition set_out (out : bytes) (capacity : Z) g : lonejson__writer_generator_state :=
  mk_generator (g_allocator g) out capacity (g_pending g) (g_pending_off g) (g_pending_alloc g)
    (g_blocked g) (g_producer_done g).
Definition set_pending_len (pending : bytes) (off : Z) g : lonejson__writer_generator_state :=
  mk_generator (g_allocator g) (g_out g) (g_out_capacity g) pending off (g_pending_alloc g)
    (g_blocked g) (g_producer_done g).
Definition set_pending_block (a : lonejson_allocator) (alloc : Z) g : lonejson__writer_generator_state :=
  mk_generator a (g_out g) (g_out_capacity g) (g_pending g) (g_pending_off g) alloc
    (g_blocked g) (g_producer_done g).
Definition set_blocked (b : bool) g : lonejson__writer_generator_state :=
  mk_generator (g_allocator g) (g_out g) (g_out_capacity g) (g_pending g) (g_pending_off g)
    (g_pending_alloc g) b (g_producer_done g).
Definition set_producer_done g : lonejson__writer_generator_state :=
  mk_generator (g_allocator g) (g_out g) (g_out_capacity g) (g_pending g) (g_pending_off g)
    (g_pending_alloc g) (g_blocked g) true.

(** The state after [memset] and the assignments of the initialisation. *)
Definition writer_generator_start (a : lonejson_allocator) : lonejson__writer_generator_state :=
  mk_generator a [] 0 [] 0 0 false false.

(** ** The pending buffer *)

(** The two guards keep the subtractions from wrapping. *)
Definition lonejson__writer_generator_flush_pending g : lonejson__writer_generator_state :=
  if zlen (g_pending g) <=? g_pending_off g then set_pending_len [] 0 g
  else if g_out_capacity g <=? zlen (g_out g) then g
  else
    let writable := g_out_capacity g - zlen (g_out g) in
    let remaining := zlen (g_pending g) - g_pending_off g in
    let n := if remaining <? writable then remaining else writable in
    let copied := take (Z.to_nat n) (drop (Z.to_nat (g_pending_off g)) (g_pending g)) in
    let g := set_out (g_out g ++ copied) (g_out_capacity g) g in
    let g := set_pending_len (g_pending g) (g_pending_off g + n) g in
    if g_pending_off g =? zlen (g_pending g) then set_pending_len [] 0 g else g.

Definition lonejson__writer_generator_set_pending g (data : bytes) (error : error_ptr) :
    lonejson_status * lonejson__writer_generator_state * error_ptr :=
  if zlen data =? 0 then (LONEJSON_STATUS_OK, g, error)
  else
    let '(next, g) :=
      if g_pending_alloc g <? zlen data then
        let '(next, a) := lonejson__buffer_realloc (g_allocator g) (g_pending_alloc g =? 0)
                            (g_pending_alloc g) (zlen data) in
        (next, set_pending_block a (if next then zlen data else g_pending_alloc g) g)
      else (true, g) in
    if negb next then
      let '(st, error) := lonejson__set_error error LONEJSON_STATUS_ALLOCATION_FAILED 0 0 0
                            "failed to allocate writer pending output" in
      (st, g, error)
    else (LONEJSON_STATUS_OK, set_blocked true (set_pending_len data 0 g), error).

Definition lonejson__writer_generator_output_blocked g : bool :=
  g_blocked g || negb (zlen (g_pending g) =? 0) || (g_out_capacity g <=? zlen (g_out g)).

Definition lonejson__writer_generator_output_available g : Z :=
  if g_blocked g || negb (zlen (g_pending g) =? 0) || (g_out_capacity g <=? zlen (g_out g)) then 0
  else g_out_capacity g - zlen (g_out g).

(** The copy of [lonejson__writer_generator_sink], once it is not blocked. *)
Definition generator_copy g (data : bytes) (error : error_ptr) :
    lonejson_status * lonejson__writer_generator_state * error_ptr :=
  if zlen data =? 0 then (LONEJSON_STATUS_OK, g, error)
  else
    let writable := u64 (g_out_capacity g - zlen (g_out g)) in
    let n := if zlen data <? writable then zlen data else writable in
    let g := set_out (g_out g ++ take (Z.to_nat n) data) (g_out_capacity g) g in
    if n =? zlen data then (LONEJSON_STATUS_OK, g, error)
    else lonejson__writer_generator_set_pending g (drop (Z.to_nat n) data) error.

Definition lonejson__writer_generator_sink : lonejson_sink_fn lonejson__writer_generator_state :=
  λ g data error,
    if g_blocked g then
      let g := lonejson__writer_generator_flush_pending g in
      if negb (zlen (g_pending g) =? 0) || (g_out_capacity g <=? zlen (g_out g))
      then (LONEJSON_STATUS_TRUNCATED, g, error)
      else generator_copy (set_blocked false g) data error
    else generator_copy g data error.

(** ** Reading *)

Section read.
Context {P : Type}.

#[local] Abbreviation C := (ctx_of lonejson_writer lonejson__writer_generator_state).

(** [state->producer] with its user [P]. *)
Variable producer : P → C → lonejson_status * P * C.

Definition on_generator (f : lonejson__writer_generator_state → lonejson__writer_generator_state) (c : C) : C :=
  mk_ctx (self c) (f (user c)) (error c).

(** The loop of the read; [None] when the fuel is used up. *)
Fixpoint generator_loop (fuel : nat) (p : P) (c : C) : option (lonejson_status * P * C) :=
  match fuel with
  | O => None
  | S fuel =>
      if g_out_capacity (user c) <=? zlen (g_out (user c)) then Some (LONEJSON_STATUS_OK, p, c)
      else
        let c := on_generator lonejson__writer_generator_flush_pending c in
        let c := if zlen (g_pending (user c)) =? 0 then on_generator (set_blocked false) c else c in
        if negb (zlen (g_pending (user c)) =? 0) || (zlen (g_out (user c)) =? g_out_capacity (user c))
        then Some (LONEJSON_STATUS_OK, p, c)
        else if g_producer_done (user c) then Some (LONEJSON_STATUS_OK, p, c)
        else
          let '(status, p, c) := producer p c in
          if decide (status = LONEJSON_STATUS_TRUNCATED) then generator_loop fuel p c
          else if decide (status ≠ LONEJSON_STATUS_OK) then Some (status, p, c)
          else
            let '(status, c) := lonejson_writer_finish c in
            if decide (status ≠ LONEJSON_STATUS_OK) then Some (status, p, c)
            else generator_loop fuel p (on_generator set_producer_done c)
  end.

(** The bytes of [*out_len], [*out_eof], and the state. *)
Record generator_result := mk_generator_result {
  read_status : lonejson_status;
  read_bytes : bytes;
  read_eof : bool;
  read_state : P * C
}.

Definition lonejson__writer_generator_read (fuel : nat) (capacity : Z) (p : P) (c : C) :
    option generator_result :=
  match generator_loop fuel p (on_generator (set_out [] capacity) c) with
  | None => None
  | Some (status, p, c) =>
      Some (if decide (status = LONEJSON_STATUS_OK)
            then mk_generator_result status (g_out (user c))
                   (g_producer_done (user c) && (zlen (g_pending (user c)) =? 0)) (p, c)
            else mk_generator_result status [] false (p, c))
  end.
End read.
Arguments generator_result : clear implicits.
