(* ===== verification/WriterGeneratorProps.v ===== *)
(** * WriterGeneratorProps: reading a document in pieces

    The generator's sink keeps every byte in order ([generator_writer_sink]), and
    a read with the documented producer ends within three rounds of its loop,
    fills the buffer or reaches the end of the document. *)

From stdpp Require Import base numbers list strings.
From Stdlib Require Import ZArith Lia Bool.
From S2P Require Import Prelude Runtime ByteBuffer Number JsonGrammar Writer WriterNumber WriterLogic WriterSpec WriterRefine WriterBlocked WriterOps WriterSession WriterGenerator.

Implicit Types g : lonejson__writer_generator_state.

(** ** The generator as a sink *)

(** What still waits in the pending buffer. *)
Definition waiting g : bytes := drop (Z.to_nat (g_pending_off g)) (g_pending g).

(** Sizes are sizes, and the bytes in the caller's buffer fit. *)
Definition generator_wf (may_fail : Prop) g : Prop :=
  (never_fails (g_allocator g) ∨ may_fail)
  ∧ zlen (g_out g) ≤ g_out_capacity g ∧ is_u64 (g_out_capacity g)
  ∧ 0 ≤ g_pending_off g ∧ (g_pending g ≠ [] → g_pending_off g < zlen (g_pending g)).

(** While the producer runs: output only waits when the caller's buffer is full. *)
Definition generator_inv (may_fail : Prop) g : Prop :=
  generator_wf may_fail g
  ∧ (g_pending g ≠ [] → g_blocked g = true)
  ∧ (g_blocked g = true → zlen (g_out g) = g_out_capacity g).

Lemma zlen_zero {A} (l : list A) : (zlen l =? 0) = true → l = [].
Proof. destruct l; [done|]. rewrite zlen_cons. pose proof (zlen_nonneg l). lia. Qed.

Lemma flush_taken m g :
  generator_wf m g →
  let g' := lonejson__writer_generator_flush_pending g in
  generator_wf m g' ∧ g_out g' ++ waiting g' = g_out g ++ waiting g
  ∧ g_blocked g' = g_blocked g ∧ g_out_capacity g' = g_out_capacity g
  ∧ g_producer_done g' = g_producer_done g
  ∧ (g_pending g' ≠ [] → zlen (g_out g') = g_out_capacity g').
Proof.
  intros Hwf. pose proof Hwf as (Ha & Hout & Hcap & Hoff & Hpend).
  unfold lonejson__writer_generator_flush_pending, waiting.
  pose proof (zlen_nonneg (g_out g)) as Ho. pose proof (zlen_nonneg (g_pending g)) as Hp.
  destruct (zlen (g_pending g) <=? g_pending_off g) eqn:E.
  { cbn. rewrite drop_nil, app_nil_r. rewrite (drop_ge (g_pending g)) by (unfold zlen in *; lia).
    rewrite app_nil_r. by split_and!. }
  destruct (g_out_capacity g <=? zlen (g_out g)) eqn:E2; [split_and!; try done; intros; lia|].
  cbv zeta.
  set (n := if _ <? _ then _ else _).
  assert (0 < n ∧ n ≤ zlen (g_pending g) - g_pending_off g ∧ n ≤ g_out_capacity g - zlen (g_out g)
          ∧ (n = zlen (g_pending g) - g_pending_off g ∨ n = g_out_capacity g - zlen (g_out g))) as Hn.
  { unfold n. destruct (_ <? _) eqn:?; lia. }
  clearbody n. destruct Hn as (Hn0 & Hn1 & Hn2 & Hn3).
  set (copied := take _ _).
  assert (zlen copied = n) as Hc.
  { unfold copied, zlen in *. rewrite length_take, length_drop. lia. }
  assert (drop (Z.to_nat (g_pending_off g)) (g_pending g)
          = copied ++ drop (Z.to_nat (g_pending_off g + n)) (g_pending g)) as Hsplit.
  { unfold copied. rewrite Z2Nat.inj_add, <- drop_drop by lia. by rewrite take_drop. }
  cbn [set_out set_pending_len g_out g_out_capacity g_pending g_pending_off].
  destruct (g_pending_off g + n =? zlen (g_pending g)) eqn:E3; cbn.
  - rewrite app_nil_r, Hsplit. rewrite (drop_ge (g_pending g)) by (unfold zlen in *; lia).
    rewrite app_nil_r. split_and!; try done. split_and!; cbn; try done; rewrite ?zlen_app; lia.
  - rewrite Hsplit, app_assoc. split_and!; try done.
    + split_and!; cbn; try done; rewrite ?zlen_app; lia.
    + intros _. rewrite zlen_app. lia.
Qed.

(** A full buffer: the rest waits. *)
Lemma set_pending_step m g rest e :
  generator_wf m g → g_pending g = [] → zlen (g_out g) = g_out_capacity g → rest ≠ [] →
  let '(st, g', _) := lonejson__writer_generator_set_pending g rest (Some e) in
  generator_inv m g'
  ∧ ((st = LONEJSON_STATUS_OK ∧ g_out g' = g_out g ∧ waiting g' = rest) ∨ (status_fails st = true ∧ m)).
Proof.
  intros (Ha & Hout & Hcap & Hoff & Hpend) Hnil Hfull Hne.
  assert (0 < zlen rest) as Hr.
  { destruct rest as [|b rest]; [done|]. rewrite zlen_cons. pose proof (zlen_nonneg rest). lia. }
  unfold lonejson__writer_generator_set_pending. replace (zlen rest =? 0) with false by lia.
  assert (∀ a k, never_fails a ∨ m →
    generator_inv m (set_blocked true (set_pending_len rest 0 (set_pending_block a k g)))) as Hnew.
  { intros a k Hk. by split; [split_and!; cbn; try done; lia|]. }
  assert (∀ a k, never_fails a ∨ m → generator_inv m (set_pending_block a k g)) as Hold.
  { intros a k Hk. split; [by split_and!|]. by split; cbn; rewrite ?Hnil. }
  destruct (g_pending_alloc g <? zlen rest).
  - destruct (lonejson__buffer_realloc _ _ _ _) as [[|] a'] eqn:Er; cbn [negb].
    + split; [apply Hnew|by left]. destruct Ha as [Ha|Ha]; [left|by right].
      destruct (buffer_realloc_ok _ (g_pending_alloc g =? 0) (g_pending_alloc g) (zlen rest) Ha) as (a2 & H2 & ?).
      rewrite Er in H2. by injection H2 as <-.
    + assert m as Hm.
      { destruct Ha as [Ha|Ha]; [|done].
        destruct (buffer_realloc_ok _ (g_pending_alloc g =? 0) (g_pending_alloc g) (zlen rest) Ha) as (a2 & H2 & ?).
        by rewrite Er in H2. }
      split; [apply Hold; by right|right; by split].
  - cbn [negb]. split; [by apply (Hnew (g_allocator g) (g_pending_alloc g))|by left].
Qed.

Lemma copy_step m g data e :
  generator_inv m g → g_blocked g = false →
  let '(st, g', _) := generator_copy g data (Some e) in
  generator_inv m g'
  ∧ ((st = LONEJSON_STATUS_OK ∧ g_out g' ++ waiting g' = g_out g ++ waiting g ++ data
        ∧ (zlen data ≤ g_out_capacity g - zlen (g_out g) → g_blocked g' = false))
     ∨ (status_fails st = true ∧ m)).
Proof.
  intros ((Ha & Hout & Hcap & Hoff & Hpend) & Hb1 & Hb2) Hb.
  assert (g_pending g = []) as Hnil.
  { destruct (g_pending g); [done|]. by rewrite Hb1 in Hb. }
  unfold generator_copy. assert (waiting g = []) as -> by (unfold waiting; by rewrite Hnil, drop_nil).
  pose proof (zlen_nonneg (g_out g)) as Ho. pose proof (zlen_nonneg data) as Hd. cbn [app].
  destruct (zlen data =? 0) eqn:E0.
  { apply zlen_zero in E0 as ->. split; [by split|]. left. unfold waiting. by rewrite Hnil, drop_nil. }
  unfold is_u64 in *. rewrite u64_small by (unfold is_u64; lia). set (n := if _ <? _ then _ else _).
  assert (0 ≤ n ≤ zlen data ∧ n ≤ g_out_capacity g - zlen (g_out g)
          ∧ (n = zlen data ∨ n = g_out_capacity g - zlen (g_out g) ∧ n < zlen data)) as (Hn0 & Hn1 & Hn2).
  { unfold n. destruct (_ <? _) eqn:?; lia. }
  clearbody n. set (copied := take _ _).
  assert (zlen copied = n) as Hc by (unfold copied, zlen in *; rewrite length_take; lia).
  assert (copied ++ drop (Z.to_nat n) data = data) as Hsplit by apply take_drop.
  clearbody copied. cbv zeta. set (g1 := set_out _ _ g).
  assert (generator_wf m g1) as Hwf1 by (split_and!; cbn; try done; rewrite zlen_app; lia).
  destruct (n =? zlen data) eqn:E1.
  - assert (drop (Z.to_nat n) data = []) as Hrest by (apply drop_ge; unfold zlen in *; lia).
    rewrite Hrest, app_nil_r in Hsplit. subst copied. split.
    + split; [done|]. by split; cbn; rewrite ?Hnil, ?Hb.
    + left. split_and!; [done| |done]. unfold waiting. cbn. by rewrite Hnil, drop_nil, app_nil_r.
  - pose proof (set_pending_step m g1 (drop (Z.to_nat n) data) e Hwf1 Hnil) as H.
    destruct (lonejson__writer_generator_set_pending _ _ _) as [[st g'] e']. destruct H as [Hi H].
    + cbn. rewrite zlen_app. lia.
    + intros Hr. apply (f_equal length) in Hr. rewrite length_drop in Hr. unfold zlen in *. cbn in Hr. lia.
    + split; [done|]. destruct H as [(-> & H1 & H2)|H]; [left|by right].
      rewrite H1, H2. cbn. split_and!; [done|by rewrite <- app_assoc, Hsplit|lia].
Qed.

Lemma flush_full g :
  zlen (g_out g) = g_out_capacity g →
  g_out (lonejson__writer_generator_flush_pending g) = g_out g
  ∧ g_out_capacity (lonejson__writer_generator_flush_pending g) = g_out_capacity g.
Proof.
  intros H. unfold lonejson__writer_generator_flush_pending. destruct (_ <=? _); [done|].
  by replace (g_out_capacity g <=? zlen (g_out g)) with true by lia.
Qed.

Lemma flush_inv m g :
  generator_inv m g → generator_inv m (lonejson__writer_generator_flush_pending g).
Proof.
  intros (Hwf & Hb1 & Hb2). destruct (flush_taken m g Hwf) as (Hwf' & _ & Hb & Hc & _ & Hp).
  split; [done|]. rewrite Hb. split.
  - intros H. apply Hb1. intros Hnil. apply H. unfold lonejson__writer_generator_flush_pending.
    rewrite Hnil. pose proof (proj1 (proj2 (proj2 (proj2 Hwf)))). change (zlen []) with 0.
    by replace (0 <=? g_pending_off g) with true by lia.
  - intros H. destruct (flush_full g (Hb2 H)) as [-> ->]. by apply Hb2.
Qed.

Lemma copy_keeps g data e :
  let '(_, g', _) := generator_copy g data e in
  g_out_capacity g' = g_out_capacity g ∧ g_producer_done g' = g_producer_done g.
Proof.
  unfold generator_copy, lonejson__writer_generator_set_pending. cbv zeta.
  destruct (zlen data =? 0); [done|]. destruct (_ =? zlen data); [done|].
  destruct (zlen (drop _ _) =? 0); [done|]. cbn [set_out g_pending_alloc g_allocator].
  destruct (_ <? _); [|done].
  destruct (lonejson__buffer_realloc _ _ _ _) as [[|] a']; cbn [negb]; [done|by destruct e].
Qed.

Lemma flush_keeps g :
  g_out_capacity (lonejson__writer_generator_flush_pending g) = g_out_capacity g
  ∧ g_producer_done (lonejson__writer_generator_flush_pending g) = g_producer_done g.
Proof. unfold lonejson__writer_generator_flush_pending. cbv zeta. repeat case_match; done. Qed.

(** The writer's view of a read with a buffer of [capacity] bytes. *)
#[export] Program Instance generator_writer_sink (capacity : Z) (may_fail : Prop) :
  WriterSink lonejson__writer_generator_sink lonejson__writer_generator_output_blocked
    LONEJSON__WRITER_MODE_GENERATOR may_fail := {|
    sink_inv := λ g, generator_inv may_fail g ∧ g_out_capacity g = capacity ∧ g_producer_done g = false;
    taken := λ g, g_out g ++ waiting g;
    ready := λ g, g_blocked g = false
  |}.
Next Obligation.
  intros capacity m g data e (Hinv & Hcap & Hdone). unfold lonejson__writer_generator_sink.
  destruct (g_blocked g) eqn:Eb.
  - pose proof Hinv as (Hwf & _ & Hb2). destruct (flush_taken m g Hwf) as (_ & Ht & Hb & Hc & Hd & _).
    destruct (flush_full g (Hb2 Eb)) as [Ho _].
    replace (_ || _) with true by (rewrite Ho, Hc, orb_comm; specialize (Hb2 Eb); lia).
    split; [split; [by apply flush_inv|by rewrite Hc, Hd]|]. right; left. by split_and!.
  - pose proof (copy_step m g data e Hinv Eb) as H. pose proof (copy_keeps g data (Some e)) as Hk.
    destruct (generator_copy g data (Some e)) as [[st g'] e']. destruct H as [Hi H]. destruct Hk as [-> ->].
    split; [done|]. destruct H as [(-> & Ht & _)|H]; [left|by right; right]. by rewrite Ht, app_assoc.
Qed.
Next Obligation.
  intros capacity m g H. specialize (H eq_refl). unfold lonejson__writer_generator_output_blocked in H.
  rewrite !orb_false_iff in H. by destruct H as [[H _] _].
Qed.
Next Obligation.
  intros capacity m g b e (Hinv & _ & _) H. specialize (H eq_refl).
  unfold lonejson__writer_generator_output_blocked in H. unfold lonejson__writer_generator_sink.
  destruct (g_blocked g) eqn:Eb; [done|]. pose proof (copy_step m g [b] e Hinv Eb) as Hc.
  destruct (generator_copy g [b] (Some e)) as [[st g'] e']. destruct Hc as [_ [(_ & _ & Hr)|[Hst _]]].
  - intros _. apply Hr. cbn in H. apply orb_false_iff in H as [_ H]. change (zlen [b]) with 1. lia.
  - by intros ->.
Qed.

Lemma generator_blocks :
  sink_blocks lonejson__writer_generator_sink lonejson__writer_generator_output_blocked
    LONEJSON__WRITER_MODE_GENERATOR.
Proof.
  intros g data e. unfold lonejson__writer_generator_sink.
  assert (∀ g, let '(st, g', _) := generator_copy g data (Some e) in
    st = LONEJSON_STATUS_TRUNCATED → LONEJSON__WRITER_MODE_GENERATOR = LONEJSON__WRITER_MODE_GENERATOR
      ∧ lonejson__writer_generator_output_blocked g' = true) as Hcopy.
  { clear g. intros g. unfold generator_copy, lonejson__writer_generator_set_pending. cbv zeta.
    destruct (zlen data =? 0); [done|]. destruct (_ =? zlen data); [done|].
    destruct (zlen (drop _ _) =? 0); [done|]. destruct (_ <? _); [|done].
    destruct (lonejson__buffer_realloc _ _ _ _) as [[|] a']; done. }
  destruct (g_blocked g); [|apply Hcopy].
  destruct (negb _ || _) eqn:E; [|apply Hcopy]. intros _. split; [done|].
  unfold lonejson__writer_generator_output_blocked. rewrite <- orb_assoc, E. by rewrite orb_true_r.
Qed.
