(* ===== verification/WriterPull.v ===== *)
(** * WriterPull: reading a scripted document

    A producer that follows the documented protocol - emit the next event, return
    [TRUNCATED] at once when the event does, repeat that event at the next call -
    and the reads that drive it. *)

From stdpp Require Import base numbers list strings.
From Stdlib Require Import ZArith Lia Bool.
From S2P Require Import Prelude Runtime ByteBuffer Number JsonGrammar Writer WriterNumber WriterLogic WriterSpec WriterRefine WriterBlocked WriterOps WriterSession WriterProps WriterGenerator WriterGeneratorProps.

(** The producer; its user is what is left of the script. *)
Fixpoint script_producer (p : list writer_op) (c : ctx_of lonejson_writer lonejson__writer_generator_state) :
    lonejson_status * list writer_op * ctx_of lonejson_writer lonejson__writer_generator_state :=
  match p with
  | [] => (LONEJSON_STATUS_OK, [], c)
  | o :: rest =>
      let '(st, c) := exec lonejson__writer_generator_sink lonejson__writer_generator_output_blocked o c in
      if decide (st = LONEJSON_STATUS_OK) then script_producer rest c else (st, p, c)
  end.

(** ** Progress of a script

    The text a script has produced is followed over the sink that collects bytes
    and never blocks; a writer in generator mode that stands somewhere with a text
    stands there for every sink that has taken the text. *)

#[local] Program Instance collecting (base : bytes) :
  WriterSink collect_sink (λ _, false) LONEJSON__WRITER_MODE_GENERATOR False := {|
    sink_inv := λ u, base `prefix_of` u;
    taken := λ u, u;
    ready := λ _, True
  |}.
Next Obligation. intros base u d e [k ->]. cbn. split; [|by left]. exists (k ++ d). by rewrite app_assoc. Qed.
Next Obligation. done. Qed.
Next Obligation. done. Qed.

Lemma collect_blocks : sink_blocks collect_sink (λ _, false) LONEJSON__WRITER_MODE_GENERATOR.
Proof. by intros u d e. Qed.

Section script.
Context (limit : Z) (Hlimit : 0 ≤ limit < SIZE_MAX).
(** What the script builds. *)
Context (B_end : built).

#[local] Abbreviation idle_text :=
  (idle collect_sink (λ _, false) LONEJSON__WRITER_MODE_GENERATOR False (WriterSink0 := collecting []) limit []).
#[local] Abbreviation mid_text :=
  (mid collect_sink (λ _, false) LONEJSON__WRITER_MODE_GENERATOR False (WriterSink0 := collecting []) limit []).

(** The writer has put out [text], and the rest of the script is [p]. *)
Definition script_at (p : list writer_op) (w : lonejson_writer) (text : bytes) : Prop :=
  ∃ B s n, built_ok B ∧ sized n B ∧ 0 ≤ n ∧ n + zlen p < 2 ^ 60 ∧ w_state w = Some s
    ∧ apply_ops p B = Some B_end ∧ within limit p B
    ∧ (idle_text B s text ∨ match p with [] => False | o :: _ => mid_text o B s text end).

(** The next call, for any sink: its effect on [script_at]. *)
Lemma script_call {U} (sink : lonejson_sink_fn U) (blocked : U → bool)
    `{!WriterSink sink blocked LONEJSON__WRITER_MODE_GENERATOR False} pre o p c :
  script_at (o :: p) (self c) (pre ++ taken sink (user c)) → sink_inv sink (user c) →
  let '(st, c') := exec sink blocked o c in
  sink_inv sink (user c')
  ∧ (st = LONEJSON_STATUS_OK ∧ script_at p (self c') (pre ++ taken sink (user c'))
     ∨ st = LONEJSON_STATUS_TRUNCATED ∧ script_at (o :: p) (self c') (pre ++ taken sink (user c'))).
Proof using Hlimit.
  intros (B & s & n & Hok & Hsz & Hn & Hlen & Hs & Happ & [Hl Hw] & Hat) Hi.
  rewrite zlen_cons in Hlen. pose proof (zlen_nonneg p).
  assert (fits B) as Hfit by (eapply sized_fits; [done|lia]).
  assert (idle sink blocked LONEJSON__WRITER_MODE_GENERATOR False limit pre B s (user c)
          ∨ mid sink blocked LONEJSON__WRITER_MODE_GENERATOR False limit pre o B s (user c)) as Hat'.
  { destruct Hat as [H1|H1]; [left|right]; exact H1. }
  destruct (op_runs sink blocked LONEJSON__WRITER_MODE_GENERATOR False limit Hlimit pre o B Hok Hfit
    s (user c) Hat' c Hs eq_refl Hi) as (Hi' & s' & Hs' & HQ).
  rewrite apply_ops_cons in Happ.
  destruct (exec sink blocked o c) as [st c']. cbn [fst snd] in *. split; [done|].
  assert (¬ (apply_op o B = None ∨ False ∨ too_long limit o B)) as Hno.
  { intros [H1|[[]|H1]]; [by rewrite H1 in Happ|done]. }
  destruct st; try (by destruct Hno).
  - left. split; [done|]. destruct HQ as (B1 & H1 & Hidle). rewrite H1 in Happ.
    exists B1, s', (n + 1). split; [by eapply apply_op_ok|]. split; [by eapply sized_step|].
    split; [lia|]. split; [lia|]. split; [done|]. split; [done|]. split; [by apply Hw|].
    left. exact Hidle.
  - right. split; [done|]. exists B, s', n. rewrite zlen_cons, apply_ops_cons. split; [done|]. split; [done|].
    split; [lia|]. split; [lia|]. split; [done|]. split; [done|]. split; [done|].
    destruct HQ as [HQ|HQ]; [left|right]; exact HQ.
Qed.

(** What is out is never taken back. *)
Lemma script_prefix p w text : script_at p w text → text `prefix_of` built_text B_end.
Proof using Hlimit.
  revert w text. induction p as [|o p IH]; intros w text H.
  - destruct H as (B & s & n & _ & _ & _ & _ & _ & [= ->] & _ & [[_ Ho]|[]]). by rewrite <- Ho.
  - set (c := mk_ctx w text (Some error_zero)).
    pose proof (script_call collect_sink (λ _, false) (WriterSink0 := collecting text) [] o p c H) as Hc.
    destruct H as (B & s & n & _ & _ & _ & _ & Hs & _ & _ & Hat).
    assert (mode_of c = Some LONEJSON__WRITER_MODE_GENERATOR) as Hm.
    { unfold mode_of. cbn. rewrite Hs. cbn. f_equal.
      by apply (at_mode collect_sink (λ _, false) LONEJSON__WRITER_MODE_GENERATOR False
                  (WriterSink0 := collecting []) limit Hlimit [] o B s text). }
    pose proof (exec_blocks collect_sink (λ _, false) LONEJSON__WRITER_MODE_GENERATOR collect_blocks o c Hm)
      as [Hm' Hb].
    destruct (exec collect_sink (λ _, false) o c) as [st c']. cbn [fst snd] in *.
    destruct Hc as [Hpre [[-> Hat']|[-> _]]]; [by exists []; rewrite app_nil_r| |].
    + transitivity (user c'); [exact Hpre|]. by apply (IH (self c')).
    + specialize (Hb eq_refl). unfold lonejson__writer_output_blocked in Hb.
      destruct (w_state (self c')); [|done]. by destruct (ws_mode _).
Qed.

(** *** Reads *)

#[local] Abbreviation gen_sink := lonejson__writer_generator_sink.
#[local] Abbreviation gen_blocked := lonejson__writer_generator_output_blocked.
#[local] Abbreviation C := (ctx_of lonejson_writer lonejson__writer_generator_state).
#[local] Abbreviation inv_at capacity :=
  (sink_inv gen_sink (blocked := gen_blocked) (mode := LONEJSON__WRITER_MODE_GENERATOR) (may_fail := False)
     (WriterSink := generator_writer_sink capacity False)).

(** The bytes the writer's sink has taken in this read. *)
Definition output g : bytes := g_out g ++ waiting g.

(** The producer runs until its script is done or the caller's buffer is full. *)
Lemma script_runs capacity pre p (c : C) :
  script_at p (self c) (pre ++ output (user c)) → inv_at capacity (user c) →
  let '(st, p', c') := script_producer p c in
  inv_at capacity (user c') ∧ script_at p' (self c') (pre ++ output (user c'))
  ∧ (st = LONEJSON_STATUS_OK ∧ p' = []
     ∨ st = LONEJSON_STATUS_TRUNCATED ∧ zlen (g_out (user c')) = capacity).
Proof using Hlimit.
  revert c. induction p as [|o p IH]; intros c Hat Hinv; cbn [script_producer].
  { split_and!; try done. by left. }
  assert (mode_of c = Some LONEJSON__WRITER_MODE_GENERATOR) as Hm.
  { destruct Hat as (B & s & n & _ & _ & _ & _ & Hs & _ & _ & Hat). unfold mode_of. rewrite Hs. cbn. f_equal.
    by apply (at_mode collect_sink (λ _, false) LONEJSON__WRITER_MODE_GENERATOR False
                (WriterSink0 := collecting []) limit Hlimit [] o B s _ Hat). }
  pose proof (script_call gen_sink gen_blocked (WriterSink0 := generator_writer_sink capacity False)
    pre o p c Hat Hinv) as Hc.
  pose proof (exec_blocks gen_sink gen_blocked LONEJSON__WRITER_MODE_GENERATOR generator_blocks o c Hm) as [_ Hb].
  destruct (exec gen_sink gen_blocked o c) as [st c1] eqn:E. cbn [fst snd] in *.
  destruct Hc as [Hinv1 [[-> Hat1]|[-> Hat1]]].
  - rewrite decide_True by done. by apply IH.
  - rewrite decide_False by done. split; [done|]. split; [done|]. right. split; [done|].
    specialize (Hb eq_refl). unfold lonejson__writer_output_blocked in Hb.
    destruct (w_state (self c1)) as [s1|]; [|done]. destruct (ws_mode s1); [done|].
    destruct Hinv1 as (((_ & Hout & _) & Hb1 & Hb2) & Hcap & _). unfold gen_blocked in Hb.
    rewrite <- Hcap. destruct (g_blocked (user c1)); [by apply Hb2|].
    destruct (g_pending (user c1)) as [|b l]; [apply orb_true_iff in Hb as [Hb|Hb]; [done|lia]|]. by discriminate Hb1.
Qed.

(** Between two rounds of the loop. *)
Definition reading (pre : bytes) (p : list writer_op) (c : C) : Prop :=
  generator_wf False (user c)
  ∧ if g_producer_done (user c) then pre ++ output (user c) = built_text B_end
    else script_at p (self c) (pre ++ output (user c)).

Lemma loop_full fuel p (c : C) :
  zlen (g_out (user c)) = g_out_capacity (user c) →
  generator_loop script_producer (S fuel) p c = Some (LONEJSON_STATUS_OK, p, c).
Proof. intros H. cbn. by replace (g_out_capacity (user c) <=? zlen (g_out (user c))) with true by lia. Qed.

(** What a round does before it calls the producer. *)
Definition flushed (c : C) : C :=
  let c := on_generator lonejson__writer_generator_flush_pending c in
  if zlen (g_pending (user c)) =? 0 then on_generator (set_blocked false) c else c.

Lemma flushed_reading pre p c :
  reading pre p c →
  let c' := flushed c in
  reading pre p c' ∧ g_out_capacity (user c') = g_out_capacity (user c)
  ∧ g_producer_done (user c') = g_producer_done (user c)
  ∧ (g_pending (user c') ≠ [] → zlen (g_out (user c')) = g_out_capacity (user c'))
  ∧ (g_pending (user c') = [] → generator_inv False (user c')).
Proof.
  intros [Hwf Hat]. destruct (flush_taken False (user c) Hwf) as (Hwf' & Ht & Hb & Hc & Hd & Hp).
  unfold flushed. set (c1 := on_generator lonejson__writer_generator_flush_pending c).
  change (lonejson__writer_generator_flush_pending (user c)) with (user c1) in *.
  assert (reading pre p c1) as Hr.
  { split; [done|]. rewrite Hd. unfold output in *. by rewrite Ht. }
  destruct (zlen (g_pending (user c1)) =? 0) eqn:E.
  - apply zlen_zero in E. by split_and!.
  - split_and!; try done. intros Hn. by rewrite Hn in E.
Qed.

Lemma loop_round fuel p (c : C) :
  (g_out_capacity (user c) <=? zlen (g_out (user c))) = false →
  generator_loop script_producer (S fuel) p c =
  let c := flushed c in
  if negb (zlen (g_pending (user c)) =? 0) || (zlen (g_out (user c)) =? g_out_capacity (user c))
     || g_producer_done (user c)
  then Some (LONEJSON_STATUS_OK, p, c)
  else
    let '(status, p, c) := script_producer p c in
    if decide (status = LONEJSON_STATUS_TRUNCATED) then generator_loop script_producer fuel p c
    else if decide (status ≠ LONEJSON_STATUS_OK) then Some (status, p, c)
    else
      let '(status, c) := lonejson_writer_finish c in
      if decide (status ≠ LONEJSON_STATUS_OK) then Some (status, p, c)
      else generator_loop script_producer fuel p (on_generator set_producer_done c).
Proof.
  intros H. cbn [generator_loop]. rewrite H. fold (flushed c). cbv zeta.
  destruct (negb _ || _); [done|]. cbn [orb]. by destruct (g_producer_done _).
Qed.

(** A read that has ended. *)
Definition settled (c : C) : Prop :=
  zlen (g_out (user c)) = g_out_capacity (user c)
  ∨ g_producer_done (user c) = true ∧ g_pending (user c) = [].

Lemma loop_done fuel pre p c :
  reading pre p c → g_producer_done (user c) = true →
  ∃ c', generator_loop script_producer (S fuel) p c = Some (LONEJSON_STATUS_OK, p, c')
    ∧ reading pre p c' ∧ settled c' ∧ g_out_capacity (user c') = g_out_capacity (user c).
Proof.
  intros Hr Hd. destruct (g_out_capacity (user c) <=? zlen (g_out (user c))) eqn:E.
  - pose proof (proj1 (proj2 (proj1 Hr))). exists c. split; [apply loop_full; lia|]. split; [done|].
    split; [left; lia|done].
  - destruct (flushed_reading pre p c Hr) as (Hr' & Hc & Hd' & Hp & _). exists (flushed c).
    rewrite loop_round by done. cbv zeta. rewrite Hd', Hd, orb_true_r. split_and!; try done.
    destruct (decide (g_pending (user (flushed c)) = [])); [right|left; by apply Hp]. by rewrite Hd'.
Qed.

Context (v : json) (Hend : B_end = mk_built (Some v) [] No_scalar).

(** The script is done, and the document complete. *)
Lemma finish_script capacity pre (c : C) :
  script_at [] (self c) (pre ++ output (user c)) → inv_at capacity (user c) →
  let '(st, c') := lonejson_writer_finish c in
  st = LONEJSON_STATUS_OK ∧ user c' = user c ∧ pre ++ output (user c) = built_text B_end.
Proof using Hlimit Hend.
  intros (B & s & n & _ & _ & _ & _ & Hs & [= ->] & _ & [Hidle|[]]) Hinv.
  assert (stands gen_sink gen_blocked LONEJSON__WRITER_MODE_GENERATOR False
    (WriterSink0 := generator_writer_sink capacity False) limit pre B_end c) as Hst.
  { exists s. split; [done|]. split; [done|]. exact Hidle. }
  pose proof (finish_outcome gen_sink gen_blocked LONEJSON__WRITER_MODE_GENERATOR False limit Hlimit pre
    B_end c Hst) as H.
  destruct (lonejson_writer_finish c) as [st c']. destruct H as [Hu H].
  destruct (decide (st = LONEJSON_STATUS_OK)); [|by destruct H as [_ H]; destruct (H v)].
  split_and!; [done|done|]. by destruct Hidle as [_ Ho].
Qed.

(** Three rounds are enough. *)
Lemma loop_reads fuel pre p c :
  reading pre p c →
  ∃ p' c', generator_loop script_producer (S (S (S fuel))) p c = Some (LONEJSON_STATUS_OK, p', c')
    ∧ reading pre p' c' ∧ settled c' ∧ g_out_capacity (user c') = g_out_capacity (user c).
Proof using Hlimit Hend.
  intros Hr. destruct (g_producer_done (user c)) eqn:Hd.
  { destruct (loop_done (S (S fuel)) pre p c Hr Hd) as (c' & ?). by exists p, c'. }
  destruct (g_out_capacity (user c) <=? zlen (g_out (user c))) eqn:E.
  { pose proof (proj1 (proj2 (proj1 Hr))). exists p, c.
    split_and!; [apply loop_full; lia|done|left; lia|done]. }
  rewrite loop_round by done. cbv zeta. destruct (flushed_reading pre p c Hr) as (Hr1 & Hc & Hd1 & Hp & Hi).
  rewrite Hd1, Hd. set (c1 := flushed c) in *. destruct (zlen (g_pending (user c1)) =? 0) eqn:E0; cbn [negb orb].
  2:{ exists p, c1. split_and!; try done. left. apply Hp. intros Hn. by rewrite Hn in E0. }
  apply zlen_zero in E0. rewrite orb_false_r.
  destruct (zlen (g_out (user c1)) =? g_out_capacity (user c1)) eqn:E1.
  { exists p, c1. split_and!; try done. left. lia. }
  destruct Hr1 as [_ Hat]. rewrite Hd1, Hd in Hat.
  assert (inv_at (g_out_capacity (user c)) (user c1)) as Hinv by (split_and!; [by apply Hi|done|by rewrite Hd1]).
  pose proof (script_runs (g_out_capacity (user c)) pre p c1 Hat Hinv) as Hrun.
  destruct (script_producer p c1) as [[st p2] c2]. destruct Hrun as (Hinv2 & Hat2 & Hst).
  pose proof Hinv2 as ((Hwf2 & _) & Hc2 & Hd2). destruct Hst as [[-> ->]|[-> Hfull]].
  - destruct (decide (LONEJSON_STATUS_OK = LONEJSON_STATUS_TRUNCATED)) as [|_]; [done|].
    destruct (decide (LONEJSON_STATUS_OK ≠ LONEJSON_STATUS_OK)) as [Hx|_]; [by destruct Hx|].
    pose proof (finish_script (g_out_capacity (user c)) pre c2 Hat2 Hinv2) as Hfin.
    destruct (lonejson_writer_finish c2) as [st c3]. destruct Hfin as (-> & Hu & Htext).
    destruct (decide (LONEJSON_STATUS_OK ≠ LONEJSON_STATUS_OK)) as [Hx|_]; [by destruct Hx|].
    destruct (loop_done (S fuel) pre [] (on_generator set_producer_done c3)) as (c4 & H4 & Hr4 & Hs4 & Hc4).
    + split; cbn; rewrite Hu; [done|exact Htext].
    + done.
    + exists [], c4. split_and!; try done. by rewrite Hc4, <- Hc2, <- Hu.
  - rewrite decide_True by done. exists p2, c2. rewrite loop_full by congruence.
    split_and!; [done| |left; congruence|done]. split; [done|]. by rewrite Hd2.
Qed.

Lemma reading_prefix pre p c : reading pre p c → (pre ++ g_out (user c)) `prefix_of` built_text B_end.
Proof using Hlimit.
  intros [_ H]. transitivity (pre ++ output (user c)).
  { exists (waiting (user c)). unfold output. by rewrite app_assoc. }
  destruct (g_producer_done (user c)); [by rewrite H|by eapply script_prefix].
Qed.

(** One read. *)
Lemma read_step capacity pre p c :
  is_u64 capacity → reading pre p c →
  ∃ r p' c', lonejson__writer_generator_read script_producer 3 capacity p c = Some r
    ∧ read_status r = LONEJSON_STATUS_OK ∧ read_state r = (p', c')
    ∧ reading (pre ++ g_out (user c)) p' c' ∧ read_bytes r = g_out (user c')
    ∧ zlen (read_bytes r) ≤ capacity ∧ (zlen (read_bytes r) = capacity ∨ read_eof r = true)
    ∧ (read_eof r = true → (pre ++ g_out (user c)) ++ read_bytes r = built_text B_end).
Proof using Hlimit Hend.
  intros Hcap [Hwf Hat]. unfold lonejson__writer_generator_read.
  set (c0 := on_generator (set_out [] capacity) c).
  destruct (loop_reads 0 (pre ++ g_out (user c)) p c0) as (p' & c' & -> & Hr & Hs & Hc).
  { destruct Hwf as (Ha & Ho & Hu & Hoff & Hp). split.
    - unfold is_u64 in Hcap. split_and!; cbn; try done. change (zlen []) with 0. lia.
    - unfold output in *. cbn. change (waiting (set_out [] capacity (user c))) with (waiting (user c)).
      rewrite <- app_assoc. exact Hat. }
  rewrite decide_True by done. eexists _, p', c'. split; [done|]. cbn [read_status read_state read_bytes read_eof].
  change (g_out_capacity (user c0)) with capacity in Hc. pose proof Hr as [(_ & Hle & _) Hat'].
  split_and!; try done; [by rewrite <- Hc| |].
  - destruct Hs as [Hs|[Hd Hn]]; [left; congruence|right]. by rewrite Hd, Hn.
  - intros [Hd Hn]%andb_true_iff. apply zlen_zero in Hn. rewrite Hd in Hat'. unfold output, waiting in Hat'.
    by rewrite Hn, drop_nil, app_nil_r in Hat'.
Qed.
End script.

(** Reads with the buffers' capacities, until one fails; the bytes read, and
    whether the last read said end of file. *)
Fixpoint read_all (capacities : list Z) (p : list writer_op)
    (c : ctx_of lonejson_writer lonejson__writer_generator_state) (eof : bool) : option (bytes * bool) :=
  match capacities with
  | [] => Some ([], eof)
  | capacity :: rest =>
      r ← lonejson__writer_generator_read script_producer 3 capacity p c;
      if decide (read_status r = LONEJSON_STATUS_OK) then
        '(out, eof) ← read_all rest (fst (read_state r)) (snd (read_state r)) (read_eof r);
        Some (read_bytes r ++ out, eof)
      else None
  end.

Definition total : list Z → Z := foldr Z.add 0.

Lemma take_prefix {A} (l k : list A) n : l `prefix_of` k → zlen l = n → take (Z.to_nat n) k = l.
Proof. intros [m ->] <-. unfold zlen. by rewrite Nat2Z.id, take_app_length. Qed.

Lemma total_cons capacity rest : total (capacity :: rest) = capacity + total rest.
Proof. done. Qed.

Lemma total_nonneg capacities : Forall (λ k, 0 < k < 2 ^ 64) capacities → 0 ≤ total capacities.
Proof. induction 1 as [|k l Hk _ IH]; [done|]. rewrite total_cons. lia. Qed.

Lemma reads_text limit (Hlimit : 0 ≤ limit < SIZE_MAX) v capacities pre p c eof :
  let text := render false 0 v in
  let B_end := mk_built (Some v) [] No_scalar in
  let D := pre ++ g_out (user c) in
  Forall (λ k, 0 < k < 2 ^ 64) capacities → reading limit B_end pre p c → (eof = true → D = text) →
  ∃ out eof', read_all capacities p c eof = Some (out, eof')
    ∧ D ++ out = take (Z.to_nat (zlen D + total capacities)) text
    ∧ (eof' = true → D ++ out = text)
    ∧ (zlen text < zlen D + total capacities ∨ capacities = [] ∧ eof = true → eof' = true).
Proof.
  intros text B_end. revert pre p c eof. induction capacities as [|capacity rest IH];
    intros pre p c eof D Hcaps Hr Heof.
  - exists [], eof. pose proof (reading_prefix limit Hlimit B_end pre p c Hr) as Hpre.
    change (D `prefix_of` text) in Hpre. rewrite app_nil_r. cbn. rewrite Z.add_0_r.
    split_and!; [done|by rewrite (take_prefix D)|done|].
    intros [H|[_ H]]; [|done]. destruct Hpre as [k Hk]. rewrite Hk, zlen_app in H. pose proof (zlen_nonneg k). lia.
  - apply Forall_cons in Hcaps as [Hc Hcaps]. pose proof (total_nonneg rest Hcaps) as Ht.
    destruct (read_step limit Hlimit B_end v eq_refl capacity pre p c ltac:(unfold is_u64; lia) Hr)
      as (r & p' & c' & H1 & H2 & H3 & Hr' & H4 & Hle & Hfull & Hend).
    cbn [read_all]. rewrite H1. cbn [mbind option_bind]. rewrite decide_True, H3 by done. cbn [fst snd].
    rewrite total_cons.
    destruct (IH (pre ++ g_out (user c)) p' c' (read_eof r) Hcaps Hr') as (out & eof' & Hall & Hout & He1 & He2).
    { rewrite <- H4. exact Hend. }
    rewrite Hall. cbn [mbind option_bind]. exists (read_bytes r ++ out), eof'.
    rewrite <- H4 in Hout, He1, He2. fold D in Hout, He1, He2, Hend.
    rewrite <- app_assoc in Hout, He1. rewrite zlen_app in Hout, He2.
    assert (read_eof r = true → D ++ read_bytes r ++ out = text ∧ zlen D + zlen (read_bytes r) = zlen text) as Hdone.
    { intros H. specialize (Hend H). assert (zlen D + zlen (read_bytes r) = zlen text) as Hz.
      { rewrite <- zlen_app, Hend. done. }
      split; [|done]. rewrite Hout. apply firstn_all2. unfold zlen in *. lia. }
    split_and!; [done| |done|].
    + destruct Hfull as [<-|[Hd Hz]%Hdone]; [by rewrite Z.add_assoc|]. rewrite Hd, firstn_all2; [done|].
      unfold zlen in *. lia.
    + intros [H|[H _]]; [|done]. apply He2. destruct Hfull as [Hf|Hf]; [left; lia|].
      destruct rest as [|k rest]; [by right|left]. destruct (Hdone Hf) as [_ ->].
      apply Forall_cons in Hcaps as [Hk Hcaps]. rewrite total_cons. pose proof (total_nonneg rest Hcaps). lia.
Qed.

(** ** Properties *)

(** C9: pulling a document.  A producer follows the documented protocol over a
    script of legal calls that writes the value [v], with allocators that do not
    fail.  Then every read returns (its loop needs at most three rounds) with [OK];
    reads into buffers of any sizes, one byte included, yield the text of [v] from
    the start, without a gap, a repetition or a byte too many; the end of file is
    reported only when everything has been delivered, and is reported once the
    buffers together are larger than the text. *)
Theorem generator_reads_document limit a a' v ops capacities e :
  let text := render false 0 v in
  let c := mk_ctx (lonejson__writer_init LONEJSON__WRITER_MODE_GENERATOR a limit) (writer_generator_start a') e in
  0 ≤ limit < SIZE_MAX → never_fails a → never_fails a' → zlen ops < 2 ^ 60 →
  apply_ops ops built_empty = Some (mk_built (Some v) [] No_scalar) → within limit ops built_empty →
  Forall (λ k, 0 < k < 2 ^ 64) capacities →
  ∃ out eof, read_all capacities ops c false = Some (out, eof)
    ∧ out = take (Z.to_nat (total capacities)) text
    ∧ (eof = true → out = text)
    ∧ (zlen text < total capacities → eof = true).
Proof.
  intros text c Hl Ha Ha' Hlen Happ Hw Hcaps.
  destruct (reads_text limit Hl v capacities [] ops c false Hcaps) as (out & eof & H1 & H2 & H3 & H4).
  - split; [by split_and!; try left|]. cbn.
    eexists built_empty, _, 0. split; [by apply built_empty_ok|]. split; [by split|]. split; [done|].
    split; [lia|]. split; [done|]. split; [done|]. split; [done|]. left. split; [|done].
    exists buffer_empty. split; [|done]. constructor; [done|by left|apply buffer_empty_wf].
  - done.
  - cbn in H2, H4. exists out, eof. split_and!; auto.
Qed.

(** A script, its text, and reads of various sizes. *)
Lemma generator_reads_document_witness :
  let ops := events 4096 demo_doc in
  let c := mk_ctx (lonejson__writer_init LONEJSON__WRITER_MODE_GENERATOR fresh_allocator 256)
             (writer_generator_start fresh_allocator) (Some error_zero) in
  ∃ out eof, read_all [1; 7; 2; 300] ops c false = Some (out, eof) ∧ eof = true.
Proof.
  destruct (generator_reads_document 256 fresh_allocator fresh_allocator (json_of demo_doc)
    (events 4096 demo_doc) [1; 7; 2; 300] (Some error_zero)) as (out & eof & H & _ & _ & Heof).
  - split; [discriminate|reflexivity].
  - exact fresh_never_fails.
  - exact fresh_never_fails.
  - reflexivity.
  - vm_compute. reflexivity.
  - apply within_pieces. apply events_all; done || exact demo_doc_ok.
  - apply (bool_decide_unpack _). vm_compute. exact I.
  - exists out, eof. split; [exact H|]. apply Heof. vm_compute. reflexivity.
Defined.
